(* ===== verification/_CoqProject ===== *)
-Q . S2P
Prelude.v
Word.v
Fragment.v
Reliable.v
ReliableFacts.v
ReliableChannel.v
Unreliable.v
UnreliableChannel.v
Crc.v
Frame.v
Serial.v
SerialFacts.v
FrameFacts.v
SegmentTx.v
SegmentTxFacts.v
DropDetection.v
SegmentRx.v
SegmentRxFacts.v
SegmentChannel.v
SegmentRxSafety.v
CongestionControl.v
Prio.v
TimerQueue.v
Float32.v
Endpoint.v
FragmentTxFacts.v
EndpointFacts.v
EndpointSafety.v
EndpointMachine.v
EndpointTimer.v
HostIndependence.v
EndpointSession.v
StreamHalf.v
StreamReceive.v
StreamSend.v
StreamCalls.v
Duplex.v
Handshake.v
World.v
EndpointTimeout.v
Client.v
ClientFacts.v
ClientSession.v
HandshakeMac.v
Peer.v
Server.v
ServerFacts.v
ServerTimers.v
ServerHandshake.v
ServerSession.v
ServerClaims.v
Sides.v
ClientSide.v
ServerSide.v
System.v
Connection.v
Testing.v
BufferTests.v
EndpointTests.v
SegmentTests.v
SegmentTxTests.v
FrameTests.v
UnitTests.v
Socket.v
SocketLoop.v
SimOs.v
Outbox.v
ServerProgress.v
ClientSocket.v
ServerSocket.v
Demos.v
