(* ===== verification/Prelude.v ===== *)
(** * Redpine: a verification library for the redpine-rs protocol engine

    Redpine ([src/src/]) is a connection-oriented messaging protocol over UDP.  A client
    authenticates itself in a four-frame handshake; after that the two ends run the same
    [Endpoint], which fragments packets, queues the fragments in a reliable and an unreliable
    buffer, fills segments with them, sends the segments under a window and under congestion
    control, and reassembles, acknowledges and delivers on the other side.  This library
    models the crate, its modules' unit tests and its example programs over a parametric
    operating system, and proves it correct from the checksum up to two applications exchanging packets
    over a hostile network.

    ** How the parts interact

    An application calls [Client] or [Server].  A client owns one endpoint, a server one per
    [Peer]; an endpoint reaches its owner through the [HostContext] interface (send a frame,
    set a timer, signal an event).  An endpoint owns a [FragmentTxBuffers] (both send buffers
    and the channel priorities [Prio]), a [SegmentTx] and a [SegmentRx], the two receive
    buffers, [AimdReno] and a round-trip estimator.  Outgoing: [enqueue] -> [push] ->
    [ftx_flush] -> [write_segment] -> [FrameWriter].  Incoming: [verify_crc] ->
    [PayloadReader] -> [SegmentRx.receive] -> [ReliableRxBuffer.receive] or
    [UnreliableRxBuffer.receive] -> [on_receive].

    ** Files

    Foundations.
    - [Prelude]: outcomes, the outcome monad, tactics, hints, list lemmas.
    - [Word]: u8 .. u64 as [Z] with wrap-around, checked arithmetic per build profile.
    - [Float32]: the [f32] operations of the round-trip estimator.

    Buffers ([src/src/buffer/]).
    - [Fragment] (buffer/mod.rs): windows, fragments and the fragmentation loop.
    - [Reliable], [ReliableFacts], [ReliableChannel] (buffer/reliable.rs): the buffers, their
      refinement of the abstract [SendWindow], and the channel made of both and a network.
    - [Unreliable], [UnreliableChannel] (buffer/unreliable.rs): the same for the other mode.

    Frames ([src/src/frame/]).
    - [Crc] (frame/serial/crc.rs): the checksum, its reference definition, its strength.
    - [Frame] (frame/mod.rs): the frame types and structures.
    - [Serial], [SerialFacts], [FrameFacts] (frame/serial/mod.rs): raw readers and writers,
      the codec classes [BlockSerialOk] and [SerialOk] with an instance per structure, whole
      frames.

    The endpoint ([src/src/endpoint/], timer_queue.rs).
    - [SegmentTx], [SegmentTxFacts], [DropDetection] (endpoint/segment_tx.rs).
    - [SegmentRx], [SegmentRxFacts], [SegmentChannel], [SegmentRxSafety]
      (endpoint/segment_rx.rs).
    - [CongestionControl] (endpoint/cc.rs), [Prio] (endpoint/prio.rs), [TimerQueue]
      (timer_queue.rs).
    - [Endpoint] (endpoint/mod.rs): the state machine, operation by operation, against the
      class [HostContext]; [FragmentTxFacts], [EndpointFacts], [EndpointSafety]: its
      invariant [ep_inv] under arbitrary input; [EndpointMachine]: its life as a step relation
      [transition]; [EndpointTimer]: its timer runs exactly while a segment is in flight;
      [HostIndependence]: an endpoint depends on its host only through the bits it draws;
      [EndpointSession]: everything an endpoint can reach; [EndpointTimeout]: how an endpoint
      ends when its peer is silent.

    Client and server.
    - [World] (server/epoch.rs, [ErrorKind] of lib.rs): clock and random numbers.
    - [Handshake]: the four frames of the handshake as both sides see them.
    - [Client], [ClientFacts], [ClientSession] (client.rs).
    - [HandshakeMac] (server/handshake_mac.rs), [Peer] (server/peer.rs), [Server]
      (server/mod.rs); [ServerFacts], [ServerTimers], [ServerHandshake], [ServerSession]:
      the invariant of the server through all its operations; [ServerClaims]: its theorems;
      [ServerProgress]: its timers fire in their turn.

    Compositions.
    - [StreamHalf], [StreamReceive], [StreamSend], [StreamCalls]: what every call of an
      endpoint does to the streams of fragments and segments.
    - [Duplex]: two endpoints and a network between them are a reliable and an unreliable
      channel in each direction.
    - [Sides], [ClientSide], [ServerSide]: the endpoint in a client, and the one behind a
      reference of a server, are sides of a [Duplex] connection, request by request.
    - [System]: a client and a server over whole runs.
    - [Connection]: a client and a server establish a connection.

    Sockets.
    - [Socket] (socket.rs): both kinds of sockets over the class [Os] of systems, whose laws
      are [OsOk] and [OsLog]; [SimOs]: a concrete system.
    - [Outbox]: no step of a client or of a server takes back a frame it has sent.
    - [SocketLoop]: the reading loops over any [FrameSource], reduced to lists of frames.
    - [ClientSocket] (client.rs) and [ServerSocket] (server/mod.rs, server/peer.rs): [Client]
      and [Server] over a system, and their agreement with [Client.v] and [Server.v].
    - [Demos] (bin/): the example programs.

    Unit tests.
    - [Testing]: assertions, loops and random draws; [BufferTests], [SegmentTests],
      [SegmentTxTests], [EndpointTests], [FrameTests]: the test functions of each [mod tests],
      with a proof that each passes; [UnitTests]: the suite.

    ** What the theorems show

    - Totality.  No input whatever from the network makes a call of an endpoint, a client or a
      server panic, overflow or index outside a buffer, and no use by an application does
      either, except that in a debug build it may not send an empty packet; and calls return
      over any finite lists of frames ([endpoint_total], [client_total], [server_total]).  The
      exception is real: the same theorems show an empty packet to panic.  So is the
      finiteness: over a socket the reading loops run as long as datagrams keep coming
      ([flood_starves]).  Both build profiles are covered: with overflow checks and debug
      assertions, and without.
    - End to end.  A client that meets a server with room is admitted
      ([connection_established]), and from then on what one application gives the connection
      is what the other receives, in order, at most once, the reliable packets without gaps
      ([system_end_to_end]).  Below that, two endpoints over a network that loses, repeats, delays
      and reorders frames refine abstract channels ([connection_refines]), so packets arrive
      intact ([end_to_end]); the abstract channels have [delivered_prefix], [no_unreceived_discarded],
      [delivery_possible] and [unreliable_delivered_sublist].
    - Sessions.  The application sees at most one Connect, then packets, then one end
      ([endpoint_session], [client_session], [server_sessions]), and an active endpoint's
      timer is set exactly while a segment is in flight ([endpoint_session]); data goes out as
      soon as the windows allow ([flush_discipline]); a handshake gives up at its deadline
      ([handshake_progress]); an endpoint that has a segment in flight or is closing gives up a
      silent peer within its timeout and a minute, and an active one with nothing in flight has
      no timer to do so ([silent_peer_given_up]); every timer of a server fires in its turn
      ([timers_fire_in_turn]).
    - Security.  Admission needs an authentic and recent request ([admission]); strangers
      leave no state and get no more than they sent ([stranger_costs_nothing]); the peer table
      is exact and bounded ([peer_table_exact]).
    - Wire format.  Frames sent are frames accepted ([endpoint_frames_valid],
      [client_frames_valid]); what was written reads back ([segment_frame_roundtrip],
      [simple_frame_roundtrip]); arbitrary bytes are inspected safely
      ([frame_inspection_total]); corruption is detected ([frame_corruption_detected]).
    - Components.  Refinement of the send window ([tx_refines]) and of the segment receiver
      ([segment_rx_delivery], [segment_rx_acks]); accounting of the segment sender; drop
      detection; congestion control; weighted fairness of the channels, for datagrams no
      larger than the burst; the timer queue.
    - Sockets.  Over any system whose receive calls write octets into the buffer they are
      given, a call of a client or of a server that returns does what it does over lists of
      frames, and the system is asked to send exactly the frames of that run, so that all of
      the above holds of programs with sockets; a call that does not return is one during
      which the socket keeps yielding frames ([socket_client_refines],
      [socket_server_refines]).
    - Tests.  The unit tests of the crate's modules pass in both build profiles whatever they
      draw at random ([unit_tests_pass]); the model agrees with what the authors check of the
      code.
    - Defects.  Each suspected fault of the code is a theorem about the model, such as
      [reliable_delivery_stalls], [sync_ignored_when_empty] and [flood_starves].

    ** Modelling choices

    - A computation returns [Ok], or [Fault] with what went wrong: a panic, an access outside
      a buffer, or exhausted fuel.  Every fuel but the [reads] of the sockets (below) is shown
      to suffice by the totality theorems:
      [push_fuel] is the length of the packet plus one; [ftx_flush] takes at most one datagram
      per byte of the frame buffer; [flush_fuel] is [SEGMENT_WINDOW_SIZE + 2], since every
      round but the last sends a segment and an acknowledgement goes out at most once;
      [receive_datagrams] takes the length of the segment plus one, since a datagram has a
      header; [deliver_buffered] takes three rounds for the two slots of the reorder buffer.
    - [BuildProfile] says whether overflow checks and debug assertions are on.
    - In [Client.v] and [Server.v] sockets are lists of frames: those handed out so far are
      part of the state, those that arrive an argument.  [ClientSocket] and [ServerSocket]
      run the same methods over a system: the frames that a step of the core has added to its
      list go to the system when the step is over.  The reading loops are followed for a
      number of [reads]: no number is enough for every system, since datagrams arrive while
      the loops run, so the theorems hold for each number, tell a call that was cut short from
      one that returned, and show that more reads change nothing of the latter.  Blocking
      calls are followed for a number of [turns] and may still wait after them.  A read error
      ends the reading loops as an empty socket does.
    - A received datagram is cut to the receive buffer, and an error is [WouldBlock] or
      another: this is all the code looks at.
    - Clock and random numbers are a [World] that fixes every future reading and draw;
      theorems hold for all of them whose clock does not run backwards and stays below
      [TIME_MAX].
    - SipHash is a class of which only the width of the result is used; an instance shows that
      the server theorems are not vacuous.
    - A shared reference to a peer is a number into a store, so that all its holders see the
      same peer; the handles the application holds are part of the server's state, because
      they decide which weak references of the timer queue can be upgraded.
    - The data of [Arc<[u8]>] is immutable: a fragment carries its packet.
    - The delivery callback of [SegmentRx] is the list of segments handed over in order.
    - Ids are 32-bit and come round: the theorems about a channel bound the fragments of each
      mode by 2^32, and those about a connection the segments by 2^32 less one window
      ([ids_bounded], [traffic_bounded]).
    - Frames carry nothing that tells one connection between two addresses from the next, so
      [system_end_to_end] is about a client that is the only one ever admitted from its
      address ([alone]).

    ** Not modelled

    - The operating system's sockets and the [polling] crate, which are not part of the
      repository: they are the class [Os].  Resolving host names ([ToSocketAddrs]) is left out:
      addresses are given resolved.
    - The seven integration tests of src/tests, which use threads and real sockets.
    - Tests that are commented out in the source ([reassembly] in buffer/reliable.rs, [main]
      in frame/serial/crc.rs), and the formatting of what the examples print.
    - Derived and formatting instances: [Debug], [Clone] and the like.
    - Concurrency: a [PeerHandle] may be used from other threads.  Every method holds the lock
      of its peer throughout, and the model runs methods one after another; lock poisoning
      and interleavings inside a server call are left out.

    ** Plan

    Progress of a whole connection under a fair network; acknowledgements of an honest peer
    through whole connections; more than one connection in turn from one address. *)

From Stdlib Require Export ZArith Lia Bool.
From stdpp Require Export base tactics list numbers option relations.

#[global] Open Scope Z_scope.

(** ** Outcomes

    A Rust computation of this crate returns, panics, or (in the [unsafe]
    serialisation code) would touch memory outside its buffer.  A loop of the
    source is a fuelled [Fixpoint] here; running out of fuel is its own fault so
    that a fault-freedom theorem is also a termination theorem. *)
Inductive fault : Set :=
| Panicked
| OutOfBounds
| OutOfFuel.

Inductive outcome (A : Type) : Type :=
| Ok (a : A)
| Fault (f : fault).
Arguments Ok {A} _.
Arguments Fault {A} _.

#[export] Instance fault_eq_dec : EqDecision fault.
Proof. solve_decision. Defined.

#[export] Instance outcome_ret : MRet outcome := fun A a => Ok a.
#[export] Instance outcome_bind : MBind outcome :=
  fun A B k m => match m with Ok a => k a | Fault f => Fault f end.
#[export] Instance outcome_fmap : FMap outcome :=
  fun A B f m => match m with Ok a => Ok (f a) | Fault e => Fault e end.

(** [assert!(b)]: checked in every build profile. *)
Definition assert_ (b : bool) : outcome () :=
  if b then Ok () else Fault Panicked.

(** The build profile.  [debug_assert!] and arithmetic overflow checks are active
    exactly when [debug_assertions] holds (the dev and test profiles); in the
    release profile an overflowing operation wraps. *)
Class BuildProfile := debug_assertions : bool.

Definition debug_assert `{BuildProfile} (b : bool) : outcome () :=
  if debug_assertions && negb b then Fault Panicked else Ok ().

Lemma assert_true (b : bool) : b = true -> assert_ b = Ok ().
Proof. by intros ->. Qed.

Lemma debug_assert_true `{BuildProfile} (b : bool) : b = true -> debug_assert b = Ok ().
Proof. intros ->. unfold debug_assert. by rewrite andb_false_r. Qed.

Lemma outcome_bind_Ok {A B} (m : outcome A) (k : A -> outcome B) (b : B) :
  (m ≫= k) = Ok b <-> exists a, m = Ok a /\ k a = Ok b.
Proof.
  destruct m as [a|f]; cbn; split.
  - intros Hk. by exists a.
  - intros (a' & [= ->] & Hk). done.
  - done.
  - by intros (a & [=] & _).
Qed.

Lemma outcome_bind_assoc {A B C} (m : outcome A) (k : A -> outcome B) (h : B -> outcome C) :
  ((m ≫= k) ≫= h) = (m ≫= fun a => k a ≫= h).
Proof. by destruct m. Qed.

Lemma outcome_fmap_bind {A B C} (m : outcome A) (k : A -> outcome B) (f : B -> C) :
  f <$> (m ≫= k) = (m ≫= fun a => f <$> k a).
Proof. by destruct m. Qed.

(** ** What holds of a result, if there is one *)

Definition holds {A} (P : A -> Prop) (r : outcome A) : Prop := match r with Ok a => P a | Fault _ => True end.

Lemma holds_bind {A B} (Q : A -> Prop) (P : B -> Prop) (m : outcome A) (k : A -> outcome B) :
  holds Q m -> (forall a, Q a -> holds P (k a)) -> holds P (m ≫= k).
Proof. destruct m; cbn; auto. Qed.

Lemma holds_any {A B} (P : B -> Prop) (m : outcome A) (k : A -> outcome B) :
  (forall a, holds P (k a)) -> holds P (m ≫= k).
Proof. destruct m; cbn; auto. Qed.

Lemma holds_impl {A} (P Q : A -> Prop) (r : outcome A) : holds P r -> (forall a, P a -> Q a) -> holds Q r.
Proof. destruct r; cbn; auto. Qed.

Lemma holds_Ok {A} (P : A -> Prop) r a : holds P r -> r = Ok a -> P a.
Proof. by intros H ->. Qed.

(** ** More fuel *)

(** What [r] returns, [r'] returns. *)
Definition settles {A} (r r' : outcome A) : Prop := forall a, r = Ok a -> r' = Ok a.

Lemma settles_refl {A} (r : outcome A) : settles r r.
Proof. by intros a. Qed.

Lemma settles_fault {A} f (r : outcome A) : settles (Fault f) r.
Proof. by intros a. Qed.

Lemma settles_bind {A B} (m m' : outcome A) (k k' : A -> outcome B) :
  settles m m' -> (forall a, settles (k a) (k' a)) -> settles (m ≫= k) (m' ≫= k').
Proof. intros Hm Hk b (a & Ha & Hb)%outcome_bind_Ok. rewrite (Hm a Ha). by apply Hk. Qed.

Lemma settles_fmap {A B} (f : A -> B) (m m' : outcome A) : settles m m' -> settles (f <$> m) (f <$> m').
Proof. intros Hm b. destruct m as [a|e]; [|done]. by rewrite (Hm a eq_refl). Qed.

#[export] Hint Resolve settles_refl settles_fault settles_fmap : core.

(** ** Lists *)

(** [slice i j l] is [&l[i..j]] for [i <= j <= l.len()]. *)
Definition slice {A} (i j : Z) (l : list A) : list A :=
  take (Z.to_nat (j - i)) (drop (Z.to_nat i) l).

Definition zlen {A} (l : list A) : Z := Z.of_nat (length l).

Lemma zlen_nonneg {A} (l : list A) : 0 <= zlen l.
Proof. unfold zlen. lia. Qed.

Lemma zlen_app {A} (l k : list A) : zlen (l ++ k) = zlen l + zlen k.
Proof. unfold zlen. rewrite length_app. lia. Qed.

Lemma zlen_nil {A} : zlen (@nil A) = 0.
Proof. done. Qed.

Lemma zlen_cons {A} (x : A) l : zlen (x :: l) = 1 + zlen l.
Proof. unfold zlen. cbn [length]. lia. Qed.

Lemma zlen_take {A} (l : list A) n : 0 <= n <= zlen l -> zlen (take (Z.to_nat n) l) = n.
Proof. unfold zlen. rewrite length_take. lia. Qed.

Lemma zlen_drop {A} (l : list A) n : 0 <= n <= zlen l -> zlen (drop (Z.to_nat n) l) = zlen l - n.
Proof. unfold zlen. rewrite length_drop. lia. Qed.

Lemma slice_full {A} (l : list A) : slice 0 (zlen l) l = l.
Proof.
  unfold slice, zlen. rewrite Z.sub_0_r, Nat2Z.id. cbn. apply take_ge. lia.
Qed.

Lemma slice_length {A} i j (l : list A) :
  0 <= i <= j -> j <= zlen l -> zlen (slice i j l) = j - i.
Proof.
  intros Hij Hj. unfold slice, zlen in *. rewrite length_take, length_drop. lia.
Qed.

Lemma slice_to_end {A} i (l : list A) : 0 <= i <= zlen l -> slice i (zlen l) l = drop (Z.to_nat i) l.
Proof.
  intros Hi. unfold slice, zlen in *. apply take_ge. rewrite length_drop. lia.
Qed.

Create Rewrite HintDb zlen.
#[export] Hint Rewrite @zlen_app @zlen_nil @zlen_cons : zlen.
#[export] Hint Resolve zlen_nonneg : core.

(** ** Tactics *)

(** Case analysis on the boolean tests of the goal or of a hypothesis, with the
    arithmetic content of each test put in the context. *)
Ltac reflect_bool :=
  repeat match goal with
  | H : (_ <? _) = true |- _ => apply Z.ltb_lt in H
  | H : (_ <? _) = false |- _ => apply Z.ltb_ge in H
  | H : (_ <=? _) = true |- _ => apply Z.leb_le in H
  | H : (_ <=? _) = false |- _ => apply Z.leb_gt in H
  | H : (_ =? _) = true |- _ => apply Z.eqb_eq in H
  | H : (_ =? _) = false |- _ => apply Z.eqb_neq in H
  | H : (_ && _)%bool = true |- _ => apply andb_true_iff in H as [? ?]
  | H : (_ || _)%bool = false |- _ => apply orb_false_iff in H as [? ?]
  | H : negb _ = true |- _ => apply negb_true_iff in H
  | H : negb _ = false |- _ => apply negb_false_iff in H
  end.

Ltac case_bool :=
  match goal with
  | |- context [if ?b then _ else _] => let E := fresh "E" in destruct b eqn:E; reflect_bool
  | H : context [if ?b then _ else _] |- _ => let E := fresh "E" in destruct b eqn:E; reflect_bool
  end.

(** Inversion of a successful monadic computation in a hypothesis. *)
Ltac inv_ok :=
  repeat match goal with
  | H : Ok _ = Ok _ |- _ => injection H as H; try subst
  | H : Fault _ = Ok _ |- _ => discriminate H
  | H : (_ ≫= _) = Ok _ |- _ => apply outcome_bind_Ok in H as (? & ? & H)
  end.

(** ** Interleavings *)

(** [m] is an interleaving of [l] and [k]. *)
Inductive interleaves {A : Type} : list A -> list A -> list A -> Prop :=
| il_nil : interleaves [] [] []
| il_left x l k m : interleaves l k m -> interleaves (x :: l) k (x :: m)
| il_right x l k m : interleaves l k m -> interleaves l (x :: k) (x :: m).

Lemma interleaves_app {A} (l k m l' k' m' : list A) :
  interleaves l k m -> interleaves l' k' m' -> interleaves (l ++ l') (k ++ k') (m ++ m').
Proof. induction 1; cbn; [done|..]; intros; constructor; auto. Qed.

Lemma interleaves_left {A} (l : list A) : interleaves l [] l.
Proof. induction l; by constructor. Qed.

Lemma interleaves_right {A} (l : list A) : interleaves [] l l.
Proof. induction l; by constructor. Qed.
