(* ===== verification/Word.v ===== *)
(** * Machine integers

    [u8], [u16], [u32] and [u64] are [Z] with the range written out; the
    [wrapping_*] operations of the source reduce modulo the width, and the plain
    operators [+], [-], [*] are checked according to the build profile.  [usize] is
    the 64-bit one. *)

From S2P Require Import Prelude.

Declare Scope word_scope.
Delimit Scope word_scope with word.

Definition two8 : Z := 256.
Definition two16 : Z := 65536.
Definition two32 : Z := 4294967296.
Definition two64 : Z := 18446744073709551616.

Definition U16_MAX : Z := 65535.
Definition U32_MAX : Z := 4294967295.
Definition U64_MAX : Z := 18446744073709551615.

Definition is_u8 (x : Z) : Prop := 0 <= x < two8.
Definition is_u16 (x : Z) : Prop := 0 <= x < two16.
Definition is_u32 (x : Z) : Prop := 0 <= x < two32.
Definition is_u64 (x : Z) : Prop := 0 <= x < two64.

Definition wrap32 (x : Z) : Z := x mod two32.
Definition wrapping_add (a b : Z) : Z := wrap32 (a + b).
Definition wrapping_sub (a b : Z) : Z := wrap32 (a - b).

Notation "a +w b" := (wrapping_add a b) (at level 50, left associativity) : word_scope.
Notation "a -w b" := (wrapping_sub a b) (at level 50, left associativity) : word_scope.

(** Checked arithmetic: [checked m r] is the result [r] of a plain operator on an
    unsigned type of modulus [m]. *)
Section Checked.
Context `{BuildProfile}.

Definition checked (m r : Z) : outcome Z :=
  if (0 <=? r) && (r <? m) then Ok r
  else if debug_assertions then Fault Panicked else Ok (r mod m).

Definition add32 (a b : Z) : outcome Z := checked two32 (a + b).
Definition mul32 (a b : Z) : outcome Z := checked two32 (a * b).
Definition add64 (a b : Z) : outcome Z := checked two64 (a + b).
(** A difference of two [u64]s only ever underflows. *)
Definition sub64 (a b : Z) : outcome Z :=
  if b <=? a then Ok (a - b) else if debug_assertions then Fault Panicked else Ok ((a - b) mod two64).
Definition mul64 (a b : Z) : outcome Z := checked two64 (a * b).

Definition sub32 (a b : Z) : outcome Z :=
  if b <=? a then Ok (a - b) else if debug_assertions then Fault Panicked else Ok ((a - b) mod two32).

(** Shifts: an amount of the width or more overflows; in release it is masked. *)
Definition shift_amount (width n : Z) : outcome Z :=
  if (0 <=? n) && (n <? width) then Ok n
  else if debug_assertions then Fault Panicked else Ok (n mod width).
Definition shl32 (x n : Z) : outcome Z := n ← shift_amount 32 n; Ok (Z.shiftl x n mod two32).
Definition shr32 (x n : Z) : outcome Z := n ← shift_amount 32 n; Ok (Z.shiftr x n).
Definition shl64 (x n : Z) : outcome Z := n ← shift_amount 64 n; Ok (Z.shiftl x n mod two64).
Definition shr64 (x n : Z) : outcome Z := n ← shift_amount 64 n; Ok (Z.shiftr x n).

Lemma sub32_ok a b : b <= a -> sub32 a b = Ok (a - b).
Proof. intros Hb. unfold sub32. by replace (b <=? a) with true by (symmetry; by apply Z.leb_le). Qed.

Lemma shift_amount_ok w n : 0 <= n < w -> shift_amount w n = Ok n.
Proof.
  intros Hn. unfold shift_amount.
  by replace ((0 <=? n) && (n <? w)) with true
    by (symmetry; apply andb_true_iff; split; [apply Z.leb_le | apply Z.ltb_lt]; lia).
Qed.

Lemma checked_ok m r : 0 <= r < m -> checked m r = Ok r.
Proof.
  unfold checked. intros Hr.
  by replace ((0 <=? r) && (r <? m)) with true
    by (symmetry; apply andb_true_iff; split; [apply Z.leb_le | apply Z.ltb_lt]; lia).
Qed.

Lemma add32_ok a b : 0 <= a + b < two32 -> add32 a b = Ok (a + b).
Proof. apply checked_ok. Qed.
Lemma mul32_ok a b : 0 <= a * b < two32 -> mul32 a b = Ok (a * b).
Proof. apply checked_ok. Qed.
Lemma add64_ok a b : 0 <= a + b < two64 -> add64 a b = Ok (a + b).
Proof. apply checked_ok. Qed.
Lemma sub64_ok a b : b <= a -> sub64 a b = Ok (a - b).
Proof. intros Hb. unfold sub64. by replace (b <=? a) with true by (symmetry; by apply Z.leb_le). Qed.
Lemma mul64_ok a b : 0 <= a * b < two64 -> mul64 a b = Ok (a * b).
Proof. apply checked_ok. Qed.
End Checked.

(** [wrapping_shl] and [wrapping_shr] on [u32] mask the amount. *)
Definition wrapping_shl32 (x n : Z) : Z := Z.shiftl x (n mod 32) mod two32.
Definition wrapping_shr32 (x n : Z) : Z := Z.shiftr x (n mod 32).

(** [u32::leading_ones] and [u32::count_ones]. *)
Fixpoint leading_ones_from (n : nat) (x : Z) : Z :=
  match n with
  | O => 0
  | S n => if Z.testbit x (Z.of_nat n) then 1 + leading_ones_from n x else 0
  end.
Definition leading_ones32 (x : Z) : Z := leading_ones_from 32 x.

Fixpoint count_ones_from (n : nat) (x : Z) : Z :=
  match n with
  | O => 0
  | S n => Z.b2z (Z.testbit x (Z.of_nat n)) + count_ones_from n x
  end.
Definition count_ones32 (x : Z) : Z := count_ones_from 32 x.

Definition saturating_add64 (a b : Z) : Z := Z.min (a + b) U64_MAX.
Definition saturating_sub (a b : Z) : Z := Z.max (a - b) 0.

(** [word] proves linear facts about wrapped [u32] arithmetic. *)
Ltac word :=
  unfold wrapping_add, wrapping_sub, wrap32, is_u8, is_u16, is_u32, is_u64,
    two8, two16, two32, two64, U16_MAX, U32_MAX, U64_MAX in *;
  Z.div_mod_to_equations; lia.

Lemma wrap32_range x : is_u32 (wrap32 x).
Proof. word. Qed.

Lemma wrapping_add_range a b : is_u32 (wrapping_add a b).
Proof. apply wrap32_range. Qed.

Lemma wrapping_sub_range a b : is_u32 (wrapping_sub a b).
Proof. apply wrap32_range. Qed.

Lemma wrap32_small x : is_u32 x -> wrap32 x = x.
Proof. word. Qed.

Lemma wrap32_idemp x : wrap32 (wrap32 x) = wrap32 x.
Proof. apply wrap32_small, wrap32_range. Qed.

Lemma wrap32_add_l a b : wrap32 (wrap32 a + b) = wrap32 (a + b).
Proof. unfold wrap32. apply Zplus_mod_idemp_l. Qed.

Lemma wrap32_sub_l a b : wrap32 (wrap32 a - b) = wrap32 (a - b).
Proof. unfold wrap32. apply Zminus_mod_idemp_l. Qed.

Lemma wrap32_sub_r a b : wrap32 (a - wrap32 b) = wrap32 (a - b).
Proof. unfold wrap32. apply Zminus_mod_idemp_r. Qed.

(** Sequence numbers: the id [wrap32 (s + i)] names position [i] of a stream that
    started at [s].  Two positions less than [2^32] apart are told apart, and the
    wrapped difference of their ids is their distance. *)
Lemma wrapping_sub_pos s i j :
  0 <= i - j < two32 -> wrapping_sub (wrap32 (s + i)) (wrap32 (s + j)) = i - j.
Proof.
  intros Hij. unfold wrapping_sub. rewrite wrap32_sub_l, wrap32_sub_r.
  replace (s + i - (s + j)) with (i - j) by lia. by apply wrap32_small.
Qed.

Lemma wrapping_add_pos s i d : wrapping_add (wrap32 (s + i)) d = wrap32 (s + (i + d)).
Proof. unfold wrapping_add. rewrite wrap32_add_l. f_equal. lia. Qed.

Lemma wrap32_pos_inj s i j :
  Z.abs (i - j) < two32 -> wrap32 (s + i) = wrap32 (s + j) -> i = j.
Proof. intros. word. Qed.

Create HintDb word.
#[export] Hint Resolve wrap32_range wrapping_add_range wrapping_sub_range : word.
