(* ===== verification/Fragment.v ===== *)
(** * Fragments and windows (src/src/buffer/mod.rs)

    The sliding [Window] of ids, the two fragment types, and the fragmentation loop
    that both transmit buffers run in their [push].  [fragment_packet] is the
    reference definition of fragmentation: the [k]-th fragment of a packet covers
    bytes [k * size .. min ((k + 1) * size) len]; [push_loop_spec] shows that the
    loop of the source computes it for every packet and fragment size. *)

From S2P Require Import Prelude.
From S2P Require Import Word.

Module Window.
Record Window : Set := mkWindow { base_id : Z; size : Z }.

Definition new (base_id size : Z) : Window := mkWindow base_id size.

Definition contains (w : Window) (id : Z) : bool :=
  let delta := wrapping_sub id (base_id w) in
  delta <? size w.
End Window.

(** A fragment that shares its packet's bytes ([Arc<Box<[u8]>>]; the bytes are
    immutable, so sharing is unobservable) and selects a range of them. *)
Record FragmentRc : Set := mkFragmentRc {
  rc_first : bool;
  rc_last : bool;
  rc_data : list Z;
  rc_data_range : Z * Z
}.

Record FragmentRef : Set := mkFragmentRef {
  fr_first : bool;
  fr_last : bool;
  fr_data : list Z
}.

#[export] Instance fragment_rc_eq_dec : EqDecision FragmentRc.
Proof. solve_decision. Defined.
#[export] Instance fragment_ref_eq_dec : EqDecision FragmentRef.
Proof. solve_decision. Defined.

(** [impl From<&FragmentRc> for FragmentRef] *)
Definition fragment_ref_from (rc : FragmentRc) : FragmentRef :=
  mkFragmentRef (rc_first rc) (rc_last rc)
    (slice (rc_data_range rc).1 (rc_data_range rc).2 (rc_data rc)).

(** ** The fragmentation loop of [TxBuffer::push]

    [entry] is what the buffer stores for a fragment: the fragment itself in the
    reliable buffer, a [TxEntry] with the expiry time in the unreliable one.
    Each iteration removes [fragment_size] bytes, so one step per byte and one more
    is enough fuel ([push_fuel]). *)
Section PushLoop.
Context {E : Type} (entry : FragmentRc -> E).

Fixpoint push_loop (fuel : nat) (fragments : list E) (packet : list Z)
    (fragment_size bytes_remaining index : Z) (first : bool) : outcome (list E) :=
  match fuel with
  | O => Fault OutOfFuel
  | S fuel =>
      if fragment_size <? bytes_remaining then
        push_loop fuel
          (fragments ++ [entry (mkFragmentRc first false packet (index, index + fragment_size))])
          packet fragment_size (bytes_remaining - fragment_size) (index + fragment_size) false
      else
        Ok (fragments ++ [entry (mkFragmentRc first true packet (index, zlen packet))])
  end.
End PushLoop.

Definition push_fuel (packet : list Z) : nat := S (length packet).

(** ** Reference definition of fragmentation *)

Definition fragment_count (fragment_size : Z) (packet : list Z) : Z :=
  Z.max 1 ((zlen packet + fragment_size - 1) / fragment_size).

Definition fragment_at (fragment_size : Z) (packet : list Z) (k : Z) : FragmentRc :=
  mkFragmentRc (k =? 0) (k =? fragment_count fragment_size packet - 1) packet
    (k * fragment_size, Z.min ((k + 1) * fragment_size) (zlen packet)).

Definition fragment_packet (fragment_size : Z) (packet : list Z) : list FragmentRc :=
  fragment_at fragment_size packet <$> seqZ 0 (fragment_count fragment_size packet).

(** The stream of fragments of a sequence of packets. *)
Definition fragment_stream (fragment_size : Z) (packets : list (list Z)) : list FragmentRc :=
  packets ≫= fragment_packet fragment_size.

#[global] Arguments fragment_stream : simpl never.

Section Facts.
Context (fs : Z) (Hfs : 0 < fs).

(** [fragment_count] is the ceiling of [len / fs], and at least one. *)
Lemma fragment_count_bounds p :
  1 <= fragment_count fs p <= 1 + zlen p /\
  zlen p <= fragment_count fs p * fs /\
  (1 < fragment_count fs p -> (fragment_count fs p - 1) * fs < zlen p).
Proof.
  unfold fragment_count. pose proof (zlen_nonneg p).
  pose proof (Z.div_mod (zlen p + fs - 1) fs ltac:(lia)) as Hdm.
  pose proof (Z.mod_pos_bound (zlen p + fs - 1) fs ltac:(lia)).
  set (q := (zlen p + fs - 1) / fs) in *. set (r := (zlen p + fs - 1) mod fs) in *.
  assert (0 <= q) by (apply Z.div_pos; lia).
  split; [|split]; [split; [lia|]|..]; nia.
Qed.

Lemma fragment_at_not_last p k :
  0 <= k -> k < fragment_count fs p - 1 ->
  fragment_at fs p k = mkFragmentRc (k =? 0) false p (k * fs, k * fs + fs).
Proof.
  intros Hk0 Hk. unfold fragment_at. destruct (fragment_count_bounds p) as (_ & _ & Hb).
  replace (k =? fragment_count fs p - 1) with false by (symmetry; apply Z.eqb_neq; lia).
  pose proof (Hb ltac:(lia)). f_equal. f_equal.
  rewrite Z.min_l by (assert ((k + 1) * fs <= (fragment_count fs p - 1) * fs) by nia; lia). lia.
Qed.

Lemma fragment_at_last p :
  fragment_at fs p (fragment_count fs p - 1) =
  mkFragmentRc (fragment_count fs p - 1 =? 0) true p ((fragment_count fs p - 1) * fs, zlen p).
Proof.
  unfold fragment_at. destruct (fragment_count_bounds p) as (_ & Hb & _).
  rewrite Z.eqb_refl. f_equal. f_equal. rewrite Z.min_r by nia. done.
Qed.

Lemma seqZ_snoc_split m n : 0 <= n -> seqZ m (n + 1) = seqZ m n ++ [m + n].
Proof.
  intros. rewrite seqZ_app by lia. done.
Qed.

Lemma push_loop_from {E} (entry : FragmentRc -> E) p fuel : forall k frs,
  0 <= k < fragment_count fs p -> fragment_count fs p - k <= Z.of_nat fuel ->
  push_loop entry fuel frs p fs (zlen p - k * fs) (k * fs) (k =? 0) =
  Ok (frs ++ (entry <$> (fragment_at fs p <$> seqZ k (fragment_count fs p - k)))).
Proof.
  pose proof (fragment_count_bounds p) as (? & Hub & Hlb).
  induction fuel as [|fuel IH]; intros k frs Hk Hfuel; [lia|].
  cbn [push_loop]. destruct (Z.ltb_spec fs (zlen p - k * fs)) as [Hlt|Hge].
  - assert (k < fragment_count fs p - 1) by nia.
    replace (zlen p - k * fs - fs) with (zlen p - (k + 1) * fs) by lia.
    replace (k * fs + fs) with ((k + 1) * fs) by lia.
    replace false with (k + 1 =? 0) by (apply Z.eqb_neq; lia).
    rewrite (IH (k + 1)) by lia. rewrite <- app_assoc.
    replace (fragment_count fs p - k) with (Z.succ (fragment_count fs p - (k + 1))) by lia.
    rewrite (seqZ_cons k) by lia. rewrite !fmap_cons. cbn [app].
    rewrite Z.pred_succ. rewrite fragment_at_not_last by lia.
    replace (k + 1 =? 0) with false by (symmetry; apply Z.eqb_neq; lia).
    replace (k * fs + fs) with ((k + 1) * fs) by lia.
    by replace (Z.succ k) with (k + 1) by lia.
  - assert (Hlast : k = fragment_count fs p - 1) by (destruct (Z.eq_dec k (fragment_count fs p - 1)); nia).
    rewrite Hlast. replace (fragment_count fs p - (fragment_count fs p - 1)) with 1 by lia.
    change (seqZ ?m 1) with [m]. rewrite <- fragment_at_last. done.
Qed.

Lemma push_loop_spec {E} (entry : FragmentRc -> E) p frs :
  push_loop entry (push_fuel p) frs p fs (zlen p) 0 true =
  Ok (frs ++ (entry <$> fragment_packet fs p)).
Proof.
  pose proof (fragment_count_bounds p) as (? & _ & _).
  pose proof (push_loop_from entry p (push_fuel p) 0 frs) as Hl.
  cbn [Z.mul] in Hl. rewrite !Z.sub_0_r in Hl. change (0 =? 0) with true in Hl.
  apply Hl; [lia|]. unfold push_fuel, zlen in *. lia.
Qed.

(** Bytes carried by a fragment. *)
Definition fragment_bytes (f : FragmentRc) : list Z := fr_data (fragment_ref_from f).

Lemma fragment_at_bytes_len p k :
  0 <= k < fragment_count fs p ->
  zlen (fragment_bytes (fragment_at fs p k)) =
  if k =? fragment_count fs p - 1 then zlen p - k * fs else fs.
Proof.
  intros Hk. pose proof (fragment_count_bounds p) as (? & Hub & Hlb).
  unfold fragment_bytes, fragment_ref_from. cbn [fr_data].
  destruct (Z.eqb_spec k (fragment_count fs p - 1)) as [->|Hne].
  - rewrite fragment_at_last. cbn [rc_data_range rc_data fst snd]. rewrite slice_length; nia.
  - rewrite fragment_at_not_last by lia. cbn [rc_data_range rc_data fst snd].
    rewrite slice_length by nia. lia.
Qed.

Lemma take_fragment_at p k :
  0 <= k < fragment_count fs p ->
  take (Z.to_nat (k * fs)) p ++ fragment_bytes (fragment_at fs p k) =
  take (Z.to_nat (Z.min ((k + 1) * fs) (zlen p))) p.
Proof.
  intros Hk. pose proof (fragment_count_bounds p) as (? & Hub & Hlb).
  assert (k * fs <= zlen p) by (destruct (Z.eq_dec k 0); nia).
  unfold fragment_bytes, fragment_ref_from, fragment_at, slice. cbn.
  rewrite take_take_drop. f_equal. unfold zlen in *. lia.
Qed.

(** The fragments of a packet, put back together, are the packet. *)
Lemma fragment_packet_concat p : concat (fragment_bytes <$> fragment_packet fs p) = p.
Proof.
  pose proof (fragment_count_bounds p) as (? & Hub & Hlb).
  assert (Hgen : forall n, 0 <= n <= fragment_count fs p ->
    concat (fragment_bytes <$> (fragment_at fs p <$> seqZ 0 n)) =
    take (Z.to_nat (Z.min (n * fs) (zlen p))) p).
  { intros n [Hn Hle]. revert Hle. pattern n. apply natlike_ind; [|clear n Hn|done].
    - intros _. cbn. pose proof (zlen_nonneg p). rewrite Z.min_l by lia. done.
    - intros n Hn IH Hle. rewrite <- Z.add_1_r, seqZ_snoc_split by lia.
      rewrite !fmap_app, concat_app, IH by lia. cbn -[fragment_at fragment_bytes Z.min].
      rewrite app_nil_r. rewrite <- take_fragment_at by lia. do 3 f_equal.
      destruct (Z.eq_dec n 0) as [->|]; [pose proof (zlen_nonneg p); lia|]. rewrite Z.min_l; nia. }
  unfold fragment_packet. rewrite Hgen by lia. rewrite Z.min_r by lia.
  apply take_ge. unfold zlen. lia.
Qed.
End Facts.
