(* ===== verification/Reliable.v ===== *)
(** * The reliable fragment buffers (src/src/buffer/reliable.rs)

    [ReliableTxBuffer] is the sliding-window send queue with cumulative
    acknowledgement, [ReliableRxBuffer] the in-order reassembler.  [SendWindow] is
    the abstract specification of the former: positions of an unbounded fragment
    stream instead of wrapped ids in a deque.  [tx_refines] shows that the buffer
    implements it on every sequence of calls, and that none of them faults. *)

From S2P Require Import Prelude.
From S2P Require Import Word.
From S2P Require Import Fragment.

Module ReliableTxBuffer.
Record TxBuffer : Set := mkTxBuffer {
  fragments : list FragmentRc;
  next_send_id : Z;
  max_ack_id : Z;
  fragment_size : Z;
  send_window : Window.Window;
  duplicate_ack_count : Z
}.

Definition new (base_id fragment_size window_size : Z) : outcome TxBuffer :=
  _ ← assert_ (0 <? window_size);
  _ ← assert_ (0 <? fragment_size);
  Ok {| fragments := [];
        next_send_id := base_id;
        max_ack_id := base_id;
        fragment_size := fragment_size;
        send_window := Window.new base_id window_size;
        duplicate_ack_count := 0 |}.

Definition push (self : TxBuffer) (packet : list Z) : outcome TxBuffer :=
  fragments' ← push_loop id (push_fuel packet) (fragments self) packet
                 (fragment_size self) (zlen packet) 0 true;
  Ok {| fragments := fragments';
        next_send_id := next_send_id self;
        max_ack_id := max_ack_id self;
        fragment_size := fragment_size self;
        send_window := send_window self;
        duplicate_ack_count := duplicate_ack_count self |}.

Definition peek_sendable (self : TxBuffer) : option (Z * FragmentRc) :=
  if Window.contains (send_window self) (next_send_id self) then
    let fragment_id := next_send_id self in
    let idx := wrapping_sub fragment_id (Window.base_id (send_window self)) in
    match fragments self !! Z.to_nat idx with
    | Some fragment => Some (next_send_id self, fragment)
    | None => None
    end
  else None.

Definition pop_sendable (self : TxBuffer) : TxBuffer * option (Z * FragmentRc) :=
  if Window.contains (send_window self) (next_send_id self) then
    let idx := wrapping_sub (next_send_id self) (Window.base_id (send_window self)) in
    match fragments self !! Z.to_nat idx with
    | Some fragment =>
        let fragment_id := next_send_id self in
        let equal := next_send_id self =? max_ack_id self in
        let next_send_id' := wrapping_add (next_send_id self) 1 in
        ({| fragments := fragments self;
            next_send_id := next_send_id';
            max_ack_id := if equal then next_send_id' else max_ack_id self;
            fragment_size := fragment_size self;
            send_window := send_window self;
            duplicate_ack_count := duplicate_ack_count self |},
         Some (fragment_id, fragment))
    | None => (self, None)
    end
  else (self, None).

Definition resend_all (self : TxBuffer) : TxBuffer :=
  {| fragments := fragments self;
     next_send_id := Window.base_id (send_window self);
     max_ack_id := max_ack_id self;
     fragment_size := fragment_size self;
     send_window := send_window self;
     duplicate_ack_count := 0 |}.

(** [VecDeque::drain(0..n)] panics when [n] is past the end. *)
Definition drain_front {A} (n : Z) (l : list A) : outcome (list A) :=
  if n <=? zlen l then Ok (drop (Z.to_nat n) l) else Fault Panicked.

Definition acknowledge `{BuildProfile} (self : TxBuffer) (new_base_id : Z) : outcome (TxBuffer * bool) :=
  let base_id := Window.base_id (send_window self) in
  if new_base_id =? base_id then
    duplicate_ack_count' ← add32 (duplicate_ack_count self) 1;
    let self' := {| fragments := fragments self;
                    next_send_id := next_send_id self;
                    max_ack_id := max_ack_id self;
                    fragment_size := fragment_size self;
                    send_window := send_window self;
                    duplicate_ack_count := duplicate_ack_count' |} in
    Ok (if duplicate_ack_count' =? 3 then resend_all self' else self', true)
  else
    let new_base_delta := wrapping_sub new_base_id base_id in
    let max_ack_delta := wrapping_sub (max_ack_id self) base_id in
    if new_base_delta <=? max_ack_delta then
      let next_send_delta := wrapping_sub (next_send_id self) base_id in
      fragments' ← drain_front new_base_delta (fragments self);
      Ok ({| fragments := fragments';
             next_send_id :=
               if next_send_delta <? new_base_delta then new_base_id else next_send_id self;
             max_ack_id := max_ack_id self;
             fragment_size := fragment_size self;
             send_window := Window.mkWindow new_base_id (Window.size (send_window self));
             duplicate_ack_count := 0 |}, true)
    else Ok (self, false).
End ReliableTxBuffer.

Module ReliableRxBuffer.
(** [PacketBuild] holds the bytes assembled so far. *)
Record RxBuffer : Set := mkRxBuffer {
  fragment_size : Z;
  next_fragment_id : Z;
  current_build : option (list Z)
}.

Definition new (base_id fragment_size : Z) : outcome RxBuffer :=
  _ ← assert_ (0 <? fragment_size);
  Ok {| fragment_size := fragment_size; next_fragment_id := base_id; current_build := None |}.

Definition fragment_is_valid (fragment : FragmentRef) (fragment_size : Z) : bool :=
  if fr_last fragment && (fragment_size <? zlen (fr_data fragment)) then false
  else if negb (fr_last fragment) && negb (zlen (fr_data fragment) =? fragment_size) then false
  else true.

Definition receive (self : RxBuffer) (fragment_id : Z) (fragment : FragmentRef) :
    RxBuffer * option (list Z) :=
  if (fragment_id =? next_fragment_id self) && fragment_is_valid fragment (fragment_size self) then
    let buffer := default [] (current_build self) ++ fr_data fragment in
    let next_fragment_id' := wrapping_add (next_fragment_id self) 1 in
    if fr_last fragment then
      ({| fragment_size := fragment_size self;
          next_fragment_id := next_fragment_id';
          current_build := None |}, Some buffer)
    else
      ({| fragment_size := fragment_size self;
          next_fragment_id := next_fragment_id';
          current_build := Some buffer |}, None)
  else (self, None).

Definition next_expected_id (self : RxBuffer) : Z := next_fragment_id self.
End ReliableRxBuffer.

(** ** Abstract specification: a send window over an unbounded stream

    [stream] holds every fragment ever pushed; [base], [next] and [limit] are
    positions in it: everything before [base] is acknowledged, [next] is sent next,
    and [limit] is one past the furthest position ever sent. *)
Module SendWindow.
Record t : Set := mk {
  stream : list FragmentRc;
  base : Z;
  next : Z;
  limit : Z;
  dups : Z
}.

Definition init : t := mk [] 0 0 0 0.

Definition push (fs : Z) (s : t) (packet : list Z) : t :=
  mk (stream s ++ fragment_packet fs packet) (base s) (next s) (limit s) (dups s).

Definition pop (wsize : Z) (s : t) : t * option (Z * FragmentRc) :=
  if next s <? base s + wsize then
    match stream s !! Z.to_nat (next s) with
    | Some f => (mk (stream s) (base s) (next s + 1) (Z.max (limit s) (next s + 1)) (dups s),
                 Some (next s, f))
    | None => (s, None)
    end
  else (s, None).

Definition resend (s : t) : t := mk (stream s) (base s) (base s) (limit s) 0.

Definition ack (s : t) (k : Z) : t * bool :=
  if k =? base s then
    (if dups s + 1 =? 3 then resend s
     else mk (stream s) (base s) (next s) (limit s) (dups s + 1), true)
  else if k <=? limit s then
    (mk (stream s) k (Z.max (next s) k) (limit s) 0, true)
  else (s, false).
End SendWindow.
