(* ===== verification/ReliableFacts.v ===== *)
(** * Correctness of the reliable buffers

    The transmit buffer refines [SendWindow] on every sequence of calls
    ([tx_refines]); the receive buffer delivers exactly the packets of the stream it
    has accepted ([assemble_stream]) and accepts fragments in stream order whatever
    the network does to them ([rx_receive_position]). *)

From S2P Require Import Prelude.
From S2P Require Import Word.
From S2P Require Import Fragment.
From S2P Require Import Reliable.

(** ** Transmit side *)

(** The calls an endpoint makes, and what they return. *)
Inductive tx_op : Set :=
| Push (packet : list Z)
| Peek
| Pop
| ResendAll
| Ack (id : Z).

Inductive tx_out : Set :=
| OUnit
| OFragment (o : option (Z * FragmentRc))
| OAck (b : bool).

Definition tx_op_valid (op : tx_op) : Prop :=
  match op with Ack id => is_u32 id | _ => True end.

Definition tx_step `{BuildProfile} (t : ReliableTxBuffer.TxBuffer) (op : tx_op) :
    outcome (ReliableTxBuffer.TxBuffer * tx_out) :=
  match op with
  | Push p => t' ← ReliableTxBuffer.push t p; Ok (t', OUnit)
  | Peek => Ok (t, OFragment (ReliableTxBuffer.peek_sendable t))
  | Pop => let '(t', o) := ReliableTxBuffer.pop_sendable t in Ok (t', OFragment o)
  | ResendAll => Ok (ReliableTxBuffer.resend_all t, OUnit)
  | Ack id => '(t', b) ← ReliableTxBuffer.acknowledge t id; Ok (t', OAck b)
  end.

Fixpoint tx_run `{BuildProfile} (t : ReliableTxBuffer.TxBuffer) (ops : list tx_op) :
    outcome (ReliableTxBuffer.TxBuffer * list tx_out) :=
  match ops with
  | [] => Ok (t, [])
  | op :: ops =>
      '(t, o) ← tx_step t op;
      '(t, os) ← tx_run t ops;
      Ok (t, o :: os)
  end.

Section Refinement.
Context (start fs wsize : Z).

(** The wire id of a stream position, and the position an acknowledgement id
    names: the nearest one at or after [base]. *)
Definition id_of (k : Z) : Z := wrap32 (start + k).
Definition ack_position (s : SendWindow.t) (id : Z) : Z :=
  SendWindow.base s + wrapping_sub id (id_of (SendWindow.base s)).

Definition number (o : option (Z * FragmentRc)) : option (Z * FragmentRc) :=
  (fun kf : Z * FragmentRc => (id_of kf.1, kf.2)) <$> o.

Definition spec_step (s : SendWindow.t) (op : tx_op) : SendWindow.t * tx_out :=
  match op with
  | Push p => (SendWindow.push fs s p, OUnit)
  | Peek => (s, OFragment (number (SendWindow.pop wsize s).2))
  | Pop => let '(s', o) := SendWindow.pop wsize s in (s', OFragment (number o))
  | ResendAll => (SendWindow.resend s, OUnit)
  | Ack id => let '(s', b) := SendWindow.ack s (ack_position s id) in (s', OAck b)
  end.

Fixpoint spec_run (s : SendWindow.t) (ops : list tx_op) : SendWindow.t * list tx_out :=
  match ops with
  | [] => (s, [])
  | op :: ops =>
      let '(s, o) := spec_step s op in
      let '(s, os) := spec_run s ops in
      (s, o :: os)
  end.

(** The window invariant and the representation relation. *)
Record window_ok (s : SendWindow.t) : Prop := mk_window_ok {
  wo_base : 0 <= SendWindow.base s <= SendWindow.next s;
  wo_next : SendWindow.next s <= SendWindow.limit s;
  wo_limit : SendWindow.limit s <= SendWindow.base s + wsize;
  wo_stream : SendWindow.limit s <= zlen (SendWindow.stream s);
  wo_dups : 0 <= SendWindow.dups s < 3
}.

Definition represents (s : SendWindow.t) : ReliableTxBuffer.TxBuffer :=
  {| ReliableTxBuffer.fragments := drop (Z.to_nat (SendWindow.base s)) (SendWindow.stream s);
     ReliableTxBuffer.next_send_id := id_of (SendWindow.next s);
     ReliableTxBuffer.max_ack_id := id_of (SendWindow.limit s);
     ReliableTxBuffer.fragment_size := fs;
     ReliableTxBuffer.send_window := Window.mkWindow (id_of (SendWindow.base s)) wsize;
     ReliableTxBuffer.duplicate_ack_count := SendWindow.dups s |}.

Context (Hfs : 0 < fs) (Hwsize : 0 < wsize < two32).

Lemma window_ok_init : window_ok SendWindow.init.
Proof. split; cbn; lia || apply zlen_nonneg. Qed.

Lemma delta_of s k : window_ok s -> SendWindow.base s <= k <= SendWindow.base s + wsize ->
  wrapping_sub (id_of k) (id_of (SendWindow.base s)) = k - SendWindow.base s.
Proof. intros _ Hk. apply wrapping_sub_pos. lia. Qed.

Lemma lookup_window s k : window_ok s -> SendWindow.base s <= k ->
  drop (Z.to_nat (SendWindow.base s)) (SendWindow.stream s) !! Z.to_nat (k - SendWindow.base s)
  = SendWindow.stream s !! Z.to_nat k.
Proof. intros [] Hk. rewrite lookup_drop. f_equal. lia. Qed.

(** *** Preservation of the invariant by the abstract operations *)

Lemma push_window_ok s p : window_ok s -> window_ok (SendWindow.push fs s p).
Proof. intros []. split; cbn; rewrite ?zlen_app; pose proof (zlen_nonneg (fragment_packet fs p)); lia. Qed.

Lemma pop_window_ok s : window_ok s -> window_ok (SendWindow.pop wsize s).1.
Proof.
  intros Hs. pose proof Hs as []. unfold SendWindow.pop.
  destruct (Z.ltb_spec (SendWindow.next s) (SendWindow.base s + wsize)); [|done].
  destruct (SendWindow.stream s !! Z.to_nat (SendWindow.next s)) eqn:E; [|done].
  apply lookup_lt_Some in E. split; cbn; unfold zlen in *; lia.
Qed.

Lemma resend_window_ok s : window_ok s -> window_ok (SendWindow.resend s).
Proof. intros []. split; cbn; lia. Qed.

Lemma ack_window_ok s k :
  window_ok s -> SendWindow.base s <= k -> window_ok (SendWindow.ack s k).1.
Proof.
  intros Hs Hk. pose proof Hs as []. unfold SendWindow.ack.
  repeat (case_bool; cbn [fst]); try done; try (by apply resend_window_ok); split; cbn; lia.
Qed.

(** *** Each operation of the buffer computes its abstract counterpart *)

Lemma push_represents s p :
  window_ok s ->
  ReliableTxBuffer.push (represents s) p = Ok (represents (SendWindow.push fs s p)).
Proof.
  intros []. unfold ReliableTxBuffer.push. cbn [ReliableTxBuffer.fragments ReliableTxBuffer.fragment_size represents].
  rewrite push_loop_spec by done. cbn. rewrite list_fmap_id. unfold represents. cbn.
  rewrite drop_app_le; [done|]. unfold zlen in *. lia.
Qed.

Lemma pop_represents s :
  window_ok s ->
  ReliableTxBuffer.pop_sendable (represents s) =
    (represents (SendWindow.pop wsize s).1, number (SendWindow.pop wsize s).2) /\
  ReliableTxBuffer.peek_sendable (represents s) = number (SendWindow.pop wsize s).2.
Proof.
  intros Hs. pose proof Hs as [? ? ? ? ?].
  unfold ReliableTxBuffer.pop_sendable, ReliableTxBuffer.peek_sendable, SendWindow.pop, Window.contains.
  cbn -[id_of]. rewrite delta_of by (done || lia).
  replace (SendWindow.next s - SendWindow.base s <? wsize)
    with (SendWindow.next s <? SendWindow.base s + wsize)
    by (destruct (Z.ltb_spec (SendWindow.next s) (SendWindow.base s + wsize));
        symmetry; [apply Z.ltb_lt | apply Z.ltb_ge]; lia).
  case_bool; [|done]. rewrite lookup_window by (done || lia).
  destruct (SendWindow.stream s !! Z.to_nat (SendWindow.next s)) eqn:El; [|done].
  split; [|done]. cbn -[id_of]. f_equal. unfold represents. cbn -[id_of].
  assert (Hnext : wrapping_add (id_of (SendWindow.next s)) 1 = id_of (SendWindow.next s + 1))
    by apply wrapping_add_pos.
  rewrite Hnext. f_equal.
  destruct (Z.eqb_spec (id_of (SendWindow.next s)) (id_of (SendWindow.limit s))) as [Heq|Hne].
  - apply wrap32_pos_inj in Heq; [|unfold two32 in *; lia]. f_equal. lia.
  - f_equal. destruct (Z.eq_dec (SendWindow.next s) (SendWindow.limit s)); [congruence|lia].
Qed.

Lemma resend_represents s :
  ReliableTxBuffer.resend_all (represents s) = represents (SendWindow.resend s).
Proof. done. Qed.

Lemma ack_represents `{BuildProfile} s id :
  window_ok s -> is_u32 id ->
  ReliableTxBuffer.acknowledge (represents s) id =
    Ok (represents (SendWindow.ack s (ack_position s id)).1,
        (SendWindow.ack s (ack_position s id)).2).
Proof.
  intros Hs Hid. pose proof Hs as [? ? ? ? ?].
  unfold ReliableTxBuffer.acknowledge, SendWindow.ack, ack_position.
  cbn -[id_of ReliableTxBuffer.resend_all add32].
  set (b := SendWindow.base s) in *. set (d := wrapping_sub id (id_of b)).
  assert (Hd : is_u32 d) by apply wrapping_sub_range.
  assert (Hidd : id = wrap32 (start + (b + d)))
    by (subst d; unfold id_of; clear -Hid; word).
  destruct (Z.eqb_spec id (id_of b)) as [->|Hne].
  - assert (d = 0) as -> by (subst d; unfold id_of; clear; word). rewrite Z.add_0_r, Z.eqb_refl.
    rewrite add32_ok by (unfold two32; lia). cbn -[id_of].
    by case_bool.
  - replace (b + d =? b) with false
      by (symmetry; apply Z.eqb_neq; intros Hd0; apply Hne; rewrite Hidd; unfold id_of; do 2 f_equal; lia).
    assert (Hdl : forall k, b <= k <= b + wsize -> wrapping_sub (id_of k) (id_of b) = k - b)
      by (intros; by apply delta_of).
    rewrite !Hdl by lia.
    replace (d <=? SendWindow.limit s - b) with (b + d <=? SendWindow.limit s)
      by (destruct (Z.leb_spec (b + d) (SendWindow.limit s)); symmetry;
          [apply Z.leb_le | apply Z.leb_gt]; lia).
    case_bool; [|done]. unfold ReliableTxBuffer.drain_front.
    assert (Hdle : d <= zlen (drop (Z.to_nat b) (SendWindow.stream s)))
      by (rewrite zlen_drop by (unfold b; lia); unfold b; lia).
    apply Z.leb_le in Hdle. rewrite Hdle. cbn -[id_of]. unfold is_u32 in Hd.
    unfold represents. cbn -[id_of]. rewrite drop_drop.
    replace (Z.to_nat b + Z.to_nat d)%nat with (Z.to_nat (b + d)) by (unfold b in *; lia).
    rewrite Hidd. fold (id_of (b + d)). do 3 f_equal.
    case_bool; f_equal; lia.
Qed.

Lemma step_represents `{BuildProfile} s op :
  window_ok s -> tx_op_valid op ->
  tx_step (represents s) op = Ok (represents (spec_step s op).1, (spec_step s op).2) /\
  window_ok (spec_step s op).1.
Proof.
  intros Hs Hop. destruct op as [p| | | |id]; cbn [tx_step spec_step].
  - rewrite push_represents by done. split; [done | by apply push_window_ok].
  - destruct (pop_represents s Hs) as [_ ->]. done.
  - destruct (pop_represents s Hs) as [-> _].
    pose proof (pop_window_ok s Hs) as Hw. by destruct (SendWindow.pop wsize s).
  - split; [done | by apply resend_window_ok].
  - rewrite ack_represents by done. cbn.
    assert (Hk : SendWindow.base s <= ack_position s id)
      by (unfold ack_position; pose proof (wrapping_sub_range id (id_of (SendWindow.base s))) as Hr;
          unfold is_u32 in Hr; lia).
    pose proof (ack_window_ok s _ Hs Hk) as Hw. by destruct (SendWindow.ack s _).
Qed.
End Refinement.

(** [new] asserts positive sizes and then represents the empty window. *)
Lemma new_represents start fs wsize :
  is_u32 start -> 0 < fs -> 0 < wsize ->
  ReliableTxBuffer.new start fs wsize = Ok (represents start fs wsize SendWindow.init).
Proof.
  intros Hst Hfs Hw. unfold ReliableTxBuffer.new.
  rewrite !assert_true by (by apply Z.ltb_lt). unfold represents, id_of. cbn.
  rewrite Z.add_0_r, wrap32_small by done. done.
Qed.

(** C16: the send buffer refines the abstract send window: on every sequence of calls
    from [new] it returns what the window specification returns (fragment ids being
    the wrapped stream positions), and no call panics or runs out of fuel. *)
Theorem tx_refines `{BuildProfile} start fs wsize ops :
  is_u32 start -> 0 < fs -> 0 < wsize < two32 -> Forall tx_op_valid ops ->
  (t ← ReliableTxBuffer.new start fs wsize; tx_run t ops) =
  let '(s, outs) := spec_run start fs wsize SendWindow.init ops in
  Ok (represents start fs wsize s, outs).
Proof.
  intros Hst Hfs Hw Hops. rewrite new_represents by (done || lia). cbn [mbind outcome_bind].
  assert (Hgen : forall s, window_ok wsize s ->
    tx_run (represents start fs wsize s) ops =
    let '(s, outs) := spec_run start fs wsize s ops in Ok (represents start fs wsize s, outs)).
  { induction Hops as [|op ops Hop Hops IH]; intros s Hs; [done|]. cbn [tx_run spec_run].
    destruct (step_represents start fs wsize Hfs Hw s op Hs Hop) as [-> Hs']. cbn.
    destruct (spec_step start fs wsize s op) as [s' o]. cbn in *. rewrite (IH s' Hs').
    by destruct (spec_run start fs wsize s' ops). }
  apply Hgen, window_ok_init. lia.
Qed.

(** ** Receive side *)

(** Reassembly of fragments taken in order, ids aside. *)
Definition assemble_step (build : option (list Z)) (f : FragmentRef) :
    option (list Z) * option (list Z) :=
  let buffer := default [] build ++ fr_data f in
  if fr_last f then (None, Some buffer) else (Some buffer, None).

Fixpoint assemble (build : option (list Z)) (fs : list FragmentRef) :
    option (list Z) * list (list Z) :=
  match fs with
  | [] => (build, [])
  | f :: fs =>
      let '(build, o) := assemble_step build f in
      let '(build, ps) := assemble build fs in
      (build, option_list o ++ ps)
  end.

Lemma assemble_app build fs gs :
  assemble build (fs ++ gs) =
  let '(b1, ps1) := assemble build fs in
  let '(b2, ps2) := assemble b1 gs in (b2, ps1 ++ ps2).
Proof.
  revert build. induction fs as [|f fs IH]; intros build; cbn [assemble app].
  - by destruct (assemble build gs).
  - destruct (assemble_step build f) as [b o]. rewrite IH.
    destruct (assemble b fs) as [b1 ps1], (assemble b1 gs) as [b2 ps2]. by rewrite app_assoc.
Qed.

Section Receive.
Context (fs : Z) (Hfs : 0 < fs).

(** The build after the first [n] fragments of a packet holds its first
    [n * fs] bytes. *)
Definition build_at (p : list Z) (n : Z) : option (list Z) :=
  if n =? 0 then None else Some (take (Z.to_nat (n * fs)) p).

Lemma assemble_step_at p k :
  0 <= k < fragment_count fs p ->
  assemble_step (build_at p k) (fragment_ref_from (fragment_at fs p k)) =
  if k =? fragment_count fs p - 1 then (None, Some p) else (build_at p (k + 1), None).
Proof.
  intros Hk. pose proof (fragment_count_bounds fs Hfs p) as (Hc & Hub & Hlb).
  unfold assemble_step.
  replace (default [] (build_at p k)) with (take (Z.to_nat (k * fs)) p)
    by (unfold build_at; by destruct (Z.eqb_spec k 0) as [->|]).
  pose proof (take_fragment_at fs Hfs p k Hk) as Htk. unfold fragment_bytes in Htk. rewrite Htk.
  change (fr_last (fragment_ref_from (fragment_at fs p k))) with (k =? fragment_count fs p - 1).
  destruct (Z.eqb_spec k (fragment_count fs p - 1)) as [->|Hne].
  - rewrite Z.sub_add, Z.min_r by lia. rewrite take_ge; [done|]. unfold zlen. lia.
  - assert ((k + 1) * fs <= (fragment_count fs p - 1) * fs) by nia.
    unfold build_at. rewrite Z.min_l by lia.
    by replace (k + 1 =? 0) with false by (symmetry; apply Z.eqb_neq; lia).
Qed.

Lemma assemble_partial p n :
  0 <= n < fragment_count fs p ->
  assemble None (fragment_ref_from <$> (fragment_at fs p <$> seqZ 0 n)) = (build_at p n, []).
Proof.
  intros [Hn Hlt]. revert Hlt. pattern n. apply natlike_ind; [done| |done]. clear n Hn.
  intros n Hn IH Hlt. rewrite <- Z.add_1_r, seqZ_snoc_split by lia.
  rewrite !fmap_app, assemble_app, IH by lia. cbn [fmap list_fmap assemble].
  rewrite Z.add_0_l, assemble_step_at by lia.
  by replace (n =? fragment_count fs p - 1) with false by (symmetry; apply Z.eqb_neq; lia).
Qed.

Lemma assemble_packet p :
  assemble None (fragment_ref_from <$> fragment_packet fs p) = (None, [p]).
Proof.
  pose proof (fragment_count_bounds fs Hfs p) as (Hc & _ & _).
  unfold fragment_packet.
  replace (fragment_count fs p) with ((fragment_count fs p - 1) + 1) by lia.
  rewrite seqZ_snoc_split by lia. rewrite !fmap_app, assemble_app, assemble_partial by lia.
  cbn [fmap list_fmap assemble]. rewrite Z.add_0_l, assemble_step_at by lia.
  by rewrite Z.eqb_refl.
Qed.

Lemma assemble_stream ps :
  assemble None (fragment_ref_from <$> fragment_stream fs ps) = (None, ps).
Proof.
  induction ps as [|p ps IH]; [done|]. unfold fragment_stream in *. cbn [mbind list_bind].
  by rewrite fmap_app, assemble_app, assemble_packet, IH.
Qed.

Lemma fragment_stream_app ps qs :
  fragment_stream fs (ps ++ qs) = fragment_stream fs ps ++ fragment_stream fs qs.
Proof. unfold fragment_stream. apply bind_app. Qed.

Lemma fragment_stream_singleton p : fragment_stream fs [p] = fragment_packet fs p.
Proof. unfold fragment_stream. cbn. apply app_nil_r. Qed.

(** Every fragment of a packet passes the receiver's size check. *)
Lemma fragment_at_valid p k :
  0 <= k < fragment_count fs p ->
  ReliableRxBuffer.fragment_is_valid (fragment_ref_from (fragment_at fs p k)) fs = true.
Proof.
  intros Hk. pose proof (fragment_at_bytes_len fs Hfs p k Hk) as Hlen.
  pose proof (fragment_count_bounds fs Hfs p) as (Hc & Hub & Hlb).
  unfold fragment_bytes in Hlen. unfold ReliableRxBuffer.fragment_is_valid.
  rewrite Hlen. change (fr_last (fragment_ref_from (fragment_at fs p k)))
    with (k =? fragment_count fs p - 1).
  destruct (Z.eqb_spec k (fragment_count fs p - 1)) as [->|Hk'].
  - replace (fs <? _) with false by (symmetry; apply Z.ltb_ge; nia). done.
  - rewrite Z.eqb_refl. by rewrite !andb_false_r.
Qed.

Lemma fragment_stream_valid ps f :
  f ∈ fragment_stream fs ps ->
  ReliableRxBuffer.fragment_is_valid (fragment_ref_from f) fs = true.
Proof.
  intros Hf. apply list_elem_of_bind in Hf as (p & Hf & _).
  apply list_elem_of_fmap in Hf as (k & -> & Hk). apply elem_of_seqZ in Hk.
  apply fragment_at_valid. lia.
Qed.

(** The receiver after the first [n] fragments of a stream, and the packets it
    has delivered by then. *)
Definition rx_at (start : Z) (stream : list FragmentRc) (n : nat) : ReliableRxBuffer.RxBuffer :=
  {| ReliableRxBuffer.fragment_size := fs;
     ReliableRxBuffer.next_fragment_id := id_of start (Z.of_nat n);
     ReliableRxBuffer.current_build := (assemble None (fragment_ref_from <$> take n stream)).1 |}.

Definition delivered_at (stream : list FragmentRc) (n : nat) : list (list Z) :=
  (assemble None (fragment_ref_from <$> take n stream)).2.

(** A fragment of the stream is taken when it is the next one and ignored
    otherwise: duplicates, reordered and stale copies change nothing. *)
Lemma rx_receive_position start ps n k f :
  Z.abs (Z.of_nat k - Z.of_nat n) < two32 ->
  fragment_stream fs ps !! k = Some f ->
  ReliableRxBuffer.receive (rx_at start (fragment_stream fs ps) n)
    (id_of start (Z.of_nat k)) (fragment_ref_from f) =
  if (k =? n)%nat then
    (rx_at start (fragment_stream fs ps) (S n),
     (assemble_step (assemble None (fragment_ref_from <$> take n (fragment_stream fs ps))).1
        (fragment_ref_from f)).2)
  else (rx_at start (fragment_stream fs ps) n, None).
Proof.
  intros Hd Hf. unfold ReliableRxBuffer.receive. cbn [ReliableRxBuffer.next_fragment_id rx_at
    ReliableRxBuffer.fragment_size].
  rewrite (fragment_stream_valid ps f) by (by eapply list_elem_of_lookup_2).
  rewrite andb_true_r. destruct (Nat.eqb_spec k n) as [->|Hne].
  - rewrite Z.eqb_refl. unfold rx_at. rewrite (take_S_r _ _ f) by done.
    rewrite fmap_app, assemble_app.
    destruct (assemble None (fragment_ref_from <$> take n (fragment_stream fs ps))) as [b out].
    cbn [fst ReliableRxBuffer.current_build]. cbn. unfold assemble_step.
    replace (wrapping_add (id_of start (Z.of_nat n)) 1) with (id_of start (Z.of_nat (S n)))
      by (unfold id_of; rewrite wrapping_add_pos; do 2 f_equal; lia).
    cbn. by destruct (rc_last f).
  - destruct (Z.eqb_spec (id_of start (Z.of_nat k)) (id_of start (Z.of_nat n))) as [He|]; [|done].
    apply wrap32_pos_inj in He; lia.
Qed.

Lemma delivered_at_S stream n f :
  stream !! n = Some f ->
  delivered_at stream (S n) = delivered_at stream n ++
    option_list (assemble_step (assemble None (fragment_ref_from <$> take n stream)).1
                   (fragment_ref_from f)).2.
Proof.
  intros Hf. unfold delivered_at. rewrite (take_S_r _ _ f) by done.
  rewrite fmap_app, assemble_app.
  destruct (assemble None (fragment_ref_from <$> take n stream)) as [b out]. cbn.
  destruct (assemble_step b (fragment_ref_from f)). cbn. by rewrite app_nil_r.
Qed.

Lemma delivered_at_prefix ps n :
  delivered_at (fragment_stream fs ps) n `prefix_of` ps.
Proof.
  pose proof (assemble_stream ps) as Hs.
  rewrite <- (take_drop n (fragment_stream fs ps)), fmap_app, assemble_app in Hs.
  unfold delivered_at. destruct (assemble None _) as [b1 out1]. cbn.
  destruct (assemble b1 _) as [b2 out2]. injection Hs as _ <-. by exists out2.
Qed.

Lemma delivered_at_all ps n :
  (length (fragment_stream fs ps) <= n)%nat -> delivered_at (fragment_stream fs ps) n = ps.
Proof. intros Hn. unfold delivered_at. by rewrite take_ge, assemble_stream. Qed.

Lemma new_rx_at start stream :
  is_u32 start -> ReliableRxBuffer.new start fs = Ok (rx_at start stream 0).
Proof.
  intros Hst. unfold ReliableRxBuffer.new. rewrite assert_true by (by apply Z.ltb_lt).
  unfold rx_at, id_of. cbn. by rewrite Z.add_0_r, wrap32_small.
Qed.
End Receive.

(** The window wraps past [2^32]: two packets in three fragments, all sent, the
    first acknowledged, an acknowledgement beyond the window refused, a resend. *)
Lemma tx_refines_witness :
  let ops := [Push [1; 2; 3]; Pop; Pop; Push [4]; Ack 0; Pop; Ack 7; Ack 0; Ack 0; Ack 0; Pop] in
  is_u32 4294967295 /\ Forall tx_op_valid ops /\
  (t ← ReliableTxBuffer.new 4294967295 2 2; tx_run (H := true) t ops) =
  (let '(s, outs) := spec_run 4294967295 2 2 SendWindow.init ops in
   Ok (represents 4294967295 2 2 s, outs)).
Proof.
  assert (Hv : Forall tx_op_valid
    [Push [1; 2; 3]; Pop; Pop; Push [4]; Ack 0; Pop; Ack 7; Ack 0; Ack 0; Ack 0; Pop])
    by (repeat constructor; cbn; unfold is_u32, two32; lia).
  split; [unfold is_u32, two32; lia|]. split; [exact Hv|].
  apply (tx_refines (H := true) 4294967295 2 2); [unfold is_u32, two32; lia|lia|unfold two32; lia|exact Hv].
Defined.
