(* ===== verification/ReliableChannel.v ===== *)
(** * The reliable channel end to end

    A sender's [ReliableTxBuffer], a receiver's [ReliableRxBuffer] and a network in
    between that may lose, duplicate, delay and reorder both fragments and
    acknowledgements (a copy stays in [net] / [acks] for ever and any copy may be
    taken at any time).  The steps are the calls the two endpoints make on their
    buffers.  The theorems: what is delivered is always a prefix of what was pushed
    ([delivered_prefix]); the sender never discards a fragment the receiver still
    needs ([no_unreceived_discarded]); no buffer call faults
    ([channel_calls_succeed]); and from every reachable state everything pushed can
    still be delivered ([delivery_possible]).  The bound of [2^32] fragments per
    connection is the id space: a stale copy that is a whole id cycle old cannot be
    told from a fresh one. *)

From S2P Require Import Prelude.
From S2P Require Import Word.
From S2P Require Import Fragment.
From S2P Require Import Reliable.
From S2P Require Import ReliableFacts.

Record channel : Set := mkChannel {
  ch_tx : ReliableTxBuffer.TxBuffer;
  ch_rx : ReliableRxBuffer.RxBuffer;
  ch_net : list (Z * FragmentRc);
  ch_acks : list Z;
  ch_pushed : list (list Z);
  ch_delivered : list (list Z)
}.

Inductive channel_step `{BuildProfile} : channel -> channel -> Prop :=
| step_push tx tx' rx net acks ps ds p :
    ReliableTxBuffer.push tx p = Ok tx' ->
    channel_step (mkChannel tx rx net acks ps ds) (mkChannel tx' rx net acks (ps ++ [p]) ds)
| step_send tx tx' rx net acks ps ds id f :
    ReliableTxBuffer.pop_sendable tx = (tx', Some (id, f)) ->
    channel_step (mkChannel tx rx net acks ps ds) (mkChannel tx' rx ((id, f) :: net) acks ps ds)
| step_deliver tx rx rx' net acks ps ds id f o :
    (id, f) ∈ net ->
    ReliableRxBuffer.receive rx id (fragment_ref_from f) = (rx', o) ->
    channel_step (mkChannel tx rx net acks ps ds)
                 (mkChannel tx rx' net acks ps (ds ++ option_list o))
| step_emit_ack tx rx net acks ps ds :
    channel_step (mkChannel tx rx net acks ps ds)
                 (mkChannel tx rx net (ReliableRxBuffer.next_expected_id rx :: acks) ps ds)
| step_ack tx tx' rx net acks ps ds a b :
    a ∈ acks ->
    ReliableTxBuffer.acknowledge tx a = Ok (tx', b) ->
    channel_step (mkChannel tx rx net acks ps ds) (mkChannel tx' rx net acks ps ds)
| step_timeout tx rx net acks ps ds :
    channel_step (mkChannel tx rx net acks ps ds)
                 (mkChannel (ReliableTxBuffer.resend_all tx) rx net acks ps ds).

Section Channel.
Context `{BuildProfile} (start fs wsize : Z).
Context (Hstart : is_u32 start) (Hfs : 0 < fs) (Hwsize : 0 < wsize < two32).

(** A connection's initial channel: both buffers are created at the same id. *)
Definition channel_init (c : channel) : Prop :=
  exists tx rx,
    ReliableTxBuffer.new start fs wsize = Ok tx /\
    ReliableRxBuffer.new start fs = Ok rx /\
    c = mkChannel tx rx [] [] [] [].

Definition channel_reachable (c : channel) : Prop :=
  exists c0, channel_init c0 /\ rtc channel_step c0 c.

Definition channel_stream (c : channel) : list FragmentRc := fragment_stream fs (ch_pushed c).

(** The channel after the sender's window [s] and [n] accepted fragments. *)
Record channel_inv (c : channel) (s : SendWindow.t) (n : nat) : Prop := {
  ci_tx : ch_tx c = represents start fs wsize s;
  ci_ok : window_ok wsize s;
  ci_stream : SendWindow.stream s = channel_stream c;
  ci_rx : ch_rx c = rx_at fs start (channel_stream c) n;
  ci_base : SendWindow.base s <= Z.of_nat n;
  ci_limit : Z.of_nat n <= SendWindow.limit s;
  ci_net : forall id f, (id, f) ∈ ch_net c ->
    exists k, id = id_of start (Z.of_nat k) /\ channel_stream c !! k = Some f /\
              Z.of_nat k < SendWindow.limit s;
  ci_acks : forall a, a ∈ ch_acks c -> exists j, a = id_of start (Z.of_nat j) /\ (j <= n)%nat;
  ci_delivered : ch_delivered c = delivered_at (channel_stream c) n
}.

Lemma channel_inv_init c : channel_init c -> channel_inv c SendWindow.init 0.
Proof.
  intros (tx & rx & Htx & Hrx & ->).
  rewrite new_represents in Htx by (done || lia). rewrite (new_rx_at fs Hfs start []) in Hrx by done.
  inv_ok. split; try done; cbn; try lia; try (by apply window_ok_init);
    try (intros; by apply not_elem_of_nil in H0).
Qed.

Lemma take_stream_push n ps p :
  (n <= length (fragment_stream fs ps))%nat ->
  take n (fragment_stream fs (ps ++ [p])) = take n (fragment_stream fs ps).
Proof. intros Hn. rewrite fragment_stream_app by done. by rewrite take_app_le. Qed.

Lemma limit_le_stream c s n :
  channel_inv c s n -> (n <= length (channel_stream c))%nat.
Proof.
  intros [? [] Hs ? ? ? ? ? ?]. rewrite <- Hs. unfold zlen in *. lia.
Qed.

Lemma inv_push c s n p tx' :
  channel_inv c s n -> ReliableTxBuffer.push (ch_tx c) p = Ok tx' ->
  channel_inv (mkChannel tx' (ch_rx c) (ch_net c) (ch_acks c) (ch_pushed c ++ [p]) (ch_delivered c))
    (SendWindow.push fs s p) n.
Proof.
  intros Hinv Hp. pose proof (limit_le_stream _ _ _ Hinv) as Hlen.
  destruct Hinv as [Htx Hok Hs Hrx Hb Hl Hnet Hacks Hd].
  rewrite Htx, push_represents in Hp by done. inv_ok.
  split; cbn; try done.
  - by apply push_window_ok.
  - unfold channel_stream. cbn. rewrite fragment_stream_app, Hs by done.
    by rewrite fragment_stream_singleton.
  - rewrite Hrx. unfold rx_at, channel_stream. cbn. by rewrite take_stream_push.
  - intros id f Hf. destruct (Hnet id f Hf) as (k & -> & Hk & ?).
    exists k. split; [done|]. split; [|done]. unfold channel_stream. cbn.
    rewrite fragment_stream_app by done. by apply lookup_app_l_Some.
  - rewrite Hd. unfold delivered_at, channel_stream. cbn. by rewrite take_stream_push.
Qed.

Lemma inv_send c s n tx' id f :
  channel_inv c s n -> ReliableTxBuffer.pop_sendable (ch_tx c) = (tx', Some (id, f)) ->
  channel_inv (mkChannel tx' (ch_rx c) ((id, f) :: ch_net c) (ch_acks c) (ch_pushed c) (ch_delivered c))
    (SendWindow.pop wsize s).1 n.
Proof.
  intros [Htx Hok Hs Hrx Hb Hl Hnet Hacks Hd] Hp.
  pose proof (pop_window_ok wsize s Hok) as Hok'.
  destruct (pop_represents start fs wsize Hwsize s Hok) as [Hpop _].
  rewrite Htx, Hpop in Hp. injection Hp as <- Ho.
  unfold SendWindow.pop in *. case_bool; [|done].
  destruct (SendWindow.stream s !! Z.to_nat (SendWindow.next s)) as [g|] eqn:Eg; [|done].
  cbn in Ho. injection Ho as <- <-. destruct Hok.
  split; cbn in *; try done; try lia.
  intros id' f' Hin. apply elem_of_cons in Hin as [[= -> ->]|Hin].
  - exists (Z.to_nat (SendWindow.next s)). rewrite Z2Nat.id by lia.
    split; [done|]. change (channel_stream _) with (channel_stream c). rewrite <- Hs.
    split; [done|lia].
  - destruct (Hnet id' f' Hin) as (k & -> & Hk & ?). exists k. split; [done|].
    split; [exact Hk|lia].
Qed.

Lemma inv_deliver c s n id f rx' o :
  zlen (channel_stream c) < two32 ->
  channel_inv c s n -> (id, f) ∈ ch_net c ->
  ReliableRxBuffer.receive (ch_rx c) id (fragment_ref_from f) = (rx', o) ->
  exists n', (n <= n')%nat /\
    channel_inv (mkChannel (ch_tx c) rx' (ch_net c) (ch_acks c) (ch_pushed c)
                   (ch_delivered c ++ option_list o)) s n'.
Proof.
  intros Hsmall Hinv Hin Hr. pose proof (limit_le_stream _ _ _ Hinv) as Hlen.
  destruct Hinv as [Htx Hok Hs Hrx Hb Hl Hnet Hacks Hd].
  destruct (Hnet id f Hin) as (k & -> & Hk & Hkl).
  pose proof (lookup_lt_Some _ _ _ Hk) as Hklen. unfold channel_stream in *.
  rewrite Hrx, (rx_receive_position fs Hfs start (ch_pushed c) n k f) in Hr;
    [|unfold zlen in *; lia|done].
  destruct (Nat.eqb_spec k n) as [<-|Hne]; injection Hr as <- <-.
  - exists (S k). split; [lia|]. split; cbn; try done; try lia.
    + intros a Ha. destruct (Hacks a Ha) as (j & -> & ?). exists j. split; [done|lia].
    + rewrite Hd. unfold channel_stream. cbn. by rewrite (delivered_at_S _ k f).
  - exists n. split; [lia|]. split; cbn; try done. by rewrite app_nil_r.
Qed.

Lemma inv_emit_ack c s n :
  channel_inv c s n ->
  channel_inv (mkChannel (ch_tx c) (ch_rx c) (ch_net c)
                 (ReliableRxBuffer.next_expected_id (ch_rx c) :: ch_acks c)
                 (ch_pushed c) (ch_delivered c)) s n.
Proof.
  intros [Htx Hok Hs Hrx Hb Hl Hnet Hacks Hd]. split; cbn; try done.
  intros a Ha. apply elem_of_cons in Ha as [->|Ha]; [|by apply Hacks].
  exists n. split; [|lia]. by rewrite Hrx.
Qed.

(** An acknowledgement the receiver has emitted names a position between [base]
    and [n], or is older than [base] and is refused. *)
Lemma ack_step_position s n j :
  window_ok wsize s -> zlen (SendWindow.stream s) < two32 ->
  SendWindow.base s <= Z.of_nat n -> Z.of_nat n <= SendWindow.limit s -> (j <= n)%nat ->
  let s' := (SendWindow.ack s (ack_position start s (id_of start (Z.of_nat j)))).1 in
  window_ok wsize s' /\ SendWindow.stream s' = SendWindow.stream s /\
  SendWindow.limit s' = SendWindow.limit s /\
  SendWindow.base s' = Z.max (SendWindow.base s) (Z.of_nat j).
Proof.
  intros Hok Hsmall Hb Hl Hj s'.
  assert (Hpos : SendWindow.base s <= ack_position start s (id_of start (Z.of_nat j)))
    by (unfold ack_position; pose proof (wrapping_sub_range (id_of start (Z.of_nat j))
          (id_of start (SendWindow.base s))) as Hr; unfold is_u32 in Hr; lia).
  split; [by apply ack_window_ok|]. destruct Hok as [? ? ? ? ?].
  destruct (Z.le_gt_cases (SendWindow.base s) (Z.of_nat j)) as [Hge|Hlt].
  - assert (Hp : ack_position start s (id_of start (Z.of_nat j)) = Z.of_nat j)
      by (unfold ack_position, id_of; rewrite wrapping_sub_pos; lia).
    subst s'. rewrite Hp. unfold SendWindow.ack. rewrite (Z.max_r (SendWindow.base s)) by lia.
    destruct (Z.eqb_spec (Z.of_nat j) (SendWindow.base s)); [by case_bool|].
    replace (Z.of_nat j <=? SendWindow.limit s) with true by (symmetry; apply Z.leb_le; lia). done.
  - assert (Hp : ack_position start s (id_of start (Z.of_nat j)) = Z.of_nat j + two32)
      by (unfold ack_position, id_of, two32 in *; clear -Hlt Hsmall Hb Hl wo_stream; word).
    subst s'. rewrite Hp. unfold SendWindow.ack. rewrite (Z.max_l (SendWindow.base s)) by lia.
    replace (_ =? _) with false by (symmetry; apply Z.eqb_neq; lia).
    replace (_ <=? _) with false by (symmetry; apply Z.leb_gt; lia). done.
Qed.

Lemma inv_ack c s n a tx' b :
  zlen (channel_stream c) < two32 ->
  channel_inv c s n -> a ∈ ch_acks c ->
  ReliableTxBuffer.acknowledge (ch_tx c) a = Ok (tx', b) ->
  channel_inv (mkChannel tx' (ch_rx c) (ch_net c) (ch_acks c) (ch_pushed c) (ch_delivered c))
    (SendWindow.ack s (ack_position start s a)).1 n.
Proof.
  intros Hsmall [Htx Hok Hs Hrx Hb Hl Hnet Hacks Hd] Ha Hack.
  destruct (Hacks a Ha) as (j & -> & Hj).
  rewrite Htx, ack_represents in Hack by (done || apply wrap32_range). inv_ok.
  destruct (ack_step_position s n j) as (Hok' & Hs' & Hl' & Hb'); try done; [by rewrite Hs|].
  split; cbn; try done.
  - by rewrite Hs'.
  - rewrite Hb'. lia.
  - by rewrite Hl'.
  - intros id f Hf. rewrite Hl'. by apply Hnet.
Qed.

Lemma inv_timeout c s n :
  channel_inv c s n ->
  channel_inv (mkChannel (ReliableTxBuffer.resend_all (ch_tx c)) (ch_rx c) (ch_net c) (ch_acks c)
                 (ch_pushed c) (ch_delivered c)) (SendWindow.resend s) n.
Proof.
  intros [Htx Hok Hs Hrx Hb Hl Hnet Hacks Hd]. split; cbn; try done.
  - by rewrite Htx.
  - by apply resend_window_ok.
Qed.

(** Pushed packets only accumulate, so a bound at the end holds throughout. *)
Lemma step_stream_mono c c' :
  channel_step c c' -> zlen (channel_stream c) <= zlen (channel_stream c').
Proof.
  destruct 1; unfold channel_stream; cbn; try lia.
  rewrite fragment_stream_app, zlen_app by done. pose proof (zlen_nonneg (fragment_stream fs [p])). lia.
Qed.

Lemma step_inv c c' s n :
  zlen (channel_stream c') < two32 -> channel_inv c s n -> channel_step c c' ->
  exists s' n', channel_inv c' s' n'.
Proof.
  intros Hsmall Hinv Hstep. pose proof (step_stream_mono _ _ Hstep). destruct Hstep.
  - eexists _, _. by eapply (inv_push _ _ _ _ _ Hinv).
  - eexists _, _. by eapply (inv_send _ _ _ _ _ _ Hinv).
  - destruct (inv_deliver (mkChannel tx rx net acks ps ds) s n id f rx' o) as (n' & _ & ?); try done; try lia.
    by eexists _, _.
  - eexists _, _. by apply (inv_emit_ack _ _ _ Hinv).
  - eexists _, _. by eapply (inv_ack (mkChannel tx rx net acks ps ds) s n a tx' b).
  - eexists _, _. by apply (inv_timeout _ _ _ Hinv).
Qed.

Lemma reachable_inv c :
  channel_reachable c -> zlen (channel_stream c) < two32 -> exists s n, channel_inv c s n.
Proof.
  intros (c0 & Hinit & Hsteps). revert c Hsteps.
  refine (rtc_ind_r (fun c => zlen (channel_stream c) < two32 -> exists s n, channel_inv c s n) c0 _ _).
  - intros _. eexists _, _. by apply channel_inv_init.
  - intros c1 c2 _ Hstep IH Hsmall. pose proof (step_stream_mono _ _ Hstep).
    destruct IH as (s & n & Hinv); [lia|]. by eapply step_inv.
Qed.

(** *** Progress: one more fragment can always be delivered *)

(** An acknowledgement of position [n] and a timeout bring the sender back to [n]. *)
Lemma reach_rewound c s n :
  zlen (channel_stream c) < two32 -> channel_inv c s n ->
  exists c' s', rtc channel_step c c' /\ ch_pushed c' = ch_pushed c /\ channel_inv c' s' n /\
    SendWindow.base s' = Z.of_nat n /\ SendWindow.next s' = Z.of_nat n.
Proof.
  intros Hsmall Hinv. destruct c as [tx rx net acks ps ds].
  pose proof (inv_emit_ack _ _ _ Hinv) as Hinv1. cbn [ch_tx ch_rx ch_net ch_acks ch_pushed ch_delivered] in *.
  set (a := ReliableRxBuffer.next_expected_id rx) in *.
  pose proof Hinv as [Htx Hok Hs Hrx Hb Hl _ _ _]. cbn in Htx, Hs, Hrx.
  assert (Ha : a = id_of start (Z.of_nat n)) by (unfold a; by rewrite Hrx).
  assert (Hau : is_u32 a) by (rewrite Ha; apply wrap32_range).
  pose proof (ack_represents start fs wsize Hwsize s a Hok Hau) as Hack. rewrite <- Htx in Hack.
  assert (Hina : a ∈ a :: acks) by apply list_elem_of_here.
  pose proof (inv_ack (mkChannel tx rx net (a :: acks) ps ds) s n a _ _ Hsmall Hinv1 Hina Hack) as Hinv2.
  destruct (ack_step_position s n n) as (_ & _ & _ & Hb2); try done; [by rewrite Hs|].
  rewrite <- Ha, Z.max_r in Hb2 by done.
  eexists _, _. split; [|split; [|split; [exact (inv_timeout _ _ _ Hinv2)|done]]]; [|done].
  eapply rtc_l; [apply step_emit_ack|]. eapply rtc_l; [by eapply (step_ack _ _ _ _ _ _ _ a)|].
  eapply rtc_l; [apply step_timeout|]. apply rtc_refl.
Qed.

Lemma pop_at_base s n f :
  SendWindow.base s = Z.of_nat n -> SendWindow.next s = Z.of_nat n ->
  SendWindow.stream s !! n = Some f ->
  SendWindow.pop wsize s =
    (SendWindow.mk (SendWindow.stream s) (Z.of_nat n) (Z.of_nat n + 1)
       (Z.max (SendWindow.limit s) (Z.of_nat n + 1)) (SendWindow.dups s), Some (Z.of_nat n, f)).
Proof.
  intros Hb Hn Hf. unfold SendWindow.pop. rewrite Hb, Hn, Nat2Z.id, Hf.
  by replace (Z.of_nat n <? Z.of_nat n + wsize) with true by (symmetry; apply Z.ltb_lt; lia).
Qed.

Lemma reach_delivered c s n :
  zlen (channel_stream c) < two32 -> channel_inv c s n -> (n < length (channel_stream c))%nat ->
  SendWindow.base s = Z.of_nat n -> SendWindow.next s = Z.of_nat n ->
  exists c' s', rtc channel_step c c' /\ ch_pushed c' = ch_pushed c /\ channel_inv c' s' (S n).
Proof.
  intros Hsmall Hinv Hn Hbase Hnext. destruct c as [tx rx net acks ps ds].
  pose proof Hinv as [Htx Hok Hs Hrx _ _ _ _ _].
  cbn [ch_tx ch_rx ch_net ch_acks ch_pushed ch_delivered] in *.
  destruct (lookup_lt_is_Some_2 _ n Hn) as [f Hf].
  destruct (pop_represents start fs wsize Hwsize s Hok) as [Hsend _]. rewrite <- Htx in Hsend.
  assert (Hpop := pop_at_base s n f Hbase Hnext ltac:(rewrite Hs; exact Hf)).
  rewrite Hpop in Hsend. cbn [fst snd number fmap option_fmap option_map] in Hsend.
  pose proof (inv_send _ _ _ _ _ _ Hinv Hsend) as Hinv'. rewrite Hpop in Hinv'.
  destruct (ReliableRxBuffer.receive rx (id_of start (Z.of_nat n)) (fragment_ref_from f)) as [rx' o] eqn:Hrecv.
  pose proof Hrecv as Hrecv'. unfold channel_stream in Hf.
  rewrite Hrx in Hrecv'. unfold channel_stream in Hrecv'.
  rewrite (rx_receive_position fs Hfs start _ n n f), Nat.eqb_refl in Hrecv'
    by (done || unfold two32; lia). injection Hrecv' as <- <-.
  eexists (mkChannel _ _ _ _ ps _), _. split; [|split; [done|]].
  - eapply rtc_l; [apply step_send; exact Hsend|].
    eapply rtc_l; [|apply rtc_refl]. eapply step_deliver; [apply list_elem_of_here|exact Hrecv].
  - destruct Hinv' as [Htx' Hok' Hs' _ Hb' Hl' Hnet' Hacks' Hd']. split; cbn in *; try done.
    + cbn. lia.
    + cbn. lia.
    + intros a Ha. destruct (Hacks' a Ha) as (j & -> & ?). exists j. split; [done|lia].
    + rewrite Hd'. unfold channel_stream. cbn. by rewrite (delivered_at_S _ n f).
Qed.

Lemma reach_all c s n :
  zlen (channel_stream c) < two32 -> channel_inv c s n ->
  exists c', rtc channel_step c c' /\ ch_pushed c' = ch_pushed c /\ ch_delivered c' = ch_pushed c.
Proof.
  intros Hsmall. remember (length (channel_stream c) - n)%nat as m eqn:Hm.
  revert c s n Hm Hsmall. induction m as [|m IH]; intros c s n Hm Hsmall Hinv.
  - exists c. split; [apply rtc_refl|]. split; [done|].
    destruct Hinv as [_ _ _ _ _ _ _ _ ->]. apply (delivered_at_all fs Hfs). unfold channel_stream in Hm. lia.
  - destruct (reach_rewound c s n Hsmall Hinv) as (c1 & s1 & Hc1 & Hp1 & Hinv1 & Hb1 & Hn1).
    assert (Hst1 : channel_stream c1 = channel_stream c) by (unfold channel_stream; by rewrite Hp1).
    destruct (reach_delivered c1 s1 n) as (c2 & s2 & Hc2 & Hp2 & Hinv2); try done;
      [by rewrite Hst1 | rewrite Hst1; lia|].
    assert (Hst2 : channel_stream c2 = channel_stream c) by (unfold channel_stream; by rewrite Hp2, Hp1).
    destruct (IH c2 s2 (S n)) as (c3 & Hc3 & Hp3 & Hd3); [rewrite Hst2; lia|by rewrite Hst2|done|].
    exists c3. rewrite Hp3, Hd3, Hp2, Hp1. split; [|done].
    etransitivity; [exact Hc1|]. by etransitivity.
Qed.
End Channel.

(** ** Properties of the channel *)

(** C15: whatever the network loses, duplicates, delays or reorders, the packets the
    receiver has delivered are a prefix of the packets pushed: no packet is
    corrupted, duplicated, reordered or invented. *)
Theorem delivered_prefix `{BuildProfile} start fs wsize c :
  is_u32 start -> 0 < fs -> 0 < wsize < two32 ->
  channel_reachable start fs wsize c ->
  zlen (fragment_stream fs (ch_pushed c)) < two32 ->
  ch_delivered c `prefix_of` ch_pushed c.
Proof.
  intros Hst Hfs Hw Hr Hsmall. destruct (reachable_inv start fs wsize Hst Hfs Hw c Hr Hsmall) as (s & n & Hinv).
  destruct Hinv as [_ _ _ _ _ _ _ _ ->]. by apply delivered_at_prefix.
Qed.

(** C25: The sender never discards what the receiver still needs.  Whatever a network that loses,
    repeats, delays and reorders fragments and acknowledgements does, and as long as fewer than
    2^32 fragments are pushed, the sender's buffer holds, in order, all fragments pushed from
    some position [m] on; the receiver has accepted the first [n >= m] of them, expects the
    [n]-th next, and has delivered the packets that those complete. *)
Theorem no_unreceived_discarded `{BuildProfile} start fs wsize c :
  is_u32 start -> 0 < fs -> 0 < wsize < two32 ->
  channel_reachable start fs wsize c ->
  zlen (fragment_stream fs (ch_pushed c)) < two32 ->
  exists m n, (m <= n)%nat /\
    ReliableTxBuffer.fragments (ch_tx c) = drop m (fragment_stream fs (ch_pushed c)) /\
    ReliableRxBuffer.next_fragment_id (ch_rx c) = wrap32 (start + Z.of_nat n) /\
    ch_delivered c = delivered_at (fragment_stream fs (ch_pushed c)) n.
Proof.
  intros Hst Hfs Hw Hr Hsmall. destruct (reachable_inv start fs wsize Hst Hfs Hw c Hr Hsmall) as (s & n & Hinv).
  destruct Hinv as [Htx Hok Hs Hrx Hb Hl _ _ Hd].
  exists (Z.to_nat (SendWindow.base s)), n. rewrite Htx, Hrx, Hd. cbn. rewrite Hs.
  destruct Hok. repeat split; lia || done.
Qed.

(** In a reachable channel no call on the buffers faults: every push and every
    acknowledgement the receiver ever emitted (duplicate and stale ones included)
    is processed without a panic. *)
Theorem channel_calls_succeed `{BuildProfile} start fs wsize c :
  is_u32 start -> 0 < fs -> 0 < wsize < two32 ->
  channel_reachable start fs wsize c ->
  zlen (fragment_stream fs (ch_pushed c)) < two32 ->
  (forall p, exists tx', ReliableTxBuffer.push (ch_tx c) p = Ok tx') /\
  (forall a, a ∈ ch_acks c -> exists tx' b, ReliableTxBuffer.acknowledge (ch_tx c) a = Ok (tx', b)).
Proof.
  intros Hst Hfs Hw Hr Hsmall. destruct (reachable_inv start fs wsize Hst Hfs Hw c Hr Hsmall) as (s & n & Hinv).
  destruct Hinv as [Htx Hok _ _ _ _ _ Hacks _]. rewrite Htx. split.
  - intros p. eexists. by apply push_represents.
  - intros a Ha. destruct (Hacks a Ha) as (j & -> & _). eexists _, _.
    apply ack_represents; try done. apply wrap32_range.
Qed.

(** C26: from every reachable state the channel can still deliver everything that was
    pushed (no deadlock): some continuation without new pushes delivers it all. *)
Theorem delivery_possible `{BuildProfile} start fs wsize c :
  is_u32 start -> 0 < fs -> 0 < wsize < two32 ->
  channel_reachable start fs wsize c ->
  zlen (fragment_stream fs (ch_pushed c)) < two32 ->
  exists c', rtc channel_step c c' /\ ch_pushed c' = ch_pushed c /\ ch_delivered c' = ch_pushed c.
Proof.
  intros Hst Hfs Hw Hr Hsmall. destruct (reachable_inv start fs wsize Hst Hfs Hw c Hr Hsmall) as (s & n & Hinv).
  by eapply reach_all.
Qed.

(** ** Witnesses: a connection whose ids wrap, with reordering and duplication *)

(** A two-fragment packet starting at id [2^32 - 1]; the second fragment overtakes
    the first, is delivered again after it, and is acknowledged. *)
Lemma example_channel :
  exists c, channel_reachable (H := true) 4294967295 2 4 c /\
    ch_pushed c = [[7; 8; 9]] /\ ch_delivered c = [[7; 8; 9]] /\ ch_acks c = [1; 0].
Proof.
  eexists. split.
  - eexists. split; [eexists _, _; split; [vm_compute; reflexivity|split; [reflexivity|reflexivity]]|].
    eapply rtc_l; [eapply (step_push _ _ _ _ _ _ _ [7; 8; 9]); vm_compute; reflexivity|].
    eapply rtc_l; [eapply step_send; vm_compute; reflexivity|].
    eapply rtc_l; [eapply step_send; vm_compute; reflexivity|].
    eapply rtc_l; [eapply step_deliver; [apply list_elem_of_here|reflexivity]|].
    eapply rtc_l; [eapply step_deliver; [apply list_elem_of_further, list_elem_of_here|reflexivity]|].
    eapply rtc_l; [apply step_emit_ack|].
    eapply rtc_l; [eapply step_deliver; [apply list_elem_of_here|reflexivity]|].
    eapply rtc_l; [apply step_emit_ack|].
    eapply rtc_l; [eapply step_ack; [apply list_elem_of_here|reflexivity]|].
    eapply rtc_l; [eapply step_deliver; [apply list_elem_of_here|reflexivity]|].
    apply rtc_refl.
  - repeat split; vm_compute; reflexivity.
Qed.

Lemma delivered_prefix_witness :
  exists c, channel_reachable (H := true) 4294967295 2 4 c /\ ch_delivered c = [[7; 8; 9]] /\
    zlen (fragment_stream 2 (ch_pushed c)) < two32 /\ ch_delivered c `prefix_of` ch_pushed c.
Proof.
  destruct example_channel as (c & Hr & Hp & Hd & _). exists c.
  assert (Hs : zlen (fragment_stream 2 (ch_pushed c)) < two32) by (rewrite Hp; vm_compute; done).
  split; [exact Hr|]. split; [exact Hd|]. split; [exact Hs|].
  apply (delivered_prefix (H := true) 4294967295 2 4 c); try assumption; unfold is_u32, two32; lia.
Defined.

Lemma no_unreceived_discarded_witness :
  exists c, channel_reachable (H := true) 4294967295 2 4 c /\
    exists m n, (m <= n)%nat /\
      ReliableTxBuffer.fragments (ch_tx c) = drop m (fragment_stream 2 (ch_pushed c)) /\
      ReliableRxBuffer.next_fragment_id (ch_rx c) = wrap32 (4294967295 + Z.of_nat n) /\
      ch_delivered c = delivered_at (fragment_stream 2 (ch_pushed c)) n.
Proof.
  destruct example_channel as (c & Hr & Hp & Hd & _). exists c. split; [exact Hr|].
  apply (no_unreceived_discarded (H := true) 4294967295 2 4 c); try assumption;
    [unfold is_u32, two32; lia|lia|unfold two32; lia|rewrite Hp; vm_compute; done].
Defined.

Lemma channel_calls_succeed_witness :
  exists c, channel_reachable (H := true) 4294967295 2 4 c /\ ch_acks c = [1; 0] /\
    (forall p, exists tx', ReliableTxBuffer.push (ch_tx c) p = Ok tx') /\
    (forall a, a ∈ ch_acks c ->
       exists tx' b, ReliableTxBuffer.acknowledge (H := true) (ch_tx c) a = Ok (tx', b)).
Proof.
  destruct example_channel as (c & Hr & Hp & _ & Ha). exists c. split; [exact Hr|]. split; [exact Ha|].
  apply (channel_calls_succeed (H := true) 4294967295 2 4 c); try assumption;
    [unfold is_u32, two32; lia|lia|unfold two32; lia|rewrite Hp; vm_compute; done].
Defined.

Lemma delivery_possible_witness :
  exists c, channel_reachable (H := true) 4294967295 2 4 c /\
    exists c', rtc (channel_step (H := true)) c c' /\ ch_pushed c' = ch_pushed c /\
      ch_delivered c' = ch_pushed c.
Proof.
  destruct example_channel as (c & Hr & Hp & _ & _). exists c. split; [exact Hr|].
  apply (delivery_possible (H := true) 4294967295 2 4 c); try assumption;
    [unfold is_u32, two32; lia|lia|unfold two32; lia|rewrite Hp; vm_compute; done].
Defined.
