(* ===== verification/Unreliable.v ===== *)
(** * The unreliable fragment buffers (src/src/buffer/unreliable.rs)

    [UnreliableTxBuffer] queues fragments with an expiry time and numbers them as
    they are sent; [UnreliableRxBuffer] reassembles a packet only from consecutive
    ids that begin with a first fragment. *)

From S2P Require Import Prelude.
From S2P Require Import Word.
From S2P Require Import Fragment.

Module UnreliableTxBuffer.
Record TxEntry : Set := mkTxEntry { fragment : FragmentRc; expire_time_ms : Z }.

Record TxBuffer : Set := mkTxBuffer {
  fragments : list TxEntry;
  next_fragment_id : Z;
  fragment_size : Z
}.

Definition new (base_id fragment_size : Z) : outcome TxBuffer :=
  _ ← assert_ (0 <? fragment_size);
  Ok {| fragments := []; next_fragment_id := base_id; fragment_size := fragment_size |}.

Definition push (self : TxBuffer) (packet : list Z) (expire_time_ms : Z) : outcome TxBuffer :=
  fragments' ← push_loop (fun f => mkTxEntry f expire_time_ms) (push_fuel packet) (fragments self)
                 packet (fragment_size self) (zlen packet) 0 true;
  Ok {| fragments := fragments';
        next_fragment_id := next_fragment_id self;
        fragment_size := fragment_size self |}.

(** The [while let] loop of [pop_expired] on the deque. *)
Fixpoint pop_expired_loop (fragments : list TxEntry) (now_ms : Z) : list TxEntry :=
  match fragments with
  | entry :: rest => if expire_time_ms entry <=? now_ms then pop_expired_loop rest now_ms else fragments
  | [] => []
  end.

Definition pop_expired (self : TxBuffer) (now_ms : Z) : TxBuffer :=
  {| fragments := pop_expired_loop (fragments self) now_ms;
     next_fragment_id := next_fragment_id self;
     fragment_size := fragment_size self |}.

Definition peek_sendable (self : TxBuffer) : option (Z * FragmentRc) :=
  match fragments self with
  | entry :: _ => Some (next_fragment_id self, fragment entry)
  | [] => None
  end.

Definition pop_sendable (self : TxBuffer) : TxBuffer * option (Z * FragmentRc) :=
  match fragments self with
  | entry :: rest =>
      let fragment_id := next_fragment_id self in
      ({| fragments := rest;
          next_fragment_id := wrapping_add (next_fragment_id self) 1;
          fragment_size := fragment_size self |},
       Some (fragment_id, fragment entry))
  | [] => (self, None)
  end.
End UnreliableTxBuffer.

Module UnreliableRxBuffer.
Record RxBuffer : Set := mkRxBuffer {
  fragment_size : Z;
  base_id : Z;
  current_build : option (list Z)
}.

Definition new (base_id fragment_size : Z) : outcome RxBuffer :=
  _ ← assert_ (0 <? fragment_size);
  Ok {| fragment_size := fragment_size; base_id := base_id; current_build := None |}.

Definition fragment_is_valid (fragment : FragmentRef) (fragment_size : Z) : bool :=
  if fr_last fragment && (fragment_size <? zlen (fr_data fragment)) then false
  else if negb (fr_last fragment) && negb (zlen (fr_data fragment) =? fragment_size) then false
  else true.

Definition receive (self : RxBuffer) (fragment_id : Z) (fragment : FragmentRef) :
    RxBuffer * option (list Z) :=
  if fragment_is_valid fragment (fragment_size self) then
    if fr_first fragment then
      if fr_last fragment then
        ({| fragment_size := fragment_size self;
            base_id := wrapping_add fragment_id 1;
            current_build := None |}, Some (fr_data fragment))
      else
        ({| fragment_size := fragment_size self;
            base_id := wrapping_add fragment_id 1;
            current_build := Some (fr_data fragment) |}, None)
    else if fragment_id =? base_id self then
      match current_build self with
      | Some buffer =>
          let buffer' := buffer ++ fr_data fragment in
          if fr_last fragment then
            ({| fragment_size := fragment_size self;
                base_id := wrapping_add fragment_id 1;
                current_build := None |}, Some buffer')
          else
            ({| fragment_size := fragment_size self;
                base_id := wrapping_add fragment_id 1;
                current_build := Some buffer' |}, None)
      | None => (self, None)
      end
    else (self, None)
  else (self, None).

Definition reset (self : RxBuffer) : RxBuffer :=
  {| fragment_size := fragment_size self; base_id := base_id self; current_build := None |}.
End UnreliableRxBuffer.
