(* ===== verification/UnreliableChannel.v ===== *)
(** * The unreliable channel end to end

    The sender runs any sequence of pushes, expiries and sends; the segment layer
    delivers a subsequence of the sent fragments in order; the receiver may also be
    reset at any point (a resynchronisation).  [unreliable_delivered_sublist]: every
    packet the receiver delivers is a packet that was pushed, whole, and deliveries
    keep the push order without repetition, although packets may be cut off by
    expiry in the middle and ids are not tied to packets. *)

From S2P Require Import Prelude.
From S2P Require Import Word.
From S2P Require Import Fragment.
From S2P Require Import Reliable.
From S2P Require Import ReliableFacts.
From S2P Require Import Unreliable.

Import UnreliableTxBuffer(TxEntry, mkTxEntry).

Inductive utx_op : Set :=
| UPush (packet : list Z) (expire_time_ms : Z)
| UExpire (now_ms : Z)
| USend.

(** Running the sender: the fragments it puts on the wire, with their ids. *)
Fixpoint utx_run (t : UnreliableTxBuffer.TxBuffer) (ops : list utx_op) :
    outcome (UnreliableTxBuffer.TxBuffer * list (Z * FragmentRc)) :=
  match ops with
  | [] => Ok (t, [])
  | UPush p e :: ops => t' ← UnreliableTxBuffer.push t p e; utx_run t' ops
  | UExpire now :: ops => utx_run (UnreliableTxBuffer.pop_expired t now) ops
  | USend :: ops =>
      let '(t', o) := UnreliableTxBuffer.pop_sendable t in
      '(t'', wire) ← utx_run t' ops;
      Ok (t'', option_list o ++ wire)
  end.

Definition utx_pushed (ops : list utx_op) : list (list Z) :=
  omap (fun op => match op with UPush p _ => Some p | _ => None end) ops.

Inductive urx_event : Set :=
| UGot (id : Z) (f : FragmentRc)
| UReset.

Fixpoint urx_run (r : UnreliableRxBuffer.RxBuffer) (evs : list urx_event) :
    UnreliableRxBuffer.RxBuffer * list (list Z) :=
  match evs with
  | [] => (r, [])
  | UGot id f :: evs =>
      let '(r', o) := UnreliableRxBuffer.receive r id (fragment_ref_from f) in
      let '(r'', ds) := urx_run r' evs in
      (r'', option_list o ++ ds)
  | UReset :: evs => urx_run (UnreliableRxBuffer.reset r) evs
  end.

Definition urx_got (evs : list urx_event) : list (Z * FragmentRc) :=
  omap (fun ev => match ev with UGot id f => Some (id, f) | UReset => None end) evs.

Lemma utx_run_app ops : forall t ops' t1 w1 t2 w2, utx_run t ops = Ok (t1, w1) -> utx_run t1 ops' = Ok (t2, w2) ->
  utx_run t (ops ++ ops') = Ok (t2, w1 ++ w2).
Proof.
  induction ops as [|[p e|now|] ops IH]; intros t ops' t1 w1 t2 w2; cbn [utx_run app].
  - by intros [= <- <-] ->.
  - intros (t' & -> & Hr)%outcome_bind_Ok H2. cbn [mbind outcome_bind]. by eapply IH.
  - apply IH.
  - destruct (UnreliableTxBuffer.pop_sendable t) as [t' o]. intros ([t3 w3] & Hr & [= <- <-])%outcome_bind_Ok H2.
    rewrite (IH _ _ _ _ _ _ Hr H2). cbn [mbind outcome_bind]. by rewrite app_assoc.
Qed.

Lemma utx_pushed_app l k : utx_pushed (l ++ k) = utx_pushed l ++ utx_pushed k.
Proof. apply omap_app. Qed.

Lemma urx_run_app evs : forall r evs', urx_run r (evs ++ evs') =
  ((urx_run (urx_run r evs).1 evs').1, (urx_run r evs).2 ++ (urx_run (urx_run r evs).1 evs').2).
Proof.
  induction evs as [|[id f|] evs IH]; intros r evs'; cbn [urx_run app fst snd];
    [by rewrite <- surjective_pairing| |apply IH].
  destruct (UnreliableRxBuffer.receive r id (fragment_ref_from f)) as [r' o]. rewrite IH.
  destruct (urx_run r' evs) as [r1 d1]. cbn [fst snd]. by rewrite app_assoc.
Qed.

Lemma urx_got_app l k : urx_got (l ++ k) = urx_got l ++ urx_got k.
Proof. apply omap_app. Qed.

(** ** Tags: which packet, and which fragment of it, sits at a wire position *)

Definition tag : Set := (nat * Z).

(** On the wire a fragment is followed by the next one of its packet, or by the
    first one of a later packet. *)
Definition follows (a b : tag) : Prop :=
  (b.1 = a.1 /\ b.2 = a.2 + 1) \/ ((a.1 < b.1)%nat /\ b.2 = 0).

Section Tags.
Context (fs : Z) (Hfs : 0 < fs).

Definition tag_fragment (ps : list (list Z)) (t : tag) (f : FragmentRc) : Prop :=
  exists p, ps !! t.1 = Some p /\ 0 <= t.2 < fragment_count fs p /\ f = fragment_at fs p t.2.

Lemma tag_fragment_app ps qs t f : tag_fragment ps t f -> tag_fragment (ps ++ qs) t f.
Proof. intros (p & Hp & Hr & ->). exists p. split; [by apply lookup_app_l_Some|done]. Qed.

(** The tags of a packet's fragments. *)
Definition packet_tags (i : nat) (p : list Z) : list tag :=
  (fun k => (i, k)) <$> seqZ 0 (fragment_count fs p).

Lemma packet_tags_head i p : exists ts, packet_tags i p = (i, 0) :: ts.
Proof.
  destruct (fragment_count_bounds fs Hfs p) as (? & _). unfold packet_tags.
  rewrite seqZ_cons by lia. cbn. eauto.
Qed.

Lemma packet_tags_lookup i p k tg :
  packet_tags i p !! k = Some tg -> tg = (i, Z.of_nat k) /\ Z.of_nat k < fragment_count fs p.
Proof.
  unfold packet_tags. intros Hk. apply list_lookup_fmap_Some in Hk as (z & -> & Hk).
  apply lookup_seqZ in Hk as [-> ?]. split; [f_equal; lia|lia].
Qed.

(** A list of tags in wire order. *)
Definition chain (l : list tag) : Prop :=
  forall k a b, l !! k = Some a -> l !! S k = Some b -> follows a b.

Lemma chain_packet i p : chain (packet_tags i p).
Proof.
  intros k a b Ha Hb. apply packet_tags_lookup in Ha as [-> _], Hb as [-> _].
  left. cbn. lia.
Qed.

Lemma chain_app l k :
  chain (l ++ k) <->
  chain l /\ chain k /\ (forall a b, last l = Some a -> head k = Some b -> follows a b).
Proof.
  split.
  - intros Hc. split; [|split].
    + intros i a b Ha Hb. apply (Hc i); by apply lookup_app_l_Some.
    + intros i a b Ha Hb. apply (Hc (length l + i)%nat); [|rewrite <- Nat.add_succ_r];
        rewrite lookup_app_r by lia; [rewrite <- Ha | rewrite <- Hb]; f_equal; lia.
    + intros a b Ha Hb. rewrite last_lookup in Ha. rewrite head_lookup in Hb.
      pose proof (lookup_lt_Some _ _ _ Ha) as Hlt.
      apply (Hc (pred (length l))); [by apply lookup_app_l_Some|].
      rewrite lookup_app_r by lia. rewrite <- Hb. f_equal. lia.
  - intros (Hl & Hk & Hj) i a b Ha Hb.
    apply lookup_app_Some in Ha as [Ha|[Hi Ha]], Hb as [Hb|[Hi' Hb]].
    + by eapply Hl.
    + pose proof (lookup_lt_Some _ _ _ Ha). apply Hj.
      * rewrite last_lookup. rewrite <- Ha. f_equal. lia.
      * rewrite head_lookup. rewrite <- Hb. f_equal. lia.
    + pose proof (lookup_lt_Some _ _ _ Hb). lia.
    + apply (Hk (i - length l)%nat); [done|]. rewrite <- Hb. f_equal. lia.
Qed.

(** Along a chain tags grow lexicographically. *)
Definition tag_lt (a b : tag) : Prop := (a.1 < b.1)%nat \/ (a.1 = b.1 /\ a.2 < b.2).

Lemma chain_lt l i j a b :
  chain l -> (i < j)%nat -> l !! i = Some a -> l !! j = Some b -> tag_lt a b.
Proof.
  intros Hc Hij Ha. revert b. induction Hij as [|j Hij IH]; intros b Hb.
  - destruct (Hc i a b Ha Hb) as [[? ?]|[? ?]]; [right|left]; lia.
  - pose proof (lookup_lt_Some _ _ _ Hb).
    destruct (lookup_lt_is_Some_2 l j) as [c Hcj]; [lia|].
    specialize (IH c Hcj). unfold tag_lt in *.
    destruct (Hc j c b Hcj Hb) as [[? ?]|[? ?]]; lia.
Qed.

(** Dropping a run [r] from the front of the queue keeps the chain when the run
    ends at a packet boundary. *)
Lemma chain_drop_run ws r q :
  chain (ws ++ r ++ q) ->
  (forall y h, last r = Some y -> head q = Some h -> y.1 <> h.1) ->
  chain (ws ++ q).
Proof.
  intros Hc Hb. destruct (last r) as [y|] eqn:Hy; [|apply last_None in Hy as ->; done].
  pose proof Hc as Hc'. apply chain_app in Hc' as (Hw & Hrq & Hwr).
  apply chain_app in Hrq as (_ & Hq & Hrq). apply chain_app. split; [done|]. split; [done|].
  intros x h Hx Hh. specialize (Hb y h eq_refl Hh). specialize (Hrq y h Hy Hh).
  assert (Hxy : tag_lt x y).
  { rewrite last_lookup in Hx, Hy. pose proof (lookup_lt_Some _ _ _ Hx).
    pose proof (lookup_lt_Some _ _ _ Hy).
    apply (chain_lt _ (pred (length ws)) (length ws + pred (length r)) x y Hc); [lia|..].
    - by apply lookup_app_l_Some.
    - rewrite lookup_app_r by lia. apply lookup_app_l_Some. rewrite <- Hy. f_equal. lia. }
  right. unfold tag_lt in Hxy. destruct Hrq as [[? ?]|[? ?]]; lia.
Qed.
End Tags.

(** ** The sender keeps the wire in tag order *)

Section Sender.
Context (start fs : Z) (Hfs : 0 < fs).

Definition queued (ps : list (list Z)) (es : list Z) (tg : tag) (e : TxEntry) : Prop :=
  tag_fragment fs ps tg (UnreliableTxBuffer.fragment e) /\
  es !! tg.1 = Some (UnreliableTxBuffer.expire_time_ms e).

Record utx_inv (ps : list (list Z)) (es : list Z) (t : UnreliableTxBuffer.TxBuffer)
    (ws qs : list tag) : Prop := {
  ui_fs : UnreliableTxBuffer.fragment_size t = fs;
  ui_next : UnreliableTxBuffer.next_fragment_id t = wrap32 (start + Z.of_nat (length ws));
  ui_queue : Forall2 (queued ps es) qs (UnreliableTxBuffer.fragments t);
  ui_chain : chain (ws ++ qs);
  ui_bound : Forall (fun tg => (tg.1 < length ps)%nat) (ws ++ qs);
  ui_expiry : length es = length ps
}.

Lemma queued_app ps es p e tg x : queued ps es tg x -> queued (ps ++ [p]) (es ++ [e]) tg x.
Proof. intros [Ht He]. split; [by apply tag_fragment_app|by apply lookup_app_l_Some]. Qed.

Lemma packet_queued ps es p e :
  length es = length ps ->
  Forall2 (queued (ps ++ [p]) (es ++ [e])) (packet_tags fs (length ps) p)
    ((fun f => mkTxEntry f e) <$> fragment_packet fs p).
Proof.
  intros Hlen. unfold packet_tags, fragment_packet. rewrite <- list_fmap_compose.
  apply Forall2_fmap, Forall_Forall2_diag, Forall_forall. intros k Hk.
  apply elem_of_seqZ in Hk. split; cbn.
  - exists p. split; [by rewrite list_lookup_middle|]. split; [cbn; lia|done].
  - by rewrite list_lookup_middle.
Qed.

Lemma push_inv ps es t ws qs p e :
  utx_inv ps es t ws qs ->
  exists t', UnreliableTxBuffer.push t p e = Ok t' /\
    utx_inv (ps ++ [p]) (es ++ [e]) t' ws (qs ++ packet_tags fs (length ps) p).
Proof.
  intros [Hf Hn Hq Hc Hb He]. unfold UnreliableTxBuffer.push. rewrite Hf, push_loop_spec by done.
  eexists. split; [reflexivity|]. split; cbn; try done.
  - apply Forall2_app; [|by apply packet_queued].
    eapply Forall2_impl; [exact Hq|]. intros. by apply queued_app.
  - rewrite app_assoc. apply chain_app. split; [done|]. split; [apply chain_packet|].
    intros a b Ha Hh. destruct (packet_tags_head fs Hfs (length ps) p) as [ts Hts].
    rewrite Hts in Hh. injection Hh as <-. right. cbn. split; [|done].
    rewrite Forall_forall in Hb. apply Hb. by apply last_Some_elem_of.
  - rewrite app_assoc. apply Forall_app. split.
    + eapply Forall_impl; [exact Hb|]. intros tg Htg. cbn in Htg |- *. rewrite length_app. lia.
    + apply Forall_forall. intros tg Htg. apply list_elem_of_fmap in Htg as (k & -> & _).
      rewrite length_app. cbn. lia.
  - rewrite !length_app. cbn. lia.
Qed.

Lemma unreliable_send_inv ps es t ws qs :
  utx_inv ps es t ws qs ->
  match UnreliableTxBuffer.pop_sendable t with
  | (t', Some (id, f)) => exists tg qs',
      qs = tg :: qs' /\ id = wrap32 (start + Z.of_nat (length ws)) /\ tag_fragment fs ps tg f /\
      utx_inv ps es t' (ws ++ [tg]) qs'
  | (t', None) => t' = t
  end.
Proof.
  intros [Hf Hn Hq Hc Hb He]. unfold UnreliableTxBuffer.pop_sendable.
  destruct (UnreliableTxBuffer.fragments t) as [|e rest] eqn:Ef; [done|].
  inversion Hq as [|tg ? qs' ? [Htg ?] Hrest]; subst.
  exists tg, qs'. split; [done|]. split; [done|]. split; [done|].
  split; cbn; try done.
  - rewrite Hn, wrapping_add_pos, length_app. cbn. f_equal. lia.
  - by rewrite <- app_assoc.
  - by rewrite <- app_assoc.
Qed.

Lemma pop_expired_split now l :
  exists r, l = r ++ UnreliableTxBuffer.pop_expired_loop l now /\
    Forall (fun e => UnreliableTxBuffer.expire_time_ms e <= now) r /\
    (forall e, head (UnreliableTxBuffer.pop_expired_loop l now) = Some e ->
               now < UnreliableTxBuffer.expire_time_ms e).
Proof.
  induction l as [|e l IH]; [by exists []|]. cbn. case_bool.
  - destruct IH as (r & Hl & Hr & Hh). exists (e :: r). cbn. rewrite <- Hl. split; [done|].
    split; [by constructor|done].
  - exists []. split; [done|]. split; [done|]. cbn. intros ? [= <-]. lia.
Qed.

Lemma expire_inv ps es t ws qs now :
  utx_inv ps es t ws qs ->
  exists qs', utx_inv ps es (UnreliableTxBuffer.pop_expired t now) ws qs'.
Proof.
  intros [Hf Hn Hq Hc Hb He].
  destruct (pop_expired_split now (UnreliableTxBuffer.fragments t)) as (r & Hl & Hr & Hh).
  rewrite Hl in Hq. apply Forall2_app_inv_r in Hq as (rt & qt & Hrt & Hqt & ->).
  exists qt. split; cbn; try done.
  - apply (chain_drop_run ws rt qt Hc). intros y h Hy Hhd Heq.
    rewrite last_lookup in Hy. rewrite head_lookup in Hhd.
    destruct (Forall2_lookup_l _ _ _ _ _ Hrt Hy) as (ey & Hey & [_ Hxy]).
    destruct (Forall2_lookup_l _ _ _ _ _ Hqt Hhd) as (eh & Heh & [_ Hxh]).
    rewrite <- head_lookup in Heh. apply Hh in Heh.
    rewrite Forall_lookup in Hr. apply Hr in Hey. rewrite Heq in Hxy. rewrite Hxy in Hxh.
    injection Hxh as Hxh. lia.
  - apply Forall_app in Hb as [? Hb]. apply Forall_app in Hb as [? ?]. by apply Forall_app.
Qed.

(** What the wire carries: position [k] has id [start + k], and its fragment
    carries the [k]-th tag of a chain. *)
Definition wire_tagged (ps : list (list Z)) (ws : list tag) (n : nat) (wire : list (Z * FragmentRc)) : Prop :=
  forall k w, wire !! k = Some w ->
    w.1 = wrap32 (start + Z.of_nat (n + k)) /\
    exists tg, ws !! (n + k)%nat = Some tg /\ tag_fragment fs ps tg w.2.

Lemma utx_run_tagged ops : forall ps es t ws qs,
  utx_inv ps es t ws qs ->
  exists t' wire ws', utx_run t ops = Ok (t', wire) /\ chain ws' /\ ws `prefix_of` ws' /\
    wire_tagged (ps ++ utx_pushed ops) ws' (length ws) wire.
Proof.
  induction ops as [|op ops IH]; intros ps es t ws qs Hinv.
  - exists t, [], ws. split; [done|]. split; [|split; [done|by intros k w Hk]].
    destruct Hinv as [_ _ _ Hc _ _]. by apply chain_app in Hc as [? _].
  - destruct op as [p e|now|]; cbn [utx_run].
    + destruct (push_inv ps es t ws qs p e Hinv) as (t' & -> & Hinv').
      destruct (IH _ _ _ _ _ Hinv') as (t'' & wire & ws' & Hrun & Hc & Hp & Hw).
      exists t'', wire, ws'. rewrite <- app_assoc in Hw. done.
    + destruct (expire_inv ps es t ws qs now Hinv) as (qs' & Hinv').
      by apply (IH _ _ _ _ _ Hinv').
    + pose proof (unreliable_send_inv ps es t ws qs Hinv) as Hs.
      destruct (UnreliableTxBuffer.pop_sendable t) as [t' [[id f]|]].
      * destruct Hs as (tg & qs' & -> & -> & Htg & Hinv').
        destruct (IH _ _ _ _ _ Hinv') as (t'' & wire & ws' & Hrun & Hc & Hp & Hw).
        exists t'', ((wrap32 (start + Z.of_nat (length ws)), f) :: wire), ws'.
        rewrite Hrun. split; [done|]. split; [done|].
        split; [etransitivity; [|exact Hp]; by apply prefix_app_r|].
        intros [|k] w Hk; cbn in Hk.
        -- injection Hk as <-. cbn. rewrite Nat.add_0_r. split; [done|]. exists tg.
           split; [|by apply tag_fragment_app].
           eapply prefix_lookup_Some; [|exact Hp]. by rewrite list_lookup_middle.
        -- rewrite <- Nat.add_succ_comm. destruct (Hw k w Hk) as [Hid Ht].
           rewrite length_app, Nat.add_1_r in Hid, Ht. done.
      * subst t'. destruct (IH _ _ _ _ _ Hinv) as (t'' & wire & ws' & Hrun & Hc & Hp & Hw).
        exists t'', wire, ws'. by rewrite Hrun.
Qed.
End Sender.

(** ** The receiver never mixes packets *)

Section Receiver.
Context (start fs : Z) (Hfs : 0 < fs).
Context (ps : list (list Z)) (ws : list tag) (wire : list (Z * FragmentRc)).
Context (Hchain : chain ws) (Htagged : wire_tagged start fs ps ws 0 wire).
Context (Hsmall : zlen wire < two32).

(** After the receiver has seen (some of) the first [m] wire positions: the
    packets delivered come in order from the first [c] pushed, no later packet
    starts before [c], and a build in progress holds the fragments of one packet up
    to wire position [k]. *)
Definition building (m : nat) (c : nat) (r : UnreliableRxBuffer.RxBuffer) (buf : list Z) : Prop :=
  exists k i j p, (k < m)%nat /\ (c <= i)%nat /\
    UnreliableRxBuffer.base_id r = wrap32 (start + Z.of_nat (S k)) /\
    ws !! k = Some (i, j) /\ ps !! i = Some p /\ 0 <= j /\ j + 1 < fragment_count fs p /\
    buf = take (Z.to_nat ((j + 1) * fs)) p.

Record urx_inv (m : nat) (r : UnreliableRxBuffer.RxBuffer) (ds : list (list Z)) (c : nat) : Prop := {
  ri_fs : UnreliableRxBuffer.fragment_size r = fs;
  ri_sub : ds `sublist_of` take c ps;
  ri_next : forall k tg, (m <= k)%nat -> ws !! k = Some tg -> tg.2 = 0 -> (c <= tg.1)%nat;
  ri_build : forall buf, UnreliableRxBuffer.current_build r = Some buf -> building m c r buf
}.

Lemma sublist_take_mono {A} (l : list A) n m : (n <= m)%nat -> take n l `sublist_of` take m l.
Proof.
  intros Hnm. replace (take n l) with (take n (take m l)) by (rewrite take_take; f_equal; lia).
  apply sublist_take.
Qed.

Lemma building_mono m m' c r buf : (m <= m')%nat -> building m c r buf -> building m' c r buf.
Proof. intros Hm (k & i & j & p & ? & ?). exists k, i, j, p. split; [lia|done]. Qed.

Lemma urx_inv_skip m m' r ds c : (m <= m')%nat -> urx_inv m r ds c -> urx_inv m' r ds c.
Proof.
  intros Hm [? ? Hn Hb]. split; try done.
  - intros k tg Hk. apply Hn. lia.
  - intros buf Hbuf. eapply building_mono; [exact Hm|by apply Hb].
Qed.

(** Delivering packet [i], whose last fragment is at position [k]. *)
Lemma urx_inv_deliver m k i j p ds c r :
  (c <= i)%nat -> ds `sublist_of` take c ps -> ws !! k = Some (i, j) -> ps !! i = Some p -> 0 <= j ->
  UnreliableRxBuffer.fragment_size r = fs -> UnreliableRxBuffer.current_build r = None ->
  (k < m)%nat -> urx_inv m r (ds ++ [p]) (S i).
Proof.
  intros Hci Hsub Hk Hp Hj Hrf Hnone Hkm. split; [done| | |].
  - rewrite (take_S_r _ _ p) by done. apply sublist_app; [|done].
    etransitivity; [exact Hsub|]. by apply sublist_take_mono.
  - intros k' tg Hk' Htg Hfirst.
    destruct (chain_lt ws k k' (i, j) tg Hchain) as [|[? ?]]; cbn in *; try done; lia.
  - intros buf Hb. congruence.
Qed.

Lemma urx_receive m r ds c k id f :
  urx_inv m r ds c -> (m <= k)%nat -> wire !! k = Some (id, f) ->
  exists c', urx_inv (S k) (UnreliableRxBuffer.receive r id (fragment_ref_from f)).1
    (ds ++ option_list (UnreliableRxBuffer.receive r id (fragment_ref_from f)).2) c'.
Proof.
  intros Hinv Hmk Hw. destruct (Htagged k _ Hw) as (Hid & [i j] & Hk & p & Hp & Hr & Hf).
  cbn in Hid, Hk, Hp, Hr, Hf. subst id f.
  pose proof (lookup_lt_Some _ _ _ Hw) as Hlen.
  pose proof Hinv as [Hrf Hsub Hnext Hbuild]. unfold UnreliableRxBuffer.receive.
  change UnreliableRxBuffer.fragment_is_valid with ReliableRxBuffer.fragment_is_valid.
  rewrite Hrf, fragment_at_valid by done.
  pose proof (assemble_step_at fs Hfs p j Hr) as Has. unfold assemble_step in Has.
  change (fr_first (fragment_ref_from (fragment_at fs p j))) with (j =? 0).
  change (fr_last (fragment_ref_from (fragment_at fs p j))) with (j =? fragment_count fs p - 1) in *.
  assert (Hskip : urx_inv (S k) r (ds ++ []) c)
    by (rewrite app_nil_r; eapply urx_inv_skip; [|exact Hinv]; lia).
  assert (Hgrow : forall buf base, (c <= i)%nat -> base = wrap32 (start + Z.of_nat (S k)) ->
    j + 1 < fragment_count fs p -> build_at fs p (j + 1) = Some buf ->
    urx_inv (S k) (UnreliableRxBuffer.mkRxBuffer fs base (Some buf)) (ds ++ []) c).
  { intros buf base Hci -> Hj Hb. destruct Hskip as [_ Hs Hn _]. split; cbn; try done.
    intros ? [= <-]. exists k, i, j, p. unfold build_at in Hb.
    replace (j + 1 =? 0) with false in Hb by (symmetry; apply Z.eqb_neq; lia).
    injection Hb as <-. repeat split; try done; lia. }
  assert (Hid : wrapping_add (wrap32 (start + Z.of_nat k)) 1 = wrap32 (start + Z.of_nat (S k)))
    by (rewrite wrapping_add_pos; f_equal; lia).
  rewrite Hid. destruct (Z.eqb_spec j 0) as [->|Hj0].
  - (* a first fragment *)
    assert (Hci : (c <= i)%nat) by exact (Hnext k (i, 0) Hmk Hk eq_refl).
    change (build_at fs p 0) with (@None (list Z)) in Has. revert Has. cbn [default app]. case_bool; intros Has.
    + assert (Hdata : fr_data (fragment_ref_from (fragment_at fs p 0)) = p) by congruence.
      exists (S i). cbn [fst snd option_list]. rewrite Hdata. eapply (urx_inv_deliver _ k i 0 p ds c); try done; lia.
    + exists c. apply Hgrow; try done; [lia|congruence].
  - destruct (Z.eqb_spec (wrap32 (start + Z.of_nat k)) (UnreliableRxBuffer.base_id r)) as [He|];
      [|by exists c].
    destruct (UnreliableRxBuffer.current_build r) as [buf|] eqn:Eb; [|by exists c].
    destruct (Hbuild buf eq_refl) as (k0 & i0 & j0 & p0 & Hk0 & Hci & Hb & Hk0' & Hp0 & Hj0' & Hlt & ->).
    rewrite Hb in He. apply wrap32_pos_inj in He; [|unfold zlen in Hsmall; lia].
    assert (k = S k0) as -> by lia.
    destruct (Hchain k0 _ _ Hk0' Hk) as [[Hi Hj]|[_ ?]]; [cbn [fst snd] in Hi, Hj; subst i0 j|done].
    simplify_eq.
    assert (Hb0 : default [] (build_at fs p (j0 + 1)) = take (Z.to_nat ((j0 + 1) * fs)) p).
    { unfold build_at. by replace (j0 + 1 =? 0) with false by (symmetry; apply Z.eqb_neq; lia). }
    rewrite Hb0 in Has. revert Has. case_bool; intros Has.
    + assert (Hdata : take (Z.to_nat ((j0 + 1) * fs)) p ++
        fr_data (fragment_ref_from (fragment_at fs p (j0 + 1))) = p) by congruence.
      exists (S i). cbn [fst snd option_list]. rewrite Hdata.
      eapply (urx_inv_deliver _ (S k0) i (j0 + 1) p ds c); try done; lia.
    + exists c. apply Hgrow; try done; [lia|congruence].
Qed.

(** One event, whether or not the fragment at wire position [k] is the next one. *)
Lemma urx_inv_reset m r ds c : urx_inv m r ds c -> urx_inv m (UnreliableRxBuffer.reset r) ds c.
Proof. intros []. by split. Qed.

Lemma urx_run_inv evs : forall m r ds c,
  urx_inv m r ds c -> urx_got evs `sublist_of` drop m wire ->
  exists m' c', urx_inv m' (urx_run r evs).1 (ds ++ (urx_run r evs).2) c'.
Proof.
  induction evs as [|[id f|] evs IH]; intros m r ds c Hinv Hsub; cbn [urx_run].
  - exists m, c. by rewrite app_nil_r.
  - cbn in Hsub. apply sublist_cons_l in Hsub as (l1 & l2 & Hdrop & Hsub).
    assert (Hw : wire !! (m + length l1)%nat = Some (id, f))
      by (rewrite <- lookup_drop, Hdrop; by apply list_lookup_middle).
    destruct (urx_receive m r ds c (m + length l1) id f Hinv ltac:(lia) Hw) as (c' & Hinv').
    destruct (UnreliableRxBuffer.receive r id (fragment_ref_from f)) as [r' o]. cbn [fst snd] in *.
    assert (Hl2 : drop (S (m + length l1)) wire = l2).
    { replace (S (m + length l1)) with (m + (length l1 + 1))%nat by lia.
      rewrite <- drop_drop, Hdrop, <- drop_drop, drop_app_length. done. }
    rewrite <- Hl2 in Hsub. destruct (IH _ _ _ _ Hinv' Hsub) as (m' & c'' & Hfin).
    exists m', c''. destruct (urx_run r' evs). cbn [fst snd] in *. by rewrite app_assoc.
  - destruct (IH m _ ds c (urx_inv_reset _ _ _ _ Hinv) Hsub) as (m' & c' & ?). by exists m', c'.
Qed.
End Receiver.

(** The sender sends no more fragments than its packets have. *)
Lemma utx_run_count fs : 0 < fs -> forall ops t t' wire, UnreliableTxBuffer.fragment_size t = fs ->
  utx_run t ops = Ok (t', wire) ->
  zlen wire + zlen (UnreliableTxBuffer.fragments t') <=
  zlen (UnreliableTxBuffer.fragments t) + zlen (fragment_stream fs (utx_pushed ops)).
Proof.
  intros Hfs. induction ops as [|[p e|now|] ops IH]; intros t t' wire Ht; cbn [utx_run].
  - intros [= <- <-]. change (zlen (@nil (Z * FragmentRc))) with 0.
    change (zlen (fragment_stream fs (utx_pushed []))) with 0. lia.
  - intros (t1 & Hp & Hr)%outcome_bind_Ok. unfold UnreliableTxBuffer.push in Hp.
    rewrite Ht, push_loop_spec in Hp by done. injection Hp as <-. apply IH in Hr; [|done]. cbn in Hr.
    change (utx_pushed (UPush p e :: ops)) with ([p] ++ utx_pushed ops).
    rewrite fragment_stream_app, fragment_stream_singleton, zlen_app.
    rewrite zlen_app in Hr. unfold zlen in *. rewrite length_fmap in Hr. lia.
  - intros Hr. apply IH in Hr; [|done]. cbn in Hr. destruct (pop_expired_split now (UnreliableTxBuffer.fragments t))
      as (r & Hl & _).
    rewrite Hl, zlen_app. pose proof (zlen_nonneg r). change (utx_pushed (UExpire now :: ops))
      with (utx_pushed ops). lia.
  - change (utx_pushed (USend :: ops)) with (utx_pushed ops). unfold UnreliableTxBuffer.pop_sendable.
    destruct (UnreliableTxBuffer.fragments t) as [|en rest] eqn:Ef; intros ([t3 w3] & Hr & [= <- <-])%outcome_bind_Ok.
    + apply IH in Hr; [|done]. rewrite Ef in Hr. done.
    + apply IH in Hr; [|done]. cbn [UnreliableTxBuffer.fragments option_list option_rect] in *.
      cbn [app]. rewrite !zlen_cons. lia.
Qed.

(** Both sides of a run, from new buffers. *)
Lemma runs_sublist start fs ops evs :
  0 < fs -> is_u32 start ->
  exists t wire, utx_run (UnreliableTxBuffer.mkTxBuffer [] start fs) ops = Ok (t, wire) /\
    (zlen wire < two32 -> urx_got evs `sublist_of` wire ->
     (urx_run (UnreliableRxBuffer.mkRxBuffer fs start None) evs).2 `sublist_of` utx_pushed ops).
Proof.
  intros Hfs Hstart. assert (Hinit : utx_inv start fs [] [] (UnreliableTxBuffer.mkTxBuffer [] start fs) [] []).
  { split; cbn; try done. rewrite Z.add_0_r. symmetry. by apply wrap32_small. }
  destruct (utx_run_tagged start fs Hfs ops _ _ _ _ _ Hinit) as (t & wire & ws & Hrun & Hchain & _ & Hw).
  exists t, wire. split; [done|]. intros Hsmall Hgot.
  assert (Hr : urx_inv start fs (utx_pushed ops) ws 0 (UnreliableRxBuffer.mkRxBuffer fs start None) [] 0)
    by (split; cbn; try done; lia).
  destruct (urx_run_inv start fs Hfs _ _ _ Hchain Hw Hsmall evs _ _ _ _ Hr Hgot) as (m & c & Hfin).
  cbn in Hfin. etransitivity; [exact (ri_sub _ _ _ _ _ _ _ _ Hfin)|]. apply sublist_take.
Qed.

(** Whatever fragments expire or are lost, every packet the unreliable receive
    buffer delivers is one that was pushed, whole, in the order of the pushes and at
    most once; and the sender's run never faults. *)
Theorem unreliable_delivered_sublist start fs ops evs :
  0 < fs -> is_u32 start ->
  exists tx rx t wire,
    UnreliableTxBuffer.new start fs = Ok tx /\ UnreliableRxBuffer.new start fs = Ok rx /\
    utx_run tx ops = Ok (t, wire) /\
    (zlen wire < two32 -> urx_got evs `sublist_of` wire ->
     (urx_run rx evs).2 `sublist_of` utx_pushed ops).
Proof.
  intros Hfs Hstart. unfold UnreliableTxBuffer.new, UnreliableRxBuffer.new, assert_.
  replace (0 <? fs) with true by (symmetry; by apply Z.ltb_lt). cbn [mbind outcome_bind].
  destruct (runs_sublist start fs ops evs Hfs Hstart) as (t & wire & Hrun & Hd).
  do 4 eexists. split; [reflexivity|]. split; [reflexivity|]. by split.
Qed.

(** Two packets of two fragments each; the second fragment of the first expires, the
    receiver is reset in between, and only the second packet is delivered. *)
Definition unreliable_ops : list utx_op :=
  [UPush [1; 2; 3] 10; USend; UPush [4; 5; 6] 20; UExpire 15; USend; USend].
Definition unreliable_evs : list urx_event :=
  [UGot 4294967295 (fragment_at 2 [1; 2; 3] 0); UReset;
   UGot 0 (fragment_at 2 [4; 5; 6] 0); UGot 1 (fragment_at 2 [4; 5; 6] 1)].

Lemma unreliable_delivered_sublist_witness :
  (exists tx rx t wire,
    UnreliableTxBuffer.new 4294967295 2 = Ok tx /\ UnreliableRxBuffer.new 4294967295 2 = Ok rx /\
    utx_run tx unreliable_ops = Ok (t, wire) /\
    (zlen wire < two32 -> urx_got unreliable_evs `sublist_of` wire ->
     (urx_run rx unreliable_evs).2 `sublist_of` utx_pushed unreliable_ops)) /\
  (urx_run (UnreliableRxBuffer.mkRxBuffer 2 4294967295 None) unreliable_evs).2 = [[4; 5; 6]].
Proof.
  split; [|vm_compute; reflexivity].
  apply (unreliable_delivered_sublist 4294967295 2); [lia|unfold is_u32, two32; lia].
Defined.
