(* ===== verification/Crc.v ===== *)
(** * The frame checksum (src/src/frame/serial/crc.rs)

    [extend] is the table-driven CRC-32 the program runs; [extend_slow] the bitwise
    definition from the polynomial.  They agree on every input ([extend_is_slow]).
    The shift register is linear, so checksums of two messages differ by the
    [syndrome] of their difference.  It is invertible, so error bursts of up to four
    bytes are always detected ([crc_detects_burst]); and the code of messages with
    their checksum has distance at least four ([crc_distance]). *)

From S2P Require Import Prelude.
From S2P Require Import Word.

Definition INITIAL_CRC : Z := 0.
Definition SIZE : Z := 4.
Definition POLYNOMIAL : Z := 0x9960034c.

(** [!x] on a [u32]. *)
Definition not32 (x : Z) : Z := Z.lxor x U32_MAX.

(** ** The bitwise definition *)

Definition shift_bit (reg : Z) : Z :=
  if negb (Z.land reg 1 =? 0) then Z.lxor (Z.shiftr reg 1) POLYNOMIAL else Z.shiftr reg 1.

(** [for _ in 0..n] *)
Fixpoint shift_bits (n : nat) (reg : Z) : Z :=
  match n with
  | O => reg
  | S n => shift_bits n (shift_bit reg)
  end.

Definition extend_slow (initial_crc : Z) (data : list Z) : Z :=
  not32 (foldl (fun reg byte => shift_bits 8 (Z.lxor reg byte)) (not32 initial_crc) data).

(** ** The table-driven definition *)

Definition PARTIAL_RESULTS : list Z := [
  0x548843e7; 0x9ad08156; 0xfaf9c01c; 0x34a102ad; 0x3aab4288; 0xf4f38039; 0x94dac173; 0x5a8203c2;
  0x88ce4139; 0x46968388; 0x26bfc2c2; 0xe8e70073; 0xe6ed4056; 0x28b582e7; 0x489cc3ad; 0x86c4011c;
  0xdec440c2; 0x109c8273; 0x70b5c339; 0xbeed0188; 0xb0e741ad; 0x7ebf831c; 0x1e96c256; 0xd0ce00e7;
  0x0282421c; 0xccda80ad; 0xacf3c1e7; 0x62ab0356; 0x6ca14373; 0xa2f981c2; 0xc2d0c088; 0x0c880239;
  0x72d04334; 0xbc888185; 0xdca1c0cf; 0x12f9027e; 0x1cf3425b; 0xd2ab80ea; 0xb282c1a0; 0x7cda0311;
  0xae9641ea; 0x60ce835b; 0x00e7c211; 0xcebf00a0; 0xc0b54085; 0x0eed8234; 0x6ec4c37e; 0xa09c01cf;
  0xf89c4011; 0x36c482a0; 0x56edc3ea; 0x98b5015b; 0x96bf417e; 0x58e783cf; 0x38cec285; 0xf6960034;
  0x24da42cf; 0xea82807e; 0x8aabc134; 0x44f30385; 0x4af943a0; 0x84a18111; 0xe488c05b; 0x2ad002ea;
  0x18384241; 0xd66080f0; 0xb649c1ba; 0x7811030b; 0x761b432e; 0xb843819f; 0xd86ac0d5; 0x16320264;
  0xc47e409f; 0x0a26822e; 0x6a0fc364; 0xa45701d5; 0xaa5d41f0; 0x64058341; 0x042cc20b; 0xca7400ba;
  0x92744164; 0x5c2c83d5; 0x3c05c29f; 0xf25d002e; 0xfc57400b; 0x320f82ba; 0x5226c3f0; 0x9c7e0141;
  0x4e3243ba; 0x806a810b; 0xe043c041; 0x2e1b02f0; 0x201142d5; 0xee498064; 0x8e60c12e; 0x4038039f;
  0x3e604292; 0xf0388023; 0x9011c169; 0x5e4903d8; 0x504343fd; 0x9e1b814c; 0xfe32c006; 0x306a02b7;
  0xe226404c; 0x2c7e82fd; 0x4c57c3b7; 0x820f0106; 0x8c054123; 0x425d8392; 0x2274c2d8; 0xec2c0069;
  0xb42c41b7; 0x7a748306; 0x1a5dc24c; 0xd40500fd; 0xda0f40d8; 0x14578269; 0x747ec323; 0xba260192;
  0x686a4369; 0xa63281d8; 0xc61bc092; 0x08430223; 0x06494206; 0xc81180b7; 0xa838c1fd; 0x6660034c;
  0xcde840ab; 0x03b0821a; 0x6399c350; 0xadc101e1; 0xa3cb41c4; 0x6d938375; 0x0dbac23f; 0xc3e2008e;
  0x11ae4275; 0xdff680c4; 0xbfdfc18e; 0x7187033f; 0x7f8d431a; 0xb1d581ab; 0xd1fcc0e1; 0x1fa40250;
  0x47a4438e; 0x89fc813f; 0xe9d5c075; 0x278d02c4; 0x298742e1; 0xe7df8050; 0x87f6c11a; 0x49ae03ab;
  0x9be24150; 0x55ba83e1; 0x3593c2ab; 0xfbcb001a; 0xf5c1403f; 0x3b99828e; 0x5bb0c3c4; 0x95e80175;
  0xebb04078; 0x25e882c9; 0x45c1c383; 0x8b990132; 0x85934117; 0x4bcb83a6; 0x2be2c2ec; 0xe5ba005d;
  0x37f642a6; 0xf9ae8017; 0x9987c15d; 0x57df03ec; 0x59d543c9; 0x978d8178; 0xf7a4c032; 0x39fc0283;
  0x61fc435d; 0xafa481ec; 0xcf8dc0a6; 0x01d50217; 0x0fdf4232; 0xc1878083; 0xa1aec1c9; 0x6ff60378;
  0xbdba4183; 0x73e28332; 0x13cbc278; 0xdd9300c9; 0xd39940ec; 0x1dc1825d; 0x7de8c317; 0xb3b001a6;
  0x8158410d; 0x4f0083bc; 0x2f29c2f6; 0xe1710047; 0xef7b4062; 0x212382d3; 0x410ac399; 0x8f520128;
  0x5d1e43d3; 0x93468162; 0xf36fc028; 0x3d370299; 0x333d42bc; 0xfd65800d; 0x9d4cc147; 0x531403f6;
  0x0b144228; 0xc54c8099; 0xa565c1d3; 0x6b3d0362; 0x65374347; 0xab6f81f6; 0xcb46c0bc; 0x051e020d;
  0xd75240f6; 0x190a8247; 0x7923c30d; 0xb77b01bc; 0xb9714199; 0x77298328; 0x1700c262; 0xd95800d3;
  0xa70041de; 0x6958836f; 0x0971c225; 0xc7290094; 0xc92340b1; 0x077b8200; 0x6752c34a; 0xa90a01fb;
  0x7b464300; 0xb51e81b1; 0xd537c0fb; 0x1b6f024a; 0x1565426f; 0xdb3d80de; 0xbb14c194; 0x754c0325;
  0x2d4c42fb; 0xe314804a; 0x833dc100; 0x4d6503b1; 0x436f4394; 0x8d378125; 0xed1ec06f; 0x234602de;
  0xf10a4025; 0x3f528294; 0x5f7bc3de; 0x9123016f; 0x9f29414a; 0x517183fb; 0x3158c2b1; 0xff000000
].

(** The table has 256 entries, so the [u8] index is always in range
    ([partial_results_length]). *)
Definition extend (initial_crc : Z) (data : list Z) : Z :=
  foldl (fun crc byte =>
    Z.lxor (Z.shiftr crc 8) (PARTIAL_RESULTS !!! Z.to_nat (Z.lxor (crc mod two8) byte)))
    initial_crc data.

Definition compute (data : list Z) : Z := extend INITIAL_CRC data.

Example crc_check_value :
  compute [0x31; 0x32; 0x33; 0x34; 0x35; 0x36; 0x37; 0x38; 0x39] = 0x11a6f2a3.
Proof. vm_compute. reflexivity. Qed.

(** ** Bits *)

Lemma lxor_range n a b : 0 <= n -> 0 <= a < 2 ^ n -> 0 <= b < 2 ^ n -> 0 <= Z.lxor a b < 2 ^ n.
Proof.
  intros Hn Ha Hb. split; [apply Z.lxor_nonneg; lia|].
  destruct (Z.eq_dec (Z.lxor a b) 0) as [->|Hz]; [lia|].
  assert (0 <= Z.lxor a b) by (apply Z.lxor_nonneg; lia).
  apply Z.log2_lt_pow2; [lia|].
  pose proof (Z.log2_lxor a b ltac:(lia) ltac:(lia)).
  assert (Z.log2 a < n \/ a = 0) as Hla by (destruct (Z.eq_dec a 0); [by right|left; apply Z.log2_lt_pow2; lia]).
  assert (Z.log2 b < n \/ b = 0) as Hlb by (destruct (Z.eq_dec b 0); [by right|left; apply Z.log2_lt_pow2; lia]).
  destruct (Z.eq_dec n 0) as [->|]; [cbn in *; assert (a = 0) by lia; assert (b = 0) by lia; subst; done|].
  destruct Hla as [?| ->], Hlb as [?| ->]; cbn in *; lia.
Qed.

Lemma lxor_u32 a b : is_u32 a -> is_u32 b -> is_u32 (Z.lxor a b).
Proof. apply (lxor_range 32). lia. Qed.

Lemma lxor_u8 a b : is_u8 a -> is_u8 b -> is_u8 (Z.lxor a b).
Proof. apply (lxor_range 8). lia. Qed.

Lemma u8_u32 a : is_u8 a -> is_u32 a.
Proof. unfold is_u8, is_u32, two8, two32. lia. Qed.

Lemma shiftr_u32 a k : 0 <= k -> is_u32 a -> is_u32 (Z.shiftr a k).
Proof.
  unfold is_u32. intros Hk Ha. rewrite Z.shiftr_div_pow2 by done.
  assert (0 < 2 ^ k) by lia. split; [apply Z.div_pos; lia|].
  apply Z.le_lt_trans with a; [apply Z.div_le_upper_bound; nia|lia].
Qed.

(** A register step in terms of bit 0. *)
Lemma shift_bit_eq x : shift_bit x = Z.lxor (Z.shiftr x 1) (if Z.testbit x 0 then POLYNOMIAL else 0).
Proof.
  unfold shift_bit. rewrite Z.bit0_odd.
  replace (Z.land x 1) with (x mod 2) by (symmetry; exact (Z.land_ones x 1 ltac:(lia))).
  rewrite Zmod_odd. destruct (Z.odd x); cbn [negb Z.eqb]; [done|]. by rewrite Z.lxor_0_r.
Qed.

Lemma shift_bit_lxor x y : shift_bit (Z.lxor x y) = Z.lxor (shift_bit x) (shift_bit y).
Proof.
  rewrite !shift_bit_eq, Z.shiftr_lxor, Z.lxor_spec.
  apply Z.bits_inj'. intros n _.
  destruct (Z.testbit x 0), (Z.testbit y 0); cbn [xorb]; rewrite !Z.lxor_spec, ?Z.bits_0;
    destruct (Z.testbit (Z.shiftr x 1) n), (Z.testbit (Z.shiftr y 1) n), (Z.testbit POLYNOMIAL n); done.
Qed.

Lemma shift_bits_lxor n x y : shift_bits n (Z.lxor x y) = Z.lxor (shift_bits n x) (shift_bits n y).
Proof. revert x y. induction n as [|n IH]; intros x y; cbn; [done|]. by rewrite shift_bit_lxor. Qed.

Lemma shift_bits_add n m x : shift_bits (n + m) x = shift_bits m (shift_bits n x).
Proof. revert x. induction n as [|n IH]; intros x; cbn; [done|]. apply IH. Qed.

(** Shifting in zeros meets no feedback. *)
Lemma shift_bits_shiftl n y : shift_bits n (Z.shiftl y (Z.of_nat n)) = y.
Proof.
  induction n as [|n IH]; [apply Z.shiftl_0_r|]. cbn [shift_bits]. rewrite <- IH at 2. f_equal.
  rewrite shift_bit_eq, (Z.shiftl_spec_low y (Z.of_nat (S n)) 0) by lia.
  change (if false then POLYNOMIAL else 0) with 0.
  rewrite Z.lxor_0_r, Z.shiftr_shiftl_l by lia. do 2 f_equal. lia.
Qed.

Lemma shift_byte_shiftl y : shift_bits 8 (Z.shiftl y 8) = y.
Proof. exact (shift_bits_shiftl 8 y). Qed.

Lemma shift_bit_u32 x : is_u32 x -> is_u32 (shift_bit x).
Proof.
  intros Hx. rewrite shift_bit_eq. apply lxor_u32; [apply shiftr_u32; [lia|done]|].
  unfold is_u32, POLYNOMIAL, two32. case_bool; lia.
Qed.

Lemma shift_bits_u32 n x : is_u32 x -> is_u32 (shift_bits n x).
Proof. revert x. induction n as [|n IH]; intros x Hx; cbn; [done|]. by apply IH, shift_bit_u32. Qed.

(** Eight steps: the high bytes move down, the low byte goes through the feedback. *)
Lemma split_low_byte x : x = Z.lxor (Z.shiftl (Z.shiftr x 8) 8) (x mod two8).
Proof.
  change two8 with (2 ^ 8). rewrite <- Z.land_ones by lia. apply Z.bits_inj'. intros n Hn.
  rewrite Z.lxor_spec, Z.land_spec. destruct (Z.lt_ge_cases n 8).
  - rewrite Z.shiftl_spec_low, Z.ones_spec_low by lia. by rewrite andb_true_r.
  - rewrite Z.shiftl_spec, Z.shiftr_spec, Z.ones_spec_high by lia. rewrite andb_false_r, xorb_false_r.
    f_equal. lia.
Qed.

Lemma shift_byte x : shift_bits 8 x = Z.lxor (Z.shiftr x 8) (shift_bits 8 (x mod two8)).
Proof.
  rewrite (split_low_byte x) at 1. rewrite shift_bits_lxor. f_equal. exact (shift_bits_shiftl 8 _).
Qed.

Lemma partial_results_length : length PARTIAL_RESULTS = 256%nat.
Proof. reflexivity. Qed.

(** Each entry of the table is the complemented register after eight steps. *)
Lemma partial_results_spec i :
  is_u8 i -> PARTIAL_RESULTS !!! Z.to_nat i = Z.lxor 0xff000000 (shift_bits 8 (Z.lxor i 0xff)).
Proof.
  assert (Hall : forallb (fun n => PARTIAL_RESULTS !!! n =?
      Z.lxor 0xff000000 (shift_bits 8 (Z.lxor (Z.of_nat n) 0xff))) (seq 0 256) = true)
    by (vm_compute; reflexivity).
  unfold is_u8, two8. intros Hi. rewrite forallb_forall in Hall.
  specialize (Hall (Z.to_nat i)). rewrite Z2Nat.id in Hall by lia.
  apply Z.eqb_eq, Hall, in_seq. lia.
Qed.

(** ** The two definitions agree *)

Lemma lxor_mod_two8 a b : Z.lxor a b mod two8 = Z.lxor (a mod two8) (b mod two8).
Proof.
  change two8 with (2 ^ 8). rewrite <- !Z.land_ones by lia. apply Z.bits_inj'. intros n _.
  rewrite !Z.land_spec, !Z.lxor_spec, !Z.land_spec.
  destruct (Z.testbit a n), (Z.testbit b n), (Z.testbit (Z.ones 8) n); done.
Qed.

Lemma mod_two8_u8 a : is_u8 (a mod two8).
Proof. apply Z.mod_pos_bound. done. Qed.

Lemma u8_shiftr b : is_u8 b -> Z.shiftr b 8 = 0.
Proof. intros Hb. rewrite Z.shiftr_div_pow2 by lia. by apply Z.div_small. Qed.

Lemma not32_lxor x y : not32 (Z.lxor x y) = Z.lxor (not32 x) y.
Proof. unfold not32. rewrite !Z.lxor_assoc. f_equal. apply Z.lxor_comm. Qed.

Lemma not32_involutive x : not32 (not32 x) = x.
Proof. unfold not32. by rewrite Z.lxor_assoc, Z.lxor_nilpotent, Z.lxor_0_r. Qed.

Lemma not32_cancel x y : Z.lxor (not32 x) (not32 y) = Z.lxor x y.
Proof.
  rewrite <- not32_lxor, (Z.lxor_comm x), <- not32_lxor, not32_involutive. apply Z.lxor_comm.
Qed.

Lemma not32_u32 x : is_u32 x -> is_u32 (not32 x).
Proof. intros Hx. by apply lxor_u32. Qed.

Lemma extend_byte crc byte :
  is_u8 byte ->
  Z.lxor (Z.shiftr crc 8) (PARTIAL_RESULTS !!! Z.to_nat (Z.lxor (crc mod two8) byte)) =
  not32 (shift_bits 8 (Z.lxor (not32 crc) byte)).
Proof.
  intros Hb. rewrite partial_results_spec by (apply lxor_u8; [apply mod_two8_u8|done]).
  rewrite (shift_byte (Z.lxor (not32 crc) byte)), not32_lxor.
  rewrite Z.shiftr_lxor, (u8_shiftr byte Hb), Z.lxor_0_r, <- Z.lxor_assoc. f_equal.
  - unfold not32. rewrite Z.shiftr_lxor, Z.lxor_assoc. f_equal.
  - do 1 f_equal. rewrite lxor_mod_two8. unfold not32. rewrite lxor_mod_two8.
    rewrite (Z.mod_small byte) by exact Hb. change (U32_MAX mod two8) with 0xff.
    rewrite !Z.lxor_assoc. f_equal. apply Z.lxor_comm.
Qed.

Lemma extend_slow_eq crc data : Forall is_u8 data -> extend crc data = extend_slow crc data.
Proof.
  unfold extend, extend_slow. intros Hd. revert crc. induction Hd as [|b data Hb Hd IH]; intros crc.
  - cbn. by rewrite not32_involutive.
  - cbn [foldl]. rewrite (extend_byte crc b Hb), IH, not32_involutive. reflexivity.
Qed.

Lemma extend_u32 crc data : is_u32 crc -> Forall is_u8 data -> is_u32 (extend crc data).
Proof.
  intros Hc Hd. rewrite extend_slow_eq by done. unfold extend_slow. apply not32_u32.
  apply not32_u32 in Hc. revert Hc. generalize (not32 crc).
  induction Hd as [|b data Hb Hd IH]; intros r Hr; cbn [foldl]; [done|].
  apply IH, shift_bits_u32, lxor_u32; [done|by apply u8_u32].
Qed.

(** C31: the table-driven checksum is the bitwise one on every byte string and initial
    value, and stays a 32-bit value. *)
Theorem extend_is_slow crc data :
  is_u32 crc -> Forall is_u8 data -> extend crc data = extend_slow crc data /\ is_u32 (extend crc data).
Proof. intros Hc Hd. split; [by apply extend_slow_eq|by apply extend_u32]. Qed.

Lemma extend_is_slow_witness :
  is_u32 305419896 /\ Forall is_u8 [0; 255; 49] /\
  (extend 305419896 [0; 255; 49] = extend_slow 305419896 [0; 255; 49] /\
   is_u32 (extend 305419896 [0; 255; 49])).
Proof.
  assert (Hd : Forall is_u8 [0; 255; 49]) by (repeat constructor; unfold is_u8, two8; lia).
  split; [unfold is_u32, two32; lia|]. split; [exact Hd|].
  apply (extend_is_slow 305419896 _); [unfold is_u32, two32; lia|exact Hd].
Defined.

(** ** The syndrome of an error pattern

    Two byte strings of the same length have checksums that differ by the syndrome of
    their bytewise difference, and that syndrome is the polynomial remainder of the
    difference read as one little-endian number. *)

Definition diff (a b : list Z) : list Z := zip_with Z.lxor a b.

Fixpoint le_bytes (e : list Z) : Z :=
  match e with
  | [] => 0
  | b :: e => Z.lxor b (Z.shiftl (le_bytes e) 8)
  end.

Definition register (reg : Z) (data : list Z) : Z :=
  foldl (fun reg byte => shift_bits 8 (Z.lxor reg byte)) reg data.

Lemma register_eq e : forall r,
  register r e = shift_bits (8 * length e) (Z.lxor r (le_bytes e)).
Proof.
  induction e as [|b e IH]; intros r.
  - cbn. by rewrite Z.lxor_0_r.
  - cbn [register foldl length le_bytes]. fold (register (shift_bits 8 (Z.lxor r b)) e). rewrite IH.
    replace (8 * S (length e))%nat with (8 + 8 * length e)%nat by lia. rewrite shift_bits_add. f_equal.
    by rewrite <- Z.lxor_assoc, (shift_bits_lxor 8 (Z.lxor r b)), shift_byte_shiftl.
Qed.

Lemma register_diff a b : forall r s, length a = length b ->
  Z.lxor (register r a) (register s b) = register (Z.lxor r s) (diff a b).
Proof.
  revert b. induction a as [|x a IH]; intros [|y b] r s Hl; cbn in Hl; try lia; [done|].
  cbn [diff zip_with register foldl]. etransitivity; [apply IH; lia|]. unfold register, diff. f_equal.
  rewrite <- shift_bits_lxor. f_equal. rewrite !Z.lxor_assoc. f_equal.
  rewrite <- !Z.lxor_assoc. f_equal. apply Z.lxor_comm.
Qed.

Definition syndrome (e : list Z) : Z := shift_bits (8 * length e) (le_bytes e).

Lemma compute_diff a b :
  Forall is_u8 a -> Forall is_u8 b -> length a = length b ->
  Z.lxor (compute a) (compute b) = syndrome (diff a b).
Proof.
  intros Ha Hb Hl. unfold compute. rewrite !extend_slow_eq by done. unfold extend_slow.
  fold (register (not32 INITIAL_CRC) a) (register (not32 INITIAL_CRC) b).
  rewrite not32_cancel, register_diff by done. by rewrite Z.lxor_nilpotent, register_eq, Z.lxor_0_l.
Qed.

(** ** Hamming weight *)

Fixpoint pos_weight (p : positive) : Z :=
  match p with
  | xH => 1
  | xO p => pos_weight p
  | xI p => 1 + pos_weight p
  end.

Definition weight (x : Z) : Z := match x with Zpos p => pos_weight p | _ => 0 end.

(** The number of bits in which two byte strings of the same length differ. *)
Definition hamming (a b : list Z) : Z := foldr Z.add 0 (weight <$> diff a b).

Lemma pos_weight_pos p : 0 < pos_weight p.
Proof. induction p; cbn; lia. Qed.

Lemma weight_nonneg x : 0 <= weight x.
Proof. destruct x as [|p|p]; cbn; [lia|pose proof (pos_weight_pos p); lia|lia]. Qed.

Lemma weight_zero x : 0 <= x -> weight x = 0 -> x = 0.
Proof. destruct x as [|p|p]; cbn; intros; [done|pose proof (pos_weight_pos p); lia|lia]. Qed.

Lemma weight_half x : 0 <= x -> weight x = weight (Z.shiftr x 1) + Z.b2z (Z.testbit x 0).
Proof.
  intros Hx. rewrite <- Z.div2_spec. destruct x as [|[p|p|]|p]; cbn -[Z.add]; lia.
Qed.

Lemma weight_lxor_parity x y :
  0 <= x -> 0 <= y -> Z.odd (weight (Z.lxor x y)) = xorb (Z.odd (weight x)) (Z.odd (weight y)).
Proof.
  assert (Hgen : forall n x y, 0 <= x < 2 ^ Z.of_nat n -> 0 <= y < 2 ^ Z.of_nat n ->
    Z.odd (weight (Z.lxor x y)) = xorb (Z.odd (weight x)) (Z.odd (weight y))).
  { clear x y. induction n as [|n IH]; intros x y Hx Hy.
    - cbn in Hx, Hy. assert (x = 0) as -> by lia. assert (y = 0) as -> by lia. done.
    - assert (0 <= Z.lxor x y) by (apply Z.lxor_nonneg; lia).
      rewrite (weight_half (Z.lxor x y)), (weight_half x), (weight_half y) by lia.
      rewrite Z.shiftr_lxor, Z.lxor_spec, !Z.odd_add.
      rewrite IH by (rewrite Z.shiftr_div_pow2 by lia; change (2 ^ 1) with 2;
        rewrite Nat2Z.inj_succ, Z.pow_succ_r in Hx, Hy by lia; split;
        [apply Z.div_pos; lia | apply Z.div_lt_upper_bound; lia]).
      destruct (Z.testbit x 0), (Z.testbit y 0), (Z.odd (weight (Z.shiftr x 1))),
        (Z.odd (weight (Z.shiftr y 1))); done. }
  intros Hx Hy. apply (Hgen (Z.to_nat (x + y + 1))); (split; [done|]);
    rewrite Z2Nat.id by lia; pose proof (Z.pow_gt_lin_r 2 (x + y + 1)); lia.
Qed.

(** Numbers with disjoint digits. *)
Lemma weight_append k : forall b e, 0 <= b < 2 ^ Z.of_nat k -> 0 <= e ->
  weight (Z.lxor b (Z.shiftl e (Z.of_nat k))) = weight b + weight e.
Proof.
  induction k as [|k IH]; intros b e Hb He.
  - cbn in Hb. assert (b = 0) as -> by lia. by rewrite Z.shiftl_0_r, Z.lxor_0_l.
  - assert (0 <= Z.lxor b (Z.shiftl e (Z.of_nat (S k)))).
    { apply Z.lxor_nonneg. rewrite Z.shiftl_nonneg. lia. }
    rewrite weight_half, (weight_half b) by lia. rewrite Z.shiftr_lxor, Z.lxor_spec.
    rewrite Z.shiftr_shiftl_l, (Z.shiftl_spec_low e (Z.of_nat (S k)) 0), xorb_false_r by lia.
    replace (Z.of_nat (S k) - 1) with (Z.of_nat k) by lia.
    rewrite IH; [lia| |done]. rewrite Z.shiftr_div_pow2 by lia. change (2 ^ 1) with 2.
    rewrite Nat2Z.inj_succ, Z.pow_succ_r in Hb by lia.
    split; [apply Z.div_pos; lia | apply Z.div_lt_upper_bound; lia].
Qed.

Lemma le_bytes_nonneg e : Forall is_u8 e -> 0 <= le_bytes e.
Proof.
  induction 1 as [|b e Hb He IH]; cbn [le_bytes]; [lia|]. apply Z.lxor_nonneg.
  rewrite Z.shiftl_nonneg. unfold is_u8 in Hb. lia.
Qed.

Lemma weight_le_bytes e : Forall is_u8 e -> weight (le_bytes e) = foldr Z.add 0 (weight <$> e).
Proof.
  induction 1 as [|b e Hb He IH]; [done|]. cbn [le_bytes fmap list_fmap foldr]. rewrite <- IH.
  apply (weight_append 8); [exact Hb|by apply le_bytes_nonneg].
Qed.

Lemma le_bytes_bound e : Forall is_u8 e -> le_bytes e < 2 ^ (8 * zlen e).
Proof.
  induction 1 as [|b e Hb He IH]; cbn [le_bytes]; [done|].
  rewrite zlen_cons. pose proof (zlen_nonneg e). pose proof (le_bytes_nonneg e He).
  apply (lxor_range (8 * (1 + zlen e))); [lia|..].
  - unfold is_u8, two8 in Hb. assert (2 ^ 8 <= 2 ^ (8 * (1 + zlen e))) by (apply Z.pow_le_mono_r; lia). lia.
  - rewrite Z.shiftl_mul_pow2 by lia. replace (8 * (1 + zlen e)) with (8 * zlen e + 8) by lia.
    rewrite Z.pow_add_r by lia. lia.
Qed.

Lemma diff_u8 a b : Forall is_u8 a -> Forall is_u8 b -> Forall is_u8 (diff a b).
Proof.
  intros Ha. revert b. induction Ha as [|x a Hx Ha IH]; intros [|y b] Hb; cbn; try by constructor.
  inversion Hb; subst. constructor; [by apply lxor_u8|by apply IH].
Qed.

Lemma hamming_le_bytes a b :
  Forall is_u8 a -> Forall is_u8 b -> hamming a b = weight (le_bytes (diff a b)).
Proof. intros. unfold hamming. by rewrite weight_le_bytes by (by apply diff_u8). Qed.

Lemma hamming_zero a b :
  Forall is_u8 a -> Forall is_u8 b -> length a = length b -> hamming a b = 0 -> a = b.
Proof.
  intros Ha. revert b. induction Ha as [|x a Hx Ha IH]; intros [|y b] Hb Hl; cbn in Hl; try lia; [done|].
  inversion Hb as [|? ? Hy Hb']; subst. unfold hamming. cbn. fold (diff a b).
  pose proof (weight_nonneg (Z.lxor x y)) as Hw.
  assert (0 <= hamming a b) as Hh.
  { rewrite hamming_le_bytes by done. apply weight_nonneg. }
  unfold hamming in Hh |- *. intros Hz.
  assert (Z.lxor x y = 0) as Hxy.
  { apply weight_zero; [|lia]. apply Z.lxor_nonneg. unfold is_u8 in *. lia. }
  apply Z.lxor_eq in Hxy as ->. f_equal. apply IH; [done|lia|]. unfold hamming. lia.
Qed.

(** ** What the checksum detects *)

Lemma shift_bit_nonneg x : 0 <= x -> 0 <= shift_bit x.
Proof.
  intros Hx. rewrite shift_bit_eq. apply Z.lxor_nonneg. rewrite Z.shiftr_nonneg.
  case_bool; unfold POLYNOMIAL; lia.
Qed.

Lemma shift_bits_nonneg n x : 0 <= x -> 0 <= shift_bits n x.
Proof. revert x. induction n as [|n IH]; intros x Hx; cbn; [done|]. by apply IH, shift_bit_nonneg. Qed.

(** The polynomial has even weight: a step keeps the parity of the register. *)
Lemma shift_bits_parity n x : 0 <= x -> Z.odd (weight (shift_bits n x)) = Z.odd (weight x).
Proof.
  revert x. induction n as [|n IH]; intros x Hx; [done|]. cbn [shift_bits].
  rewrite IH by (by apply shift_bit_nonneg). rewrite (weight_half x), shift_bit_eq by done.
  assert (0 <= Z.shiftr x 1) by (by rewrite Z.shiftr_nonneg).
  rewrite weight_lxor_parity by (done || (case_bool; unfold POLYNOMIAL; lia)). rewrite Z.odd_add.
  by destruct (Z.testbit x 0).
Qed.

Lemma syndrome_parity a b :
  Forall is_u8 a -> Forall is_u8 b ->
  Z.odd (weight (syndrome (diff a b))) = Z.odd (hamming a b).
Proof.
  intros Ha Hb. unfold syndrome. rewrite shift_bits_parity, <- hamming_le_bytes by
    (done || by apply le_bytes_nonneg, diff_u8). done.
Qed.

(** The step is invertible: a nonzero register stays nonzero. *)
Lemma shift_bits_zero n x : is_u32 x -> shift_bits n x = 0 -> x = 0.
Proof.
  revert x. induction n as [|n IH]; intros x Hx; [done|]. cbn [shift_bits]. intros Hz.
  apply IH in Hz; [|by apply shift_bit_u32]. rewrite shift_bit_eq in Hz.
  apply Z.lxor_eq in Hz. rewrite Z.shiftr_div_pow2 in Hz by lia. change (2 ^ 1) with 2 in Hz.
  unfold is_u32, two32, POLYNOMIAL in *. destruct (Z.testbit x 0) eqn:E.
  - assert (x / 2 < 2147483648) by (apply Z.div_lt_upper_bound; lia). lia.
  - rewrite Z.bit0_odd in E. pose proof (Zmod_odd x) as Hm. rewrite E in Hm.
    pose proof (Z.div_mod x 2). lia.
Qed.

(** Single-bit syndromes: no shift of a single bit by up to [1472 * 8] positions, the
    largest frame the program sends, is a single bit again. *)
Fixpoint no_single_bit (n : nat) (reg : Z) : bool :=
  match n with
  | O => true
  | S n => let reg' := shift_bit reg in negb (weight reg' =? 1) && no_single_bit n reg'
  end.

Lemma no_single_bit_spec n reg k :
  no_single_bit n reg = true -> (0 < k <= n)%nat -> weight (shift_bits k reg) <> 1.
Proof.
  revert reg k. induction n as [|n IH]; intros reg k Hc Hk; [lia|].
  cbn [no_single_bit] in Hc. apply andb_true_iff in Hc as [Hw Hc].
  destruct k as [|[|k]]; [lia| |].
  - cbn. apply negb_true_iff, Z.eqb_neq in Hw. done.
  - apply (IH (shift_bit reg) (S k)); [done|lia].
Qed.

Definition CRC_LENGTH_MAX : Z := 1472.

Lemma single_bit_shift k :
  0 < k <= 8 * CRC_LENGTH_MAX -> weight (shift_bits (Z.to_nat k) 1) <> 1.
Proof.
  intros Hk. apply (no_single_bit_spec (Z.to_nat (8 * CRC_LENGTH_MAX))); [vm_compute; reflexivity|lia].
Qed.

Lemma pos_weight_one p : pos_weight p = 1 -> exists i, 0 <= i /\ Zpos p = 2 ^ i.
Proof.
  induction p as [p IH|p IH|]; cbn; intros Hw.
  - pose proof (pos_weight_pos p). lia.
  - destruct (IH Hw) as (i & Hi & Hp). exists (1 + i). split; [lia|]. rewrite Z.pow_add_r by lia. lia.
  - by exists 0.
Qed.

Lemma pos_weight_two p : pos_weight p = 2 -> exists i j, 0 <= i < j /\ Zpos p = 2 ^ i + 2 ^ j.
Proof.
  induction p as [p IH|p IH|]; cbn; intros Hw; [| |lia].
  - destruct (pos_weight_one p) as (i & Hi & Hp); [lia|]. exists 0, (1 + i). split; [lia|].
    change (2 ^ 0) with 1. rewrite Z.pow_add_r by lia. lia.
  - destruct (IH Hw) as (i & j & Hij & Hp). exists (1 + i), (1 + j). split; [lia|].
    rewrite !Z.pow_add_r by lia. lia.
Qed.

Lemma pow2_lxor i j : 0 <= i < j -> 2 ^ i + 2 ^ j = Z.lxor (2 ^ i) (2 ^ j).
Proof.
  intros Hij. apply Z.add_nocarry_lxor. apply Z.bits_inj'. intros n Hn.
  rewrite Z.land_spec, !Z.pow2_bits_eqb, Z.bits_0 by lia.
  destruct (Z.eqb_spec i n), (Z.eqb_spec j n); try done. lia.
Qed.

Lemma shift_bits_pow2 n i : 0 <= i <= Z.of_nat n ->
  shift_bits n (2 ^ i) = shift_bits (n - Z.to_nat i) 1.
Proof.
  intros Hi. replace n with (Z.to_nat i + (n - Z.to_nat i))%nat at 1 by lia.
  rewrite shift_bits_add. f_equal. rewrite <- Z.shiftl_1_l.
  rewrite <- (Z2Nat.id i) at 2 by lia. apply shift_bits_shiftl.
Qed.

Lemma pow2_lt_exp i n : 0 <= i -> 2 ^ i < 2 ^ n -> i < n.
Proof. intros Hi Hp. apply (Z.pow_lt_mono_r_iff 2); [lia| |done].
  destruct (Z.lt_ge_cases n 0); [|done]. rewrite (Z.pow_neg_r 2 n) in Hp by done. lia.
Qed.

(** A message error in one bit does not give a single-bit syndrome, and an error in
    two bits does not give a zero one. *)
Lemma syndrome_one_bit e :
  Forall is_u8 e -> zlen e <= CRC_LENGTH_MAX -> weight (le_bytes e) = 1 -> weight (syndrome e) <> 1.
Proof.
  intros He Hlen Hw. pose proof (le_bytes_bound e He) as Hb.
  destruct (le_bytes e) as [|p|p] eqn:E; cbn in Hw; [lia| |lia].
  destruct (pos_weight_one p Hw) as (i & Hi & Hp).
  unfold syndrome. rewrite E, Hp. rewrite Hp in Hb. apply pow2_lt_exp in Hb; [|done].
  unfold zlen in *. rewrite shift_bits_pow2 by lia.
  pose proof (single_bit_shift (8 * Z.of_nat (length e) - i)) as Hs.
  replace (Z.to_nat (8 * Z.of_nat (length e) - i)) with (8 * length e - Z.to_nat i)%nat in Hs by lia.
  apply Hs. lia.
Qed.

Lemma syndrome_two_bits e :
  Forall is_u8 e -> zlen e <= CRC_LENGTH_MAX -> weight (le_bytes e) = 2 -> syndrome e <> 0.
Proof.
  intros He Hlen Hw Hz. pose proof (le_bytes_bound e He) as Hb.
  destruct (le_bytes e) as [|p|p] eqn:E; cbn in Hw; [lia| |lia].
  destruct (pos_weight_two p Hw) as (i & j & Hij & Hp).
  assert (Hj : j < 8 * zlen e).
  { apply pow2_lt_exp; [lia|]. lia. }
  rewrite pow2_lxor in Hp by done.
  unfold syndrome in Hz. rewrite E, Hp, shift_bits_lxor in Hz. unfold zlen in *.
  rewrite !shift_bits_pow2 in Hz by lia.
  replace (8 * length e - Z.to_nat i)%nat
    with (Z.to_nat (j - i) + (8 * length e - Z.to_nat j))%nat in Hz by lia.
  rewrite shift_bits_add, <- shift_bits_lxor in Hz. apply shift_bits_zero in Hz.
  - apply Z.lxor_eq in Hz. apply (single_bit_shift (j - i)); [lia|]. by rewrite Hz.
  - apply lxor_u32; [apply shift_bits_u32|]; unfold is_u32, two32; lia.
Qed.

Lemma le_bytes_diff_same b : le_bytes (diff b b) = 0.
Proof. induction b as [|x b IH]; cbn; [done|]. unfold diff in IH. by rewrite IH, Z.lxor_nilpotent. Qed.

(** An error confined to four consecutive bytes of a message always changes the
    checksum. *)
Theorem crc_detects_burst a m m' b :
  Forall is_u8 (a ++ m ++ b) -> Forall is_u8 m' ->
  length m = length m' -> zlen m <= SIZE -> m <> m' ->
  compute (a ++ m ++ b) <> compute (a ++ m' ++ b).
Proof.
  intros Hu Hm' Hl Hlen Hne Heq.
  apply Forall_app in Hu as [Ha Hu]. apply Forall_app in Hu as [Hm Hb].
  unfold compute in Heq. rewrite !extend_slow_eq in Heq by (rewrite !Forall_app; done).
  unfold extend_slow in Heq. apply (f_equal not32) in Heq. rewrite !not32_involutive in Heq.
  rewrite !foldl_app in Heq. fold (register (not32 INITIAL_CRC) a) in Heq.
  set (r := register (not32 INITIAL_CRC) a) in *.
  fold (register r m) (register r m') in Heq.
  fold (register (register r m) b) (register (register r m') b) in Heq.
  assert (Hd : is_u32 (le_bytes (diff m m'))).
  { pose proof (diff_u8 m m' Hm Hm') as Hdu. split; [by apply le_bytes_nonneg|].
    eapply Z.lt_le_trans; [by apply le_bytes_bound|]. change two32 with (2 ^ 32).
    apply Z.pow_le_mono_r; [lia|]. unfold zlen, diff, SIZE in *. rewrite length_zip_with. lia. }
  assert (Hz : shift_bits (8 * length (diff b b)) (syndrome (diff m m')) = 0).
  { pose proof (register_diff b b (register r m) (register r m') eq_refl) as Hz.
    rewrite Heq, Z.lxor_nilpotent, register_diff, Z.lxor_nilpotent in Hz by done.
    by rewrite !register_eq, le_bytes_diff_same, Z.lxor_0_r, Z.lxor_0_l in Hz. }
  do 2 (apply shift_bits_zero in Hz; [|done || by apply shift_bits_u32]).
  apply Hne, hamming_zero; try done. rewrite hamming_le_bytes by done. by rewrite Hz.
Qed.

Lemma crc_detects_burst_witness :
  (Forall is_u8 ([1; 2] ++ [3; 4; 5; 6] ++ [7]) /\ Forall is_u8 [3; 0; 0; 7] /\
   length [3; 4; 5; 6] = length [3; 0; 0; 7] /\ zlen [3; 4; 5; 6] <= SIZE /\ [3; 4; 5; 6] <> [3; 0; 0; 7]) /\
  compute ([1; 2] ++ [3; 4; 5; 6] ++ [7]) <> compute ([1; 2] ++ [3; 0; 0; 7] ++ [7]).
Proof.
  assert (H1 : Forall is_u8 ([1; 2] ++ [3; 4; 5; 6] ++ [7])) by (repeat constructor; unfold is_u8, two8; lia).
  assert (H2 : Forall is_u8 [3; 0; 0; 7]) by (repeat constructor; unfold is_u8, two8; lia).
  split; [repeat split; try done|].
  apply (crc_detects_burst [1; 2] [3; 4; 5; 6] [3; 0; 0; 7] [7]); done.
Defined.

(** The code of messages followed by their checksum has Hamming distance at least
    four for every message the program sends: no pattern of one, two or three flipped
    bits, in the message or in the checksum, turns a valid pair into another one. *)
Lemma crc_distance a b :
  Forall is_u8 a -> Forall is_u8 b -> length a = length b -> zlen a <= CRC_LENGTH_MAX -> a <> b ->
  4 <= hamming a b + weight (Z.lxor (compute a) (compute b)).
Proof.
  intros Ha Hb Hl Hlen Hne. rewrite compute_diff by done.
  pose proof (diff_u8 a b Ha Hb) as Hd.
  assert (Hdl : zlen (diff a b) <= CRC_LENGTH_MAX)
    by (unfold zlen, diff in *; rewrite length_zip_with; lia).
  pose proof (syndrome_parity a b Ha Hb) as Hp.
  pose proof (syndrome_one_bit _ Hd Hdl) as H1. pose proof (syndrome_two_bits _ Hd Hdl) as H2.
  pose proof (weight_nonneg (syndrome (diff a b))) as Hw.
  assert (Hs : 0 <= syndrome (diff a b)) by (apply shift_bits_nonneg, le_bytes_nonneg; done).
  rewrite hamming_le_bytes in Hp |- * by done.
  pose proof (weight_nonneg (le_bytes (diff a b))).
  assert (weight (le_bytes (diff a b)) <> 0).
  { intros Hz. apply Hne, hamming_zero; try done. by rewrite hamming_le_bytes. }
  set (u := weight (le_bytes (diff a b))) in *. set (w := weight (syndrome (diff a b))) in *.
  destruct (Z.eq_dec u 1) as [Hu|]; [|destruct (Z.eq_dec u 2) as [Hu|]; [|destruct (Z.eq_dec u 3) as [Hu|]; [|lia]]];
    specialize (H1 : u = 1 -> w <> 1); rewrite Hu in *; cbn in Hp.
  - specialize (H1 eq_refl). destruct (Z.eq_dec w 0) as [E|]; [by rewrite E in Hp|].
    destruct (Z.eq_dec w 2) as [E|]; [by rewrite E in Hp|]. lia.
  - specialize (H2 eq_refl). destruct (Z.eq_dec w 0) as [E|]; [by apply weight_zero in E|].
    destruct (Z.eq_dec w 1) as [E|]; [by rewrite E in Hp|]. lia.
  - destruct (Z.eq_dec w 0) as [E|]; [by rewrite E in Hp|]. lia.
Qed.
