(* ===== verification/Frame.v ===== *)
(** * Frames (src/src/frame/mod.rs)

    The frame types and the structures they carry. *)

From S2P Require Import Prelude.
From S2P Require Import Word.

Inductive FrameType : Set :=
| HandshakeAlpha
| HandshakeAlphaAck
| HandshakeBeta
| HandshakeBetaAck
| Close
| CloseAck
| StreamSegment
| StreamAckType
| StreamSegmentAck
| StreamSyncType.

Record ConnectionParams : Set := mkConnectionParams {
  packet_size_in_max : Z;
  packet_size_out_max : Z
}.

Inductive HandshakeErrorKind : Set :=
| Capacity
| Parameter_.

Record Datagram : Set := mkDatagram {
  dg_id : Z;
  dg_unrel : bool;
  dg_first : bool;
  dg_last : bool;
  dg_data : list Z
}.

Record HandshakeAlphaFrame : Set := mkHandshakeAlphaFrame {
  ha_protocol_id : Z;
  ha_client_nonce : Z
}.

Record HandshakeAlphaAckFrame : Set := mkHandshakeAlphaAckFrame {
  haa_server_params : ConnectionParams;
  haa_client_nonce : Z;
  haa_server_nonce : Z;
  haa_server_timestamp : Z;
  haa_server_mac : Z
}.

Record HandshakeBetaFrame : Set := mkHandshakeBetaFrame {
  hb_client_params : ConnectionParams;
  hb_client_nonce : Z;
  hb_server_nonce : Z;
  hb_server_timestamp : Z;
  hb_server_mac : Z
}.

Record HandshakeBetaAckFrame : Set := mkHandshakeBetaAckFrame {
  hba_error : option HandshakeErrorKind;
  hba_client_nonce : Z
}.

Record CloseFrame : Set := mkCloseFrame { cl_remote_nonce : Z }.

Record CloseAckFrame : Set := mkCloseAckFrame { ca_remote_nonce : Z }.

Record StreamSegmentHeader : Set := mkStreamSegmentHeader {
  ssh_id : Z;
  ssh_nonce : bool
}.

Record StreamAck : Set := mkStreamAck {
  sa_segment_id : Z;
  sa_segment_history : Z;
  sa_segment_checksum : bool;
  sa_rel_fragment_id : option Z
}.

Record StreamSync : Set := mkStreamSync { sy_next_segment_id : Z }.

#[export] Instance frame_type_eq_dec : EqDecision FrameType.
Proof. solve_decision. Defined.
#[export] Instance datagram_eq_dec : EqDecision Datagram.
Proof. solve_decision. Defined.
#[export] Instance stream_ack_eq_dec : EqDecision StreamAck.
Proof. solve_decision. Defined.
