(* ===== verification/Serial.v ===== *)
(** * Frame serialisation (src/src/frame/serial/mod.rs)

    [Reader] and [Writer] walk raw memory with an unchecked pointer: an access
    outside the buffer is the fault [OutOfBounds], which the theorems of SerialFacts
    exclude.  [BlockSerial] is the trait of fixed-size structures, [Serial] the
    checked interface built on it. *)

From S2P Require Import Prelude.
From S2P Require Import Word.
From S2P Require Import Crc.
From S2P Require Import Frame.

Definition PROTOCOL_ID : Z := 0.
Definition FRAME_HEADER_SIZE : Z := 1.
Definition FRAME_CRC_SIZE : Z := 4.
Definition FRAME_OVERHEAD_SIZE : Z := FRAME_HEADER_SIZE + FRAME_CRC_SIZE.
Definition HANDSHAKE_ALPHA_SIZE : Z := 6.
Definition HANDSHAKE_ALPHA_ACK_SIZE : Z := 28.
Definition HANDSHAKE_BETA_SIZE : Z := 28.
Definition HANDSHAKE_BETA_ACK_SIZE : Z := 5.
Definition CLOSE_SIZE : Z := 4.
Definition CLOSE_ACK_SIZE : Z := 4.
Definition STREAM_SEGMENT_HEADER_SIZE : Z := 5.
Definition STREAM_ACK_SIZE : Z := 9.
Definition STREAM_SYNC_SIZE : Z := 4.
Definition DATAGRAM_HEADER_SIZE : Z := 1 + 4 + 2.
Definition DATAGRAM_DATA_SIZE_MAX : Z := U16_MAX.
Definition DATAGRAM_UNREL_BIT : Z := 0x01.
Definition DATAGRAM_FIRST_BIT : Z := 0x02.
Definition DATAGRAM_LAST_BIT : Z := 0x04.
Definition FRAME_TYPE_MASK : Z := 0x0f.
Definition HANDSHAKE_ALPHA_FRAME_SIZE_MAX : Z := 1472.

(** The [FRAME_TYPE_*] constants. *)
Definition frame_type_bits (t : FrameType) : Z :=
  match t with
  | HandshakeAlpha => 0x00
  | HandshakeAlphaAck => 0x01
  | HandshakeBeta => 0x02
  | HandshakeBetaAck => 0x03
  | Close => 0x04
  | CloseAck => 0x05
  | StreamSegment => 0x06
  | StreamAckType => 0x07
  | StreamSegmentAck => 0x08
  | StreamSyncType => 0x09
  end.

(** ** Raw memory *)

(** [*ptr.offset(i)], reading and writing. *)
Definition peek (buffer : list Z) (i : Z) : outcome Z :=
  if 0 <=? i then match buffer !! Z.to_nat i with Some b => Ok b | None => Fault OutOfBounds end
  else Fault OutOfBounds.

Definition poke (buffer : list Z) (i v : Z) : outcome (list Z) :=
  if (0 <=? i) && (i <? zlen buffer) then Ok (<[Z.to_nat i := v]> buffer) else Fault OutOfBounds.

(** [as u8] *)
Definition as_u8 (x : Z) : Z := x mod two8.

Record Reader : Set := mkReader { rd_buffer : list Z; rd_ptr : Z; rd_bytes_read : Z }.

Definition reader_new (buffer : list Z) : Reader := mkReader buffer 0 0.

Definition rd_advance (rd : Reader) (n : Z) : Reader :=
  mkReader (rd_buffer rd) (rd_ptr rd + n) (rd_bytes_read rd + n).

Definition read_u8 (rd : Reader) : outcome (Z * Reader) :=
  value ← peek (rd_buffer rd) (rd_ptr rd);
  Ok (value, rd_advance rd 1).

(** [value |= ( *ptr.offset(i) as uN) << shift] *)
Definition or_byte (rd : Reader) (i shift value : Z) : outcome Z :=
  b ← peek (rd_buffer rd) (rd_ptr rd + i);
  Ok (Z.lor value (Z.shiftl b shift)).

Definition read_u16 (rd : Reader) : outcome (Z * Reader) :=
  value ← or_byte rd 0 8 0;
  value ← or_byte rd 1 0 value;
  Ok (value, rd_advance rd 2).

Definition read_u32 (rd : Reader) : outcome (Z * Reader) :=
  value ← or_byte rd 0 24 0;
  value ← or_byte rd 1 16 value;
  value ← or_byte rd 2 8 value;
  value ← or_byte rd 3 0 value;
  Ok (value, rd_advance rd 4).

Definition read_u64 (rd : Reader) : outcome (Z * Reader) :=
  value ← or_byte rd 0 56 0;
  value ← or_byte rd 1 48 value;
  value ← or_byte rd 2 40 value;
  value ← or_byte rd 3 32 value;
  value ← or_byte rd 4 24 value;
  value ← or_byte rd 5 16 value;
  value ← or_byte rd 6 8 value;
  value ← or_byte rd 7 0 value;
  Ok (value, rd_advance rd 8).

Record Writer : Set := mkWriter { wr_buffer : list Z; wr_ptr : Z; wr_bytes_written : Z }.

Definition writer_new (buffer : list Z) : Writer := mkWriter buffer 0 0.

(** The writer after [buffer] was modified and the pointer moved by [n]. *)
Definition wr_advance (wr : Writer) (buffer : list Z) (n : Z) : Writer :=
  mkWriter buffer (wr_ptr wr + n) (wr_bytes_written wr + n).

(** [*ptr.offset(i) = (value >> shift) as u8] *)
Definition put_byte (wr : Writer) (value i shift : Z) (buffer : list Z) : outcome (list Z) :=
  poke buffer (wr_ptr wr + i) (as_u8 (Z.shiftr value shift)).

Definition write_u8 (wr : Writer) (value : Z) : outcome Writer :=
  buffer ← poke (wr_buffer wr) (wr_ptr wr) value;
  Ok (wr_advance wr buffer 1).

Definition write_u16 (wr : Writer) (value : Z) : outcome Writer :=
  buffer ← put_byte wr value 0 8 (wr_buffer wr);
  buffer ← put_byte wr value 1 0 buffer;
  Ok (wr_advance wr buffer 2).

Definition write_u32 (wr : Writer) (value : Z) : outcome Writer :=
  buffer ← put_byte wr value 0 24 (wr_buffer wr);
  buffer ← put_byte wr value 1 16 buffer;
  buffer ← put_byte wr value 2 8 buffer;
  buffer ← put_byte wr value 3 0 buffer;
  Ok (wr_advance wr buffer 4).

Definition write_u64 (wr : Writer) (value : Z) : outcome Writer :=
  buffer ← put_byte wr value 0 56 (wr_buffer wr);
  buffer ← put_byte wr value 1 48 buffer;
  buffer ← put_byte wr value 2 40 buffer;
  buffer ← put_byte wr value 3 32 buffer;
  buffer ← put_byte wr value 4 24 buffer;
  buffer ← put_byte wr value 5 16 buffer;
  buffer ← put_byte wr value 6 8 buffer;
  buffer ← put_byte wr value 7 0 buffer;
  Ok (wr_advance wr buffer 8).

(** [copy_nonoverlapping], out of bounds when any byte is. *)
Definition write_slice (wr : Writer) (bytes : list Z) : outcome Writer :=
  if (0 <=? wr_ptr wr) && (wr_ptr wr + zlen bytes <=? zlen (wr_buffer wr)) then
    Ok (wr_advance wr
      (take (Z.to_nat (wr_ptr wr)) (wr_buffer wr) ++ bytes ++
       drop (Z.to_nat (wr_ptr wr + zlen bytes)) (wr_buffer wr)) (zlen bytes))
  else Fault OutOfBounds.

(** ** Traits *)

Class BlockSerial (A : Type) := {
  block_size : Z;
  block_read : Reader -> outcome (A * Reader);
  block_write : Writer -> A -> outcome Writer
}.
Arguments block_size A {_}.

(** [read] returns the value and the bytes consumed; [write] the buffer after the
    write and the bytes produced. *)
Class Serial (A : Type) := {
  serial_read : list Z -> outcome (option (A * Z));
  serial_write : list Z -> A -> outcome (option (list Z * Z))
}.

Section Serial.
Context `{BuildProfile}.

#[export] Instance block_serial {A} `{BlockSerial A} : Serial A := {|
  serial_read buffer :=
    if zlen buffer <? block_size A then Ok None
    else
      '(obj, rd) ← block_read (reader_new buffer);
      _ ← debug_assert (rd_bytes_read rd =? block_size A);
      Ok (Some (obj, rd_bytes_read rd));
  serial_write buffer obj :=
    if zlen buffer <? block_size A then Ok None
    else
      wr ← block_write (writer_new buffer) obj;
      _ ← debug_assert (wr_bytes_written wr =? block_size A);
      Ok (Some (wr_buffer wr, wr_bytes_written wr))
|}.
End Serial.

(** ** The fixed-size structures *)

#[export] Instance handshake_alpha_serial : BlockSerial HandshakeAlphaFrame := {|
  block_size := HANDSHAKE_ALPHA_SIZE;
  block_read rd :=
    '(protocol_id, rd) ← read_u16 rd;
    '(client_nonce, rd) ← read_u32 rd;
    Ok (mkHandshakeAlphaFrame protocol_id client_nonce, rd);
  block_write wr obj :=
    wr ← write_u16 wr (ha_protocol_id obj);
    write_u32 wr (ha_client_nonce obj)
|}.

#[export] Instance handshake_alpha_ack_serial : BlockSerial HandshakeAlphaAckFrame := {|
  block_size := HANDSHAKE_ALPHA_ACK_SIZE;
  block_read rd :=
    '(packet_size_in_max, rd) ← read_u32 rd;
    '(packet_size_out_max, rd) ← read_u32 rd;
    '(client_nonce, rd) ← read_u32 rd;
    '(server_nonce, rd) ← read_u32 rd;
    '(server_timestamp, rd) ← read_u32 rd;
    '(server_mac, rd) ← read_u64 rd;
    Ok (mkHandshakeAlphaAckFrame (mkConnectionParams packet_size_in_max packet_size_out_max)
          client_nonce server_nonce server_timestamp server_mac, rd);
  block_write wr obj :=
    wr ← write_u32 wr (packet_size_in_max (haa_server_params obj));
    wr ← write_u32 wr (packet_size_out_max (haa_server_params obj));
    wr ← write_u32 wr (haa_client_nonce obj);
    wr ← write_u32 wr (haa_server_nonce obj);
    wr ← write_u32 wr (haa_server_timestamp obj);
    write_u64 wr (haa_server_mac obj)
|}.

#[export] Instance handshake_beta_serial : BlockSerial HandshakeBetaFrame := {|
  block_size := HANDSHAKE_BETA_SIZE;
  block_read rd :=
    '(packet_size_in_max, rd) ← read_u32 rd;
    '(packet_size_out_max, rd) ← read_u32 rd;
    '(client_nonce, rd) ← read_u32 rd;
    '(server_nonce, rd) ← read_u32 rd;
    '(server_timestamp, rd) ← read_u32 rd;
    '(server_mac, rd) ← read_u64 rd;
    Ok (mkHandshakeBetaFrame (mkConnectionParams packet_size_in_max packet_size_out_max)
          client_nonce server_nonce server_timestamp server_mac, rd);
  block_write wr obj :=
    wr ← write_u32 wr (packet_size_in_max (hb_client_params obj));
    wr ← write_u32 wr (packet_size_out_max (hb_client_params obj));
    wr ← write_u32 wr (hb_client_nonce obj);
    wr ← write_u32 wr (hb_server_nonce obj);
    wr ← write_u32 wr (hb_server_timestamp obj);
    write_u64 wr (hb_server_mac obj)
|}.

#[export] Instance handshake_beta_ack_serial : BlockSerial HandshakeBetaAckFrame := {|
  block_size := HANDSHAKE_BETA_ACK_SIZE;
  block_read rd :=
    '(status, rd) ← read_u8 rd;
    '(client_nonce, rd) ← read_u32 rd;
    let error :=
      if status =? 0x00 then None
      else if status =? 0x01 then Some Capacity
      else Some Parameter_ in
    Ok (mkHandshakeBetaAckFrame error client_nonce, rd);
  block_write wr obj :=
    let status :=
      match hba_error obj with
      | None => 0x00
      | Some Capacity => 0x01
      | Some Parameter_ => 0x02
      end in
    wr ← write_u8 wr status;
    write_u32 wr (hba_client_nonce obj)
|}.

#[export] Instance close_serial : BlockSerial CloseFrame := {|
  block_size := CLOSE_SIZE;
  block_read rd :=
    '(remote_nonce, rd) ← read_u32 rd;
    Ok (mkCloseFrame remote_nonce, rd);
  block_write wr obj := write_u32 wr (cl_remote_nonce obj)
|}.

#[export] Instance close_ack_serial : BlockSerial CloseAckFrame := {|
  block_size := CLOSE_ACK_SIZE;
  block_read rd :=
    '(remote_nonce, rd) ← read_u32 rd;
    Ok (mkCloseAckFrame remote_nonce, rd);
  block_write wr obj := write_u32 wr (ca_remote_nonce obj)
|}.

#[export] Instance stream_segment_header_serial : BlockSerial StreamSegmentHeader := {|
  block_size := STREAM_SEGMENT_HEADER_SIZE;
  block_read rd :=
    '(info, rd) ← read_u8 rd;
    '(id, rd) ← read_u32 rd;
    Ok (mkStreamSegmentHeader id (negb (Z.land info 0x01 =? 0)), rd);
  block_write wr obj :=
    let info := if ssh_nonce obj then Z.lor 0 0x01 else 0 in
    wr ← write_u8 wr info;
    write_u32 wr (ssh_id obj)
|}.

#[export] Instance stream_ack_serial : BlockSerial StreamAck := {|
  block_size := STREAM_ACK_SIZE;
  block_read rd :=
    '(info, rd) ← read_u8 rd;
    '(segment_id, rd) ← read_u32 rd;
    '(rel_fragment_id, rd) ← read_u32 rd;
    Ok (mkStreamAck segment_id (Z.land info 0x1f) (negb (Z.land info 0x20 =? 0))
          (if negb (Z.land info 0x80 =? 0) then Some rel_fragment_id else None), rd);
  block_write wr obj :=
    let info := match sa_rel_fragment_id obj with Some _ => Z.lor 0 0x80 | None => 0 end in
    let info := if sa_segment_checksum obj then Z.lor info 0x20 else info in
    let info := Z.lor info (Z.land (sa_segment_history obj) 0x1f) in
    wr ← write_u8 wr info;
    wr ← write_u32 wr (sa_segment_id obj);
    write_u32 wr (default 0 (sa_rel_fragment_id obj))
|}.

#[export] Instance stream_sync_serial : BlockSerial StreamSync := {|
  block_size := STREAM_SYNC_SIZE;
  block_read rd :=
    '(next_segment_id, rd) ← read_u32 rd;
    Ok (mkStreamSync next_segment_id, rd);
  block_write wr obj := write_u32 wr (sy_next_segment_id obj)
|}.

(** ** Slices of safe code: out of range is a panic *)

Definition index_range (l : list Z) (i j : Z) : outcome (list Z) :=
  if (0 <=? i) && (i <=? j) && (j <=? zlen l) then Ok (slice i j l) else Fault Panicked.

(** The buffer after the part from [i] to [j] was replaced by [part]. *)
Definition with_range (l : list Z) (i j : Z) (part : list Z) : list Z :=
  take (Z.to_nat i) l ++ part ++ drop (Z.to_nat j) l.

Section Frames.
Context `{BuildProfile}.

#[export] Instance datagram_serial : Serial Datagram := {|
  serial_read src :=
    if zlen src <? DATAGRAM_HEADER_SIZE then Ok None
    else
      '(info_bits, rd) ← read_u8 (reader_new src);
      '(id, rd) ← read_u32 rd;
      '(data_len, rd) ← read_u16 rd;
      _ ← debug_assert (rd_bytes_read rd =? DATAGRAM_HEADER_SIZE);
      if zlen src <? DATAGRAM_HEADER_SIZE + data_len then Ok None
      else
        data ← index_range src DATAGRAM_HEADER_SIZE (DATAGRAM_HEADER_SIZE + data_len);
        Ok (Some (
          {| dg_id := id;
             dg_unrel := negb (Z.land info_bits DATAGRAM_UNREL_BIT =? 0);
             dg_first := negb (Z.land info_bits DATAGRAM_FIRST_BIT =? 0);
             dg_last := negb (Z.land info_bits DATAGRAM_LAST_BIT =? 0);
             dg_data := data |},
          DATAGRAM_HEADER_SIZE + data_len));
  serial_write dst obj :=
    if zlen dst <? DATAGRAM_HEADER_SIZE + zlen (dg_data obj) then Ok None
    else
      let info_bits := if dg_unrel obj then Z.lor 0 DATAGRAM_UNREL_BIT else 0 in
      let info_bits := if dg_first obj then Z.lor info_bits DATAGRAM_FIRST_BIT else info_bits in
      let info_bits := if dg_last obj then Z.lor info_bits DATAGRAM_LAST_BIT else info_bits in
      _ ← assert_ (zlen (dg_data obj) <=? DATAGRAM_DATA_SIZE_MAX);
      let data_len_u16 := zlen (dg_data obj) mod two16 in
      wr ← write_u8 (writer_new dst) info_bits;
      wr ← write_u32 wr (dg_id obj);
      wr ← write_u16 wr data_len_u16;
      _ ← debug_assert (wr_bytes_written wr =? DATAGRAM_HEADER_SIZE);
      wr ← write_slice wr (dg_data obj);
      Ok (Some (wr_buffer wr, DATAGRAM_HEADER_SIZE + zlen (dg_data obj)))
|}.

(** ** Frame writer *)

Record FrameWriter : Set := mkFrameWriter { fw_buffer : list Z; fw_write_idx : Z }.

Definition frame_writer_new (buffer : list Z) (frame_type : FrameType) : outcome FrameWriter :=
  _ ← debug_assert (FRAME_OVERHEAD_SIZE <=? zlen buffer);
  wr ← write_u8 (writer_new buffer) (frame_type_bits frame_type);
  _ ← debug_assert (wr_bytes_written wr =? FRAME_HEADER_SIZE);
  Ok {| fw_buffer := wr_buffer wr; fw_write_idx := FRAME_HEADER_SIZE |}.

Definition frame_writer_write {A} `{Serial A} (self : FrameWriter) (obj : A) :
    outcome (FrameWriter * bool) :=
  let begin_idx := fw_write_idx self in
  end_idx ← sub64 (zlen (fw_buffer self)) FRAME_CRC_SIZE;
  dst ← index_range (fw_buffer self) begin_idx end_idx;
  result ← serial_write dst obj;
  match result with
  | Some (dst', size) =>
      Ok ({| fw_buffer := with_range (fw_buffer self) begin_idx end_idx dst';
             fw_write_idx := fw_write_idx self + size |}, true)
  | None => Ok (self, false)
  end.

(** [u32::to_le_bytes] and [u32::from_le_bytes] *)
Definition to_le_bytes (x : Z) : list Z :=
  [as_u8 x; as_u8 (Z.shiftr x 8); as_u8 (Z.shiftr x 16); as_u8 (Z.shiftr x 24)].

Definition from_le_bytes (bytes : list Z) : Z :=
  foldr (fun b acc => b + 256 * acc) 0 bytes.

(** The finished frame, and the whole buffer (of which the frame is a prefix). *)
Definition frame_writer_finalize (self : FrameWriter) : outcome (list Z * list Z) :=
  payload ← index_range (fw_buffer self) 0 (fw_write_idx self);
  let frame_crc := compute payload in
  let frame_crc_bytes := to_le_bytes frame_crc in
  let frame_size := fw_write_idx self + SIZE in
  _ ← index_range (fw_buffer self) (fw_write_idx self) frame_size;
  let buffer := with_range (fw_buffer self) (fw_write_idx self) frame_size frame_crc_bytes in
  frame ← index_range buffer 0 frame_size;
  Ok (frame, buffer).

(** ** Payload reader *)

Record PayloadReader : Set := mkPayloadReader { pr_buffer : list Z; pr_read_idx : Z }.

Definition payload_reader_new (buffer : list Z) : PayloadReader := mkPayloadReader buffer 0.

Definition payload_reader_read {A} `{Serial A} (self : PayloadReader) :
    outcome (option A * PayloadReader) :=
  let begin_idx := pr_read_idx self in
  let end_idx := zlen (pr_buffer self) in
  src ← index_range (pr_buffer self) begin_idx end_idx;
  result ← serial_read src;
  match result with
  | Some (obj, size) => Ok (Some obj, mkPayloadReader (pr_buffer self) (pr_read_idx self + size))
  | None => Ok (None, self)
  end.

Definition remaining_bytes (self : PayloadReader) : outcome (list Z) :=
  index_range (pr_buffer self) (pr_read_idx self) (zlen (pr_buffer self)).

(** ** Frame checks *)

Definition verify_minimum_size (frame_bytes : list Z) : bool :=
  FRAME_OVERHEAD_SIZE <=? zlen frame_bytes.

Definition verify_crc (buffer : list Z) : outcome bool :=
  _ ← debug_assert (SIZE <=? zlen buffer);
  split_idx ← sub64 (zlen buffer) SIZE;
  data ← index_range buffer 0 split_idx;
  crc_bytes ← index_range buffer split_idx (zlen buffer);
  let crc := from_le_bytes crc_bytes in
  Ok (compute data =? crc).

Definition verify_handshake_alpha_size_and_crc (frame_bytes : list Z) (frame_size_max : Z) :
    outcome bool :=
  if zlen frame_bytes =? Z.min frame_size_max HANDSHAKE_ALPHA_FRAME_SIZE_MAX then
    prefix ← index_range frame_bytes 0 (HANDSHAKE_ALPHA_SIZE + FRAME_OVERHEAD_SIZE);
    verify_crc prefix
  else Ok false.

Definition verify_handshake_beta_size_and_crc (frame_bytes : list Z) : outcome bool :=
  if zlen frame_bytes =? HANDSHAKE_BETA_SIZE + FRAME_OVERHEAD_SIZE then verify_crc frame_bytes
  else Ok false.

Definition read_type (frame_bytes : list Z) : outcome (option FrameType) :=
  _ ← debug_assert (verify_minimum_size frame_bytes);
  match frame_bytes with
  | [] => Fault Panicked
  | b :: _ =>
      let bits := Z.land b FRAME_TYPE_MASK in
      Ok (
        if bits =? frame_type_bits HandshakeAlpha then Some HandshakeAlpha
        else if bits =? frame_type_bits HandshakeAlphaAck then Some HandshakeAlphaAck
        else if bits =? frame_type_bits HandshakeBeta then Some HandshakeBeta
        else if bits =? frame_type_bits HandshakeBetaAck then Some HandshakeBetaAck
        else if bits =? frame_type_bits Close then Some Close
        else if bits =? frame_type_bits CloseAck then Some CloseAck
        else if bits =? frame_type_bits StreamSegment then Some StreamSegment
        else if bits =? frame_type_bits StreamAckType then Some StreamAckType
        else if bits =? frame_type_bits StreamSegmentAck then Some StreamSegmentAck
        else if bits =? frame_type_bits StreamSyncType then Some StreamSyncType
        else None)
  end.

Definition payload (frame_bytes : list Z) : outcome (list Z) :=
  _ ← debug_assert (verify_minimum_size frame_bytes);
  payload_end ← sub64 (zlen frame_bytes) FRAME_CRC_SIZE;
  index_range frame_bytes FRAME_HEADER_SIZE payload_end.
End Frames.

(** ** Single-structure frames *)

(** [PAYLOAD_SIZE] is stated per type in the source and used for the size of the
    boxed buffer; it is not derived from [BlockSerial::SIZE]. *)
Class SimpleFrame (A : Type) := {
  FRAME_TYPE : FrameType;
  PAYLOAD_SIZE : Z
}.
Arguments FRAME_TYPE A {_}.
Arguments PAYLOAD_SIZE A {_}.

Definition FRAME_SIZE (A : Type) `{SimpleFrame A} : Z := PAYLOAD_SIZE A + FRAME_OVERHEAD_SIZE.

#[export] Instance handshake_alpha_frame : SimpleFrame HandshakeAlphaFrame :=
  {| FRAME_TYPE := HandshakeAlpha; PAYLOAD_SIZE := HANDSHAKE_ALPHA_SIZE |}.
#[export] Instance handshake_alpha_ack_frame : SimpleFrame HandshakeAlphaAckFrame :=
  {| FRAME_TYPE := HandshakeAlphaAck; PAYLOAD_SIZE := HANDSHAKE_ALPHA_ACK_SIZE |}.
#[export] Instance handshake_beta_frame : SimpleFrame HandshakeBetaFrame :=
  {| FRAME_TYPE := HandshakeBeta; PAYLOAD_SIZE := HANDSHAKE_BETA_SIZE |}.
#[export] Instance handshake_beta_ack_frame : SimpleFrame HandshakeBetaAckFrame :=
  {| FRAME_TYPE := HandshakeBetaAck; PAYLOAD_SIZE := HANDSHAKE_BETA_ACK_SIZE |}.
#[export] Instance close_frame : SimpleFrame CloseFrame :=
  {| FRAME_TYPE := Close; PAYLOAD_SIZE := HANDSHAKE_BETA_SIZE |}.
#[export] Instance close_ack_frame : SimpleFrame CloseAckFrame :=
  {| FRAME_TYPE := CloseAck; PAYLOAD_SIZE := HANDSHAKE_BETA_ACK_SIZE |}.
#[export] Instance stream_sync_frame : SimpleFrame StreamSync :=
  {| FRAME_TYPE := StreamSyncType; PAYLOAD_SIZE := STREAM_SYNC_SIZE |}.

Section SimpleFrames.
Context `{BuildProfile}.

(** The frame as a prefix of [dst], and [dst] after the call. *)
Definition simple_frame_write {A} `{SimpleFrame A} `{BlockSerial A} (self : A) (dst : list Z) :
    outcome (list Z * list Z) :=
  _ ← debug_assert (FRAME_SIZE A <=? zlen dst);
  wr ← frame_writer_new dst (FRAME_TYPE A);
  '(wr, _) ← frame_writer_write wr self;
  frame_writer_finalize wr.

(** Returns the whole buffer, not the frame within it. *)
Definition simple_frame_write_boxed {A} `{SimpleFrame A} `{BlockSerial A} (self : A) : outcome (list Z) :=
  let buffer := replicate (Z.to_nat (FRAME_SIZE A)) 0 in
  wr ← frame_writer_new buffer (FRAME_TYPE A);
  '(wr, _) ← frame_writer_write wr self;
  '(_, buffer) ← frame_writer_finalize wr;
  Ok buffer.

Definition write_handshake_alpha (obj : HandshakeAlphaFrame) (frame_size_max : Z) : outcome (list Z) :=
  let frame_size := Z.min frame_size_max HANDSHAKE_ALPHA_FRAME_SIZE_MAX in
  let buffer := replicate (Z.to_nat frame_size) 0 in
  wr ← frame_writer_new buffer HandshakeAlpha;
  '(wr, _) ← frame_writer_write wr obj;
  '(_, buffer) ← frame_writer_finalize wr;
  Ok buffer.

Definition simple_payload_read {A} `{SimpleFrame A} `{BlockSerial A} (src : list Z) : outcome (option A) :=
  '(obj, _) ← payload_reader_read (payload_reader_new src);
  Ok obj.
End SimpleFrames.
