(* ===== verification/SerialFacts.v ===== *)
(** * Correctness of the codecs

    Every serialised type has an encoding, its writer produces the encoding, its
    reader inverts it, and on arbitrary bytes the reader stays inside the buffer.
    These are the laws of [BlockSerialOk] (unchecked fixed-size structures) and
    [SerialOk] (the checked interface), which the frame layer is proved against. *)

From S2P Require Import Prelude.
From S2P Require Import Word.
From S2P Require Import Frame.
From S2P Require Import Serial.

(** ** Big-endian numbers *)

Fixpoint be_bytes (n : nat) (v : Z) : list Z :=
  match n with
  | O => []
  | S n => (v / 256 ^ Z.of_nat n) mod 256 :: be_bytes n v
  end.

Definition be_value (l : list Z) : Z := foldl (fun v b => v * 256 + b) 0 l.

Lemma be_bytes_length n v : length (be_bytes n v) = n.
Proof. induction n; cbn; congruence. Qed.

Lemma be_bytes_zlen n v : zlen (be_bytes n v) = Z.of_nat n.
Proof. unfold zlen. by rewrite be_bytes_length. Qed.

Lemma be_bytes_u8 n v : Forall is_u8 (be_bytes n v).
Proof.
  induction n as [|n IH]; cbn [be_bytes]; constructor; [|done].
  unfold is_u8, two8. apply Z.mod_pos_bound. lia.
Qed.

Lemma be_value_cons b l : be_value (b :: l) = b * 256 ^ zlen l + be_value l.
Proof.
  unfold be_value. cbn [foldl]. change (0 * 256 + b) with b.
  assert (Hgen : forall acc, foldl (fun v b => v * 256 + b) acc l =
    acc * 256 ^ zlen l + foldl (fun v b => v * 256 + b) 0 l).
  { induction l as [|c l IH]; intros acc; cbn [foldl]; [change (zlen []) with 0; lia|].
    rewrite IH, (IH (0 * 256 + c)), zlen_cons, Z.pow_add_r by (lia || apply zlen_nonneg). lia. }
  apply Hgen.
Qed.

Lemma be_value_bytes n v : be_value (be_bytes n v) = v mod 256 ^ Z.of_nat n.
Proof.
  induction n as [|n IH]; [by rewrite Z.mod_1_r|]. cbn [be_bytes].
  rewrite be_value_cons, be_bytes_zlen, IH. rewrite Nat2Z.inj_succ, Z.pow_succ_r by lia.
  rewrite (Z.mul_comm 256), Z.rem_mul_r by lia. lia.
Qed.

Lemma be_value_bound l : Forall is_u8 l -> 0 <= be_value l < 256 ^ zlen l.
Proof.
  induction 1 as [|b l Hb Hl IH]; [change (zlen []) with 0; cbn; lia|].
  rewrite be_value_cons, zlen_cons, Z.pow_add_r by (lia || apply zlen_nonneg).
  unfold is_u8, two8 in Hb. nia.
Qed.

(** Every byte string is the encoding of its value. *)
Lemma be_bytes_value l : Forall is_u8 l -> be_bytes (length l) (be_value l) = l.
Proof.
  induction 1 as [|b l Hb Hl IH]; [done|]. cbn [length be_bytes].
  pose proof (be_value_bound l Hl) as Hv. fold (zlen l).
  assert (Hind : forall n c, be_bytes n (c * 256 ^ Z.of_nat n + be_value l) = be_bytes n (be_value l)).
  { clear. intros n c. enough (Hg : forall m d x, (n <= m)%nat ->
      be_bytes n (d * 256 ^ Z.of_nat m + x) = be_bytes n x) by (by apply Hg).
    induction n as [|n IH]; intros m d x Hm; [done|]. cbn [be_bytes]. f_equal; [|apply IH; lia].
    replace (Z.of_nat m) with (Z.of_nat n + (1 + (Z.of_nat m - Z.of_nat n - 1))) by lia.
    rewrite !Z.pow_add_r, Z.add_comm by lia.
    replace (d * (256 ^ Z.of_nat n * (256 ^ 1 * 256 ^ (Z.of_nat m - Z.of_nat n - 1))))
      with ((d * 256 ^ (Z.of_nat m - Z.of_nat n - 1) * 256) * 256 ^ Z.of_nat n) by lia.
    rewrite Z.div_add by lia. apply Z.mod_add. lia. }
  rewrite be_value_cons. f_equal.
  - rewrite Z.add_comm, Z.div_add by lia. rewrite (Z.div_small (be_value l)) by done.
    apply Z.mod_small. exact Hb.
  - unfold zlen. rewrite Hind. exact IH.
Qed.

(** [|] of digits in different places is [+]. *)
Lemma lor_shifted v b k : 0 <= k -> 0 <= b < 256 -> v mod 2 ^ (k + 8) = 0 -> Z.lor v (Z.shiftl b k) = v + b * 2 ^ k.
Proof.
  intros Hk Hb Hv. rewrite <- Z.shiftl_mul_pow2 by done. symmetry.
  rewrite <- Z.lxor_lor; [apply Z.add_nocarry_lxor|]; apply Z.bits_inj'; intros n Hn;
    rewrite Z.land_spec, Z.bits_0; destruct (Z.lt_ge_cases n (k + 8)).
  1, 3: replace v with (v / 2 ^ (k + 8) * 2 ^ (k + 8)) by (pose proof (Z.div_mod v (2 ^ (k + 8))); lia);
    rewrite Z.mul_pow2_bits_low by lia; done.
  all: apply andb_false_iff; right; rewrite Z.shiftl_spec by lia;
    destruct (Z.eq_dec b 0) as [->|]; [apply Z.bits_0|];
    apply Z.bits_above_log2; [lia|];
    assert (Z.log2 b < 8) by (apply Z.log2_lt_pow2; lia); lia.
Qed.

(** ** Reading *)

(** The reader stands before the bytes [bs]. *)
Definition at_input (rd : Reader) (bs : list Z) : Prop :=
  0 <= rd_ptr rd /\ drop (Z.to_nat (rd_ptr rd)) (rd_buffer rd) = bs.

Lemma at_input_new bs : at_input (reader_new bs) bs.
Proof. done. Qed.

Lemma at_input_advance rd a r n : at_input rd (a ++ r) -> n = zlen a -> at_input (rd_advance rd n) r.
Proof.
  intros [Hp Hd] ->. pose proof (zlen_nonneg a). split; cbn; [lia|].
  rewrite Z2Nat.inj_add, <- drop_drop, Hd by lia. unfold zlen. rewrite Nat2Z.id. apply drop_app_length.
Qed.

Lemma rd_advance_add rd a b : rd_advance (rd_advance rd a) b = rd_advance rd (a + b).
Proof. unfold rd_advance. cbn. f_equal; lia. Qed.

Lemma peek_at rd a x r i : at_input rd (a ++ x :: r) -> i = zlen a ->
  peek (rd_buffer rd) (rd_ptr rd + i) = Ok x.
Proof.
  intros [Hp Hd] ->. pose proof (zlen_nonneg a). unfold peek.
  replace (0 <=? rd_ptr rd + zlen a) with true by (symmetry; apply Z.leb_le; lia).
  rewrite Z2Nat.inj_add, <- lookup_drop, Hd by lia. unfold zlen. rewrite Nat2Z.id.
  by rewrite list_lookup_middle.
Qed.

Lemma read_u8_at rd x r : at_input rd (x :: r) -> read_u8 rd = Ok (x, rd_advance rd 1).
Proof.
  intros Hr. unfold read_u8. pose proof (peek_at rd [] x r 0 Hr eq_refl) as Hp.
  rewrite Z.add_0_r in Hp. by rewrite Hp.
Qed.

Lemma or_byte_at rd a x r i k v :
  at_input rd (a ++ x :: r) -> i = zlen a -> is_u8 x -> 0 <= k -> v mod 2 ^ (k + 8) = 0 ->
  or_byte rd i k v = Ok (v + x * 2 ^ k).
Proof.
  intros Hr Hi Hx Hk Hv. unfold or_byte. rewrite (peek_at rd a x r) by done. cbn [mbind outcome_bind].
  by rewrite lor_shifted.
Qed.

(** One [|=] step of a multi-byte read, at byte [i] of the explicit list in [H]. *)
Ltac or_step H pre :=
  erewrite (or_byte_at _ pre) by
    (exact H || reflexivity || done || lia || (cbn [Z.pow_pos Pos.iter Z.pow Z.add]; Z.div_mod_to_equations; lia));
  cbn [mbind outcome_bind].

Lemma be_bytes_unfold_u8 n v : Forall is_u8 (be_bytes n v) /\ length (be_bytes n v) = n.
Proof. split; [apply be_bytes_u8|apply be_bytes_length]. Qed.

Lemma read_u16_at rd v r : at_input rd (be_bytes 2 v ++ r) -> is_u16 v ->
  read_u16 rd = Ok (v, rd_advance rd 2).
Proof.
  intros Hr Hv. pose proof (be_value_bytes 2 v) as Hval. change (256 ^ Z.of_nat 2) with two16 in Hval.
  rewrite Z.mod_small in Hval by exact Hv. pose proof (be_bytes_unfold_u8 2 v) as [Hu Hl].
  destruct (be_bytes 2 v) as [|b0 [|b1 [|]]]; try discriminate. unfold be_value in Hval. cbn [foldl] in Hval.
  rewrite !Forall_cons in Hu. destruct Hu as (H0 & H1 & _). unfold read_u16.
  or_step Hr (@nil Z). or_step Hr [b0]. do 2 f_equal. lia.
Qed.

Lemma read_u32_at rd v r : at_input rd (be_bytes 4 v ++ r) -> is_u32 v ->
  read_u32 rd = Ok (v, rd_advance rd 4).
Proof.
  intros Hr Hv. pose proof (be_value_bytes 4 v) as Hval. change (256 ^ Z.of_nat 4) with two32 in Hval.
  rewrite Z.mod_small in Hval by exact Hv. pose proof (be_bytes_unfold_u8 4 v) as [Hu Hl].
  destruct (be_bytes 4 v) as [|b0 [|b1 [|b2 [|b3 [|]]]]]; try discriminate.
  unfold be_value in Hval. cbn [foldl] in Hval.
  rewrite !Forall_cons in Hu. destruct Hu as (H0 & H1 & H2 & H3 & _). unfold read_u32.
  or_step Hr (@nil Z). or_step Hr [b0]. or_step Hr [b0; b1]. or_step Hr [b0; b1; b2]. do 2 f_equal. lia.
Qed.

Lemma read_u64_at rd v r : at_input rd (be_bytes 8 v ++ r) -> is_u64 v ->
  read_u64 rd = Ok (v, rd_advance rd 8).
Proof.
  intros Hr Hv. pose proof (be_value_bytes 8 v) as Hval. change (256 ^ Z.of_nat 8) with two64 in Hval.
  rewrite Z.mod_small in Hval by exact Hv. pose proof (be_bytes_unfold_u8 8 v) as [Hu Hl].
  destruct (be_bytes 8 v) as [|b0 [|b1 [|b2 [|b3 [|b4 [|b5 [|b6 [|b7 [|]]]]]]]]]; try discriminate.
  unfold be_value in Hval. cbn [foldl] in Hval.
  rewrite !Forall_cons in Hu. destruct Hu as (H0 & H1 & H2 & H3 & H4 & H5 & H6 & H7 & _). unfold read_u64.
  or_step Hr (@nil Z). or_step Hr [b0]. or_step Hr [b0; b1]. or_step Hr [b0; b1; b2].
  or_step Hr [b0; b1; b2; b3]. or_step Hr [b0; b1; b2; b3; b4]. or_step Hr [b0; b1; b2; b3; b4; b5].
  or_step Hr [b0; b1; b2; b3; b4; b5; b6]. do 2 f_equal. lia.
Qed.

(** Any bytes long enough start with some number. *)
Lemma be_split n bs : Forall is_u8 bs -> Z.of_nat n <= zlen bs ->
  exists v r, 0 <= v < 256 ^ Z.of_nat n /\ bs = be_bytes n v ++ r /\ Forall is_u8 r /\
    zlen r = zlen bs - Z.of_nat n.
Proof.
  intros Hu Hl. unfold zlen in Hl. exists (be_value (take n bs)), (drop n bs).
  assert (Ht : length (take n bs) = n) by (rewrite length_take; lia).
  pose proof (be_value_bound (take n bs) (Forall_take _ _ _ Hu)) as Hb. unfold zlen in Hb. rewrite Ht in Hb.
  split; [done|]. split; [|split; [by apply Forall_drop|unfold zlen; rewrite length_drop; lia]].
  rewrite <- Ht at 1. rewrite be_bytes_value by (by apply Forall_take). by rewrite take_drop.
Qed.

(** ** Writing *)

(** The writer after the bytes [bs] were stored at its pointer. *)
Definition wr_put (wr : Writer) (bs : list Z) : Writer :=
  wr_advance wr
    (take (Z.to_nat (wr_ptr wr)) (wr_buffer wr) ++ bs ++
     drop (Z.to_nat (wr_ptr wr + zlen bs)) (wr_buffer wr)) (zlen bs).

Definition wr_room (wr : Writer) (n : Z) : Prop :=
  0 <= wr_ptr wr /\ wr_ptr wr + n <= zlen (wr_buffer wr).

Lemma wr_put_length wr bs : wr_room wr (zlen bs) ->
  zlen (wr_buffer (wr_put wr bs)) = zlen (wr_buffer wr).
Proof.
  intros [Hp Hr]. pose proof (zlen_nonneg bs). unfold wr_put, wr_advance. cbn.
  rewrite !zlen_app, zlen_take, zlen_drop by lia. lia.
Qed.

Lemma wr_room_put wr bs n : wr_room wr (zlen bs + n) -> 0 <= n -> wr_room (wr_put wr bs) n.
Proof.
  intros [Hp Hr] Hn. pose proof (zlen_nonneg bs). split; [cbn; lia|].
  rewrite wr_put_length by (split; lia). cbn. lia.
Qed.

Lemma wr_put_app wr a b : wr_room wr (zlen a + zlen b) -> wr_put (wr_put wr a) b = wr_put wr (a ++ b).
Proof.
  intros [Hp Hr]. pose proof (zlen_nonneg a). pose proof (zlen_nonneg b).
  unfold wr_put, wr_advance. cbn. rewrite zlen_app.
  assert (Ht : zlen (take (Z.to_nat (wr_ptr wr)) (wr_buffer wr) ++ a) = wr_ptr wr + zlen a)
    by (rewrite zlen_app, zlen_take by lia; done).
  f_equal; [|lia|lia].
  rewrite (app_assoc (take _ (wr_buffer wr)) a). unfold zlen in *.
  rewrite take_app_length' by lia. rewrite drop_app_ge by lia. rewrite drop_drop, <- !app_assoc.
  do 4 f_equal. lia.
Qed.

(** Storing one byte after [bs]. *)
Lemma poke_put wr bs i v :
  wr_room wr (zlen bs + 1) -> i = zlen bs ->
  poke (wr_buffer (wr_put wr bs)) (wr_ptr wr + i) v = Ok (wr_buffer (wr_put wr (bs ++ [v]))).
Proof.
  intros [Hp Hr] ->. pose proof (zlen_nonneg bs).
  unfold poke. rewrite wr_put_length by (split; lia).
  replace ((0 <=? _) && _) with true by
    (symmetry; apply andb_true_iff; split; [apply Z.leb_le|apply Z.ltb_lt]; lia).
  f_equal. unfold wr_put. cbn. rewrite zlen_app. change (zlen [v]) with 1.
  assert (Ht : zlen (take (Z.to_nat (wr_ptr wr)) (wr_buffer wr) ++ bs) = wr_ptr wr + zlen bs)
    by (rewrite zlen_app, zlen_take by lia; done).
  destruct (drop (Z.to_nat (wr_ptr wr + zlen bs)) (wr_buffer wr)) as [|y tl] eqn:Ed.
  { apply (f_equal zlen) in Ed. rewrite zlen_drop in Ed by lia. change (zlen (@nil Z)) with 0 in Ed. lia. }
  assert (Hd : drop (Z.to_nat (wr_ptr wr + (zlen bs + 1))) (wr_buffer wr) = tl).
  { replace (Z.to_nat (wr_ptr wr + (zlen bs + 1))) with (Z.to_nat (wr_ptr wr + zlen bs) + 1)%nat by lia.
    by rewrite <- drop_drop, Ed. }
  rewrite Hd, app_assoc, insert_app_r_alt by (unfold zlen in *; lia).
  replace (_ - _)%nat with 0%nat by (unfold zlen in *; lia). by rewrite <- !app_assoc.
Qed.

Lemma wr_put_nil wr : wr_room wr 0 -> wr_buffer (wr_put wr []) = wr_buffer wr.
Proof.
  intros [Hp Hr]. cbn. change (zlen []) with 0. rewrite Z.add_0_r. apply take_drop.
Qed.

Lemma write_u8_put wr v : wr_room wr 1 -> write_u8 wr v = Ok (wr_put wr [v]).
Proof.
  intros Hr. unfold write_u8. pose proof (poke_put wr [] 0 v Hr eq_refl) as Hp.
  rewrite wr_put_nil, Z.add_0_r in Hp by (destruct Hr; split; lia). by rewrite Hp.
Qed.

Lemma as_u8_shiftr v k : 0 <= k -> as_u8 (Z.shiftr v k) = (v / 2 ^ k) mod 256.
Proof. intros Hk. unfold as_u8, two8. by rewrite Z.shiftr_div_pow2. Qed.

(** One byte store of a multi-byte write, after the bytes [bs] are in place. *)
Lemma put_byte_put wr v i k bs m :
  wr_room wr (zlen bs + 1) -> i = zlen bs -> 0 <= m -> k = 8 * m ->
  put_byte wr v i k (wr_buffer (wr_put wr bs)) =
  Ok (wr_buffer (wr_put wr (bs ++ [(v / 256 ^ m) mod 256]))).
Proof.
  intros Hr Hi Hm ->. unfold put_byte. rewrite poke_put by done. rewrite as_u8_shiftr by lia.
  rewrite Z.pow_mul_r by lia. done.
Qed.

Ltac put_step Hr m :=
  rewrite (put_byte_put _ _ _ _ _ m); [|unfold wr_room, zlen in *; cbn [length app] in *;
    lia|reflexivity|lia|reflexivity];
  cbn [mbind outcome_bind app].

Lemma write_u16_put wr v : wr_room wr 2 -> write_u16 wr v = Ok (wr_put wr (be_bytes 2 v)).
Proof.
  intros Hr. unfold write_u16. rewrite <- (wr_put_nil wr) at 1 by (destruct Hr; split; lia).
  put_step Hr 1. put_step Hr 0. reflexivity.
Qed.

Lemma write_u32_put wr v : wr_room wr 4 -> write_u32 wr v = Ok (wr_put wr (be_bytes 4 v)).
Proof.
  intros Hr. unfold write_u32. rewrite <- (wr_put_nil wr) at 1 by (destruct Hr; split; lia).
  put_step Hr 3. put_step Hr 2. put_step Hr 1. put_step Hr 0. reflexivity.
Qed.

Lemma write_u64_put wr v : wr_room wr 8 -> write_u64 wr v = Ok (wr_put wr (be_bytes 8 v)).
Proof.
  intros Hr. unfold write_u64. rewrite <- (wr_put_nil wr) at 1 by (destruct Hr; split; lia).
  put_step Hr 7. put_step Hr 6. put_step Hr 5. put_step Hr 4.
  put_step Hr 3. put_step Hr 2. put_step Hr 1. put_step Hr 0. reflexivity.
Qed.

Lemma write_slice_put wr bs : wr_room wr (zlen bs) -> write_slice wr bs = Ok (wr_put wr bs).
Proof.
  intros [Hp Hr]. unfold write_slice.
  by replace ((0 <=? _) && _) with true by
    (symmetry; apply andb_true_iff; split; apply Z.leb_le; lia).
Qed.

(** ** The laws of fixed-size structures *)

#[global] Arguments be_bytes : simpl never.
#[global] Arguments Z.land : simpl never.
#[global] Arguments Z.lor : simpl never.
#[global] Arguments rd_advance : simpl never.
#[global] Arguments wr_put : simpl never.
#[global] Arguments reader_new : simpl never.
#[global] Arguments writer_new : simpl never.

Class BlockSerialOk (A : Type) `{BlockSerial A} := {
  block_valid : A -> Prop;
  block_encode : A -> list Z;
  block_size_pos : 0 < block_size A;
  block_encode_length a : zlen (block_encode a) = block_size A;
  block_write_put wr a : wr_room wr (block_size A) -> block_write wr a = Ok (wr_put wr (block_encode a));
  block_encode_u8 a : block_valid a -> Forall is_u8 (block_encode a);
  block_read_encode rd a r : block_valid a -> at_input rd (block_encode a ++ r) ->
    block_read rd = Ok (a, rd_advance rd (block_size A));
  block_read_total rd bs : at_input rd bs -> Forall is_u8 bs -> block_size A <= zlen bs ->
    exists a, block_read rd = Ok (a, rd_advance rd (block_size A)) /\ block_valid a
}.

Lemma write_u32_next wr pre v : wr_room wr (zlen pre + 4) ->
  write_u32 (wr_put wr pre) v = Ok (wr_put wr (pre ++ be_bytes 4 v)).
Proof.
  intros Hr. rewrite write_u32_put, wr_put_app by (rewrite ?be_bytes_zlen; done || by apply wr_room_put).
  done.
Qed.

Lemma write_u16_next wr pre v : wr_room wr (zlen pre + 2) ->
  write_u16 (wr_put wr pre) v = Ok (wr_put wr (pre ++ be_bytes 2 v)).
Proof.
  intros Hr. rewrite write_u16_put, wr_put_app by (rewrite ?be_bytes_zlen; done || by apply wr_room_put).
  done.
Qed.

Lemma write_u64_next wr pre v : wr_room wr (zlen pre + 8) ->
  write_u64 (wr_put wr pre) v = Ok (wr_put wr (pre ++ be_bytes 8 v)).
Proof.
  intros Hr. rewrite write_u64_put, wr_put_app by (rewrite ?be_bytes_zlen; done || by apply wr_room_put).
  done.
Qed.

Lemma write_slice_next wr pre bs : wr_room wr (zlen pre + zlen bs) ->
  write_slice (wr_put wr pre) bs = Ok (wr_put wr (pre ++ bs)).
Proof.
  intros Hr. rewrite write_slice_put, wr_put_app by (done || by apply wr_room_put). done.
Qed.

Lemma wr_room_le wr n m : n <= m -> wr_room wr m -> wr_room wr n.
Proof. intros Hn []. split; lia. Qed.

Ltac sizes :=
  unfold FRAME_OVERHEAD_SIZE, FRAME_HEADER_SIZE, FRAME_CRC_SIZE, Crc.SIZE, HANDSHAKE_ALPHA_SIZE,
    HANDSHAKE_ALPHA_ACK_SIZE, HANDSHAKE_BETA_SIZE, HANDSHAKE_BETA_ACK_SIZE, CLOSE_SIZE, CLOSE_ACK_SIZE,
    STREAM_SEGMENT_HEADER_SIZE, STREAM_ACK_SIZE, STREAM_SYNC_SIZE, DATAGRAM_HEADER_SIZE,
    DATAGRAM_DATA_SIZE_MAX, HANDSHAKE_ALPHA_FRAME_SIZE_MAX in *.

Ltac zlen_simpl :=
  repeat (rewrite zlen_app || rewrite be_bytes_zlen || rewrite zlen_cons); change (zlen (@nil Z)) with 0.

(** One write of a chain that started in room [Hr]. *)
Ltac wr_step Hr :=
  first [rewrite write_u32_next | rewrite write_u64_next | rewrite write_u16_next
        | rewrite write_u32_put | rewrite write_u16_put | rewrite write_u8_put | rewrite write_slice_next];
  [cbn [mbind outcome_bind] | eapply wr_room_le; [|exact Hr]; sizes; zlen_simpl; lia].

Ltac wr_chain Hr := repeat wr_step Hr; rewrite <- ?app_assoc; reflexivity.

(** One read from the encoding described by [H]. *)
Ltac rd_step H :=
  first
    [ rewrite (read_u32_at _ _ _ H) by done; apply (at_input_advance _ _ _ 4) in H; [|by rewrite be_bytes_zlen]
    | rewrite (read_u64_at _ _ _ H) by done; apply (at_input_advance _ _ _ 8) in H; [|by rewrite be_bytes_zlen]
    | rewrite (read_u16_at _ _ _ H) by done; apply (at_input_advance _ _ _ 2) in H; [|by rewrite be_bytes_zlen]
    | rewrite (read_u8_at _ _ _ H); apply (at_input_advance _ [_] _ 1) in H; [|done] ];
  cbn [mbind outcome_bind].

(** Split the next [n]-byte number off the arbitrary input [H]. *)
Ltac rd_any n H Hu Hl :=
  let v := fresh "v" in let r := fresh "r" in let Hv := fresh "Hv" in let Hb := fresh "Hb" in
  let Hl' := fresh "Hl" in
  let Hu' := fresh "Hu" in
  match type of H with at_input _ ?bs =>
    destruct (be_split n bs Hu) as (v & r & Hv & Hb & Hu' & Hl'); [sizes; lia|];
    rewrite Hb in H; clear Hb Hu; rename Hu' into Hu; rd_step H
  end.

Definition params_valid (p : ConnectionParams) : Prop :=
  is_u32 (packet_size_in_max p) /\ is_u32 (packet_size_out_max p).
Definition params_encode (p : ConnectionParams) : list Z :=
  be_bytes 4 (packet_size_in_max p) ++ be_bytes 4 (packet_size_out_max p).

#[export] Program Instance handshake_alpha_ok : BlockSerialOk HandshakeAlphaFrame := {|
  block_valid a := is_u16 (ha_protocol_id a) /\ is_u32 (ha_client_nonce a);
  block_encode a := be_bytes 2 (ha_protocol_id a) ++ be_bytes 4 (ha_client_nonce a)
|}.
Next Obligation. done. Qed.
Next Obligation. intros a. by zlen_simpl. Qed.
Next Obligation. intros wr a Hr. cbn in Hr |- *. wr_chain Hr. Qed.
Next Obligation. intros a _. rewrite !Forall_app. auto using be_bytes_u8. Qed.
Next Obligation.
  intros rd [p n] r [Hp Hn] H. cbn in *. rewrite <- app_assoc in H. do 2 rd_step H.
  by rewrite rd_advance_add.
Qed.
Next Obligation.
  intros rd bs H Hu Hl. cbn in *. rd_any 2%nat H Hu Hl. rd_any 4%nat H Hu Hl. 
  eexists. rewrite rd_advance_add. done.
Qed.

#[export] Program Instance handshake_alpha_ack_ok : BlockSerialOk HandshakeAlphaAckFrame := {|
  block_valid a := params_valid (haa_server_params a) /\ is_u32 (haa_client_nonce a) /\
    is_u32 (haa_server_nonce a) /\ is_u32 (haa_server_timestamp a) /\ is_u64 (haa_server_mac a);
  block_encode a := params_encode (haa_server_params a) ++ be_bytes 4 (haa_client_nonce a) ++
    be_bytes 4 (haa_server_nonce a) ++ be_bytes 4 (haa_server_timestamp a) ++ be_bytes 8 (haa_server_mac a)
|}.
Next Obligation. done. Qed.
Next Obligation. intros a. unfold params_encode. by zlen_simpl. Qed.
Next Obligation. intros wr a Hr. cbn in Hr |- *. unfold params_encode. wr_chain Hr. Qed.
Next Obligation. intros a _. unfold params_encode. rewrite !Forall_app. auto using be_bytes_u8. Qed.
Next Obligation.
  intros rd [[i o] c s t m] r ([Hi Ho] & Hc & Hs & Ht & Hm) H. unfold params_encode in H. cbn in *.
  rewrite <- !app_assoc in H. do 6 rd_step H. by rewrite !rd_advance_add.
Qed.
Next Obligation.
  intros rd bs H Hu Hl. cbn in *. do 5 rd_any 4%nat H Hu Hl. rd_any 8%nat H Hu Hl.
  eexists. rewrite !rd_advance_add. unfold params_valid. done.
Qed.

#[export] Program Instance handshake_beta_ok : BlockSerialOk HandshakeBetaFrame := {|
  block_valid a := params_valid (hb_client_params a) /\ is_u32 (hb_client_nonce a) /\
    is_u32 (hb_server_nonce a) /\ is_u32 (hb_server_timestamp a) /\ is_u64 (hb_server_mac a);
  block_encode a := params_encode (hb_client_params a) ++ be_bytes 4 (hb_client_nonce a) ++
    be_bytes 4 (hb_server_nonce a) ++ be_bytes 4 (hb_server_timestamp a) ++ be_bytes 8 (hb_server_mac a)
|}.
Next Obligation. done. Qed.
Next Obligation. intros a. unfold params_encode. by zlen_simpl. Qed.
Next Obligation. intros wr a Hr. cbn in Hr |- *. unfold params_encode. wr_chain Hr. Qed.
Next Obligation. intros a _. unfold params_encode. rewrite !Forall_app. auto using be_bytes_u8. Qed.
Next Obligation.
  intros rd [[i o] c s t m] r ([Hi Ho] & Hc & Hs & Ht & Hm) H. unfold params_encode in H. cbn in *.
  rewrite <- !app_assoc in H. do 6 rd_step H. by rewrite !rd_advance_add.
Qed.
Next Obligation.
  intros rd bs H Hu Hl. cbn in *. do 5 rd_any 4%nat H Hu Hl. rd_any 8%nat H Hu Hl.
  eexists. rewrite !rd_advance_add. unfold params_valid. done.
Qed.

#[export] Program Instance close_ok : BlockSerialOk CloseFrame := {|
  block_valid a := is_u32 (cl_remote_nonce a);
  block_encode a := be_bytes 4 (cl_remote_nonce a)
|}.
Next Obligation. done. Qed.
Next Obligation. intros a. by zlen_simpl. Qed.
Next Obligation. intros wr a Hr. cbn in Hr |- *. wr_chain Hr. Qed.
Next Obligation. intros a _. apply be_bytes_u8. Qed.
Next Obligation. intros rd [n] r Hn H. cbn in *. by rd_step H. Qed.
Next Obligation. intros rd bs H Hu Hl. cbn in *. rd_any 4%nat H Hu Hl. eexists. done. Qed.

#[export] Program Instance close_ack_ok : BlockSerialOk CloseAckFrame := {|
  block_valid a := is_u32 (ca_remote_nonce a);
  block_encode a := be_bytes 4 (ca_remote_nonce a)
|}.
Next Obligation. done. Qed.
Next Obligation. intros a. by zlen_simpl. Qed.
Next Obligation. intros wr a Hr. cbn in Hr |- *. wr_chain Hr. Qed.
Next Obligation. intros a _. apply be_bytes_u8. Qed.
Next Obligation. intros rd [n] r Hn H. cbn in *. by rd_step H. Qed.
Next Obligation. intros rd bs H Hu Hl. cbn in *. rd_any 4%nat H Hu Hl. eexists. done. Qed.

#[export] Program Instance stream_sync_ok : BlockSerialOk StreamSync := {|
  block_valid a := is_u32 (sy_next_segment_id a);
  block_encode a := be_bytes 4 (sy_next_segment_id a)
|}.
Next Obligation. done. Qed.
Next Obligation. intros a. by zlen_simpl. Qed.
Next Obligation. intros wr a Hr. cbn in Hr |- *. wr_chain Hr. Qed.
Next Obligation. intros a _. apply be_bytes_u8. Qed.
Next Obligation. intros rd [n] r Hn H. cbn in *. by rd_step H. Qed.
Next Obligation. intros rd bs H Hu Hl. cbn in *. rd_any 4%nat H Hu Hl. eexists. done. Qed.

(** The information bytes. *)
Definition status_byte (e : option HandshakeErrorKind) : Z :=
  match e with None => 0x00 | Some Capacity => 0x01 | Some Parameter_ => 0x02 end.

Definition segment_info (nonce : bool) : Z := if nonce then Z.lor 0 0x01 else 0.

Definition ack_info (rel : option Z) (checksum : bool) (history : Z) : Z :=
  let info := match rel with Some _ => Z.lor 0 0x80 | None => 0 end in
  let info := if checksum then Z.lor info 0x20 else info in
  Z.lor info (Z.land history 0x1f).

Definition option_present (o : option Z) : bool := match o with Some _ => true | None => false end.

(** Facts about the bits of one byte hold for all its values. *)
Lemma u8_forall (P : Z -> bool) n : forallb P (seqZ 0 n) = true -> forall x, 0 <= x < n -> P x = true.
Proof. intros Hall x Hx. rewrite forallb_forall in Hall. apply Hall. apply list_elem_of_In, elem_of_seqZ. lia. Qed.

Lemma ack_info_fields rel checksum history : 0 <= history < 32 ->
  is_u8 (ack_info rel checksum history) /\
  Z.land (ack_info rel checksum history) 0x1f = history /\
  negb (Z.land (ack_info rel checksum history) 0x20 =? 0) = checksum /\
  negb (Z.land (ack_info rel checksum history) 0x80 =? 0) = option_present rel.
Proof.
  intros Hh.
  pose proof (u8_forall (fun h => forallb (fun c => forallb (fun r =>
    let i := ack_info r c h in
    (0 <=? i) && (i <? 256) && (Z.land i 0x1f =? h) &&
    eqb (negb (Z.land i 0x20 =? 0)) c && eqb (negb (Z.land i 0x80 =? 0)) (option_present r))
    [None; Some 0]) [false; true]) 32 ltac:(vm_compute; reflexivity) history Hh) as Hall.
  assert (Hr : exists r, In r [None; Some 0] /\ ack_info rel checksum history = ack_info r checksum history
    /\ option_present rel = option_present r)
    by (destruct rel; [exists (Some 0)|exists None]; cbn; auto).
  destruct Hr as (r & Hin & -> & ->). rewrite forallb_forall in Hall.
  assert (Hc : In checksum [false; true]) by (destruct checksum; cbn; auto).
  specialize (Hall checksum Hc). rewrite forallb_forall in Hall. specialize (Hall r Hin).
  cbn zeta in Hall. reflect_bool.
  repeat match goal with H : eqb _ _ = true |- _ => apply eqb_prop in H end. done.
Qed.

#[export] Program Instance handshake_beta_ack_ok : BlockSerialOk HandshakeBetaAckFrame := {|
  block_valid a := is_u32 (hba_client_nonce a);
  block_encode a := status_byte (hba_error a) :: be_bytes 4 (hba_client_nonce a)
|}.
Next Obligation. done. Qed.
Next Obligation. intros a. by zlen_simpl. Qed.
Next Obligation. intros wr a Hr. cbn in Hr |- *. fold (status_byte (hba_error a)). wr_chain Hr. Qed.
Next Obligation.
  intros a _. constructor; [|apply be_bytes_u8]. by destruct (hba_error a) as [[]|].
Qed.
Next Obligation.
  intros rd [e n] r Hn H. cbn in *. do 2 rd_step H. rewrite rd_advance_add. by destruct e as [[]|].
Qed.
Next Obligation.
  intros rd [|b bs] H Hu Hl; cbn in *; [done|]. inversion Hu as [|? ? Hb Hu']; subst. rewrite zlen_cons in Hl.
  rd_step H. rd_any 4%nat H Hu' Hl. eexists. rewrite rd_advance_add. done.
Qed.

#[export] Program Instance stream_segment_header_ok : BlockSerialOk StreamSegmentHeader := {|
  block_valid a := is_u32 (ssh_id a);
  block_encode a := segment_info (ssh_nonce a) :: be_bytes 4 (ssh_id a)
|}.
Next Obligation. done. Qed.
Next Obligation. intros a. by zlen_simpl. Qed.
Next Obligation. intros wr a Hr. cbn in Hr |- *. fold (segment_info (ssh_nonce a)). wr_chain Hr. Qed.
Next Obligation. intros a _. constructor; [|apply be_bytes_u8]. by destruct (ssh_nonce a). Qed.
Next Obligation.
  intros rd [i n] r Hn H. cbn in *. do 2 rd_step H. rewrite rd_advance_add. by destruct n.
Qed.
Next Obligation.
  intros rd [|b bs] H Hu Hl; cbn in *; [done|]. inversion Hu as [|? ? Hb Hu']; subst. rewrite zlen_cons in Hl.
  rd_step H. rd_any 4%nat H Hu' Hl. eexists. rewrite rd_advance_add. done.
Qed.

#[export] Program Instance stream_ack_ok : BlockSerialOk StreamAck := {|
  block_valid a := is_u32 (sa_segment_id a) /\ 0 <= sa_segment_history a < 32 /\
    is_u32 (default 0 (sa_rel_fragment_id a));
  block_encode a := ack_info (sa_rel_fragment_id a) (sa_segment_checksum a) (sa_segment_history a) ::
    be_bytes 4 (sa_segment_id a) ++ be_bytes 4 (default 0 (sa_rel_fragment_id a))
|}.
Next Obligation. done. Qed.
Next Obligation. intros a. by zlen_simpl. Qed.
Next Obligation.
  intros wr a Hr. cbn in Hr |- *.
  fold (ack_info (sa_rel_fragment_id a) (sa_segment_checksum a) (sa_segment_history a)). wr_chain Hr.
Qed.
Next Obligation.
  intros a (_ & Hh & _). constructor; [by apply ack_info_fields|]. rewrite Forall_app. auto using be_bytes_u8.
Qed.
Next Obligation.
  intros rd [i h c f] r (Hi & Hh & Hf) H. cbn in *. rewrite <- app_assoc in H. do 3 rd_step H.
  rewrite !rd_advance_add. destruct (ack_info_fields f c h Hh) as (_ & -> & -> & ->). by destruct f.
Qed.
Next Obligation.
  intros rd [|b bs] H Hu Hl; cbn in *; [done|]. inversion Hu as [|? ? Hb Hu']; subst. rewrite zlen_cons in Hl.
  rd_step H. do 2 rd_any 4%nat H Hu' Hl. eexists. rewrite !rd_advance_add. split; [done|]. cbn.
  split; [done|]. split.
  - change 0x1f with (Z.ones 5). rewrite Z.land_ones by lia. apply Z.mod_pos_bound. lia.
  - by case_bool.
Qed.

(** ** The laws of the checked interface *)

Class SerialOk (A : Type) `{Serial A} := {
  serial_valid : A -> Prop;
  serial_encode : A -> list Z;
  serial_encode_pos a : 0 < zlen (serial_encode a);
  serial_encode_u8 a : serial_valid a -> Forall is_u8 (serial_encode a);
  serial_write_fits dst a : serial_valid a -> zlen (serial_encode a) <= zlen dst ->
    serial_write dst a =
      Ok (Some (serial_encode a ++ drop (length (serial_encode a)) dst, zlen (serial_encode a)));
  serial_write_full dst a : zlen dst < zlen (serial_encode a) -> serial_write dst a = Ok None;
  serial_read_encode a r : serial_valid a ->
    serial_read (serial_encode a ++ r) = Ok (Some (a, zlen (serial_encode a)));
  serial_read_short r : zlen r = 0 -> serial_read r = Ok None;
  serial_read_total bs : Forall is_u8 bs ->
    serial_read bs = Ok None \/
    exists a n, serial_read bs = Ok (Some (a, n)) /\ serial_valid a /\ 0 < n <= zlen bs
}.

Lemma wr_put_new dst bs : wr_put (writer_new dst) bs =
  mkWriter (bs ++ drop (length bs) dst) (zlen bs) (zlen bs).
Proof.
  unfold wr_put, wr_advance, writer_new. cbn [wr_ptr wr_buffer wr_bytes_written].
  rewrite !Z.add_0_l. unfold zlen. by rewrite Nat2Z.id.
Qed.

Lemma ltb_false_le a b : b <= a -> (a <? b) = false.
Proof. apply Z.ltb_ge. Qed.

#[export] Program Instance block_serial_ok `{BuildProfile} {A} `{BlockSerialOk A} : SerialOk A := {|
  serial_valid := block_valid;
  serial_encode := block_encode
|}.
Next Obligation. intros. rewrite block_encode_length. apply block_size_pos. Qed.
Next Obligation. intros. by apply block_encode_u8. Qed.
Next Obligation.
  intros P A BS BO dst a Hv Hl. rewrite block_encode_length in *. cbn. rewrite ltb_false_le by done.
  rewrite block_write_put by (split; unfold writer_new; cbn [wr_ptr wr_buffer]; lia). cbn [mbind outcome_bind].
  rewrite wr_put_new. cbn. rewrite block_encode_length. by rewrite debug_assert_true by apply Z.eqb_refl.
Qed.
Next Obligation.
  intros P A BS BO dst a Hl. rewrite block_encode_length in Hl. cbn.
  by replace (zlen dst <? block_size A) with true by (symmetry; apply Z.ltb_lt; lia).
Qed.
Next Obligation.
  intros P A BS BO a r Hv. cbn. pose proof (zlen_nonneg r).
  rewrite zlen_app, block_encode_length, ltb_false_le by lia.
  rewrite (block_read_encode _ a r) by done. cbn. by rewrite debug_assert_true by apply Z.eqb_refl.
Qed.
Next Obligation.
  intros P A BS BO r Hr. cbn. pose proof (block_size_pos (A := A)).
  by replace (zlen r <? block_size A) with true by (symmetry; apply Z.ltb_lt; lia).
Qed.
Next Obligation.
  intros P A BS BO bs Hu. cbn. destruct (Z.ltb_spec (zlen bs) (block_size A)) as [|Hl]; [by left|right].
  destruct (block_read_total (reader_new bs) bs (at_input_new bs) Hu Hl) as (a & Hr & Hv).
  exists a, (block_size A). rewrite Hr. cbn. rewrite debug_assert_true by apply Z.eqb_refl.
  pose proof (block_size_pos (A := A)). done.
Qed.

(** *** Datagrams *)

Definition datagram_info (d : Datagram) : Z :=
  let info_bits := if dg_unrel d then Z.lor 0 DATAGRAM_UNREL_BIT else 0 in
  let info_bits := if dg_first d then Z.lor info_bits DATAGRAM_FIRST_BIT else info_bits in
  if dg_last d then Z.lor info_bits DATAGRAM_LAST_BIT else info_bits.

Definition datagram_valid (d : Datagram) : Prop :=
  is_u32 (dg_id d) /\ Forall is_u8 (dg_data d) /\ zlen (dg_data d) <= DATAGRAM_DATA_SIZE_MAX.

Definition datagram_encode (d : Datagram) : list Z :=
  datagram_info d :: be_bytes 4 (dg_id d) ++ be_bytes 2 (zlen (dg_data d)) ++ dg_data d.

Lemma datagram_encode_length d : zlen (datagram_encode d) = DATAGRAM_HEADER_SIZE + zlen (dg_data d).
Proof. unfold datagram_encode. zlen_simpl. unfold DATAGRAM_HEADER_SIZE. lia. Qed.

Lemma index_range_ok l i j : 0 <= i <= j -> j <= zlen l -> index_range l i j = Ok (slice i j l).
Proof.
  intros. unfold index_range.
  by replace (_ && _ && _) with true by (symmetry; rewrite !andb_true_iff; repeat split; apply Z.leb_le; lia).
Qed.

Lemma slice_middle {A} (a b c : list A) : slice (zlen a) (zlen a + zlen b) (a ++ b ++ c) = b.
Proof.
  unfold slice, zlen. rewrite Nat2Z.id, drop_app_length.
  replace (Z.to_nat _) with (length b) by lia. apply take_app_length.
Qed.

Lemma datagram_write_fits `{BuildProfile} dst d :
  zlen (dg_data d) <= DATAGRAM_DATA_SIZE_MAX -> zlen (datagram_encode d) <= zlen dst ->
  serial_write dst d =
  Ok (Some (datagram_encode d ++ drop (length (datagram_encode d)) dst, zlen (datagram_encode d))).
Proof.
  intros Hd Hl. rewrite datagram_encode_length in *. pose proof (zlen_nonneg (dg_data d)).
  cbn -[Z.add]. rewrite ltb_false_le by done. fold (datagram_info d).
  rewrite assert_true by (by apply Z.leb_le). cbn [mbind outcome_bind].
  assert (Hr : wr_room (writer_new dst) (DATAGRAM_HEADER_SIZE + zlen (dg_data d)))
    by (split; unfold writer_new; cbn [wr_ptr wr_buffer]; lia).
  rewrite Z.mod_small by (unfold DATAGRAM_DATA_SIZE_MAX, U16_MAX, two16 in *; lia).
  do 3 wr_step Hr. rewrite debug_assert_true; [cbn [mbind outcome_bind]|by rewrite wr_put_new].
  wr_step Hr. rewrite wr_put_new. cbn [wr_buffer]. rewrite <- !app_assoc. cbn [app]. done.
Qed.

#[export] Program Instance datagram_ok `{BuildProfile} : SerialOk Datagram := {|
  serial_valid := datagram_valid;
  serial_encode := datagram_encode
|}.
Next Obligation.
  intros P d. rewrite datagram_encode_length. pose proof (zlen_nonneg (dg_data d)).
  unfold DATAGRAM_HEADER_SIZE. lia.
Qed.
Next Obligation.
  intros P d (_ & Hu & _). constructor; [by destruct d as [? [] [] [] ?]|].
  rewrite !Forall_app. auto using be_bytes_u8.
Qed.
Next Obligation. intros P dst d (_ & _ & Hd) Hl. by apply datagram_write_fits. Qed.
Next Obligation.
  intros P dst d Hl. rewrite datagram_encode_length in Hl. cbn -[Z.add].
  by replace (zlen dst <? _) with true by (symmetry; apply Z.ltb_lt; lia).
Qed.
Next Obligation.
  intros P d r (Hid & Hu & Hd). pose proof (zlen_nonneg (dg_data d)). pose proof (zlen_nonneg r).
  assert (Hlen : zlen (datagram_encode d ++ r) = DATAGRAM_HEADER_SIZE + zlen (dg_data d) + zlen r)
    by (rewrite zlen_app, datagram_encode_length; lia).
  pose proof (at_input_new (datagram_encode d ++ r)) as Hin. unfold datagram_encode at 2 in Hin.
  cbn [app] in Hin. rewrite <- !app_assoc in Hin.
  remember (datagram_encode d ++ r) as src eqn:Hsrc.
  cbn -[Z.add]. rewrite Hlen, ltb_false_le by lia.
  assert (Hdl : is_u16 (zlen (dg_data d))) by (unfold DATAGRAM_DATA_SIZE_MAX, U16_MAX, is_u16, two16 in *; lia).
  do 3 rd_step Hin. rewrite debug_assert_true by done. cbn [mbind outcome_bind].
  rewrite ltb_false_le by lia. rewrite index_range_ok by (unfold DATAGRAM_HEADER_SIZE in *; lia).
  cbn [mbind outcome_bind]. rewrite datagram_encode_length. do 4 f_equal.
  pose proof (slice_middle (datagram_info d :: be_bytes 4 (dg_id d) ++ be_bytes 2 (zlen (dg_data d)))
    (dg_data d) r) as Hs.
  rewrite zlen_cons, zlen_app, !be_bytes_zlen in Hs.
  change (1 + (Z.of_nat 4 + Z.of_nat 2)) with DATAGRAM_HEADER_SIZE in Hs.
  rewrite Hsrc. unfold datagram_encode.
  replace ((datagram_info d :: be_bytes 4 (dg_id d) ++ be_bytes 2 (zlen (dg_data d)) ++ dg_data d) ++ r)
    with ((datagram_info d :: be_bytes 4 (dg_id d) ++ be_bytes 2 (zlen (dg_data d))) ++ dg_data d ++ r)
    by (cbn; by rewrite <- !app_assoc).
  rewrite Hs. by destruct d as [? [] [] [] ?].
Qed.
Next Obligation. intros P r Hr. cbn -[Z.add]. by rewrite Hr. Qed.
Next Obligation.
  intros P bs Hu. cbn -[Z.add]. destruct (Z.ltb_spec (zlen bs) DATAGRAM_HEADER_SIZE) as [|Hl]; [by left|].
  pose proof (at_input_new bs) as H. assert (Hsplit : exists b bs', bs = b :: bs' /\ Forall is_u8 bs').
  { destruct Hu as [|b bs' ? Hu']; [done|by exists b, bs']. }
  destruct Hsplit as (b & bs' & Hbs & Hu'). rewrite Hbs in H at 2.
  assert (Hw : zlen bs = 1 + zlen bs') by (rewrite Hbs; apply zlen_cons).
  rd_step H. rd_any 4%nat H Hu' Hl. rd_any 2%nat H Hu' Hl.
  rewrite debug_assert_true by done. cbn [mbind outcome_bind].
  match goal with |- context [zlen bs <? DATAGRAM_HEADER_SIZE + ?n] => set (len := n) in * end.
  destruct (Z.ltb_spec (zlen bs) (DATAGRAM_HEADER_SIZE + len)) as [|Hfit]; [by left|right].
  rewrite index_range_ok by (unfold DATAGRAM_HEADER_SIZE in *; lia). do 2 eexists. split; [reflexivity|].
  split; [|unfold DATAGRAM_HEADER_SIZE in *; lia]. split; [done|]. cbn [dg_data]. split.
  - apply Forall_take, Forall_drop, Hu.
  - rewrite slice_length by (unfold DATAGRAM_HEADER_SIZE in *; lia).
    unfold DATAGRAM_DATA_SIZE_MAX, U16_MAX. cbn in *. lia.
Qed.
