(* ===== verification/FrameFacts.v ===== *)
(** * Correctness of frames

    A frame is its type byte, the encodings of what was written and the checksum
    ([frame_of]).  Everything [FrameWriter] produces passes the receiver's checks and
    reads back; frames that were not produced by it are inspected without a fault;
    and two different accepted frames differ in at least four bits. *)

From S2P Require Import Prelude.
From S2P Require Import Word.
From S2P Require Import Crc.
From S2P Require Import Frame.
From S2P Require Import Serial.
From S2P Require Import SerialFacts.

(** ** The checksum field *)

Lemma compute_u32 data : Forall is_u8 data -> is_u32 (compute data).
Proof. by apply extend_u32. Qed.

Lemma to_le_bytes_u8 x : Forall is_u8 (to_le_bytes x).
Proof. repeat constructor; apply mod_two8_u8. Qed.

Lemma from_to_le_bytes x : is_u32 x -> from_le_bytes (to_le_bytes x) = x.
Proof.
  intros Hx. unfold from_le_bytes, to_le_bytes. cbn [foldr]. rewrite !as_u8_shiftr by lia.
  change (2 ^ 8) with 256. change (2 ^ 16) with 65536. change (2 ^ 24) with 16777216.
  unfold as_u8, two8, is_u32, two32 in *. Z.div_mod_to_equations. lia.
Qed.

Lemma from_le_bytes_eq l : Forall is_u8 l -> from_le_bytes l = le_bytes l.
Proof.
  induction 1 as [|b l Hb Hl IH]; [done|]. cbn [from_le_bytes foldr le_bytes].
  fold (from_le_bytes l). rewrite IH. rewrite <- Z.add_nocarry_lxor; [rewrite Z.shiftl_mul_pow2 by lia; lia|].
  apply Z.bits_inj'. intros n Hn. rewrite Z.land_spec, Z.bits_0.
  destruct (Z.lt_ge_cases n 8); [rewrite Z.shiftl_spec_low, andb_false_r by lia; done|].
  unfold is_u8, two8 in Hb. destruct (Z.eq_dec b 0) as [->|]; [by rewrite Z.bits_0|].
  rewrite (Z.bits_above_log2 b); [done|lia|]. enough (Z.log2 b < 8) by lia. apply Z.log2_lt_pow2; lia.
Qed.

Definition seal (body : list Z) : list Z := body ++ to_le_bytes (compute body).

Lemma split_seal body : 
  index_range (seal body) 0 (zlen body) = Ok body /\
  index_range (seal body) (zlen body) (zlen (seal body)) = Ok (to_le_bytes (compute body)).
Proof.
  pose proof (zlen_nonneg body). assert (Hl : zlen (seal body) = zlen body + 4) by apply zlen_app.
  rewrite !index_range_ok by lia. rewrite slice_to_end by lia. unfold slice, seal, zlen.
  rewrite Z.sub_0_r, Nat2Z.id, drop_0, take_app_length, drop_app_length. done.
Qed.

Section Checks.
Context `{BuildProfile}.

(** Any frame is a body and a checksum field, and the check compares them. *)
Lemma verify_crc_split body c :
  length c = 4%nat -> verify_crc (body ++ c) = Ok (compute body =? from_le_bytes c).
Proof.
  intros Hc. pose proof (zlen_nonneg body).
  assert (Hl : zlen (body ++ c) = zlen body + 4) by (rewrite zlen_app; unfold zlen; lia).
  unfold verify_crc, SIZE. rewrite Hl, debug_assert_true by (apply Z.leb_le; lia). cbn [mbind outcome_bind].
  rewrite sub64_ok by lia. cbn [mbind outcome_bind]. replace (zlen body + 4 - 4) with (zlen body) by lia.
  rewrite !index_range_ok by lia. cbn [mbind outcome_bind]. rewrite <- Hl, slice_to_end by lia.
  unfold slice, zlen. by rewrite Z.sub_0_r, Nat2Z.id, drop_0, take_app_length, drop_app_length.
Qed.

Lemma verify_crc_seal body : Forall is_u8 body -> verify_crc (seal body) = Ok true.
Proof.
  intros Hb. unfold seal. rewrite verify_crc_split by done.
  by rewrite from_to_le_bytes, Z.eqb_refl by by apply compute_u32.
Qed.

Lemma verify_minimum_size_seal t bs : verify_minimum_size (seal (t :: bs)) = true.
Proof.
  unfold verify_minimum_size, seal. apply Z.leb_le. pose proof (zlen_nonneg bs).
  rewrite zlen_app, zlen_cons. change (zlen (to_le_bytes _)) with 4.
  unfold FRAME_OVERHEAD_SIZE, FRAME_HEADER_SIZE, FRAME_CRC_SIZE. lia.
Qed.

Lemma read_type_seal t bs : read_type (seal (frame_type_bits t :: bs)) = Ok (Some t).
Proof.
  unfold read_type. rewrite debug_assert_true by apply verify_minimum_size_seal. by destruct t.
Qed.

Lemma payload_split t bs c : length c = 4%nat -> payload (t :: bs ++ c) = Ok bs.
Proof.
  intros Hc. pose proof (zlen_nonneg bs). unfold payload, verify_minimum_size.
  assert (Hl : zlen (t :: bs ++ c) = 1 + zlen bs + 4) by (rewrite zlen_cons, zlen_app; unfold zlen; lia).
  unfold FRAME_OVERHEAD_SIZE, FRAME_CRC_SIZE, FRAME_HEADER_SIZE in *.
  rewrite Hl, debug_assert_true by (apply Z.leb_le; lia). cbn [mbind outcome_bind].
  rewrite sub64_ok by lia. cbn [mbind outcome_bind]. rewrite index_range_ok by lia.
  replace (1 + zlen bs + 4 - 4) with (zlen [t] + zlen bs) by (change (zlen [t]) with 1; lia).
  f_equal. exact (slice_middle [t] bs c).
Qed.

Lemma payload_seal t bs : payload (seal (t :: bs)) = Ok bs.
Proof. by apply payload_split. Qed.

(** ** The frame writer *)

(** [bs] has been written, [tail] is the rest of the buffer. *)
Definition fw_at (wr : FrameWriter) (bs tail : list Z) : Prop :=
  fw_buffer wr = bs ++ tail /\ fw_write_idx wr = zlen bs.

Lemma frame_writer_new_at dst t : FRAME_OVERHEAD_SIZE <= zlen dst ->
  exists wr, frame_writer_new dst t = Ok wr /\ fw_at wr [frame_type_bits t] (drop 1 dst).
Proof.
  intros Hl. unfold frame_writer_new. rewrite debug_assert_true by (by apply Z.leb_le).
  cbn [mbind outcome_bind]. rewrite write_u8_put.
  2: { unfold FRAME_OVERHEAD_SIZE, FRAME_HEADER_SIZE, FRAME_CRC_SIZE in Hl.
  split; unfold writer_new; cbn [wr_ptr wr_buffer]; lia. }
  cbn [mbind outcome_bind]. rewrite wr_put_new. rewrite debug_assert_true by done.
  eexists. split; [reflexivity|]. by split.
Qed.

Section Write.
Context {A : Type} `{SerialOk A}.

Lemma write_range wr bs tail :
  fw_at wr bs tail -> FRAME_CRC_SIZE <= zlen tail ->
  (end_idx ← sub64 (zlen (fw_buffer wr)) FRAME_CRC_SIZE; index_range (fw_buffer wr) (fw_write_idx wr) end_idx) =
  Ok (take (Z.to_nat (zlen tail - FRAME_CRC_SIZE)) tail).
Proof.
  intros [Hb Hi] Hl. pose proof (zlen_nonneg bs). rewrite Hb, Hi, zlen_app. unfold FRAME_CRC_SIZE in *.
  rewrite sub64_ok by lia. cbn [mbind outcome_bind]. rewrite index_range_ok by (rewrite ?zlen_app; lia).
  unfold slice. f_equal. unfold zlen. rewrite Nat2Z.id, drop_app_length. f_equal. lia.
Qed.

Lemma frame_writer_write_fits wr bs tail a :
  fw_at wr bs tail -> serial_valid a -> zlen (serial_encode a) + FRAME_CRC_SIZE <= zlen tail ->
  exists wr', frame_writer_write wr a = Ok (wr', true) /\
    fw_at wr' (bs ++ serial_encode a) (drop (length (serial_encode a)) tail).
Proof.
  intros Hat Hv Hl. pose proof (zlen_nonneg bs). pose proof (zlen_nonneg (serial_encode a)).
  pose proof (write_range wr bs tail Hat ltac:(lia)) as Hr. destruct Hat as [Hb Hi].
  unfold frame_writer_write. unfold FRAME_CRC_SIZE in *.
  rewrite sub64_ok in Hr |- * by (rewrite Hb, zlen_app; lia). cbn [mbind outcome_bind] in Hr |- *.
  rewrite Hr. cbn [mbind outcome_bind]. rewrite serial_write_fits by (done || rewrite zlen_take; lia).
  cbn [mbind outcome_bind]. eexists. split; [reflexivity|]. split; cbn; [|by rewrite zlen_app, Hi].
  unfold with_range. rewrite Hb, Hi, zlen_app. unfold zlen in *.
  rewrite Nat2Z.id, take_app_length, drop_app_ge by lia. rewrite <- !app_assoc. do 2 f_equal.
  replace (Z.to_nat _ - length bs)%nat with (Z.to_nat (Z.of_nat (length tail) - 4)) by lia.
  apply drop_take_drop. lia.
Qed.

Lemma frame_writer_write_full wr bs tail a :
  fw_at wr bs tail -> FRAME_CRC_SIZE <= zlen tail -> zlen tail < zlen (serial_encode a) + FRAME_CRC_SIZE ->
  frame_writer_write wr a = Ok (wr, false).
Proof.
  intros Hat Hl Hf. pose proof (zlen_nonneg bs). pose proof (write_range wr bs tail Hat Hl) as Hr.
  destruct Hat as [Hb Hi]. unfold frame_writer_write. unfold FRAME_CRC_SIZE in *.
  rewrite sub64_ok in Hr |- * by (rewrite Hb, zlen_app; lia). cbn [mbind outcome_bind] in Hr |- *.
  rewrite Hr. cbn [mbind outcome_bind]. rewrite serial_write_full by (rewrite zlen_take; lia). done.
Qed.

(** Writing a list of values, each of which must fit. *)
Fixpoint write_all (wr : FrameWriter) (l : list A) : outcome (FrameWriter * bool) :=
  match l with
  | [] => Ok (wr, true)
  | a :: l =>
      '(wr, ok) ← frame_writer_write wr a;
      if ok : bool then write_all wr l else Ok (wr, false)
  end.

Definition encode_all (l : list A) : list Z := l ≫= serial_encode.

Lemma encode_all_u8 l : Forall serial_valid l -> Forall is_u8 (encode_all l).
Proof.
  induction 1 as [|a l Ha Hl IH]; [constructor|]. cbn. apply Forall_app. split; [by apply serial_encode_u8|done].
Qed.

Lemma write_all_fits l : forall wr bs tail,
  fw_at wr bs tail -> Forall serial_valid l -> zlen (encode_all l) + FRAME_CRC_SIZE <= zlen tail ->
  exists wr', write_all wr l = Ok (wr', true) /\
    fw_at wr' (bs ++ encode_all l) (drop (length (encode_all l)) tail).
Proof.
  induction l as [|a l IH]; intros wr bs tail Hat Hv Hl.
  - exists wr. cbn. by rewrite app_nil_r.
  - inversion Hv as [|? ? Ha Hv']; subst. cbn [encode_all mbind list_bind] in Hl |- *.
    fold (encode_all l) in *. rewrite zlen_app in Hl. pose proof (zlen_nonneg (encode_all l)).
    destruct (frame_writer_write_fits wr bs tail a Hat Ha ltac:(lia)) as (wr1 & Hw & Hat1).
    destruct (IH wr1 _ _ Hat1 Hv') as (wr2 & Hw2 & Hat2).
    { unfold zlen in *. rewrite length_drop. lia. }
    exists wr2. cbn [write_all]. rewrite Hw. cbn [mbind outcome_bind]. split; [done|].
    by rewrite <- app_assoc, drop_drop, <- length_app in Hat2.
Qed.
End Write.

Lemma finalize_at wr bs tail : fw_at wr bs tail -> FRAME_CRC_SIZE <= zlen tail ->
  frame_writer_finalize wr = Ok (seal bs, seal bs ++ drop 4 tail).
Proof.
  intros [Hb Hi] Hl. pose proof (zlen_nonneg bs). unfold FRAME_CRC_SIZE in Hl. unfold frame_writer_finalize, SIZE.
  rewrite Hb, Hi, !index_range_ok by (rewrite ?zlen_app; lia). cbn [mbind outcome_bind].
  assert (Hs : slice 0 (zlen bs) (bs ++ tail) = bs)
    by (unfold slice, zlen; rewrite Z.sub_0_r, Nat2Z.id, drop_0; apply take_app_length).
  rewrite Hs. assert (Hw : with_range (bs ++ tail) (zlen bs) (zlen bs + 4) (to_le_bytes (compute bs)) =
    seal bs ++ drop 4 tail).
  { unfold with_range, seal, zlen. rewrite Nat2Z.id, take_app_length, <- app_assoc. do 2 f_equal.
    rewrite drop_app_ge by lia. f_equal. lia. }
  assert (Hz : zlen (seal bs) = zlen bs + 4) by apply zlen_app.
  rewrite Hw, index_range_ok by (rewrite ?zlen_app; pose proof (zlen_nonneg (drop 4 tail)); lia).
  cbn [mbind outcome_bind]. do 2 f_equal. rewrite <- Hz. unfold slice, zlen.
  rewrite Z.sub_0_r, Nat2Z.id, drop_0. apply take_app_length.
Qed.

(** ** The payload reader *)

Definition pr_at (rd : PayloadReader) (bs : list Z) : Prop :=
  exists pre, pr_buffer rd = pre ++ bs /\ pr_read_idx rd = zlen pre.

Lemma pr_at_new bs : pr_at (payload_reader_new bs) bs.
Proof. by exists []. Qed.

Lemma remaining_bytes_at rd bs : pr_at rd bs -> remaining_bytes rd = Ok bs.
Proof.
  intros (pre & Hb & Hi). pose proof (zlen_nonneg pre). pose proof (zlen_nonneg bs).
  unfold remaining_bytes. rewrite Hb, Hi, index_range_ok by (rewrite ?zlen_app; lia).
  rewrite slice_to_end by (rewrite zlen_app; lia). unfold zlen. by rewrite Nat2Z.id, drop_app_length.
Qed.

Section Read.
Context {A : Type} `{SerialOk A}.

Lemma payload_reader_read_encode rd a r : pr_at rd (serial_encode a ++ r) -> serial_valid a ->
  exists rd', payload_reader_read rd = Ok (Some a, rd') /\ pr_at rd' r.
Proof.
  intros Hat Hv. pose proof (remaining_bytes_at rd _ Hat) as Hr. unfold remaining_bytes in Hr.
  unfold payload_reader_read. rewrite Hr. cbn [mbind outcome_bind]. rewrite serial_read_encode by done.
  cbn [mbind outcome_bind]. eexists. split; [reflexivity|]. destruct Hat as (pre & Hb & Hi).
  exists (pre ++ serial_encode a). cbn. by rewrite Hb, Hi, app_assoc, zlen_app.
Qed.

(** On arbitrary bytes a read returns, and either stops or moves forward. *)
Lemma payload_reader_read_any rd bs : pr_at rd bs -> Forall is_u8 bs ->
  (payload_reader_read (A := A) rd = Ok (None, rd)) \/
  exists a rd' n, payload_reader_read rd = Ok (Some a, rd') /\ serial_valid a /\
    (0 < n <= length bs)%nat /\ pr_at rd' (drop n bs).
Proof.
  intros Hat Hu. pose proof (remaining_bytes_at rd _ Hat) as Hr. unfold remaining_bytes in Hr.
  unfold payload_reader_read. rewrite Hr. cbn [mbind outcome_bind].
  destruct (serial_read_total bs Hu) as [-> | (a & n & -> & Hv & Hn)]; [by left|right].
  cbn [mbind outcome_bind]. eexists a, _, (Z.to_nat n). split; [reflexivity|]. split; [done|].
  unfold zlen in Hn. split; [lia|]. destruct Hat as (pre & Hb & Hi). exists (pre ++ take (Z.to_nat n) bs). cbn.
  rewrite Hb, Hi, <- app_assoc, take_drop, zlen_app. split; [done|].
  unfold zlen at 3. rewrite length_take. lia.
Qed.

(** The receive loop: read values until none is left. *)
Fixpoint read_all (fuel : nat) (rd : PayloadReader) : outcome (list A * PayloadReader) :=
  match fuel with
  | O => Fault OutOfFuel
  | S fuel =>
      '(o, rd) ← payload_reader_read rd;
      match o with
      | Some a => '(l, rd) ← read_all fuel rd; Ok (a :: l, rd)
      | None => Ok ([], rd)
      end
  end.

Lemma read_all_any fuel : forall rd bs, pr_at rd bs -> Forall is_u8 bs -> (length bs < fuel)%nat ->
  exists l rd', read_all fuel rd = Ok (l, rd') /\ Forall serial_valid l.
Proof.
  induction fuel as [|fuel IH]; intros rd bs Hat Hu Hl; [lia|]. cbn [read_all].
  destruct (payload_reader_read_any rd bs Hat Hu) as [-> | (a & rd' & n & -> & Hv & Hn & Hat')];
    cbn [mbind outcome_bind]; [by exists [], rd|].
  destruct (IH rd' _ Hat' (Forall_drop _ _ _ Hu)) as (l & rd'' & -> & Hvl); [rewrite length_drop; lia|].
  exists (a :: l), rd''. by split; [|constructor].
Qed.

Lemma read_all_encode l : forall rd fuel, pr_at rd (encode_all l) -> Forall serial_valid l ->
  (length l < fuel)%nat -> exists rd', read_all fuel rd = Ok (l, rd') /\ pr_at rd' [].
Proof.
  induction l as [|a l IH]; intros rd [|fuel] Hat Hv Hf; cbn in Hf; try lia; cbn [read_all].
  - cbn in Hat. pose proof (remaining_bytes_at rd _ Hat) as Hr. unfold remaining_bytes in Hr.
    unfold payload_reader_read. rewrite Hr. cbn [mbind outcome_bind]. rewrite serial_read_short by done.
    cbn. by exists rd.
  - inversion Hv as [|? ? Ha Hv']; subst. cbn [encode_all mbind list_bind] in Hat. fold (encode_all l) in Hat.
    destruct (payload_reader_read_encode rd a _ Hat Ha) as (rd1 & -> & Hat1). cbn [mbind outcome_bind].
    destruct (IH rd1 fuel Hat1 Hv' ltac:(lia)) as (rd2 & -> & Hat2). by exists rd2.
Qed.
End Read.
End Checks.

(** ** Frames of one structure *)

Lemma fits_room {A} `{BlockSerialOk A} (a : A) : zlen (block_encode a) = block_size A.
Proof. apply block_encode_length. Qed.

Lemma simple_frame_parts `{BuildProfile} {A} `{SimpleFrame A} `{BlockSerialOk A} (a : A) dst :
  block_valid a -> block_size A + FRAME_OVERHEAD_SIZE <= zlen dst ->
  exists wr1 wr2, frame_writer_new dst (FRAME_TYPE A) = Ok wr1 /\
    frame_writer_write wr1 a = Ok (wr2, true) /\
    frame_writer_finalize wr2 =
      Ok (seal (frame_type_bits (FRAME_TYPE A) :: block_encode a),
          seal (frame_type_bits (FRAME_TYPE A) :: block_encode a) ++
          drop (Z.to_nat (block_size A + FRAME_OVERHEAD_SIZE)) dst).
Proof.
  intros Hv Hl. pose proof (block_size_pos (A := A)) as Hp. pose proof (fits_room a) as He.
  unfold FRAME_OVERHEAD_SIZE, FRAME_HEADER_SIZE, FRAME_CRC_SIZE in *.
  destruct (frame_writer_new_at dst (FRAME_TYPE A)) as (wr1 & Hn & Hat).
  { unfold FRAME_OVERHEAD_SIZE, FRAME_HEADER_SIZE, FRAME_CRC_SIZE. lia. }
  assert (Ht : zlen (drop 1 dst) = zlen dst - 1) by (unfold zlen in *; rewrite length_drop; lia).
  destruct (frame_writer_write_fits (A := A) (H1 := block_serial_ok) wr1 _ _ a Hat Hv) as (wr2 & Hw & Hat2).
  { cbn [serial_encode block_serial_ok]. rewrite He, Ht. unfold FRAME_CRC_SIZE. lia. }
  cbn [serial_encode block_serial_ok app] in Hat2.
  exists wr1, wr2. split; [done|]. split; [done|]. erewrite finalize_at; [|exact Hat2|].
  - rewrite !drop_drop. do 4 f_equal. unfold zlen in *. lia.
  - unfold FRAME_CRC_SIZE, zlen in *. rewrite !length_drop. lia.
Qed.

Lemma seal_checks `{BuildProfile} t bs : Forall is_u8 bs ->
  verify_minimum_size (seal (frame_type_bits t :: bs)) = true /\
  verify_crc (seal (frame_type_bits t :: bs)) = Ok true /\
  read_type (seal (frame_type_bits t :: bs)) = Ok (Some t) /\
  payload (seal (frame_type_bits t :: bs)) = Ok bs.
Proof.
  intros Hu. split; [apply verify_minimum_size_seal|]. split.
  - apply verify_crc_seal. constructor; [by destruct t|done].
  - split; [apply read_type_seal|apply payload_seal].
Qed.

(** The frame of a structure. *)
Definition sealed {A} `{SimpleFrame A} `{BlockSerialOk A} (a : A) : list Z :=
  seal (frame_type_bits (FRAME_TYPE A) :: block_encode a).

Lemma sealed_length {A} `{SimpleFrame A} `{BlockSerialOk A} (a : A) :
  zlen (sealed a) = block_size A + FRAME_OVERHEAD_SIZE.
Proof. unfold sealed, seal. rewrite zlen_app, zlen_cons, fits_room. change (zlen (to_le_bytes _)) with 4. sizes.
lia. Qed.

Lemma seal_u8 bs : Forall is_u8 bs -> Forall is_u8 (seal bs).
Proof. intros Hu. apply Forall_app. split; [done|apply to_le_bytes_u8]. Qed.

Lemma sealed_u8 {A} `{SimpleFrame A} `{BlockSerialOk A} (a : A) : block_valid a -> Forall is_u8 (sealed a).
Proof. intros Hv. apply seal_u8. constructor; [by destruct (FRAME_TYPE A)|by apply block_encode_u8]. Qed.

Lemma sealed_checks `{BuildProfile} {A} `{SimpleFrame A} `{BlockSerialOk A} (a : A) : block_valid a ->
  verify_minimum_size (sealed a) = true /\ verify_crc (sealed a) = Ok true /\
  read_type (sealed a) = Ok (Some (FRAME_TYPE A)) /\ payload (sealed a) = Ok (block_encode a).
Proof. intros Hv. by apply seal_checks, block_encode_u8. Qed.

(** Reading a payload: the structure written, whatever follows it; on arbitrary bytes a
    valid structure or nothing. *)
Lemma simple_read_encode `{BuildProfile} {A} `{SimpleFrame A} `{BlockSerialOk A} (a : A) r :
  block_valid a -> simple_payload_read (block_encode a ++ r) = Ok (Some a).
Proof.
  intros Hv. unfold simple_payload_read.
  destruct (payload_reader_read_encode (A := A) (H0 := block_serial) (H1 := block_serial_ok)
    (payload_reader_new (block_encode a ++ r)) a r) as (rd' & -> & _); [apply pr_at_new|exact Hv|done].
Qed.

Lemma simple_read_exact `{BuildProfile} {A} `{SimpleFrame A} `{BlockSerialOk A} (a : A) :
  block_valid a -> simple_payload_read (block_encode a) = Ok (Some a).
Proof. intros Hv. rewrite <- (app_nil_r (block_encode a)). by apply simple_read_encode. Qed.

Lemma simple_read_any `{BuildProfile} {A} `{SimpleFrame A} `{BlockSerialOk A} p : Forall is_u8 p ->
  exists o, simple_payload_read (A := A) p = Ok o /\ match o with Some a => block_valid a | None => True end.
Proof.
  intros Hu. unfold simple_payload_read.
  destruct (payload_reader_read_any (A := A) (H0 := block_serial) (H1 := block_serial_ok) (payload_reader_new p) p
    (pr_at_new p) Hu) as [-> | (a & rd' & n & -> & Hv & _)]; by eexists.
Qed.

(** Writing into a buffer, and into a boxed one. *)
Lemma simple_write_sealed `{BuildProfile} {A} `{SimpleFrame A} `{BlockSerialOk A} (a : A) dst :
  block_valid a -> FRAME_SIZE A <= zlen dst -> block_size A + FRAME_OVERHEAD_SIZE <= zlen dst ->
  simple_frame_write a dst =
    Ok (sealed a, sealed a ++ drop (Z.to_nat (block_size A + FRAME_OVERHEAD_SIZE)) dst).
Proof.
  intros Hv Hfs Hl. destruct (simple_frame_parts a dst Hv Hl) as (wr1 & wr2 & Hn & Hw & Hf).
  unfold simple_frame_write. rewrite debug_assert_true by (by apply Z.leb_le). cbn [mbind outcome_bind].
  rewrite Hn. cbn [mbind outcome_bind]. rewrite Hw. cbn [mbind outcome_bind]. exact Hf.
Qed.

Lemma boxed_sealed `{BuildProfile} {A} `{SimpleFrame A} `{BlockSerialOk A} (a : A) :
  block_valid a -> PAYLOAD_SIZE A = block_size A -> simple_frame_write_boxed a = Ok (sealed a).
Proof.
  intros Hv Hs. pose proof (block_size_pos (A := A)). set (buffer := replicate (Z.to_nat (FRAME_SIZE A)) 0).
  assert (Hb : zlen buffer = block_size A + FRAME_OVERHEAD_SIZE).
  { unfold buffer, zlen. rewrite length_replicate. unfold FRAME_SIZE. rewrite Hs. sizes. lia. }
  destruct (simple_frame_parts a buffer Hv ltac:(lia)) as (wr1 & wr2 & Hn & Hw & Hf).
  unfold simple_frame_write_boxed. fold buffer. rewrite Hn. cbn [mbind outcome_bind].
  rewrite Hw. cbn [mbind outcome_bind]. rewrite Hf. cbn [mbind outcome_bind].
  by rewrite drop_ge, app_nil_r by (unfold zlen in Hb; lia).
Qed.

(** C30: a single-structure frame written into a large enough buffer passes the
    receiver's size, checksum and type checks, and its payload reads back as the
    structure that was written. *)
Theorem simple_frame_roundtrip `{BuildProfile} {A} `{SimpleFrame A} `{BlockSerialOk A} (a : A) dst :
  block_valid a -> FRAME_SIZE A <= zlen dst -> block_size A + FRAME_OVERHEAD_SIZE <= zlen dst ->
  exists frame dst', simple_frame_write a dst = Ok (frame, dst') /\
    zlen dst' = zlen dst /\ frame `prefix_of` dst' /\ zlen frame = block_size A + FRAME_OVERHEAD_SIZE /\
    verify_minimum_size frame = true /\ verify_crc frame = Ok true /\
    read_type frame = Ok (Some (FRAME_TYPE A)) /\
    (payload frame ≫= simple_payload_read) = Ok (Some a).
Proof.
  intros Hv Hfs Hl. rewrite simple_write_sealed by done. pose proof (sealed_length a) as Hz.
  pose proof (block_size_pos (A := A)). destruct (sealed_checks a Hv) as (Hm & Hc & Ht & Hp).
  do 2 eexists. split; [reflexivity|]. split; [|split; [by apply prefix_app_r|]].
  { rewrite zlen_app, Hz, zlen_drop; sizes; lia. }
  do 4 (split; [done|]). rewrite Hp. by apply simple_read_exact.
Qed.

Lemma simple_frame_roundtrip_witness :
  let a := mkHandshakeBetaFrame (mkConnectionParams 1000 2000) 7 8 9 18446744073709551615 in
  let dst := replicate 40 0 in
  exists frame dst', simple_frame_write (H := true) a dst = Ok (frame, dst') /\
    zlen dst' = zlen dst /\ frame `prefix_of` dst' /\
    zlen frame = block_size HandshakeBetaFrame + FRAME_OVERHEAD_SIZE /\
    verify_minimum_size frame = true /\ verify_crc (H := true) frame = Ok true /\
    read_type (H := true) frame = Ok (Some (FRAME_TYPE HandshakeBetaFrame)) /\
    (payload (H := true) frame ≫= simple_payload_read (H := true)) = Ok (Some a).
Proof.
  apply (simple_frame_roundtrip (H := true)); [|done|done].
  cbn. unfold params_valid, is_u32, is_u64, two32, two64. cbn. lia.
Defined.

(** A boxed frame is exactly the frame, provided the stated payload size is the
    size of the structure. *)
Theorem boxed_frame_valid `{BuildProfile} {A} `{SimpleFrame A} `{BlockSerialOk A} (a : A) :
  block_valid a -> PAYLOAD_SIZE A = block_size A ->
  exists frame, simple_frame_write_boxed a = Ok frame /\ zlen frame = FRAME_SIZE A /\
    verify_crc frame = Ok true /\ read_type frame = Ok (Some (FRAME_TYPE A)) /\
    (payload frame ≫= simple_payload_read) = Ok (Some a).
Proof.
  intros Hv Hs. rewrite boxed_sealed by done. destruct (sealed_checks a Hv) as (_ & Hc & Ht & Hp).
  eexists. split; [reflexivity|]. split; [rewrite sealed_length; unfold FRAME_SIZE; by rewrite Hs|].
  do 2 (split; [done|]). rewrite Hp. by apply simple_read_exact.
Qed.

Lemma boxed_frame_valid_witness :
  let a := mkStreamSync 4294967295 in
  exists frame, simple_frame_write_boxed (H := false) a = Ok frame /\ zlen frame = FRAME_SIZE StreamSync /\
    verify_crc (H := false) frame = Ok true /\ read_type (H := false) frame = Ok (Some (FRAME_TYPE StreamSync)) /\
    (payload (H := false) frame ≫= simple_payload_read (H := false)) = Ok (Some a).
Proof. apply (boxed_frame_valid (H := false)); [cbn; unfold is_u32, two32; lia|done]. Defined.

(** The proviso fails for the two close frames, whose stated payload sizes are
    those of the second handshake: their boxed form is padded after the checksum, and
    the receiver refuses it. *)
Theorem close_boxed_refused :
  PAYLOAD_SIZE CloseFrame <> block_size CloseFrame /\
  PAYLOAD_SIZE CloseAckFrame <> block_size CloseAckFrame /\
  (simple_frame_write_boxed (H := true) (mkCloseFrame 0) ≫= verify_crc (H := true)) = Ok false /\
  (simple_frame_write_boxed (H := true) (mkCloseAckFrame 0) ≫= verify_crc (H := true)) = Ok false.
Proof. repeat split; try discriminate; vm_compute; reflexivity. Qed.

(** ** Segment frames: a header and datagrams *)

(** C29: a stream segment frame, written as a header and any datagrams that fit, is
    accepted by the receiver and reads back as that header and exactly those
    datagrams in order. *)
Theorem segment_frame_roundtrip `{BuildProfile} (t : FrameType) (h : StreamSegmentHeader)
    (ds : list Datagram) (dst : list Z) :
  is_u32 (ssh_id h) -> Forall datagram_valid ds ->
  STREAM_SEGMENT_HEADER_SIZE + zlen (ds ≫= datagram_encode) + FRAME_OVERHEAD_SIZE <= zlen dst ->
  exists frame dst' p rd rd',
    (wr ← frame_writer_new dst t;
     '(wr, ok1) ← frame_writer_write wr h;
     '(wr, ok2) ← write_all wr ds;
     '(frame, dst') ← frame_writer_finalize wr;
     Ok (frame, dst', ok1, ok2)) = Ok (frame, dst', true, true) /\
    verify_crc frame = Ok true /\ read_type frame = Ok (Some t) /\ payload frame = Ok p /\
    payload_reader_read (payload_reader_new p) = Ok (Some h, rd) /\
    read_all (S (length ds)) rd = Ok (ds, rd').
Proof.
  intros Hh Hd Hl. pose proof (zlen_nonneg (encode_all ds)) as Hp.
  change (ds ≫= datagram_encode) with (encode_all ds) in Hl.
  sizes. destruct (frame_writer_new_at dst t) as (wr0 & -> & Hat0); [sizes; lia|]. cbn [mbind outcome_bind].
  assert (Ht : zlen (drop 1 dst) = zlen dst - 1) by (unfold zlen in *; rewrite length_drop; lia).
  assert (Hv : serial_valid h) by exact Hh.
  assert (Hvd : Forall serial_valid ds) by exact Hd.
  pose proof (block_encode_length h) as He. change (block_size StreamSegmentHeader) with 5 in He.
  destruct (frame_writer_write_fits (A := StreamSegmentHeader) wr0 _ _ h Hat0 Hv) as (wr1 & -> & Hat1).
  { cbn [serial_encode block_serial_ok]. sizes. rewrite He, Ht. lia. }
  cbn [mbind outcome_bind]. cbn [serial_encode block_serial_ok] in Hat1.
  destruct (write_all_fits ds wr1 _ _ Hat1 Hvd) as (wr2 & -> & Hat2).
  { sizes. unfold zlen in *. rewrite !length_drop. cbn [length] in *. lia. }
  cbn [mbind outcome_bind]. erewrite finalize_at; [|exact Hat2|].
  2: { sizes. unfold zlen in *. rewrite !length_drop. lia. }
  cbn [mbind outcome_bind]. rewrite <- app_assoc. cbn [app].
  assert (Hu : Forall is_u8 (block_encode h ++ encode_all ds))
    by (apply Forall_app; split; [by apply block_encode_u8|by apply encode_all_u8]).
  destruct (seal_checks t _ Hu) as (_ & Hc & Hty & Hpay).
  assert (Hpr : pr_at (payload_reader_new (block_encode h ++ encode_all ds)) (serial_encode h ++ encode_all ds))
    by apply pr_at_new.
  destruct (payload_reader_read_encode _ h _ Hpr Hv) as (rd & Hr & Hat).
  destruct (read_all_encode ds rd (S (length ds)) Hat Hvd ltac:(lia)) as (rd' & Hra & _).
  do 5 eexists. split; [reflexivity|]. split; [exact Hc|]. split; [exact Hty|]. split; [exact Hpay|].
  split; [exact Hr|exact Hra].
Qed.

(** The examples run the debug build, where every assertion is active. *)
#[local] Instance debug_build : BuildProfile := true.

Definition example_datagrams : list Datagram :=
  [mkDatagram 3 false true false [1; 2; 3]; mkDatagram 4294967295 true false true []].

Lemma segment_frame_roundtrip_witness :
  let h := mkStreamSegmentHeader 12 true in
  exists frame dst' p rd rd',
    (wr ← frame_writer_new (replicate 64 0) StreamSegment;
     '(wr, ok1) ← frame_writer_write wr h;
     '(wr, ok2) ← write_all wr example_datagrams;
     '(frame, dst') ← frame_writer_finalize wr;
     Ok (frame, dst', ok1, ok2)) = Ok (frame, dst', true, true) /\
    verify_crc frame = Ok true /\ read_type frame = Ok (Some StreamSegment) /\
    payload frame = Ok p /\
    payload_reader_read (payload_reader_new p) = Ok (Some h, rd) /\
    read_all (S (length example_datagrams)) rd = Ok (example_datagrams, rd').
Proof.
  apply (segment_frame_roundtrip).
  - cbn. unfold is_u32, two32. lia.
  - unfold example_datagrams, datagram_valid, is_u32, is_u8, DATAGRAM_DATA_SIZE_MAX, U16_MAX, two32, two8, zlen.
    rewrite !Forall_cons. cbn. rewrite !Forall_cons. repeat split; try lia; constructor.
  - vm_compute. discriminate.
Defined.

(** ** Frames from the network *)

(** Arbitrary bytes are inspected without a fault. *)
Lemma inspect_any `{BuildProfile} (frame : list Z) :
  Forall is_u8 frame -> verify_minimum_size frame = true ->
  exists ok t p, verify_crc frame = Ok ok /\ read_type frame = Ok t /\ payload frame = Ok p /\
    zlen p = zlen frame - FRAME_OVERHEAD_SIZE /\ Forall is_u8 p.
Proof.
  intros Hu Hm. pose proof Hm as Hl. apply Z.leb_le in Hl.
  destruct frame as [|t rest]; [done|]. inversion Hu as [|? ? Ht Hrest]; subst.
  rewrite zlen_cons in Hl. sizes.
  set (n := (length rest - 4)%nat). rewrite <- (take_drop n rest) in Hm |- *.
  set (bs := take n rest) in *. set (c := drop n rest) in *.
  assert (Hc : length c = 4%nat) by (unfold c, n, zlen in *; rewrite length_drop; lia).
  assert (Hcrc : verify_crc (t :: bs ++ c) = Ok (compute (t :: bs) =? from_le_bytes c))
    by exact (verify_crc_split (t :: bs) c Hc).
  do 3 eexists. split; [exact Hcrc|]. split.
  { unfold read_type. rewrite debug_assert_true by exact Hm. reflexivity. }
  split; [by apply payload_split|]. split; [|by apply Forall_take].
  rewrite zlen_cons, zlen_app. unfold zlen. lia.
Qed.

(** Whatever bytes arrive, once the minimum size is checked the type, checksum and
    payload are computed without a fault, and reading any structure or any sequence of
    datagrams from the payload stays inside it and terminates. *)
Theorem frame_inspection_total `{BuildProfile} {A} `{SerialOk A} (frame : list Z) :
  Forall is_u8 frame -> verify_minimum_size frame = true ->
  exists ok t p l rd, verify_crc frame = Ok ok /\ read_type frame = Ok t /\ payload frame = Ok p /\
    zlen p = zlen frame - FRAME_OVERHEAD_SIZE /\
    read_all (A := A) (S (length p)) (payload_reader_new p) = Ok (l, rd) /\ Forall serial_valid l.
Proof.
  intros Hu Hm. destruct (inspect_any frame Hu Hm) as (ok & t & p & Hc & Ht & Hp & Hz & Hup).
  destruct (read_all_any (A := A) (S (length p)) (payload_reader_new p) p (pr_at_new p) Hup)
    as (l & rd & Hr & Hv); [lia|].
  by exists ok, t, p, l, rd.
Qed.

Lemma frame_inspection_total_witness :
  let frame := [250; 1; 2; 3; 4; 5; 255; 255; 9; 9; 9; 9] in
  exists ok t p l rd, verify_crc frame = Ok ok /\ read_type frame = Ok t /\
    payload frame = Ok p /\ zlen p = zlen frame - FRAME_OVERHEAD_SIZE /\
    read_all (A := Datagram) (S (length p)) (payload_reader_new p) = Ok (l, rd) /\ Forall serial_valid l.
Proof.
  apply (frame_inspection_total (A := Datagram)); [|reflexivity].
  repeat constructor; unfold is_u8, two8; lia.
Defined.

Lemma hamming_app a a' b b' : length a = length b ->
  hamming (a ++ a') (b ++ b') = hamming a b + hamming a' b'.
Proof.
  revert b. induction a as [|x a IH]; intros [|y b] Hl; cbn in Hl; try lia; [done|].
  cbn [app hamming diff zip_with fmap list_fmap foldr]. unfold hamming, diff in *. cbn. rewrite IH by lia. lia.
Qed.

Lemma le_bytes_diff a b : length a = length b ->
  le_bytes (diff a b) = Z.lxor (le_bytes a) (le_bytes b).
Proof.
  revert b. induction a as [|x a IH]; intros [|y b] Hl; cbn in Hl; try lia; [done|].
  cbn [diff zip_with le_bytes]. fold (diff a b). rewrite IH, Z.shiftl_lxor by lia.
  rewrite !Z.lxor_assoc. f_equal. rewrite <- !Z.lxor_assoc. f_equal. apply Z.lxor_comm.
Qed.

(** C28: two different frames of the same length, up to the largest the program sends,
    that both pass the checksum differ in at least four bits: corruption in one, two or
    three bits, wherever it falls, is always detected. *)
Theorem frame_corruption_detected `{BuildProfile} (f g : list Z) :
  Forall is_u8 f -> Forall is_u8 g -> zlen f = zlen g -> SIZE <= zlen f <= CRC_LENGTH_MAX -> f <> g ->
  verify_crc f = Ok true -> verify_crc g = Ok true -> 4 <= hamming f g.
Proof.
  intros Hf Hg Hl Hlen Hne. unfold zlen, SIZE in *. set (n := (length f - 4)%nat).
  rewrite <- (take_drop n f), <- (take_drop n g).
  assert (Hcf : length (drop n f) = 4%nat) by (unfold n; rewrite length_drop; lia).
  assert (Hcg : length (drop n g) = 4%nat) by (unfold n; rewrite length_drop; lia).
  assert (Hn : length (take n f) = length (take n g)) by (rewrite !length_take; lia).
  rewrite !verify_crc_split by done. intros [= Hvf%Z.eqb_eq] [= Hvg%Z.eqb_eq].
  rewrite from_le_bytes_eq in Hvf, Hvg by by apply Forall_drop.
  rewrite hamming_app by done. rewrite (hamming_le_bytes (drop n f)) by by apply Forall_drop.
  rewrite le_bytes_diff, <- Hvf, <- Hvg by lia.
  apply crc_distance; try by apply Forall_take.
  - done.
  - unfold zlen. rewrite length_take. lia.
  - intros Heq. apply Hne. rewrite <- (take_drop n f), <- (take_drop n g), Heq. f_equal.
    rewrite Heq in Hvf. rewrite Hvg in Hvf.
    assert (Hdf : Forall is_u8 (drop n f)) by by apply Forall_drop.
    assert (Hdg : Forall is_u8 (drop n g)) by by apply Forall_drop.
    apply hamming_zero; [done|done|lia|].
    rewrite hamming_le_bytes, le_bytes_diff, Hvf by (done || lia). by rewrite Z.lxor_nilpotent.
Qed.

Lemma frame_corruption_detected_witness :
  let f := seal [5; 1] in let g := seal [5; 2] in
  (Forall is_u8 f /\ Forall is_u8 g /\ zlen f = zlen g /\ f <> g /\
   verify_crc f = Ok true /\ verify_crc g = Ok true) /\ 4 <= hamming f g.
Proof.
  assert (Hu : forall x, is_u8 x -> Forall is_u8 (seal [5; x])).
  { intros x Hx. apply Forall_app. split; [|apply to_le_bytes_u8]. rewrite !Forall_cons. split; [done|].
    split; [exact Hx|constructor]. }
  cbv zeta.
  assert (H1 : Forall is_u8 (seal [5; 1])) by by apply Hu.
  assert (H2 : Forall is_u8 (seal [5; 2])) by by apply Hu.
  assert (Hv1 : verify_crc (seal [5; 1]) = Ok true) by (vm_compute; reflexivity).
  assert (Hv2 : verify_crc (seal [5; 2]) = Ok true) by (vm_compute; reflexivity).
  assert (Hne : seal [5; 1] <> seal [5; 2]) by (vm_compute; discriminate).
  split; [done|]. apply frame_corruption_detected; done.
Defined.
