(* ===== verification/SegmentTx.v ===== *)
(** * Segment transmission state (src/src/endpoint/segment_tx.rs)

    The send window of segments: their sizes while in transit, the random nonce bits
    they carried, and the history of acknowledgements from which drops are detected. *)

From S2P Require Import Prelude.
From S2P Require Import Word.

Module SegmentTx.
Record SegmentTx : Set := mkSegmentTx {
  base_id : Z;
  next_id : Z;
  size : Z;
  transit_buf : list Z;
  transit_buf_mask : Z;
  nonce_buf : list Z;
  nonce_buf_mask : Z;
  transit_total : Z;
  ack_history : Z;
  nonce_history : Z
}.

(** Indexing a boxed slice. *)
Definition index_ (buf : list Z) (i : Z) : outcome Z :=
  match buf !! Z.to_nat i with Some x => Ok x | None => Fault Panicked end.
Definition index_set (buf : list Z) (i x : Z) : outcome (list Z) :=
  if i <? zlen buf then Ok (<[Z.to_nat i := x]> buf) else Fault Panicked.

Definition new (base_id size : Z) : outcome SegmentTx :=
  _ ← assert_ ((0 <? size) && (Z.land (size - 1) size =? 0));
  _ ← assert_ (64 <=? size);
  Ok {| base_id := base_id;
        next_id := base_id;
        size := size;
        transit_buf := replicate (Z.to_nat size) 0;
        transit_buf_mask := size - 1;
        transit_total := 0;
        nonce_buf := replicate (Z.to_nat (size / 64)) 0;
        nonce_buf_mask := size / 64 - 1;
        ack_history := U32_MAX;
        nonce_history := 0 |}.

Section Operations.
Context `{BuildProfile}.

(** The random bit is an argument; it is what the function returns. *)
Definition compute_next_nonce (self : SegmentTx) (nonce : bool) : outcome SegmentTx :=
  let idx := next_id self / 64 in
  let bit_idx := next_id self mod 64 in
  amount ← sub32 63 bit_idx;
  bit_mask ← shl64 1 amount;
  let i := Z.land idx (nonce_buf_mask self) in
  bitfield ← index_ (nonce_buf self) i;
  let bitfield' := if nonce then Z.lor bitfield bit_mask else Z.land bitfield (Z.lxor bit_mask U64_MAX) in
  nonce_buf' ← index_set (nonce_buf self) i bitfield';
  Ok {| base_id := base_id self; next_id := next_id self; size := size self;
        transit_buf := transit_buf self; transit_buf_mask := transit_buf_mask self;
        transit_total := transit_total self;
        nonce_buf := nonce_buf'; nonce_buf_mask := nonce_buf_mask self;
        ack_history := ack_history self; nonce_history := nonce_history self |}.

Definition can_send (self : SegmentTx) : bool :=
  wrapping_sub (next_id self) (base_id self) <? size self.

Definition mark_sent (self : SegmentTx) (segment_size : Z) : outcome SegmentTx :=
  _ ← debug_assert (can_send self);
  let idx := Z.land (next_id self) (transit_buf_mask self) in
  transit_buf' ← index_set (transit_buf self) idx segment_size;
  transit_total' ← add64 (transit_total self) segment_size;
  Ok {| base_id := base_id self; next_id := wrapping_add (next_id self) 1; size := size self;
        transit_buf := transit_buf'; transit_buf_mask := transit_buf_mask self;
        transit_total := transit_total';
        nonce_buf := nonce_buf self; nonce_buf_mask := nonce_buf_mask self;
        ack_history := ack_history self; nonce_history := nonce_history self |}.

Definition bytes_in_transit (self : SegmentTx) : Z := transit_total self.

(** The new value of [nonce_history]. *)
Definition update_nonce_history (self : SegmentTx) (ack_delta base_id_new : Z) : outcome Z :=
  let new_bits := Z.min ack_delta 32 in
  let p1 := base_id_new in
  let p0 := wrapping_sub base_id_new new_bits in
  let p0_idx := p0 / 64 in
  let p1_bits := p1 mod 64 in
  let p1_idx := p1 / 64 in
  x_new ← (if new_bits =? 32 then Ok 0 else shl32 (nonce_history self) new_bits);
  if p0_idx =? p1_idx then
    bitfield ← index_ (nonce_buf self) (Z.land p1_idx (nonce_buf_mask self));
    shift ← sub32 64 p1_bits;
    one_shifted ← shl64 1 new_bits;
    mask ← sub64 one_shifted 1;
    bits ← shr64 bitfield shift;
    Ok (Z.lor x_new (Z.land bits mask mod two32))
  else if p1_bits =? 0 then
    bitfield ← index_ (nonce_buf self) (Z.land p0_idx (nonce_buf_mask self));
    one_shifted ← shl64 1 new_bits;
    mask ← sub64 one_shifted 1;
    Ok (Z.lor x_new (Z.land bitfield mask mod two32))
  else
    bitfield_a ← index_ (nonce_buf self) (Z.land p0_idx (nonce_buf_mask self));
    bitfield_b ← index_ (nonce_buf self) (Z.land p1_idx (nonce_buf_mask self));
    bits_a ← sub32 new_bits p1_bits;
    one_shifted_a ← shl64 1 bits_a;
    mask_a ← sub64 one_shifted_a 1;
    one_shifted_b ← shl64 1 p1_bits;
    mask_b ← sub64 one_shifted_b 1;
    let shift_a := p1_bits in
    shift_b ← sub32 64 p1_bits;
    from_b ← shr64 bitfield_b shift_b;
    let x_new := Z.lor x_new (Z.land from_b mask_b mod two32) in
    from_a ← shl64 (Z.land bitfield_a mask_a) shift_a;
    Ok (Z.lor x_new (from_a mod two32)).
End Operations.

Definition expected_checksum (nonce_history rx_history : Z) : bool :=
  let x := Z.land nonce_history rx_history in
  let x := Z.lxor x (Z.shiftr x 16) in
  let x := Z.lxor x (Z.shiftr x 8) in
  let x := Z.lxor x (Z.shiftr x 4) in
  let x := Z.lxor x (Z.shiftr x 2) in
  let x := Z.lxor x (Z.shiftr x 1) in
  Z.land x 1 =? 1.

Section Acknowledge.
Context `{BuildProfile}.

(** The new value of [ack_history], and whether a drop was detected. *)
Definition update_ack_history (ack_history nonce_history ack_delta rx_history : Z) (rx_checksum : bool) :
    outcome (Z * bool) :=
  if leading_ones32 ack_history <? ack_delta then Ok (U32_MAX, true)
  else
    let ack_history := if ack_delta =? 32 then 0 else wrapping_shl32 ack_history ack_delta in
    let ack_history :=
      if eqb (expected_checksum nonce_history rx_history) rx_checksum
      then Z.lor ack_history rx_history else ack_history in
    if ack_history =? U32_MAX then Ok (ack_history, false)
    else if wrapping_shr32 ack_history 31 =? 0 then Ok (U32_MAX, true)
    else
      let leading_ones := leading_ones32 ack_history in
      _ ← debug_assert (leading_ones <? 32);
      let ones_after_zero :=
        count_ones32 (wrapping_shr32 (wrapping_shl32 ack_history leading_ones) leading_ones) in
      if 3 <=? ones_after_zero then Ok (U32_MAX, true) else Ok (ack_history, false).

(** [for i in 0..ack_delta { transit_total -= transit_buf[...] }], with the loop index
    in descending fuel. *)
Fixpoint subtract_acked (n : nat) (i : Z) (self : SegmentTx) (transit_total : Z) : outcome Z :=
  match n with
  | O => Ok transit_total
  | S n =>
      let idx := Z.land (wrapping_add (base_id self) i) (transit_buf_mask self) in
      segment_size ← index_ (transit_buf self) idx;
      transit_total' ← sub64 transit_total segment_size;
      subtract_acked n (i + 1) self transit_total'
  end.

Definition acknowledge (self : SegmentTx) (rx_base_id rx_history : Z) (rx_checksum : bool) :
    outcome (SegmentTx * bool) :=
  let ack_delta := wrapping_sub rx_base_id (base_id self) in
  if ack_delta <=? wrapping_sub (next_id self) (base_id self) then
    self ←
      (if 0 <? ack_delta then
         transit_total' ← subtract_acked (Z.to_nat ack_delta) 0 self (transit_total self);
         nonce_history' ← update_nonce_history self ack_delta rx_base_id;
         Ok {| base_id := rx_base_id; next_id := next_id self; size := size self;
               transit_buf := transit_buf self; transit_buf_mask := transit_buf_mask self;
               transit_total := transit_total';
               nonce_buf := nonce_buf self; nonce_buf_mask := nonce_buf_mask self;
               ack_history := ack_history self; nonce_history := nonce_history' |}
       else Ok self);
    '(ack_history', drop) ← update_ack_history (ack_history self) (nonce_history self) ack_delta
                              rx_history rx_checksum;
    Ok ({| base_id := base_id self; next_id := next_id self; size := size self;
           transit_buf := transit_buf self; transit_buf_mask := transit_buf_mask self;
           transit_total := transit_total self;
           nonce_buf := nonce_buf self; nonce_buf_mask := nonce_buf_mask self;
           ack_history := ack_history'; nonce_history := nonce_history self |}, drop)
  else Ok (self, false).
End Acknowledge.
End SegmentTx.
