(* ===== verification/SegmentTxFacts.v ===== *)
(** * Correctness of the segment window

    Against the full history of what was sent (sizes and nonce bits by stream
    position), the ring buffers, the running total and the 32-bit nonce history are
    exactly what they should be, whatever acknowledgements arrive; and no call faults
    ([segment_tx_accounting]). *)

From S2P Require Import Prelude.
From S2P Require Import Word.
From S2P Require Import Crc.
From S2P Require Import SegmentTx.

Import SegmentTx.

(** ** Bits *)

Lemma land_mask x m : 0 <= m -> Z.land x (2 ^ m - 1) = x mod 2 ^ m.
Proof. intros Hm. rewrite <- Z.land_ones, Z.ones_equiv by done. by rewrite Z.sub_1_r. Qed.

Lemma u32_high_bits x i : is_u32 x -> 32 <= i -> Z.testbit x i = false.
Proof.
  intros Hx Hi. destruct (Z.eq_dec x 0) as [->|]; [apply Z.bits_0|].
  unfold is_u32 in Hx. change two32 with (2 ^ 32) in Hx. apply Z.bits_above_log2; [lia|].
  enough (Z.log2 x < 32) by lia. apply Z.log2_lt_pow2; lia.
Qed.

Lemma lor_u32 x y : is_u32 x -> is_u32 y -> is_u32 (Z.lor x y).
Proof.
  intros Hx Hy. assert (0 <= Z.lor x y) by (apply Z.lor_nonneg; unfold is_u32 in *; lia).
  split; [done|]. change two32 with (2 ^ 32).
  destruct (Z.eq_dec (Z.lor x y) 0) as [->|]; [done|]. apply Z.log2_lt_pow2; [lia|].
  rewrite Z.log2_lor by (unfold is_u32 in *; lia).
  assert (Hlog : forall z, is_u32 z -> Z.log2 z < 32).
  { intros z Hz. destruct (Z.eq_dec z 0) as [->|]; [done|].
    apply Z.log2_lt_pow2; unfold is_u32, two32 in *; lia. }
  pose proof (Hlog x Hx). pose proof (Hlog y Hy). lia.
Qed.

Lemma mod_two32_u32 x : is_u32 (x mod two32).
Proof. apply Z.mod_pos_bound. done. Qed.

Lemma testbit_mod_two32 x i : 0 <= i < 32 -> Z.testbit (x mod two32) i = Z.testbit x i.
Proof. intros Hi. change two32 with (2 ^ 32). apply Z.mod_pow2_bits_low. lia. Qed.

Lemma testbit_mod_two64 x i : 0 <= i < 64 -> Z.testbit (x mod two64) i = Z.testbit x i.
Proof. intros Hi. change two64 with (2 ^ 64). apply Z.mod_pow2_bits_low. lia. Qed.

Lemma testbit_mod_pow2 x m i : 0 <= m -> 0 <= i -> Z.testbit (x mod 2 ^ m) i = (i <? m) && Z.testbit x i.
Proof.
  intros Hm Hi. destruct (Z.ltb_spec i m).
  - by rewrite Z.mod_pow2_bits_low by lia.
  - by rewrite Z.mod_pow2_bits_high by lia.
Qed.

Lemma pow2_u64 n : 0 <= n < 64 -> Z.shiftl 1 n mod two64 = 2 ^ n.
Proof.
  intros Hn. rewrite Z.shiftl_1_l. apply Z.mod_small. split; [lia|].
  change two64 with (2 ^ 64). apply Z.pow_lt_mono_r; lia.
Qed.

Section History.
Context `{BuildProfile}.
Context (words : Z) (Hwords : 0 < words).

(** The nonce bit stored for segment id [d]. *)
Definition nonce_bit (buf : list Z) (d : Z) : bool :=
  Z.testbit (buf !!! Z.to_nat ((d / 64) mod words)) (63 - d mod 64).

Lemma index_word buf d :
  zlen buf = words -> index_ buf (d mod words) = Ok (buf !!! Z.to_nat (d mod words)).
Proof.
  intros Hl. unfold index_. pose proof (Z.mod_pos_bound d words Hwords).
  destruct (buf !! Z.to_nat (d mod words)) eqn:E.
  - by rewrite (list_lookup_total_correct _ _ _ E).
  - apply lookup_ge_None in E. unfold zlen in Hl. lia.
Qed.

(** The old history makes room for the new bits. *)
Lemma history_shifted h nb : is_u32 h -> 0 < nb <= 32 ->
  exists x0, (if nb =? 32 then Ok 0 else shl32 h nb) = Ok x0 /\ is_u32 x0 /\
    forall i, 0 <= i < 32 -> Z.testbit x0 i = (nb <=? i) && Z.testbit h (i - nb).
Proof.
  intros Hh Hnb. destruct (Z.eqb_spec nb 32) as [E|E].
  - exists 0. split; [done|]. split; [done|]. intros i Hi. rewrite Z.bits_0, E.
    by replace (32 <=? i) with false by (symmetry; apply Z.leb_gt; lia).
  - unfold shl32. rewrite shift_amount_ok by lia. eexists. split; [reflexivity|].
    split; [apply mod_two32_u32|]. intros i Hi. rewrite testbit_mod_two32, Z.shiftl_spec by lia.
    destruct (Z.leb_spec nb i); [done|]. by rewrite Z.testbit_neg_r by lia.
Qed.

(** The new bits [y] are put in front of it. *)
Lemma history_joined buf h delta p1 x0 y : is_u32 x0 -> is_u32 y ->
  (forall i, 0 <= i < 32 -> Z.testbit x0 i = (Z.min delta 32 <=? i) && Z.testbit h (i - Z.min delta 32)) ->
  (forall i, 0 <= i < 32 -> Z.testbit y i = (i <? Z.min delta 32) && nonce_bit buf (wrapping_sub p1 (i + 1))) ->
  is_u32 (Z.lor x0 y) /\ forall i, 0 <= i < 32 -> Z.testbit (Z.lor x0 y) i =
    if i <? delta then nonce_bit buf (wrapping_sub p1 (i + 1)) else Z.testbit h (i - delta).
Proof.
  intros Hx Hu Hbits Hy. split; [by apply lor_u32|]. intros i Hi. rewrite Z.lor_spec, Hbits, Hy by done.
  destruct (Z.ltb_spec i delta), (Z.ltb_spec i (Z.min delta 32)), (Z.leb_spec (Z.min delta 32) i); try lia; [done|].
  rewrite orb_false_r. cbn. f_equal. lia.
Qed.

(** New bits from two words: [pb] from the second, the others from the first. *)
Lemma straddling_bits a b nb pb i : 0 < pb < nb -> nb <= 32 -> 0 <= i < 32 ->
  Z.testbit (Z.lor (Z.land (Z.shiftr b (64 - pb)) (2 ^ pb - 1) mod two32)
    ((Z.shiftl (Z.land a (2 ^ (nb - pb) - 1)) pb mod two64) mod two32)) i =
  if i <? pb then Z.testbit b (i + (64 - pb)) else (i <? nb) && Z.testbit a (i - pb).
Proof.
  intros Hpb Hnb Hi. rewrite Z.lor_spec, !testbit_mod_two32, testbit_mod_two64, !land_mask by lia.
  rewrite Z.shiftl_spec, testbit_mod_pow2, Z.shiftr_spec by lia. destruct (Z.ltb_spec i pb); cbn [andb orb].
  - rewrite (Z.testbit_neg_r _ (i - pb)) by lia. apply orb_false_r.
  - rewrite testbit_mod_pow2 by lia. destruct (Z.ltb_spec i nb), (Z.ltb_spec (i - pb) (nb - pb)); lia || done.
Qed.

Lemma update_nonce_history_bits self delta p1 e :
  words = 2 ^ e -> 0 <= e -> nonce_buf_mask self = words - 1 -> zlen (nonce_buf self) = words ->
  is_u32 (nonce_history self) -> 0 < delta -> is_u32 p1 ->
  exists x, update_nonce_history self delta p1 = Ok x /\ is_u32 x /\
    forall i, 0 <= i < 32 -> Z.testbit x i =
      if i <? delta then nonce_bit (nonce_buf self) (wrapping_sub p1 (i + 1))
      else Z.testbit (nonce_history self) (i - delta).
Proof.
  intros Hw He Hm Hlen Hh Hd Hp1. unfold update_nonce_history. rewrite Hm.
  assert (Hnb : 0 < Z.min delta 32 <= 32) by lia.
  destruct (history_shifted (nonce_history self) _ Hh Hnb) as (x0 & -> & Hx0 & Hbits). cbn [mbind outcome_bind].
  assert (Hmask : forall d, Z.land (d / 64) (words - 1) = (d / 64) mod words) by (intros; rewrite Hw;
    by apply land_mask).
  rewrite !Hmask. clear Hmask.
  assert (Hp0 : is_u32 (wrapping_sub p1 (Z.min delta 32))) by apply wrapping_sub_range.
  pose proof (fun y Hu Hy => history_joined (nonce_buf self) (nonce_history self) delta p1 x0 y Hx0 Hu Hbits Hy)
    as Hfin.
  set (nb := Z.min delta 32) in *. destruct (Z.eqb_spec (wrapping_sub p1 nb / 64) (p1 / 64)) as [E|E].
  - rewrite index_word by done. cbn [mbind outcome_bind]. assert (0 < p1 mod 64) by word.
    rewrite sub32_ok by word. cbn [mbind outcome_bind]. unfold shl64, shr64.
    rewrite !shift_amount_ok by word. cbn [mbind outcome_bind]. rewrite pow2_u64, sub64_ok by lia.
    cbn [mbind outcome_bind].
    eexists. split; [reflexivity|]. apply Hfin; [apply mod_two32_u32|].
    intros i Hi. rewrite testbit_mod_two32, land_mask, testbit_mod_pow2 by lia.
    destruct (Z.ltb_spec i nb); [cbn [andb]|done]. rewrite Z.shiftr_spec by lia. unfold nonce_bit.
    replace (wrapping_sub p1 (i + 1) / 64) with (p1 / 64) by word. f_equal. word.
  - destruct (Z.eqb_spec (p1 mod 64) 0) as [E0|E0].
    + rewrite index_word by done. cbn [mbind outcome_bind]. unfold shl64.
      rewrite shift_amount_ok by lia. cbn [mbind outcome_bind]. rewrite pow2_u64, sub64_ok by lia.
      cbn [mbind outcome_bind].
      eexists. split; [reflexivity|]. apply Hfin; [apply mod_two32_u32|].
      intros i Hi. rewrite testbit_mod_two32, land_mask, testbit_mod_pow2 by lia.
      destruct (Z.ltb_spec i nb); [cbn [andb]|done]. unfold nonce_bit.
      replace (wrapping_sub p1 (i + 1) / 64) with (wrapping_sub p1 nb / 64) by word. f_equal. word.
    + rewrite !index_word by done. cbn [mbind outcome_bind]. assert (p1 mod 64 < nb) by word.
      rewrite !sub32_ok by word. cbn [mbind outcome_bind]. unfold shl64, shr64.
      rewrite !shift_amount_ok by word. cbn [mbind outcome_bind]. rewrite !pow2_u64, !sub64_ok by word.
      cbn [mbind outcome_bind].
      eexists. split; [reflexivity|]. rewrite <- Z.lor_assoc. apply Hfin; [apply lor_u32; apply mod_two32_u32|].
      intros i Hi. rewrite straddling_bits by word. unfold nonce_bit. destruct (Z.ltb_spec i (p1 mod 64)).
      * replace (i <? nb) with true by (symmetry; apply Z.ltb_lt; lia). cbn [andb].
        replace (wrapping_sub p1 (i + 1) / 64) with (p1 / 64) by word. f_equal. word.
      * destruct (Z.ltb_spec i nb); [cbn [andb]|done].
        replace (wrapping_sub p1 (i + 1) / 64) with (wrapping_sub p1 nb / 64) by word. f_equal. word.
Qed.
End History.

(** ** The window against the history of sent segments *)

(** A sent segment: the nonce bit it carried and its size. *)
Abbreviation sent := (bool * Z)%type.
Definition sizes_sum (l : list sent) : Z := foldr (fun x s => x.2 + s) 0 l.

Lemma sizes_sum_app l k : sizes_sum (l ++ k) = sizes_sum l + sizes_sum k.
Proof. induction l as [|x l IH]; cbn; [done|]. fold (sizes_sum (l ++ k)) (sizes_sum l). lia. Qed.

Definition sent_ok (x : sent) : Prop := 0 <= x.2 < two32.

Lemma sizes_sum_bound l : Forall sent_ok l -> 0 <= sizes_sum l <= zlen l * two32.
Proof.
  induction 1 as [|x l Hx Hl IH]; [done|]. rewrite zlen_cons. cbn. fold (sizes_sum l).
  unfold sent_ok in Hx. lia.
Qed.

(** Only the maximum has 32 leading ones. *)
Lemma leading_ones_le n x : 0 <= leading_ones_from n x <= Z.of_nat n.
Proof. induction n as [|n IH]; cbn [leading_ones_from]; [lia|]. case_bool; lia. Qed.

Lemma leading_ones_all n x : leading_ones_from n x = Z.of_nat n ->
  forall i, 0 <= i < Z.of_nat n -> Z.testbit x i = true.
Proof.
  induction n as [|n IH]; cbn [leading_ones_from]; intros Hl i Hi; [lia|].
  destruct (Z.testbit x (Z.of_nat n)) eqn:E; [|lia].
  destruct (Z.eq_dec i (Z.of_nat n)) as [->|]; [done|]. apply IH; lia.
Qed.

Lemma leading_ones_lt x : is_u32 x -> x <> U32_MAX -> leading_ones32 x < 32.
Proof.
  intros Hx Hne. pose proof (leading_ones_le 32 x) as Hle. unfold leading_ones32.
  destruct (Z.eq_dec (leading_ones_from 32 x) 32) as [Hl|]; [|lia]. exfalso. apply Hne.
  pose proof (leading_ones_all 32 x Hl) as Hall. apply Z.bits_inj'. intros i Hi.
  change U32_MAX with (Z.ones 32). destruct (Z.lt_ge_cases i 32).
  - rewrite Z.ones_spec_low, Hall by lia. done.
  - rewrite Z.ones_spec_high, u32_high_bits by (done || lia). done.
Qed.

Section Window.
Context `{BuildProfile}.
Context (start e : Z) (He : 6 <= e <= 31).

Definition window_size : Z := 2 ^ e.
Definition id_at (k : Z) : Z := wrap32 (start + k).

(** The history up to now and the position of the window base. *)
Record seg_inv (s : SegmentTx) (log : list sent) (b : Z) : Prop := mk_seg_inv {
  sv_base_range : 0 <= b <= zlen log;
  sv_window : zlen log <= b + window_size;
  sv_base : base_id s = id_at b;
  sv_next : next_id s = id_at (zlen log);
  sv_size : size s = window_size;
  sv_tmask : transit_buf_mask s = window_size - 1;
  sv_nmask : nonce_buf_mask s = window_size / 64 - 1;
  sv_tlen : zlen (transit_buf s) = window_size;
  sv_nlen : zlen (nonce_buf s) = window_size / 64;
  sv_sent : Forall sent_ok log;
  sv_transit : forall k x, b <= k -> log !! Z.to_nat k = Some x ->
    transit_buf s !! Z.to_nat ((start + k) mod window_size) = Some x.2;
  sv_total : transit_total s = sizes_sum (drop (Z.to_nat b) log);
  sv_nonce : forall k x, b <= k -> log !! Z.to_nat k = Some x ->
    nonce_bit (window_size / 64) (nonce_buf s) (id_at k) = x.1;
  sv_nhist : is_u32 (nonce_history s);
  sv_nbits : forall i, 0 <= i < 32 -> Z.testbit (nonce_history s) i =
    match log !! Z.to_nat (b - 1 - i) with Some x => (i <? b) && x.1 | None => false end;
  sv_ahist : is_u32 (ack_history s)
}.

Lemma window_size_split : window_size = 64 * (window_size / 64) /\ 0 < window_size / 64 /\
  window_size / 64 = 2 ^ (e - 6) /\ window_size <= 2147483648 /\ 64 <= window_size.
Proof.
  unfold window_size. assert (Hs : 2 ^ e = 64 * 2 ^ (e - 6)).
  { change 64 with (2 ^ 6). rewrite <- Z.pow_add_r by lia. f_equal. lia. }
  assert (Hd : 2 ^ e / 64 = 2 ^ (e - 6)) by (rewrite Hs, Z.mul_comm; apply Z.div_mul; lia).
  rewrite Hd. assert (0 < 2 ^ (e - 6)) by lia.
  assert (2 ^ e <= 2 ^ 31) by (apply Z.pow_le_mono_r; lia). lia.
Qed.

Lemma id_at_mod k : id_at k mod window_size = (start + k) mod window_size.
Proof.
  unfold id_at, wrap32. apply Z.mod_mod_divide.
  exists (2 ^ (32 - e)). unfold window_size. rewrite <- Z.pow_add_r by lia.
  replace (32 - e + e) with 32 by lia. done.
Qed.

Lemma ring_index k : Z.land (id_at k) (window_size - 1) = (start + k) mod window_size.
Proof. rewrite <- id_at_mod. apply land_mask. lia. Qed.

(** Positions less than a window apart have different ring indices. *)
Lemma ring_distinct k n : k < n < k + window_size -> (start + k) mod window_size <> (start + n) mod window_size.
Proof.
  intros Hk Heq. pose proof window_size_split as (_ & _ & _ & _ & Hw).
  pose proof (Z.div_mod (start + k) window_size ltac:(lia)) as H1.
  pose proof (Z.div_mod (start + n) window_size ltac:(lia)) as H2. rewrite Heq in H1.
  set (q := (start + k) / window_size) in *. set (q' := (start + n) / window_size) in *.
  set (r := (start + n) mod window_size) in *.
  clearbody q q' r. generalize dependent window_size. intros w Hk _ Hw H1 H2.
  assert (Hd : w * (q' - q) = n - k) by (rewrite Z.mul_sub_distr_l; lia).
  destruct (Z.le_gt_cases (q' - q) 0).
  - assert (w * (q' - q) <= 0) by (apply Z.mul_nonneg_nonpos; lia). lia.
  - assert (w * 1 <= w * (q' - q)) by (apply Z.mul_le_mono_nonneg_l; lia). lia.
Qed.

(** Setting one nonce bit. *)
Lemma nonce_bit_set words buf d0 d v : 0 < words -> zlen buf = words ->
  nonce_bit words (<[Z.to_nat ((d0 / 64) mod words) := v]> buf) d =
  if (d / 64) mod words =? (d0 / 64) mod words then Z.testbit v (63 - d mod 64) else nonce_bit words buf d.
Proof.
  intros Hw Hl. unfold nonce_bit. pose proof (Z.mod_pos_bound (d0 / 64) words Hw).
  pose proof (Z.mod_pos_bound (d / 64) words Hw). unfold zlen in Hl.
  destruct (Z.eqb_spec ((d / 64) mod words) ((d0 / 64) mod words)) as [->|Hne].
  - by rewrite list_lookup_total_insert_eq by lia.
  - by rewrite list_lookup_total_insert_ne by lia.
Qed.

Lemma mod_digits words d : 0 < words -> d mod (64 * words) = d mod 64 + 64 * ((d / 64) mod words).
Proof. intros Hw. apply Z.rem_mul_r; lia. Qed.

(** What [compute_next_nonce] stores: the bit of the next segment, other bits of the
    window kept. *)
Lemma compute_next_nonce_spec s log b nonce :
  seg_inv s log b -> zlen log < b + window_size ->
  exists s', compute_next_nonce s nonce = Ok s' /\
    (forall k, b <= k < zlen log -> nonce_bit (window_size / 64) (nonce_buf s') (id_at k) =
       nonce_bit (window_size / 64) (nonce_buf s) (id_at k)) /\
    nonce_bit (window_size / 64) (nonce_buf s') (id_at (zlen log)) = nonce /\
    zlen (nonce_buf s') = window_size / 64 /\
    s' = mkSegmentTx (base_id s) (next_id s) (size s) (transit_buf s) (transit_buf_mask s) (nonce_buf s')
           (nonce_buf_mask s) (transit_total s) (ack_history s) (nonce_history s).
Proof.
  intros Hinv Hroom. pose proof window_size_split as (Hsz & Hw & Hw2 & _ & _).
  unfold compute_next_nonce. rewrite (sv_next _ _ _ Hinv), (sv_nmask _ _ _ Hinv).
  set (d0 := id_at (zlen log)). set (words := window_size / 64) in *.
  assert (Hd0 : 0 <= d0 mod 64 < 64) by (apply Z.mod_pos_bound; lia).
  rewrite sub32_ok by lia. cbn [mbind outcome_bind]. unfold shl64. rewrite shift_amount_ok by lia.
  cbn [mbind outcome_bind]. rewrite pow2_u64 by lia.
  rewrite Hw2, land_mask, <- Hw2 by lia. pose proof (sv_nlen _ _ _ Hinv) as Hl. fold words in Hl.
  rewrite index_word by done. cbn [mbind outcome_bind].
  pose proof (Z.mod_pos_bound (d0 / 64) words Hw).
  unfold index_set. rewrite Hl. replace (_ <? words) with true by (symmetry; apply Z.ltb_lt; lia).
  cbn [mbind outcome_bind]. set (old := nonce_buf s !!! Z.to_nat ((d0 / 64) mod words)).
  set (v := if nonce then _ else _).
  assert (Hv : forall j, 0 <= j < 64 -> Z.testbit v j = if j =? 63 - d0 mod 64 then nonce else Z.testbit old j).
  { intros j Hj. unfold v. pose proof (Z.pow2_bits_eqb (63 - d0 mod 64) j ltac:(lia)) as Hp.
    rewrite Z.eqb_sym in Hp. destruct nonce.
    - rewrite Z.lor_spec, Hp. by destruct (Z.eqb_spec j (63 - d0 mod 64)), (Z.testbit old j).
    - rewrite Z.land_spec, Z.lxor_spec, Hp. change U64_MAX with (Z.ones 64).
      rewrite Z.ones_spec_low by lia. by destruct (Z.eqb_spec j (63 - d0 mod 64)), (Z.testbit old j). }
  eexists. split; [reflexivity|]. cbn [nonce_buf]. split; [|split; [|split; [|done]]].
  - intros k Hk. rewrite nonce_bit_set by done.
    destruct (Z.eqb_spec ((id_at k / 64) mod words) ((d0 / 64) mod words)) as [E|]; [|done].
    rewrite Hv by (pose proof (Z.mod_pos_bound (id_at k) 64); lia).
    assert (Hne : id_at k mod 64 <> d0 mod 64).
    { intros E'. apply (ring_distinct k (zlen log)); [lia|]. rewrite <- !id_at_mod, Hsz, !mod_digits by done.
      fold words d0. lia. }
    replace (63 - id_at k mod 64 =? 63 - d0 mod 64) with false by (symmetry; apply Z.eqb_neq; lia).
    unfold nonce_bit, old. by rewrite E.
  - rewrite nonce_bit_set, Z.eqb_refl by done. fold d0. rewrite Hv by lia. by rewrite Z.eqb_refl.
  - unfold zlen. by rewrite length_insert.
Qed.

Lemma mark_sent_spec s log b sz :
  seg_inv s log b -> zlen log < b + window_size -> 0 <= sz < two32 ->
  exists s', mark_sent s sz = Ok s' /\
    s' = mkSegmentTx (base_id s) (id_at (zlen log + 1)) (size s)
           (<[Z.to_nat ((start + zlen log) mod window_size) := sz]> (transit_buf s))
           (transit_buf_mask s) (nonce_buf s) (nonce_buf_mask s) (transit_total s + sz)
           (ack_history s) (nonce_history s).
Proof.
  intros Hinv Hroom Hsz. pose proof window_size_split as (_ & _ & _ & Hmax & _). pose proof (zlen_nonneg log).
  pose proof (sv_base_range _ _ _ Hinv). pose proof (sv_window _ _ _ Hinv).
  unfold mark_sent. rewrite debug_assert_true.
  2: { unfold can_send. rewrite (sv_next _ _ _ Hinv), (sv_base _ _ _ Hinv), (sv_size _ _ _ Hinv).
       unfold id_at. rewrite wrapping_sub_pos by (unfold two32; lia). apply Z.ltb_lt. lia. }
  cbn [mbind outcome_bind]. rewrite (sv_next _ _ _ Hinv), (sv_tmask _ _ _ Hinv), ring_index.
  pose proof (Z.mod_pos_bound (start + zlen log) window_size ltac:(unfold window_size; lia)).
  unfold index_set. rewrite (sv_tlen _ _ _ Hinv).
  replace (_ <? window_size) with true by (symmetry; apply Z.ltb_lt; lia). cbn [mbind outcome_bind].
  rewrite add64_ok.
  2: { rewrite (sv_total _ _ _ Hinv).
       pose proof (sizes_sum_bound _ (Forall_drop _ (Z.to_nat b) _ (sv_sent _ _ _ Hinv))) as Hs.
       assert (zlen (drop (Z.to_nat b) log) <= 2147483648) by (rewrite zlen_drop; lia).
       unfold two64, two32 in *. nia. }
  cbn [mbind outcome_bind]. eexists. split; [reflexivity|]. unfold id_at.
  by rewrite wrapping_add_pos.
Qed.

(** Drawing a nonce stores it for the next segment. *)
Lemma compute_inv s log b nonce :
  seg_inv s log b -> zlen log < b + window_size ->
  exists s', compute_next_nonce s nonce = Ok s' /\ seg_inv s' log b /\
    nonce_bit (window_size / 64) (nonce_buf s') (id_at (zlen log)) = nonce /\ ack_history s' = ack_history s.
Proof.
  intros Hinv Hroom.
  destruct (compute_next_nonce_spec s log b nonce Hinv Hroom) as (s1 & -> & Hkeep & Hnew & Hlen & Hs1).
  exists s1. split; [done|]. split; [|split; [done|by rewrite Hs1]].
  destruct Hinv as [? ? ? ? ? ? ? ? ? ? ? ? Hnon ? ? ?].
  rewrite Hs1. split; cbn; try done. intros k x Hk Hx. rewrite Hkeep; [by apply Hnon|].
  pose proof (lookup_lt_Some _ _ _ Hx). unfold zlen. lia.
Qed.

(** Accounting for a segment; its nonce is the bit stored for its id. *)
Lemma mark_inv s log b sz :
  seg_inv s log b -> zlen log < b + window_size -> 0 <= sz < two32 ->
  let nonce := nonce_bit (window_size / 64) (nonce_buf s) (id_at (zlen log)) in
  exists s', mark_sent s sz = Ok s' /\ seg_inv s' (log ++ [(nonce, sz)]) b /\ ack_history s' = ack_history s.
Proof.
  intros Hinv Hroom Hsz nonce. pose proof window_size_split as (_ & Hw & _ & _ & Hmin). pose proof (zlen_nonneg log).
  pose proof Hinv as [Hb Hwin Hbase Hnext Hsize Htm Hnm Htl Hnl Hsent Htr Htot Hnon Hnh Hnb Hah].
  assert (Hlog' : forall k x, (log ++ [(nonce, sz)]) !! Z.to_nat k = Some x -> b <= k ->
    (k < zlen log /\ log !! Z.to_nat k = Some x) \/ (k = zlen log /\ x = (nonce, sz))).
  { intros k x Hk Hbk. apply lookup_app_Some in Hk as [Hk|[Hge Hk]].
    - left. pose proof (lookup_lt_Some _ _ _ Hk). unfold zlen. split; [lia|done].
    - right. apply list_lookup_singleton_Some in Hk as [? <-]. unfold zlen. split; [lia|done]. }
  destruct (mark_sent_spec s log b sz Hinv Hroom Hsz) as (s2 & -> & ->).
  eexists. split; [reflexivity|]. split; [|done].
  pose proof (Z.mod_pos_bound (start + zlen log) window_size ltac:(unfold window_size; lia)).
  split; cbn [base_id next_id size transit_buf transit_buf_mask nonce_buf nonce_buf_mask transit_total
    ack_history nonce_history]; rewrite ?zlen_app; change (zlen [(nonce, sz)]) with 1; try done; try lia.
  - unfold zlen. by rewrite length_insert.
  - apply Forall_app. split; [done|]. constructor; [done|constructor].
  - intros k x Hk Hx. destruct (Hlog' k x Hx Hk) as [[Hlt Hx']|[-> ->]].
    + pose proof (Z.mod_pos_bound (start + k) window_size ltac:(unfold window_size; lia)).
      rewrite list_lookup_insert_ne; [by apply Htr|]. pose proof (ring_distinct k (zlen log)). lia.
    + rewrite list_lookup_insert_eq; [done|]. unfold zlen in *. lia.
  - rewrite drop_app_le by (unfold zlen in *; lia). rewrite sizes_sum_app, Htot. cbn. lia.
  - intros k x Hk Hx. destruct (Hlog' k x Hx Hk) as [[Hlt Hx']|[-> ->]]; [|done]. by apply Hnon.
  - intros i Hi. rewrite Hnb by done. destruct (Z.ltb_spec i b).
    + rewrite lookup_app_l by (unfold zlen in *; lia). done.
    + by destruct (log !! _), ((log ++ _) !! _).
Qed.

(** Sending one segment, as the endpoint does: draw the nonce, then account for it. *)
Lemma send_inv s log b nonce sz :
  seg_inv s log b -> zlen log < b + window_size -> 0 <= sz < two32 ->
  exists s', (s ← compute_next_nonce s nonce; mark_sent s sz) = Ok s' /\ seg_inv s' (log ++ [(nonce, sz)]) b.
Proof.
  intros Hinv Hroom Hsz. destruct (compute_inv s log b nonce Hinv Hroom) as (s1 & -> & Hinv1 & Hbit & _).
  destruct (mark_inv s1 log b sz Hinv1 Hroom Hsz) as (s2 & Hm & Hinv2 & _). rewrite Hbit in Hinv2.
  exists s2. by split.
Qed.

(** *** Acknowledgements *)

Lemma subtract_acked_spec s log b n : forall i total,
  seg_inv s log b -> 0 <= i -> b + i + Z.of_nat n <= zlen log ->
  total = sizes_sum (drop (Z.to_nat (b + i)) log) ->
  subtract_acked n i s total = Ok (sizes_sum (drop (Z.to_nat (b + i + Z.of_nat n)) log)).
Proof.
  induction n as [|n IH]; intros i total Hinv Hi Hn Ht; cbn [subtract_acked].
  - rewrite Ht. do 4 f_equal. lia.
  - pose proof (sv_base_range _ _ _ Hinv) as Hb.
    destruct (lookup_lt_is_Some_2 log (Z.to_nat (b + i))) as [x Hx]; [unfold zlen in *; lia|].
    rewrite (sv_base _ _ _ Hinv), (sv_tmask _ _ _ Hinv). unfold id_at. rewrite wrapping_add_pos.
    fold (id_at (b + i)). rewrite ring_index.
    unfold index_. rewrite (sv_transit _ _ _ Hinv (b + i) x) by (done || lia). cbn [mbind outcome_bind].
    assert (Hd : drop (Z.to_nat (b + i)) log = x :: drop (Z.to_nat (b + (i + 1))) log).
    { replace (Z.to_nat (b + (i + 1))) with (S (Z.to_nat (b + i))) by lia. by apply drop_S. }
    rewrite Hd in Ht. cbn in Ht. fold (sizes_sum (drop (Z.to_nat (b + (i + 1))) log)) in Ht.
    pose proof (sizes_sum_bound _ (Forall_drop _ (Z.to_nat (b + (i + 1))) _ (sv_sent _ _ _ Hinv))).
    rewrite sub64_ok by lia. cbn [mbind outcome_bind].
    rewrite (IH (i + 1) _ Hinv) by lia. do 4 f_equal. lia.
Qed.

Lemma update_ack_history_total ah nh d rh cs :
  is_u32 ah -> is_u32 rh -> 0 <= d <= window_size ->
  exists ah' drop, update_ack_history ah nh d rh cs = Ok (ah', drop) /\ is_u32 ah'.
Proof.
  intros Hah Hrh Hd. unfold update_ack_history. case_bool; [by do 2 eexists|].
  assert (Hsh : is_u32 (if d =? 32 then 0 else wrapping_shl32 ah d))
    by (case_bool; [done|apply mod_two32_u32]).
  set (ah1 := if d =? 32 then 0 else _) in *.
  assert (Hor : is_u32 (if eqb (expected_checksum nh rh) cs then Z.lor ah1 rh else ah1))
    by (case_bool; [by apply lor_u32|done]).
  set (ah2 := if eqb _ _ then _ else _) in *.
  destruct (Z.eqb_spec ah2 U32_MAX) as [Hm|Hm]; [by do 2 eexists|]. case_bool; [by do 2 eexists|].
  rewrite debug_assert_true.
  2: { apply Z.ltb_lt. apply leading_ones_lt; done. }
  cbn [mbind outcome_bind]. case_bool; by do 2 eexists.
Qed.

Lemma id_at_delta id b : is_u32 id -> id_at (b + wrapping_sub id (id_at b)) = id.
Proof. intros Hid. unfold id_at. word. Qed.

(** The history at the new base: the bits of the newly acknowledged segments. *)
Lemma nonce_history_advance s log b d x :
  seg_inv s log b -> 0 < d -> b + d <= zlen log ->
  (forall i, 0 <= i < 32 -> Z.testbit x i =
     if i <? d then nonce_bit (window_size / 64) (nonce_buf s) (wrapping_sub (id_at (b + d)) (i + 1))
     else Z.testbit (nonce_history s) (i - d)) ->
  forall i, 0 <= i < 32 -> Z.testbit x i =
    match log !! Z.to_nat (b + d - 1 - i) with Some y => (i <? b + d) && y.1 | None => false end.
Proof.
  intros Hinv Hd Hle Hx i Hi. rewrite Hx by done. pose proof (sv_base_range _ _ _ Hinv).
  destruct (Z.ltb_spec i d) as [Hlt|Hge].
  - destruct (lookup_lt_is_Some_2 log (Z.to_nat (b + d - 1 - i))) as [y Hy]; [unfold zlen in *; lia|].
    rewrite Hy. replace (i <? b + d) with true by (symmetry; apply Z.ltb_lt; lia). cbn [andb].
    rewrite <- (sv_nonce _ _ _ Hinv (b + d - 1 - i) y) by (done || lia). f_equal.
    unfold id_at, wrapping_sub. rewrite wrap32_sub_l. f_equal. lia.
  - rewrite (sv_nbits _ _ _ Hinv) by lia. replace (b - 1 - (i - d)) with (b + d - 1 - i) by lia.
    replace (i - d <? b) with (i <? b + d); [done|].
    destruct (Z.ltb_spec i (b + d)), (Z.ltb_spec (i - d) b); lia || done.
Qed.

Definition ack_base (log : list sent) (b id : Z) : Z :=
  let d := wrapping_sub id (id_at b) in if d <=? zlen log - b then b + d else b.

Lemma ack_inv s log b id rh cs :
  seg_inv s log b -> is_u32 id -> is_u32 rh ->
  exists s' drop, acknowledge s id rh cs = Ok (s', drop) /\ seg_inv s' log (ack_base log b id).
Proof.
  intros Hinv Hid Hrh. pose proof window_size_split as (Hsz & Hw & Hw2 & Hmax & Hmin).
  pose proof Hinv as [Hb Hwin Hbase Hnext Hsize Htm Hnm Htl Hnl Hsent Htr Htot Hnon Hnh Hnb Hah].
  unfold acknowledge, ack_base. rewrite Hbase, Hnext.
  assert (Hnd : wrapping_sub (id_at (zlen log)) (id_at b) = zlen log - b)
    by (unfold id_at; apply wrapping_sub_pos; unfold two32; lia).
  rewrite Hnd. pose proof (id_at_delta id b Hid) as Hidd.
  pose proof (wrapping_sub_range id (id_at b)) as Hdr. set (d := wrapping_sub id (id_at b)) in *.
  unfold is_u32 in Hdr. destruct (Z.leb_spec d (zlen log - b)) as [Hd|]; [|by exists s, false].
  destruct (Z.ltb_spec 0 d) as [Hpos|Hzero].
  - rewrite (subtract_acked_spec s log b (Z.to_nat d) 0 _ Hinv) by (lia || (rewrite Htot; do 3 f_equal; lia)).
    cbn [mbind outcome_bind]. replace (b + 0 + Z.of_nat (Z.to_nat d)) with (b + d) by lia.
    destruct (update_nonce_history_bits (window_size / 64) Hw s d id (e - 6)) as (x & -> & Hxu & Hxb);
      try done; [lia|]. cbn [mbind outcome_bind nonce_history ack_history].
    destruct (update_ack_history_total (ack_history s) x d rh cs Hah Hrh) as (ah & dr & -> & Hahu); [lia|].
    cbn [mbind outcome_bind]. do 2 eexists. split; [reflexivity|].
    split; cbn [base_id next_id size transit_buf transit_buf_mask nonce_buf nonce_buf_mask transit_total
      ack_history nonce_history]; try done; try lia.
    + intros k y Hk. apply Htr. lia.
    + intros k y Hk. apply Hnon. lia.
    + apply (nonce_history_advance s log b d x Hinv Hpos); [lia|]. by rewrite Hidd.
  - cbn [mbind outcome_bind]. assert (Hd0 : d = 0) by lia.
    destruct (update_ack_history_total (ack_history s) (nonce_history s) d rh cs Hah Hrh)
      as (ah & dr & -> & Hahu); [lia|].
    cbn [mbind outcome_bind]. do 2 eexists. split; [reflexivity|]. rewrite Hd0, Z.add_0_r.
    by split.
Qed.

Lemma new_inv : is_u32 start -> exists s, new start window_size = Ok s /\ seg_inv s [] 0.
Proof.
  intros Hs. pose proof window_size_split as (Hsz & Hw & Hw2 & Hmax & Hmin). unfold new, assert_.
  replace ((0 <? window_size) && (Z.land (window_size - 1) window_size =? 0)) with true.
  2: { symmetry. apply andb_true_iff. split; [apply Z.ltb_lt; lia|]. apply Z.eqb_eq.
       rewrite Z.land_comm. unfold window_size. rewrite land_mask by lia. apply Z.mod_same. lia. }
  replace (64 <=? window_size) with true by (symmetry; by apply Z.leb_le). cbn [mbind outcome_bind].
  eexists. split; [reflexivity|].
  assert (Hid : start = id_at 0) by (unfold id_at; rewrite Z.add_0_r; symmetry; by apply wrap32_small).
  split; cbn [base_id next_id size transit_buf transit_buf_mask nonce_buf nonce_buf_mask transit_total
      ack_history nonce_history]; change (zlen (@nil sent)) with 0; try done; try lia.
  - unfold zlen. rewrite length_replicate. lia.
  - unfold zlen. rewrite length_replicate. lia.
  - intros i Hi. by rewrite Z.bits_0.
Qed.
End Window.

(** ** Runs *)

Inductive stx_op : Set :=
| TxSend (nonce : bool) (segment_size : Z)
| TxAck (id history : Z) (checksum : bool).

Definition stx_op_valid (op : stx_op) : Prop :=
  match op with
  | TxSend _ sz => 0 <= sz < two32
  | TxAck id h _ => is_u32 id /\ is_u32 h
  end.

(** The endpoint sends only when the window has room. *)
Definition stx_step `{BuildProfile} (s : SegmentTx) (op : stx_op) : outcome SegmentTx :=
  match op with
  | TxSend nonce sz => if can_send s then s ← compute_next_nonce s nonce; mark_sent s sz else Ok s
  | TxAck id h c => '(s, _) ← acknowledge s id h c; Ok s
  end.

Fixpoint stx_run `{BuildProfile} (s : SegmentTx) (ops : list stx_op) : outcome SegmentTx :=
  match ops with
  | [] => Ok s
  | op :: ops => s ← stx_step s op; stx_run s ops
  end.

(** The same run on the full history: the segments sent so far and the base position. *)
Fixpoint stx_spec (start e : Z) (log : list sent) (b : Z) (ops : list stx_op) : list sent * Z :=
  match ops with
  | [] => (log, b)
  | TxSend nonce sz :: ops =>
      stx_spec start e (if zlen log - b <? window_size e then log ++ [(nonce, sz)] else log) b ops
  | TxAck id _ _ :: ops => stx_spec start e log (ack_base start log b id) ops
  end.

Lemma stx_run_inv `{BuildProfile} start e ops : 6 <= e <= 31 -> forall s log b,
  Forall stx_op_valid ops -> seg_inv start e s log b ->
  exists s', stx_run s ops = Ok s' /\
    seg_inv start e s' (stx_spec start e log b ops).1 (stx_spec start e log b ops).2.
Proof.
  intros He. induction ops as [|op ops IH]; intros s log b Hv Hinv; [by exists s|].
  inversion Hv as [|? ? Hop Hv']; subst. destruct op as [nonce sz|id h c]; cbn [stx_run stx_step stx_spec].
  - pose proof (sv_window _ _ _ _ _ Hinv). pose proof (sv_base_range _ _ _ _ _ Hinv).
    pose proof (window_size_split e He) as (_ & _ & _ & Hmax & _).
    assert (Hcan : can_send s = (zlen log - b <? window_size e)).
    { unfold can_send. rewrite (sv_next _ _ _ _ _ Hinv), (sv_base _ _ _ _ _ Hinv), (sv_size _ _ _ _ _ Hinv).
      unfold id_at. by rewrite wrapping_sub_pos by (unfold two32; lia). }
    rewrite Hcan. destruct (Z.ltb_spec (zlen log - b) (window_size e)).
    + destruct (send_inv start e He s log b nonce sz Hinv ltac:(lia) Hop) as (s' & -> & Hinv'). by apply IH.
    + by apply IH.
  - destruct Hop as [Hid Hh].
    destruct (ack_inv start e He s log b id h c Hinv Hid Hh) as (s' & dr & -> & Hinv'). by apply IH.
Qed.

(** C32: on every sequence of sends and acknowledgements (forged ones included) no call
    faults; the bytes in transit are exactly the sizes of the segments sent and not
    acknowledged; the window is never exceeded; and the nonce history holds the nonce
    bits of the last 32 acknowledged segments. *)
Theorem segment_tx_accounting `{BuildProfile} start e ops :
  6 <= e <= 31 -> is_u32 start -> Forall stx_op_valid ops ->
  exists s, (s ← new start (2 ^ e); stx_run s ops) = Ok s /\
    let '(log, b) := stx_spec start e [] 0 ops in
    0 <= b <= zlen log /\ zlen log - b <= 2 ^ e /\
    base_id s = wrap32 (start + b) /\ next_id s = wrap32 (start + zlen log) /\
    bytes_in_transit s = sizes_sum (drop (Z.to_nat b) log) /\
    forall i, 0 <= i < 32 -> Z.testbit (nonce_history s) i =
      match log !! Z.to_nat (b - 1 - i) with Some x => (i <? b) && x.1 | None => false end.
Proof.
  intros He Hs Hv. destruct (new_inv start e He Hs) as (s0 & Hn & Hinv0).
  change (2 ^ e) with (window_size e). rewrite Hn. cbn [mbind outcome_bind].
  destruct (stx_run_inv start e ops He s0 [] 0 Hv Hinv0) as (s & Hrun & Hinv). exists s.
  destruct (stx_spec start e [] 0 ops) as [log b]. cbn [fst snd] in Hinv. split; [done|].
  split; [apply Hinv|]. split; [pose proof (sv_window _ _ _ _ _ Hinv); lia|].
  split; [apply Hinv|]. split; [apply Hinv|]. split; apply Hinv.
Qed.

(** The window straddles the wrap of the ids; one acknowledgement is out of range. *)
Definition stx_example : list stx_op :=
  [TxSend true 100; TxSend false 200; TxSend true 300; TxAck 0 3 true; TxAck 77 1 false; TxSend true 50].

Lemma segment_tx_accounting_witness :
  6 <= 6 <= 31 /\ is_u32 4294967294 /\ Forall stx_op_valid stx_example /\
  exists s, (s ← new 4294967294 (2 ^ 6); stx_run (H := true) s stx_example) = Ok s /\
    let '(log, b) := stx_spec 4294967294 6 [] 0 stx_example in
    0 <= b <= zlen log /\ zlen log - b <= 2 ^ 6 /\
    base_id s = wrap32 (4294967294 + b) /\ next_id s = wrap32 (4294967294 + zlen log) /\
    bytes_in_transit s = sizes_sum (drop (Z.to_nat b) log) /\
    forall i, 0 <= i < 32 -> Z.testbit (nonce_history s) i =
      match log !! Z.to_nat (b - 1 - i) with Some x => (i <? b) && x.1 | None => false end.
Proof.
  assert (Hs : is_u32 4294967294) by (unfold is_u32, two32; lia).
  assert (Hv : Forall stx_op_valid stx_example).
  { unfold stx_example, stx_op_valid, is_u32, two32. rewrite !Forall_cons. repeat split; try lia; constructor. }
  split; [lia|]. split; [exact Hs|]. split; [exact Hv|].
  apply (segment_tx_accounting (H := true) 4294967294 6 stx_example); [lia|exact Hs|exact Hv].
Defined.
