(* ===== verification/DropDetection.v ===== *)
(** * Drop detection and the nonce checksum

    [expected_checksum] is the parity of the selected nonce bits
    ([expected_checksum_parity]), and [update_ack_history] reports a drop exactly when
    a segment is left unacknowledged 32 ids back or three later segments have been
    acknowledged ([drop_detection_spec]); an honest receiver that reports everything
    never triggers one ([no_drop_when_all_received]). *)

From S2P Require Import Prelude.
From S2P Require Import Word.
From S2P Require Import SegmentTx.
From S2P Require Import SegmentTxFacts.

Import SegmentTx.

(** ** The checksum *)

Lemma low_bit_set x : (Z.land x 1 =? 1) = Z.testbit x 0.
Proof.
  rewrite Z.bit0_odd. replace (Z.land x 1) with (x mod 2) by (symmetry; exact (Z.land_ones x 1 ltac:(lia))).
  rewrite Zmod_odd. by destruct (Z.odd x).
Qed.

(** The parity of the low [n] bits; folding the upper half onto the lower keeps it. *)
Definition parity (n : nat) (x : Z) : bool := Z.odd (count_ones_from n x).

Lemma parity_S n x : parity (S n) x = xorb (Z.testbit x (Z.of_nat n)) (parity n x).
Proof. unfold parity. cbn [count_ones_from]. rewrite Z.odd_add. by destruct (Z.testbit x (Z.of_nat n)). Qed.

Lemma parity_add n m x : parity (n + m) x = xorb (parity n x) (parity m (Z.shiftr x (Z.of_nat n))).
Proof.
  induction m as [|m IH]; [rewrite Nat.add_0_r; symmetry; apply xorb_false_r|].
  rewrite Nat.add_succ_r, !parity_S, IH, Z.shiftr_spec by lia.
  replace (Z.of_nat m + Z.of_nat n) with (Z.of_nat (n + m)) by lia.
  rewrite <- !xorb_assoc. f_equal. apply xorb_comm.
Qed.

Lemma parity_lxor n x y : parity n (Z.lxor x y) = xorb (parity n x) (parity n y).
Proof.
  induction n as [|n IH]; [done|]. rewrite !parity_S, IH, Z.lxor_spec.
  by destruct (Z.testbit x (Z.of_nat n)), (Z.testbit y (Z.of_nat n)), (parity n x), (parity n y).
Qed.

Lemma parity_fold n k x : k = Z.of_nat n -> parity n (Z.lxor x (Z.shiftr x k)) = parity (n + n) x.
Proof. intros ->. by rewrite parity_lxor, parity_add. Qed.

Lemma expected_checksum_eq nonces history :
  expected_checksum nonces history = parity 32 (Z.land nonces history).
Proof.
  unfold expected_checksum. rewrite low_bit_set.
  change (parity 32 (Z.land nonces history)) with (parity (16 + 16) (Z.land nonces history)).
  assert (H1 : forall x, Z.testbit x 0 = parity 1 x) by (intros x; rewrite parity_S; by rewrite xorb_false_r).
  rewrite H1, (parity_fold 1 1), (parity_fold 2 2), (parity_fold 4 4), (parity_fold 8 8), (parity_fold 16 16) by done.
  done.
Qed.

(** The checksum the sender expects is the parity of the nonce bits of the segments
    the receiver reports. *)
Theorem expected_checksum_parity nonces history :
  expected_checksum nonces history = Z.odd (count_ones32 (Z.land nonces history)).
Proof. apply expected_checksum_eq. Qed.

(** ** Leading ones *)

Lemma leading_ones_spec n x :
  let l := leading_ones_from n x in
  (forall i, Z.of_nat n - l <= i < Z.of_nat n -> Z.testbit x i = true) /\
  (l < Z.of_nat n -> Z.testbit x (Z.of_nat n - 1 - l) = false).
Proof.
  induction n as [|n IH]; cbn [leading_ones_from]; [split; lia|].
  pose proof (leading_ones_le n x) as Hle. destruct (Z.testbit x (Z.of_nat n)) eqn:E.
  - destruct IH as [Hones Hzero]. split.
    + intros i Hi. destruct (Z.eq_dec i (Z.of_nat n)) as [->|]; [done|]. apply Hones. lia.
    + intros Hl. rewrite <- Hzero by lia; f_equal; lia.
  - split; [lia|]. intros _. rewrite <- E; f_equal; lia.
Qed.

(** An acknowledgement that shifts by more than the leading ones pushes an
    unacknowledged segment out of the history. *)
Lemma shifts_out_zero ah d : 0 <= d <= 32 ->
  (leading_ones32 ah <? d) = true <-> exists i, 32 - d <= i < 32 /\ Z.testbit ah i = false.
Proof.
  intros Hd. rewrite Z.ltb_lt. pose proof (leading_ones_le 32 ah) as Hle.
  destruct (leading_ones_spec 32 ah) as [Hones Hzero]. unfold leading_ones32.
  set (l := leading_ones_from 32 ah) in *. change (Z.of_nat 32) with 32 in *. split.
  - intros Hl. exists (31 - l). split; [lia|]. rewrite <- Hzero by lia. f_equal; lia.
  - intros (i & Hi & Hf). destruct (Z.lt_ge_cases l d); [done|]. rewrite Hones in Hf by lia. done.
Qed.

Lemma count_ones_from_ext n x y :
  (forall i, 0 <= i < Z.of_nat n -> Z.testbit x i = Z.testbit y i) -> count_ones_from n x = count_ones_from n y.
Proof.
  induction n as [|n IH]; intros Hxy; [done|]. cbn [count_ones_from].
  rewrite (Hxy (Z.of_nat n)) by lia. rewrite IH by (intros; apply Hxy; lia). done.
Qed.

Lemma count_ones_from_zeros n m x : (m <= n)%nat ->
  (forall i, Z.of_nat m <= i < Z.of_nat n -> Z.testbit x i = false) -> count_ones_from n x = count_ones_from m x.
Proof.
  intros Hmn. induction Hmn as [|n Hmn IH]; intros Hz; [done|]. cbn [count_ones_from].
  rewrite Hz by lia. rewrite IH by (intros; apply Hz; lia). done.
Qed.

Lemma count_ones_from_mono n m x : (m <= n)%nat -> count_ones_from m x <= count_ones_from n x.
Proof.
  induction 1 as [|n Hmn IH]; [lia|]. cbn [count_ones_from]. destruct (Z.testbit x (Z.of_nat n)); cbn; lia.
Qed.

(** The ones below the first zero, as the shifts compute them. *)
Lemma ones_after_zero x l : 0 <= l < 32 ->
  count_ones32 (wrapping_shr32 (wrapping_shl32 x l) l) = count_ones_from (Z.to_nat (32 - l)) x.
Proof.
  intros Hl. unfold wrapping_shr32, wrapping_shl32. rewrite !(Z.mod_small l) by lia.
  assert (Hbit : forall i, 0 <= i < 32 ->
    Z.testbit (Z.shiftr (Z.shiftl x l mod two32) l) i = (i <? 32 - l) && Z.testbit x i).
  { intros i Hi. rewrite Z.shiftr_spec by lia. change two32 with (2 ^ 32).
    rewrite testbit_mod_pow2 by lia. rewrite Z.shiftl_spec by lia.
    replace (i + l - l) with i by lia.
    destruct (Z.ltb_spec (i + l) 32), (Z.ltb_spec i (32 - l)); lia || done. }
  unfold count_ones32. rewrite (count_ones_from_zeros 32 (Z.to_nat (32 - l))) by
    (lia || (intros i Hi; rewrite Hbit by lia;
      replace (i <? 32 - l) with false by (symmetry; apply Z.ltb_ge; lia); done)).
  apply count_ones_from_ext. intros i Hi. rewrite Hbit by lia.
  by replace (i <? 32 - l) with true by (symmetry; apply Z.ltb_lt; lia).
Qed.

(** ** What counts as a drop *)

(** The history after an acknowledgement: shifted, and the reported segments added
    when the checksum is right. *)
Definition shifted_history (ah d : Z) : Z := if d =? 32 then 0 else wrapping_shl32 ah d.
Definition merged_history (ah nonces d rh : Z) (cs : bool) : Z :=
  if eqb (expected_checksum nonces rh) cs then Z.lor (shifted_history ah d) rh else shifted_history ah d.

(** Bit [i] of a history is the segment [i + 1] ids before the base.  A drop is an
    unacknowledged segment that is 32 ids old or that has at least three
    acknowledged successors. *)
Definition is_drop (h : Z) : Prop :=
  Z.testbit h 31 = false \/
  exists j, 0 <= j < 32 /\ Z.testbit h j = false /\ 3 <= count_ones_from (Z.to_nat j) h.

Lemma merged_u32 ah nonces d rh cs : is_u32 rh -> is_u32 (merged_history ah nonces d rh cs).
Proof.
  intros Hrh. assert (Hs : is_u32 (shifted_history ah d)).
  { unfold shifted_history. case_bool; [done|apply mod_two32_u32]. }
  unfold merged_history. case_bool; [by apply lor_u32|done].
Qed.

Lemma shr31_zero h : is_u32 h -> (wrapping_shr32 h 31 =? 0) = negb (Z.testbit h 31).
Proof.
  intros Hh. unfold wrapping_shr32. change (31 mod 32) with 31.
  rewrite Z.shiftr_div_pow2 by lia. change (2 ^ 31) with 2147483648.
  pose proof (Z.testbit_spec' h 31) as Hb. change (2 ^ 31) with 2147483648 in Hb. specialize (Hb ltac:(lia)).
  unfold is_u32, two32 in Hh. destruct (Z.testbit h 31); cbn [Z.b2z] in Hb; cbn [negb].
  - apply Z.eqb_neq. intros Hz. by rewrite Hz in Hb.
  - apply Z.eqb_eq. Z.div_mod_to_equations. lia.
Qed.

Lemma update_ack_history_spec `{BuildProfile} ah nonces d rh cs :
  is_u32 ah -> is_u32 rh -> 0 <= d ->
  exists ah' drop, update_ack_history ah nonces d rh cs = Ok (ah', drop) /\
    ah' = (if drop then U32_MAX else merged_history ah nonces d rh cs) /\
    (drop = true <->
     32 < d \/ (exists i, 32 - d <= i < 32 /\ Z.testbit ah i = false) \/ is_drop (merged_history ah nonces d rh cs)).
Proof.
  intros Hah Hrh Hd. unfold update_ack_history.
  pose proof (leading_ones_le 32 ah) as Hle. change (Z.of_nat 32) with 32 in Hle.
  destruct (leading_ones32 ah <? d) eqn:El.
  { do 2 eexists. split; [reflexivity|]. split; [done|]. split; [intros _|done].
    destruct (Z.lt_ge_cases 32 d); [by left|right; left]. by apply shifts_out_zero in El; [|lia]. }
  assert (Hd32 : d <= 32) by (apply Z.ltb_ge in El; unfold leading_ones32 in El; lia).
  assert (Hout : ~ exists i, 32 - d <= i < 32 /\ Z.testbit ah i = false).
  { intros Hex. apply shifts_out_zero in Hex; [congruence|lia]. }
  fold (shifted_history ah d). fold (merged_history ah nonces d rh cs).
  pose proof (merged_u32 ah nonces d rh cs Hrh) as Hh. set (h := merged_history ah nonces d rh cs) in *.
  assert (Hiff : forall (b : bool), (b = true <-> is_drop h) ->
    (b = true <-> 32 < d \/ (exists i, 32 - d <= i < 32 /\ Z.testbit ah i = false) \/ is_drop h)).
  { intros b Hb. rewrite Hb. split; [tauto|]. intros [?|[?|?]]; [lia|tauto|done]. }
  destruct (Z.eqb_spec h U32_MAX) as [Hmax|Hmax].
  { do 2 eexists. split; [reflexivity|]. split; [done|]. apply Hiff. split; [done|]. rewrite Hmax.
    change U32_MAX with (Z.ones 32).
    intros [Hf|(j & Hj & Hf & _)]; rewrite Z.ones_spec_low in Hf by lia; done. }
  rewrite shr31_zero by done. destruct (Z.testbit h 31) eqn:E31; cbn [negb].
  2: { do 2 eexists. split; [reflexivity|]. split; [done|]. apply Hiff. split; [|done]. intros _. by left. }
  pose proof (leading_ones_lt h Hh Hmax) as Hlt. destruct (leading_ones_spec 32 h) as [Hones Hzero].
  pose proof (leading_ones_le 32 h) as Hle'. unfold leading_ones32 in Hlt |- *.
  set (l := leading_ones_from 32 h) in *. change (Z.of_nat 32) with 32 in *.
  rewrite debug_assert_true by (by apply Z.ltb_lt). cbn [mbind outcome_bind].
  rewrite ones_after_zero by lia.
  assert (Hcount : count_ones_from (Z.to_nat (32 - l)) h = count_ones_from (Z.to_nat (31 - l)) h).
  { apply count_ones_from_zeros; [lia|]. intros i Hi. rewrite <- Hzero by lia; f_equal; lia. }
  rewrite Hcount.
  assert (Hdrop : is_drop h <-> 3 <= count_ones_from (Z.to_nat (31 - l)) h).
  { split.
    - intros [Hf|(j & Hj & Hf & Hc)]; [congruence|]. etransitivity; [exact Hc|]. apply count_ones_from_mono.
      destruct (Z.lt_ge_cases (31 - l) j); [|lia]. rewrite Hones in Hf by lia. done.
    - intros Hc. right. exists (31 - l). split; [lia|]. split; [|done]. rewrite <- Hzero by lia; f_equal; lia. }
  destruct (Z.leb_spec 3 (count_ones_from (Z.to_nat (31 - l)) h)); do 2 eexists;
    (split; [reflexivity|]); (split; [done|]); apply Hiff; rewrite Hdrop; split; done || lia.
Qed.

(** C33: a drop is reported exactly when the acknowledgement pushes an unacknowledged
    segment out of the 32-segment history, or leaves one 32 ids old, or leaves one with
    three or more acknowledged successors; a report resets the history to all
    acknowledged, and otherwise the history is the shifted one with the reported
    segments added (when their checksum is right). *)
Theorem drop_detection_spec `{BuildProfile} ah nonces d rh cs :
  is_u32 ah -> is_u32 rh -> 0 <= d ->
  exists ah' drop, update_ack_history ah nonces d rh cs = Ok (ah', drop) /\
    ah' = (if drop then U32_MAX else merged_history ah nonces d rh cs) /\
    (drop = true <->
     32 < d \/ (exists i, 32 - d <= i < 32 /\ Z.testbit ah i = false) \/ is_drop (merged_history ah nonces d rh cs)).
Proof. apply update_ack_history_spec. Qed.

(** Segments 1 to 4 ids back are reported, the fifth is missing. *)
Lemma drop_detection_spec_witness :
  is_u32 U32_MAX /\ is_u32 15 /\ 0 <= 5 /\
  exists ah' drop, update_ack_history (H := true) U32_MAX 9 5 15 false = Ok (ah', drop) /\
    ah' = (if drop then U32_MAX else merged_history U32_MAX 9 5 15 false) /\
    (drop = true <->
     32 < 5 \/ (exists i, 32 - 5 <= i < 32 /\ Z.testbit U32_MAX i = false) \/
     is_drop (merged_history U32_MAX 9 5 15 false)).
Proof.
  assert (H1 : is_u32 U32_MAX) by (unfold is_u32, U32_MAX, two32; lia).
  assert (H2 : is_u32 15) by (unfold is_u32, two32; lia).
  split; [exact H1|]. split; [exact H2|]. split; [lia|].
  apply (drop_detection_spec (H := true) U32_MAX 9 5 15 false H1 H2). lia.
Defined.

(** While everything is received no drop is ever reported: if all segments so far
    are acknowledged and the receiver reports the newly acknowledged ones with the
    right checksum, the history stays all acknowledged. *)
Theorem no_drop_when_all_received `{BuildProfile} nonces d rh cs :
  is_u32 rh -> 0 <= d <= 32 -> (forall i, 0 <= i < d -> Z.testbit rh i = true) ->
  expected_checksum nonces rh = cs ->
  update_ack_history U32_MAX nonces d rh cs = Ok (U32_MAX, false).
Proof.
  intros Hrh Hd Hall Hcs.
  assert (Hm : merged_history U32_MAX nonces d rh cs = U32_MAX).
  { unfold merged_history. rewrite Hcs, eqb_reflx. apply Z.bits_inj'. intros i Hi.
    change U32_MAX with (Z.ones 32) at 2. rewrite Z.lor_spec. destruct (Z.lt_ge_cases i 32).
    - rewrite Z.ones_spec_low by lia. destruct (Z.lt_ge_cases i d); [by rewrite Hall, orb_true_r by lia|].
      unfold shifted_history. destruct (Z.eqb_spec d 32); [lia|]. unfold wrapping_shl32.
      rewrite (Z.mod_small d), testbit_mod_two32, Z.shiftl_spec by lia.
      change U32_MAX with (Z.ones 32). by rewrite Z.ones_spec_low by lia.
    - rewrite Z.ones_spec_high by lia. rewrite (u32_high_bits rh), orb_false_r by done.
      apply u32_high_bits; [|done]. unfold shifted_history. case_bool; [done|apply mod_two32_u32]. }
  destruct (update_ack_history_spec U32_MAX nonces d rh cs) as (ah & drop & -> & -> & Hdrop); try done; [lia|].
  rewrite Hm in *. destruct drop; [|done]. exfalso.
  assert (Hones : forall i, 0 <= i < 32 -> Z.testbit U32_MAX i = true)
    by (intros; change U32_MAX with (Z.ones 32); by rewrite Z.ones_spec_low by lia).
  destruct (proj1 Hdrop eq_refl) as [?|[(i & Hi & Hf)|[Hf|(j & Hj & Hf & _)]]]; [lia|..];
    rewrite Hones in Hf by lia; done.
Qed.

Lemma no_drop_when_all_received_witness :
  is_u32 31 /\ 0 <= 3 <= 32 /\ (forall i, 0 <= i < 3 -> Z.testbit 31 i = true) /\
  expected_checksum 21 31 = true /\
  update_ack_history (H := true) U32_MAX 21 3 31 true = Ok (U32_MAX, false).
Proof.
  assert (Hb : forall i, 0 <= i < 3 -> Z.testbit 31 i = true)
    by (intros i Hi; change 31 with (Z.ones 5); apply Z.ones_spec_low; lia).
  assert (Hr : is_u32 31) by (unfold is_u32, two32; lia).
  assert (Hc : expected_checksum 21 31 = true) by reflexivity.
  split; [exact Hr|]. split; [lia|]. split; [exact Hb|]. split; [exact Hc|].
  apply (no_drop_when_all_received (H := true) 21 3 31 true Hr); [lia|exact Hb|exact Hc].
Defined.
