(* ===== verification/SegmentRx.v ===== *)
(** * Segment reception state (src/src/endpoint/segment_rx.rs)

    A two-slot reorder buffer in front of the in-order delivery of segments, and the
    histories from which acknowledgements are built.  The delivery callback is the
    list of segments handed over, in order. *)

From S2P Require Import Prelude.
From S2P Require Import Word.
From S2P Require Import Fragment.

Module SegmentRx.
Record Slot : Set := mkSlot {
  slot_id : Z;
  slot_nonce : bool;
  slot_data : list Z;
  slot_len : Z
}.

Record SegmentRx : Set := mkSegmentRx {
  window : Window.Window;
  slot_0 : Slot;
  slot_1 : Slot;
  len : Z;
  rx_history : Z;
  nonce_history : Z
}.

Definition empty_slot (segment_size_max : Z) : Slot :=
  mkSlot 0 false (replicate (Z.to_nat segment_size_max) 0) 0.

Definition new (window_base_id window_size segment_size_max : Z) : SegmentRx :=
  {| window := Window.new window_base_id window_size;
     slot_0 := empty_slot segment_size_max;
     slot_1 := empty_slot segment_size_max;
     len := 0;
     rx_history := 0;
     nonce_history := 0 |}.

(** [slot.data[..data.len()].copy_from_slice(data)] keeps the rest of the buffer. *)
Definition save_segment (slot : Slot) (id : Z) (nonce : bool) (data : list Z) : outcome Slot :=
  if zlen data <=? zlen (slot_data slot) then
    Ok {| slot_id := id;
          slot_nonce := nonce;
          slot_data := data ++ drop (length data) (slot_data slot);
          slot_len := zlen data |}
  else Fault Panicked.

(** [&slot.data[..slot.len]] *)
Definition slot_segment (slot : Slot) : outcome (list Z) :=
  if slot_len slot <=? zlen (slot_data slot) then Ok (take (Z.to_nat (slot_len slot)) (slot_data slot))
  else Fault Panicked.

Definition set_slots (self : SegmentRx) (slot_0 slot_1 : Slot) (len : Z) : SegmentRx :=
  {| window := window self; slot_0 := slot_0; slot_1 := slot_1; len := len;
     rx_history := rx_history self; nonce_history := nonce_history self |}.

Section Operations.
Context `{BuildProfile}.

Definition swap_slots (self : SegmentRx) : outcome SegmentRx :=
  _ ← debug_assert (len self =? 2);
  Ok (set_slots self (slot_1 self) (slot_0 self) (len self)).

Definition swap_slots_if_backward (self : SegmentRx) : outcome SegmentRx :=
  _ ← debug_assert (len self =? 2);
  let slot_0_delta := wrapping_sub (slot_id (slot_0 self)) (Window.base_id (window self)) in
  let slot_1_delta := wrapping_sub (slot_id (slot_1 self)) (Window.base_id (window self)) in
  if slot_1_delta <? slot_0_delta then swap_slots self else Ok self.

Definition set_history (self : SegmentRx) (rx_history nonce_history : Z) : SegmentRx :=
  {| window := window self; slot_0 := slot_0 self; slot_1 := slot_1 self; len := len self;
     rx_history := rx_history; nonce_history := nonce_history |}.

Definition push_history_ack (self : SegmentRx) (nonce : bool) : SegmentRx :=
  set_history self
    (Z.lor (Z.shiftl (rx_history self) 1 mod two32) 1)
    (Z.lor (Z.shiftl (nonce_history self) 1 mod two32) (Z.b2z nonce)).

Definition push_history_skips (self : SegmentRx) (count : Z) : SegmentRx :=
  if count <? 32 then
    set_history self
      (Z.shiftl (rx_history self) count mod two32)
      (Z.shiftl (nonce_history self) count mod two32)
  else set_history self 0 0.

Definition set_base (self : SegmentRx) (base_id : Z) : SegmentRx :=
  {| window := Window.mkWindow base_id (Window.size (window self));
     slot_0 := slot_0 self; slot_1 := slot_1 self; len := len self;
     rx_history := rx_history self; nonce_history := nonce_history self |}.

Definition advance_window_past (self : SegmentRx) (new_base_id : Z) : SegmentRx :=
  set_base self (wrapping_add new_base_id 1).

(** The [while] loop of [receive]: at most one turn per buffered segment. *)
Fixpoint deliver_buffered (fuel : nat) (self : SegmentRx) (out : list (list Z)) :
    outcome (SegmentRx * list (list Z)) :=
  match fuel with
  | O => Fault OutOfFuel
  | S fuel =>
      if (0 <? len self) && (slot_id (slot_0 self) =? Window.base_id (window self)) then
        data ← slot_segment (slot_0 self);
        let out := out ++ [data] in
        let self := push_history_ack self (slot_nonce (slot_0 self)) in
        let self := advance_window_past self (slot_id (slot_0 self)) in
        self ← (if len self =? 2 then swap_slots self else Ok self);
        let self := set_slots self (slot_0 self) (slot_1 self) (len self - 1) in
        deliver_buffered fuel self out
      else Ok (self, out)
  end.

Definition receive (self : SegmentRx) (new_id : Z) (new_nonce : bool) (new_data : list Z) :
    outcome (SegmentRx * list (list Z) * Z) :=
  if Window.contains (window self) new_id then
    (* [inl] carries on to the delivery loop, [inr] returns early *)
    step ←
      (if new_id =? Window.base_id (window self) then
         let self := push_history_ack self new_nonce in
         let self := advance_window_past self new_id in
         Ok (inl (self, [new_data]))
       else if len self =? 0 then
         slot ← save_segment (slot_0 self) new_id new_nonce new_data;
         let self := set_slots self slot (slot_1 self) 1 in
         Ok (inr (self, [], len self))
       else if len self =? 1 then
         if negb (slot_id (slot_0 self) =? new_id) then
           slot ← save_segment (slot_1 self) new_id new_nonce new_data;
           self ← swap_slots_if_backward (set_slots self (slot_0 self) slot 2);
           Ok (inr (self, [], len self))
         else Ok (inr (self, [], len self))
       else if len self =? 2 then
         if negb (slot_id (slot_0 self) =? new_id) && negb (slot_id (slot_1 self) =? new_id) then
           let new_delta := wrapping_sub new_id (Window.base_id (window self)) in
           let slot_0_delta := wrapping_sub (slot_id (slot_0 self)) (Window.base_id (window self)) in
           if new_delta <? slot_0_delta then
             let self := push_history_skips self new_delta in
             let self := push_history_ack self new_nonce in
             let self := advance_window_past self new_id in
             Ok (inl (self, [new_data]))
           else
             slot_0_data ← slot_segment (slot_0 self);
             let self := push_history_skips self slot_0_delta in
             let self := push_history_ack self (slot_nonce (slot_0 self)) in
             let self := advance_window_past self (slot_id (slot_0 self)) in
             slot ← save_segment (slot_0 self) new_id new_nonce new_data;
             self ← swap_slots_if_backward (set_slots self slot (slot_1 self) (len self));
             Ok (inl (self, [slot_0_data]))
         else Ok (inl (self, []))
       else Fault Panicked);
    match step with
    | inr result => Ok result
    | inl (self, out) =>
        '(self, out) ← deliver_buffered 3 self out;
        Ok (self, out, len self)
    end
  else Ok (self, [], len self).

Definition sync (self : SegmentRx) (next_segment_id : Z) : outcome (SegmentRx * list (list Z)) :=
  let delta := wrapping_sub next_segment_id (Window.base_id (window self)) in
  let min_delta :=
    if len self =? 1 then wrapping_sub (slot_id (slot_0 self)) (Window.base_id (window self))
    else if len self =? 2 then wrapping_sub (slot_id (slot_1 self)) (Window.base_id (window self))
    else Window.base_id (window self) in
  if (min_delta <? delta) && (delta <=? Window.size (window self)) then
    '(self, out) ←
      (if 0 <? len self then
         slot_0_data ← slot_segment (slot_0 self);
         let slot_0_delta := wrapping_sub (slot_id (slot_0 self)) (Window.base_id (window self)) in
         let self := push_history_skips self slot_0_delta in
         let self := push_history_ack self (slot_nonce (slot_0 self)) in
         let self := advance_window_past self (slot_id (slot_0 self)) in
         if len self =? 2 then
           slot_1_data ← slot_segment (slot_1 self);
           let slot_1_delta := wrapping_sub (slot_id (slot_1 self)) (Window.base_id (window self)) in
           let self := push_history_skips self slot_1_delta in
           let self := push_history_ack self (slot_nonce (slot_1 self)) in
           let self := advance_window_past self (slot_id (slot_1 self)) in
           Ok (self, [slot_0_data; slot_1_data])
         else Ok (self, [slot_0_data])
       else Ok (self, []));
    let self := set_slots self (slot_0 self) (slot_1 self) 0 in
    let remaining_delta := wrapping_sub next_segment_id (Window.base_id (window self)) in
    let self := push_history_skips self remaining_delta in
    Ok (set_base self next_segment_id, out)
  else Ok (self, []).
End Operations.

Definition next_expected_id (self : SegmentRx) : Z := Window.base_id (window self).

Definition compute_checksum (rx_history nonce_history : Z) : bool :=
  let x := Z.land rx_history nonce_history in
  let x := Z.lxor x (Z.shiftr x 4) in
  let x := Z.lxor x (Z.shiftr x 2) in
  let x := Z.lxor x (Z.shiftr x 1) in
  Z.land x 1 =? 1.

Definition ACK_MASK : Z := 0x1f.

Definition next_ack_info (self : SegmentRx) : Z * bool :=
  let rx_history := Z.land (rx_history self) ACK_MASK mod two8 in
  let nonce_history := nonce_history self mod two8 in
  (rx_history, compute_checksum rx_history nonce_history).
End SegmentRx.
