(* ===== verification/SegmentRxFacts.v ===== *)
(** * Correctness of segment reception

    [ReorderBuffer] is the abstract specification: a base position and at most two
    buffered positions in order; when a third would be needed, the oldest is delivered
    and the gap before it is given up.  [SegmentRx] implements it on every sequence of
    arrivals and synchronisations ([rx_run_refines]), with acknowledgement histories
    that say exactly which of the last 32 positions were delivered. *)

From S2P Require Import Prelude.
From S2P Require Import Word.
From S2P Require Import Fragment.
From S2P Require Import SegmentTx.
From S2P Require Import SegmentTxFacts.
From S2P Require Import SegmentRx.

Import SegmentRx.

(** ** The specification *)

Module ReorderBuffer.
Record t : Set := mk { base : Z; buf : list Z }.

Fixpoint insert_sorted (k : Z) (l : list Z) : list Z :=
  match l with
  | [] => [k]
  | m :: r => if k <? m then k :: l else m :: insert_sorted k r
  end.

(** Deliver while the next position is the expected one. *)
Fixpoint drain (b : Z) (l : list Z) : t * list Z :=
  match l with
  | m :: r => if m =? b then let '(s, out) := drain (b + 1) r in (s, m :: out) else (mk b l, [])
  | [] => (mk b [], [])
  end.

Definition arrive (size : Z) (s : t) (k : Z) : t * list Z :=
  if (base s <=? k) && (k <? base s + size) && negb (existsb (Z.eqb k) (buf s)) then
    match insert_sorted k (buf s) with
    | m :: r =>
        if (m =? base s) || (2 <? zlen (m :: r)) then
          let '(s', out) := drain (m + 1) r in (s', m :: out)
        else (mk (base s) (m :: r), [])
    | [] => (s, [])
    end
  else (s, []).

(** A synchronisation to position [n] must lie past everything buffered; [floor] is the
    smallest distance accepted when nothing is buffered. *)
Definition sync (size floor : Z) (s : t) (n : Z) : t * list Z :=
  let min_delta := match last (buf s) with Some k => k - base s | None => floor end in
  if (min_delta <? n - base s) && (n - base s <=? size) then (mk n [], buf s) else (s, []).
End ReorderBuffer.

(** ** Histories *)

(** Bit [i] of [h] tells whether [P] holds of the position [i + 1] before [b]. *)
Definition hist_ok (P : Z -> bool) (b h : Z) : Prop :=
  is_u32 h /\ forall i, 0 <= i < 32 -> Z.testbit h i = P (b - 1 - i).

Lemma hist_skip P b h c : hist_ok P b h -> 0 <= c < 32 ->
  (forall k, b <= k < b + c -> P k = false) -> hist_ok P (b + c) (Z.shiftl h c mod two32).
Proof.
  intros [Hu Hb] Hc Hz. split; [apply mod_two32_u32|]. intros i Hi.
  rewrite testbit_mod_two32, Z.shiftl_spec by lia. destruct (Z.lt_ge_cases i c).
  - rewrite Z.testbit_neg_r, Hz by lia. done.
  - rewrite Hb by lia. f_equal. lia.
Qed.

Lemma hist_clear P b c : 32 <= c -> (forall k, b <= k < b + c -> P k = false) -> hist_ok P (b + c) 0.
Proof. intros Hc Hz. split; [done|]. intros i Hi. rewrite Z.bits_0, Hz by lia. done. Qed.

Lemma hist_ack P Q b h v : hist_ok P b h -> (forall k, k < b -> Q k = P k) -> Q b = v ->
  hist_ok Q (b + 1) (Z.lor (Z.shiftl h 1 mod two32) (Z.b2z v)).
Proof.
  intros [Hu Hb] Hold Hnew. split; [apply lor_u32; [apply mod_two32_u32|by destruct v]|]. intros i Hi.
  rewrite Z.lor_spec, testbit_mod_two32, Z.shiftl_spec by lia.
  destruct (Z.eq_dec i 0) as [->|].
  - rewrite Z.testbit_neg_r by lia. replace (b + 1 - 1 - 0) with b by lia. rewrite Hnew. by destruct v.
  - rewrite Hb, Hold by lia. replace (Z.testbit (Z.b2z v) i) with false.
    + rewrite orb_false_r. f_equal. lia.
    + destruct v; [|symmetry; apply Z.bits_0]. symmetry. change (Z.b2z true) with (2 ^ 0).
      rewrite Z.pow2_bits_eqb by lia. apply Z.eqb_neq. lia.
Qed.

(** ** The refinement relation *)

Section Refinement.
Context `{BuildProfile}.
Context (start wsize cap : Z) (Hwsize : 0 < wsize < two32).
Context (seg : Z -> list Z) (non : Z -> bool) (Hseg : forall k, zlen (seg k) <= cap).

Definition rid (k : Z) : Z := wrap32 (start + k).

Definition delivered_in (D : list Z) (k : Z) : bool := bool_decide (k ∈ D).

(** Window and histories for base [b] and delivered positions [D]. *)
Record core (c : SegmentRx) (b : Z) (D : list Z) : Prop := {
  co_base : Window.base_id (window c) = rid b;
  co_size : Window.size (window c) = wsize;
  co_before : Forall (fun k => k < b) D;
  co_rx : hist_ok (delivered_in D) b (rx_history c);
  co_nonce : hist_ok (fun k => delivered_in D k && non k) b (nonce_history c)
}.

Definition holds (s : Slot) (k : Z) : Prop :=
  slot_id s = rid k /\ slot_nonce s = non k /\ zlen (slot_data s) = cap /\
  slot_len s = zlen (seg k) /\ take (length (seg k)) (slot_data s) = seg k.

Definition slots_ok (c : SegmentRx) (l : list Z) : Prop :=
  len c = zlen l /\ zlen (slot_data (slot_0 c)) = cap /\ zlen (slot_data (slot_1 c)) = cap /\
  match l with
  | [] => True
  | [k0] => holds (slot_0 c) k0
  | [k0; k1] => holds (slot_0 c) k0 /\ holds (slot_1 c) k1
  | _ => False
  end.

(** Buffered positions lie strictly inside the window and are in order. *)
Fixpoint in_order (b hi : Z) (l : list Z) : Prop :=
  match l with
  | [] => True
  | k :: r => b <= k < hi /\ in_order (k + 1) hi r
  end.

Lemma in_order_hi l : forall b hi hi', hi <= hi' -> in_order b hi l -> in_order b hi' l.
Proof.
  induction l as [|k l IH]; intros b hi hi' Hh; cbn; [done|]. intros [? ?]. split; [lia|by eapply IH].
Qed.

Lemma in_order_lo l b b' hi : b <= b' -> (forall k, head l = Some k -> b' <= k) -> in_order b hi l ->
  in_order b' hi l.
Proof.
  destruct l as [|k l]; cbn; [done|]. intros Hb Hk [? ?]. specialize (Hk k eq_refl). split; [lia|done].
Qed.

Record rx_rel (c : SegmentRx) (s : ReorderBuffer.t) (D : list Z) : Prop := {
  rr_core : core c (ReorderBuffer.base s) D;
  rr_slots : slots_ok c (ReorderBuffer.buf s);
  rr_order : in_order (ReorderBuffer.base s + 1) (ReorderBuffer.base s + wsize) (ReorderBuffer.buf s)
}.

Lemma rid_delta b k : 0 <= k - b < two32 -> wrapping_sub (rid k) (rid b) = k - b.
Proof. intros Hk. by apply wrapping_sub_pos. Qed.

Lemma rid_eqb a b : Z.abs (a - b) < two32 -> (rid a =? rid b) = (a =? b).
Proof.
  intros Hab. destruct (Z.eqb_spec a b) as [->|Hne]; [apply Z.eqb_refl|].
  apply Z.eqb_neq. intros Heq. apply Hne. by apply (wrap32_pos_inj start).
Qed.

Lemma save_holds s k : zlen (slot_data s) = cap ->
  exists s', save_segment s (rid k) (non k) (seg k) = Ok s' /\ holds s' k.
Proof.
  intros Hc. unfold save_segment. rewrite Hc.
  replace (zlen (seg k) <=? cap) with true by (symmetry; apply Z.leb_le, Hseg).
  eexists. split; [reflexivity|]. unfold holds. cbn [slot_id slot_nonce slot_data slot_len].
  split; [done|]. split; [done|]. split; [|split; [done|apply take_app_length]].
  pose proof (Hseg k). rewrite zlen_app. unfold zlen in *. rewrite length_drop. lia.
Qed.

Lemma slot_segment_holds s k : holds s k -> slot_segment s = Ok (seg k).
Proof.
  intros (_ & _ & Hc & Hl & Ht). unfold slot_segment. rewrite Hl, Hc.
  replace (zlen (seg k) <=? cap) with true by (symmetry; apply Z.leb_le, Hseg).
  unfold zlen. by rewrite Nat2Z.id, Ht.
Qed.

Lemma delivered_in_app D m k : delivered_in (D ++ [m]) k = delivered_in D k || (k =? m).
Proof.
  unfold delivered_in. destruct (Z.eqb_spec k m) as [->|].
  - rewrite orb_true_r. apply bool_decide_eq_true. rewrite elem_of_app, list_elem_of_singleton. by right.
  - rewrite orb_false_r. apply bool_decide_ext. rewrite elem_of_app, list_elem_of_singleton. tauto.
Qed.

Lemma delivered_in_ge D b k : Forall (fun k => k < b) D -> b <= k -> delivered_in D k = false.
Proof.
  intros HD Hk. apply bool_decide_eq_false. intros Hin. rewrite Forall_forall in HD.
  specialize (HD k Hin). cbn in HD. lia.
Qed.

Lemma core_skip c b D n : core c b D -> 0 <= n -> core (set_base (push_history_skips c n) (rid (b + n))) (b + n) D.
Proof.
  intros [Hb Hs HD Hr Hn] Hn0. unfold push_history_skips.
  assert (Hz : forall k, b <= k < b + n -> delivered_in D k = false)
    by (intros; apply (delivered_in_ge D b); [done|lia]).
  assert (Hz' : forall k, b <= k < b + n -> delivered_in D k && non k = false)
    by (intros k Hk; by rewrite Hz).
  assert (HD' : Forall (fun k => k < b + n) D) by (eapply Forall_impl; [exact HD|]; cbn; lia).
  destruct (Z.ltb_spec n 32); split; cbn; try done.
  - by apply hist_skip.
  - by apply hist_skip.
  - by apply hist_clear.
  - by apply hist_clear.
Qed.

(** The position [b] itself is delivered. *)
Lemma core_ack c b D : core c b D ->
  core (advance_window_past (push_history_ack c (non b)) (rid b)) (b + 1) (D ++ [b]).
Proof.
  intros [Hb Hs HD Hr Hn]. split; cbn; try done.
  - unfold rid. by rewrite wrapping_add_pos.
  - apply Forall_app. split; [eapply Forall_impl; [exact HD|]; cbn; lia|]. constructor; [lia|constructor].
  - apply (hist_ack (delivered_in D) _ _ _ true Hr).
    + intros k Hk. rewrite delivered_in_app. replace (k =? b) with false by (symmetry; apply Z.eqb_neq; lia).
      apply orb_false_r.
    + by rewrite delivered_in_app, Z.eqb_refl, orb_true_r.
  - apply (hist_ack _ _ _ _ (non b) Hn).
    + intros k Hk. rewrite delivered_in_app. replace (k =? b) with false by (symmetry; apply Z.eqb_neq; lia).
      by rewrite orb_false_r.
    + by rewrite delivered_in_app, Z.eqb_refl, orb_true_r.
Qed.

(** Delivering position [m], giving up whatever lies between it and the base. *)
Lemma core_take c b D m : core c b D -> b <= m ->
  core (advance_window_past (push_history_ack (push_history_skips c (m - b)) (non m)) (rid m)) (m + 1) (D ++ [m]).
Proof.
  intros Hc Hm. pose proof (core_skip c b D (m - b) Hc ltac:(lia)) as Hs.
  replace (b + (m - b)) with m in Hs by lia. exact (core_ack _ m D Hs).
Qed.

Lemma core_slots c b D s0 s1 n : core c b D -> core (set_slots c s0 s1 n) b D.
Proof. by intros []. Qed.

Lemma push_history_skips_slots c n :
  slot_0 (push_history_skips c n) = slot_0 c /\ slot_1 (push_history_skips c n) = slot_1 c /\
  len (push_history_skips c n) = len c.
Proof. unfold push_history_skips. by case_bool. Qed.

(** The delivery loop is [drain]. *)
Lemma deliver_buffered_spec l : forall fuel c b D out,
  core c b D -> slots_ok c l -> in_order b (b + wsize) l -> (length l < fuel)%nat ->
  exists c', deliver_buffered fuel c out = Ok (c', out ++ (seg <$> (ReorderBuffer.drain b l).2)) /\
    core c' (ReorderBuffer.base (ReorderBuffer.drain b l).1) (D ++ (ReorderBuffer.drain b l).2) /\
    slots_ok c' (ReorderBuffer.buf (ReorderBuffer.drain b l).1).
Proof.
  induction l as [|k l IH]; intros [|fuel] c b D out Hc Hs Ho Hf; cbn in Hf; try lia; cbn [deliver_buffered].
  - destruct Hs as (Hl & Hs). rewrite Hl. cbn. exists c. rewrite !app_nil_r. split; [done|]. split; [exact Hc|].
    exact (conj Hl Hs).
  - pose proof (zlen_nonneg l). pose proof Hs as (Hl & Hc0 & Hc1 & Hk). rewrite zlen_cons in Hl.
    destruct Ho as [Hkb Ho].
    assert (Hh : holds (slot_0 c) k) by (destruct l as [|? [|]]; tauto).
    replace (0 <? len c) with true by (symmetry; apply Z.ltb_lt; lia). cbn [andb].
    destruct Hh as (Hid & Hno & Hrest). rewrite (co_base _ _ _ Hc), Hid, rid_eqb by lia.
    cbn [ReorderBuffer.drain]. destruct (Z.eqb_spec k b) as [->|Hne].
    + rewrite (slot_segment_holds _ b) by done. cbn [mbind outcome_bind].
      pose proof (core_ack c b D Hc) as Hc'.
      change (slot_id (slot_0 (push_history_ack c (slot_nonce (slot_0 c))))) with (slot_id (slot_0 c)).
      rewrite Hno, ?Hid.
      set (c1 := advance_window_past (push_history_ack c (non b)) (rid b)) in *.
      assert (Hswap : exists c2, (if len c1 =? 2 then swap_slots c1 else Ok c1) = Ok c2 /\
        core (set_slots c2 (slot_0 c2) (slot_1 c2) (len c2 - 1)) (b + 1) (D ++ [b]) /\
        slots_ok (set_slots c2 (slot_0 c2) (slot_1 c2) (len c2 - 1)) l).
      { change (len c1) with (len c). rewrite Hl. destruct l as [|k1 [|]]; [| |done].
        - exists c1. split; [done|]. split; [by apply core_slots|]. unfold slots_ok. cbn. rewrite Hl. done.
        - change (1 + zlen [k1] =? 2) with true. unfold swap_slots.
          rewrite debug_assert_true by (change (len c1) with (len c); by rewrite Hl).
          cbn [mbind outcome_bind]. eexists. split; [reflexivity|].
          split; [by do 2 apply core_slots|]. unfold slots_ok. cbn. rewrite Hl. tauto. }
      destruct Hswap as (c2 & -> & Hc2 & Hs2). cbn [mbind outcome_bind].
      destruct (IH fuel _ (b + 1) (D ++ [b]) (out ++ [seg b]) Hc2 Hs2) as (c' & -> & Hc'' & Hs'').
      { eapply in_order_hi; [|exact Ho]. lia. }
      { lia. }
      exists c'. destruct (ReorderBuffer.drain (b + 1) l) as [s' o]. cbn [fst snd] in *.
      rewrite fmap_cons, <- !app_assoc in *. done.
    + exists c. cbn [fst snd ReorderBuffer.base ReorderBuffer.buf fmap list_fmap]. rewrite !app_nil_r. done.
Qed.

Lemma drain_order l : forall b hi, in_order b hi l ->
  b <= ReorderBuffer.base (ReorderBuffer.drain b l).1 /\
  in_order (ReorderBuffer.base (ReorderBuffer.drain b l).1 + 1) hi (ReorderBuffer.buf (ReorderBuffer.drain b l).1).
Proof.
  induction l as [|k l IH]; intros b hi Ho; cbn [ReorderBuffer.drain]; [by split; [cbn; lia|]|].
  destruct Ho as [Hk Ho]. destruct (Z.eqb_spec k b) as [->|Hne].
  - destruct (IH (b + 1) hi Ho) as [Hb Ho']. destruct (ReorderBuffer.drain (b + 1) l). cbn in *. split; [lia|done].
  - cbn. split; [lia|]. split; [lia|done].
Qed.

(** After a delivery that moved the base to [b], the loop and the rest of the call. *)
Lemma finish_receive c b D l out :
  core c b D -> slots_ok c l -> in_order b (b + wsize) l ->
  exists c', ('(self, out) ← deliver_buffered 3 c out; Ok (self, out, len self)) =
      Ok (c', out ++ (seg <$> (ReorderBuffer.drain b l).2), zlen (ReorderBuffer.buf (ReorderBuffer.drain b l).1)) /\
    rx_rel c' (ReorderBuffer.drain b l).1 (D ++ (ReorderBuffer.drain b l).2).
Proof.
  intros Hc Hs Ho. assert (Hf : (length l < 3)%nat)
    by (destruct l as [|? [|? [|]]]; cbn [length]; try lia; by destruct Hs as (_ & _ & _ & [])).
  destruct (deliver_buffered_spec l 3 c b D out Hc Hs Ho Hf) as (c' & -> & Hc' & Hs').
  destruct (drain_order l b (b + wsize) Ho) as [Hb Ho']. cbn [mbind outcome_bind]. exists c'.
  split; [by rewrite (proj1 Hs')|]. split; [done|done|]. eapply in_order_hi; [|exact Ho']. lia.
Qed.

(** A new segment next to one already buffered: the two end up in order. *)
Lemma place_second c k j b D s :
  core c b D -> holds s k -> holds (slot_1 c) j -> zlen (slot_data (slot_1 c)) = cap -> k <> j ->
  b <= k < b + wsize -> b <= j < b + wsize ->
  exists c', swap_slots_if_backward (set_slots c s (slot_1 c) 2) = Ok c' /\ core c' b D /\
    slots_ok c' (if k <? j then [k; j] else [j; k]).
Proof.
  intros Hc Hk Hj Hcap Hne Hbk Hbj. unfold swap_slots_if_backward. rewrite debug_assert_true by done.
  cbn [mbind outcome_bind]. change (slot_0 (set_slots c s (slot_1 c) 2)) with s.
  change (slot_1 (set_slots c s (slot_1 c) 2)) with (slot_1 c).
  change (window (set_slots c s (slot_1 c) 2)) with (window c).
  rewrite (proj1 Hk), (proj1 Hj), (co_base _ _ _ Hc), !rid_delta by lia.
  assert (Hcs : zlen (slot_data s) = cap) by apply Hk.
  destruct (Z.ltb_spec (j - b) (k - b)) as [Hlt|Hge]; destruct (Z.ltb_spec k j); try lia.
  - unfold swap_slots. rewrite debug_assert_true by done. eexists. split; [reflexivity|].
    split; [by do 2 apply core_slots|]. by unfold slots_ok.
  - eexists. split; [reflexivity|]. split; [by apply core_slots|]. by unfold slots_ok.
Qed.

Lemma contains_position c b D k : core c b D -> - (two32 - wsize) <= k - b < two32 ->
  Window.contains (window c) (rid k) = (b <=? k) && (k <? b + wsize).
Proof.
  intros Hc Hk. unfold Window.contains. rewrite (co_base _ _ _ Hc), (co_size _ _ _ Hc).
  destruct (Z.leb_spec b k); cbn [andb].
  - rewrite rid_delta by lia. destruct (Z.ltb_spec (k - b) wsize), (Z.ltb_spec k (b + wsize)); lia || done.
  - replace (wrapping_sub (rid k) (rid b)) with (k - b + two32).
    + apply Z.ltb_ge. lia.
    + unfold rid, wrapping_sub. rewrite wrap32_sub_l, wrap32_sub_r. unfold wrap32.
      replace (start + k - (start + b)) with (k - b + two32 + (-1) * two32) by lia.
      rewrite Z.mod_add by done. symmetry. apply Z.mod_small. lia.
Qed.

Lemma receive_empty c b D k :
  rx_rel c (ReorderBuffer.mk b []) D -> b < k < b + wsize ->
  exists c', receive c (rid k) (non k) (seg k) = Ok (c', [], 1) /\ rx_rel c' (ReorderBuffer.mk b [k]) D.
Proof.
  intros [Hc Hs _] Hk. cbn in Hc, Hs. unfold receive. rewrite (contains_position c b D) by (done || lia).
  replace ((b <=? k) && _) with true by (symmetry; apply andb_true_iff; split; [apply Z.leb_le|apply Z.ltb_lt]; lia).
  destruct Hs as (Hl & Hc0 & Hc1 & _). rewrite (co_base _ _ _ Hc), rid_eqb, Hl by lia.
  replace (k =? b) with false by (symmetry; apply Z.eqb_neq; lia). change (zlen [] =? 0) with true. cbn iota.
  destruct (save_holds (slot_0 c) k Hc0) as (s' & -> & Hh). cbn [mbind outcome_bind].
  eexists. split; [reflexivity|]. split; cbn; [by apply core_slots| |lia].
  unfold slots_ok. cbn. split; [done|]. split; [apply Hh|]. done.
Qed.

Lemma receive_one c b D k k0 :
  rx_rel c (ReorderBuffer.mk b [k0]) D -> b < k < b + wsize -> k <> k0 ->
  exists c', receive c (rid k) (non k) (seg k) = Ok (c', [], 2) /\
    rx_rel c' (ReorderBuffer.mk b (if k0 <? k then [k0; k] else [k; k0])) D.
Proof.
  intros [Hc Hs Ho] Hk Hne. cbn in Hc, Hs, Ho. unfold receive. rewrite (contains_position c b D) by (done || lia).
  replace ((b <=? k) && _) with true by (symmetry; apply andb_true_iff; split; [apply Z.leb_le|apply Z.ltb_lt]; lia).
  destruct Hs as (Hl & Hc0 & Hc1 & Hh0). rewrite (co_base _ _ _ Hc), rid_eqb, Hl by lia.
  replace (k =? b) with false by (symmetry; apply Z.eqb_neq; lia).
  change (zlen [k0] =? 0) with false. change (zlen [k0] =? 1) with true. cbn iota.
  rewrite (proj1 Hh0), rid_eqb by lia. replace (k0 =? k) with false by (symmetry; apply Z.eqb_neq; lia).
  cbn [negb]. destruct (save_holds (slot_1 c) k Hc1) as (s' & -> & Hh). cbn [mbind outcome_bind].
  set (c1 := set_slots c (slot_0 c) s' (len c)).
  destruct (place_second c1 k0 k b D (slot_0 c)) as (c' & Heq & Hc' & Hs'); try done; try lia.
  { by apply core_slots. }
  { apply Hh. }
  change (set_slots c1 (slot_0 c) (slot_1 c1) 2) with (set_slots c (slot_0 c) s' 2) in Heq. rewrite Heq.
  cbn [mbind outcome_bind]. exists c'. split.
  { destruct Hs' as (Hl' & _). rewrite Hl'. by destruct (k0 <? k). }
  split; cbn; [done|done|]. destruct (Z.ltb_spec k0 k); cbn; lia.
Qed.

Lemma slots_ok_frame c c' l : slot_0 c' = slot_0 c -> slot_1 c' = slot_1 c -> len c' = len c ->
  slots_ok c l -> slots_ok c' l.
Proof. intros H0 H1 Hl. unfold slots_ok. by rewrite H0, H1, Hl. Qed.

Lemma receive_full c b D k k0 k1 :
  rx_rel c (ReorderBuffer.mk b [k0; k1]) D -> b < k < b + wsize -> k <> k0 -> k <> k1 ->
  let '(m, r) := if k <? k0 then (k, [k0; k1]) else (k0, if k <? k1 then [k; k1] else [k1; k]) in
  exists c', receive c (rid k) (non k) (seg k) =
      Ok (c', seg m :: (seg <$> (ReorderBuffer.drain (m + 1) r).2),
          zlen (ReorderBuffer.buf (ReorderBuffer.drain (m + 1) r).1)) /\
    rx_rel c' (ReorderBuffer.drain (m + 1) r).1 (D ++ m :: (ReorderBuffer.drain (m + 1) r).2).
Proof.
  intros [Hc Hs Ho] Hk Hne0 Hne1. cbn in Hc, Hs, Ho. unfold receive.
  rewrite (contains_position c b D) by (done || lia).
  replace ((b <=? k) && _) with true by (symmetry; apply andb_true_iff; split; [apply Z.leb_le|apply Z.ltb_lt]; lia).
  pose proof Hs as (Hl & Hc0 & Hc1 & Hh0 & Hh1). rewrite (co_base _ _ _ Hc), rid_eqb, Hl by lia.
  replace (k =? b) with false by (symmetry; apply Z.eqb_neq; lia).
  change (zlen [k0; k1] =? 0) with false. change (zlen [k0; k1] =? 1) with false.
  change (zlen [k0; k1] =? 2) with true. cbn iota.
  rewrite (proj1 Hh0), (proj1 Hh1), !rid_eqb, !rid_delta by lia.
  replace (k0 =? k) with false by (symmetry; apply Z.eqb_neq; lia).
  replace (k1 =? k) with false by (symmetry; apply Z.eqb_neq; lia). cbn [negb andb].
  destruct (Z.ltb_spec (k - b) (k0 - b)); destruct (Z.ltb_spec k k0); try lia; cbn [mbind outcome_bind].
  - pose proof (core_take c b D k Hc ltac:(lia)) as Hct.
    destruct (push_history_skips_slots c (k - b)) as (P0 & P1 & Pl).
    destruct (finish_receive _ (k + 1) (D ++ [k]) [k0; k1] [seg k] Hct) as (c' & Heq & Hr).
    + by apply (slots_ok_frame c).
    + cbn. lia.
    + exists c'. rewrite <- app_assoc in Hr. split; [exact Heq|exact Hr].
  - rewrite (slot_segment_holds _ k0 Hh0). cbn [mbind outcome_bind].
    destruct (push_history_skips_slots c (k0 - b)) as (P0 & P1 & Pl).
    pose proof (core_take c b D k0 Hc ltac:(lia)) as Hct.
    rewrite P0. cbn [slot_0 slot_nonce push_history_ack set_history advance_window_past set_base].
    rewrite !P0. destruct Hh0 as (Hid0 & Hno0 & _). rewrite Hno0, Hid0.
    set (c1 := advance_window_past (push_history_ack (push_history_skips c (k0 - b)) (non k0)) (rid k0)) in *.
    destruct (save_holds (slot_0 c) k Hc0) as (s' & -> & Hh). cbn [mbind outcome_bind].
    assert (Hs1 : slot_1 c1 = slot_1 c) by exact P1.
    assert (Hl1 : len c1 = 2) by (transitivity (len c); [exact Pl|exact Hl]).
    assert (Hh1' : holds (slot_1 c1) k1) by (by rewrite Hs1).
    destruct (place_second c1 k k1 (k0 + 1) (D ++ [k0]) s') as (c2 & Heq2 & Hc2 & Hs2);
      try done; try lia; [by rewrite Hs1|].
    rewrite Hl1, Heq2. cbn [mbind outcome_bind].
    destruct (finish_receive _ (k0 + 1) (D ++ [k0]) _ [seg k0] Hc2 Hs2) as (c' & Heq & Hr).
    + destruct (Z.ltb_spec k k1); cbn; lia.
    + exists c'. rewrite <- app_assoc in Hr. split; [exact Heq|exact Hr].
Qed.

Lemma existsb_false l k : existsb (Z.eqb k) l = false <-> ~ In k l.
Proof.
  rewrite <- not_true_iff_false, existsb_exists. split; intros Hn Hin; apply Hn.
  - exists k. by rewrite Z.eqb_refl.
  - destruct Hin as (x & Hx & ->%Z.eqb_eq). done.
Qed.

Lemma insert_at_base b l hi : in_order (b + 1) hi l -> ReorderBuffer.insert_sorted b l = b :: l.
Proof.
  destruct l as [|k l]; cbn; [done|]. intros [Hk _].
  by replace (b <? k) with true by (symmetry; apply Z.ltb_lt; lia).
Qed.

(** An arrival at the base is delivered with whatever it releases. *)
Lemma receive_base c s D :
  rx_rel c s D -> let b := ReorderBuffer.base s in
  exists c', receive c (rid b) (non b) (seg b) =
      Ok (c', seg b :: (seg <$> (ReorderBuffer.drain (b + 1) (ReorderBuffer.buf s)).2),
          zlen (ReorderBuffer.buf (ReorderBuffer.drain (b + 1) (ReorderBuffer.buf s)).1)) /\
    rx_rel c' (ReorderBuffer.drain (b + 1) (ReorderBuffer.buf s)).1
      (D ++ b :: (ReorderBuffer.drain (b + 1) (ReorderBuffer.buf s)).2).
Proof.
  destruct s as [b l]. intros [Hc Hs Ho]. cbn in Hc, Hs, Ho |- *. unfold receive.
  rewrite (contains_position c b D) by (done || lia).
  replace ((b <=? b) && _) with true by (symmetry; apply andb_true_iff; split; [apply Z.leb_le|apply Z.ltb_lt]; lia).
  rewrite (co_base _ _ _ Hc), Z.eqb_refl. cbn [mbind outcome_bind].
  pose proof (core_ack c b D Hc) as Hca.
  destruct (finish_receive _ (b + 1) (D ++ [b]) l [seg b] Hca) as (c' & Heq & Hr).
  - by apply (slots_ok_frame c).
  - eapply in_order_hi; [|exact Ho]. lia.
  - exists c'. rewrite <- app_assoc in Hr. split; [exact Heq|exact Hr].
Qed.

(** A copy of a buffered segment changes nothing. *)
Lemma receive_duplicate c b D l k :
  rx_rel c (ReorderBuffer.mk b l) D -> b < k < b + wsize -> In k l ->
  exists c', receive c (rid k) (non k) (seg k) = Ok (c', [], zlen l) /\ rx_rel c' (ReorderBuffer.mk b l) D.
Proof.
  intros Hr Hk Hin. pose proof Hr as [Hc Hs Ho]. cbn in Hc, Hs, Ho. unfold receive.
  rewrite (contains_position c b D) by (done || lia).
  replace ((b <=? k) && _) with true by (symmetry; apply andb_true_iff; split; [apply Z.leb_le|apply Z.ltb_lt]; lia).
  pose proof Hs as (Hl & Hc0 & Hc1 & Hh). rewrite (co_base _ _ _ Hc), rid_eqb, Hl by lia.
  replace (k =? b) with false by (symmetry; apply Z.eqb_neq; lia).
  destruct l as [|k0 [|k1 [|]]]; [done| | |done].
  - change (zlen [k0] =? 0) with false. change (zlen [k0] =? 1) with true. cbn iota.
    destruct Hin as [->|[]]. rewrite (proj1 Hh), Z.eqb_refl. cbn [negb mbind outcome_bind].
    exists c. done.
  - change (zlen [k0; k1] =? 0) with false. change (zlen [k0; k1] =? 1) with false.
    change (zlen [k0; k1] =? 2) with true. cbn iota. destruct Hh as [Hh0 Hh1].
    rewrite (proj1 Hh0), (proj1 Hh1). cbn in Ho.
    replace (negb (rid k0 =? rid k) && negb (rid k1 =? rid k)) with false
      by (symmetry; destruct Hin as [->|[->|[]]]; rewrite Z.eqb_refl; [done|apply andb_false_r]).
    cbn [mbind outcome_bind].
    destruct (finish_receive c b D [k0; k1] [] Hc Hs) as (c' & Heq & Hr'); [cbn; lia|].
    exists c'. cbn [ReorderBuffer.drain] in Heq, Hr'.
    replace (k0 =? b) with false in Heq, Hr' by (symmetry; apply Z.eqb_neq; lia).
    cbn [fst snd fmap list_fmap app] in Heq, Hr'. rewrite app_nil_r in Hr'. done.
Qed.

(** [receive] implements [arrive]. *)
Lemma receive_refines c s D k :
  rx_rel c s D -> - (two32 - wsize) <= k - ReorderBuffer.base s < two32 ->
  exists c', receive c (rid k) (non k) (seg k) =
      Ok (c', seg <$> (ReorderBuffer.arrive wsize s k).2, zlen (ReorderBuffer.buf (ReorderBuffer.arrive wsize s
        k).1)) /\
    rx_rel c' (ReorderBuffer.arrive wsize s k).1 (D ++ (ReorderBuffer.arrive wsize s k).2).
Proof.
  intros Hr Hk. pose proof Hr as [Hc Hs Ho]. destruct s as [b l]. cbn in Hc, Hs, Ho, Hk.
  unfold ReorderBuffer.arrive. cbn [ReorderBuffer.base ReorderBuffer.buf].
  destruct ((b <=? k) && (k <? b + wsize)) eqn:Ein; cbn [andb].
  2: { exists c. unfold receive. rewrite (contains_position c b D) by done. rewrite Ein.
       cbn. rewrite app_nil_r, (proj1 Hs). done. }
  reflect_bool. destruct (existsb (Z.eqb k) l) eqn:Edup; cbn [negb].
  { cbn. rewrite app_nil_r. apply existsb_exists in Edup as (x & Hin & ->%Z.eqb_eq).
    apply (receive_duplicate c b D l x Hr); [|done]. split; [|lia].
    assert (Hlt : forall l b hi, in_order b hi l -> In x l -> b <= x).
    { clear. induction l as [|y l IH]; intros b hi; cbn; [done|]. intros [? Ho] [->|Hin]; [lia|].
      specialize (IH _ _ Ho Hin). lia. }
    specialize (Hlt _ _ _ Ho Hin). lia. }
  apply existsb_false in Edup. destruct (Z.eq_dec k b) as [->|Hkb].
  { rewrite (insert_at_base b l _ Ho), Z.eqb_refl. cbn [orb].
    destruct (receive_base c _ D Hr) as (c' & Heq & Hr'). cbn in Heq, Hr'. exists c'.
    by destruct (ReorderBuffer.drain (b + 1) l). }
  destruct l as [|k0 [|k1 [|]]]; [| | |by destruct Hs as (_ & _ & _ & [])]; cbn [ReorderBuffer.insert_sorted].
  - replace (k =? b) with false by (symmetry; apply Z.eqb_neq; lia). cbn. rewrite app_nil_r.
    apply (receive_empty c b D k Hr). lia.
  - destruct (receive_one c b D k k0 Hr) as (c' & Heq & Hr'); [lia|cbn in Edup; intros ->; tauto|]. cbn in Ho, Edup.
    exists c'. destruct (Z.ltb_spec k k0), (Z.ltb_spec k0 k); try lia.
    + replace (k =? b) with false by (symmetry; apply Z.eqb_neq; lia). cbn. by rewrite app_nil_r.
    + replace (k0 =? b) with false by (symmetry; apply Z.eqb_neq; lia). cbn. by rewrite app_nil_r.
  - cbn in Edup, Ho. pose proof (receive_full c b D k k0 k1 Hr ltac:(lia) ltac:(intros ->; tauto) ltac:(intros ->;
      tauto)) as Hf.
    destruct (Z.ltb_spec k k0).
    + change (2 <? zlen [k; k0; k1]) with true. rewrite orb_true_r.
      destruct Hf as (c' & Heq & Hr'). exists c'. by destruct (ReorderBuffer.drain (k + 1) [k0; k1]).
    + assert (Hz : forall x y : Z, (2 <? zlen [k0; x; y]) = true) by done.
      destruct (Z.ltb_spec k k1); rewrite Hz, orb_true_r;
        destruct Hf as (c' & Heq & Hr'); exists c'; by destruct (ReorderBuffer.drain (k0 + 1) _).
Qed.

(** The end of an accepted [sync]: everything buffered is out, the base moves to [n]. *)
Lemma sync_finish c b D n : core c b D -> b <= n ->
  zlen (slot_data (slot_0 c)) = cap -> zlen (slot_data (slot_1 c)) = cap ->
  rx_rel (set_base (push_history_skips (set_slots c (slot_0 c) (slot_1 c) 0) (n - b)) (rid n))
    (ReorderBuffer.mk n []) D.
Proof.
  intros Hc Hn H0 H1. pose proof (core_skip _ b D (n - b) (core_slots c b D (slot_0 c) (slot_1 c) 0 Hc) ltac:(lia))
    as Hs.
  replace (b + (n - b)) with n in Hs by lia.
  destruct (push_history_skips_slots (set_slots c (slot_0 c) (slot_1 c) 0) (n - b)) as (P0 & P1 & Pl).
  split; [exact Hs| |done]. unfold slots_ok. cbn [ReorderBuffer.buf set_base slot_0 slot_1 len].
  rewrite P0, P1, Pl. done.
Qed.

(** The smallest distance [sync] accepts. *)
Lemma sync_floor c b l D : rx_rel c (ReorderBuffer.mk b l) D ->
  let floor := match last l with Some k => k - b | None => rid b end in
  (if len c =? 1 then wrapping_sub (slot_id (slot_0 c)) (Window.base_id (window c))
   else if len c =? 2 then wrapping_sub (slot_id (slot_1 c)) (Window.base_id (window c))
   else Window.base_id (window c)) = floor /\ 0 <= floor.
Proof.
  intros [Hc (Hl & _ & _ & Hh) Ho]. cbn in Hc, Hl, Hh, Ho. rewrite Hl, (co_base _ _ _ Hc).
  assert (Hrid : 0 <= rid b) by apply wrap32_range.
  destruct l as [|k0 [|k1 [|]]]; [done| | |done]; cbn in Ho |- *.
  - change (zlen [k0] =? 1) with true. cbn iota. rewrite (proj1 Hh), rid_delta by lia. lia.
  - change (zlen [k0; k1] =? 1) with false. change (zlen [k0; k1] =? 2) with true. cbn iota.
    rewrite (proj1 (proj2 Hh)), rid_delta by lia. lia.
Qed.

(** Ids tell the distance of a position that is not too far behind. *)
Lemma sync_distance b n floor : 0 <= floor -> - (two32 - wsize) < n - b < two32 ->
  (floor <? wrapping_sub (rid n) (rid b)) && (wrapping_sub (rid n) (rid b) <=? wsize) = (floor <? n - b)
    && (n - b <=? wsize).
Proof.
  intros Hf Hn. destruct (Z.le_gt_cases b n); [by rewrite rid_delta by lia|].
  replace (wrapping_sub (rid n) (rid b)) with (n - b + two32).
  - replace (floor <? n - b) with false by (symmetry; apply Z.ltb_ge; lia).
    replace (n - b + two32 <=? wsize) with false by (symmetry; apply Z.leb_gt; lia). apply andb_false_r.
  - unfold rid, wrapping_sub. rewrite wrap32_sub_l, wrap32_sub_r. unfold wrap32.
    replace (start + n - (start + b)) with (n - b + two32 + (-1) * two32) by lia.
    rewrite Z.mod_add by done. symmetry. apply Z.mod_small. lia.
Qed.

(** A buffered segment enters the histories and the base moves past it. *)
Definition take_slot (sl : SegmentRx -> Slot) (c : SegmentRx) : SegmentRx :=
  let c1 := push_history_skips c (wrapping_sub (slot_id (sl c)) (Window.base_id (window c))) in
  let c2 := push_history_ack c1 (slot_nonce (sl c1)) in
  advance_window_past c2 (slot_id (sl c2)).

Lemma take_slot_ok sl c b D k : sl = slot_0 \/ sl = slot_1 -> core c b D -> holds (sl c) k -> b <= k < b + wsize ->
  core (take_slot sl c) (k + 1) (D ++ [k]) /\
  slot_0 (take_slot sl c) = slot_0 c /\ slot_1 (take_slot sl c) = slot_1 c /\ len (take_slot sl c) = len c.
Proof.
  intros Hsl Hc (Hid & Hno & _) Hk. unfold take_slot. rewrite Hid, (co_base _ _ _ Hc), rid_delta by lia.
  destruct (push_history_skips_slots c (k - b)) as (P0 & P1 & Pl). split; [|done].
  replace (sl (push_history_skips c (k - b))) with (sl c) by (destruct Hsl as [-> | ->]; done).
  replace (sl (push_history_ack _ _)) with (sl c) by (destruct Hsl as [-> | ->]; done).
  rewrite Hno, Hid. apply core_take; [done|lia].
Qed.

(** Once everything buffered is out. *)
Lemma sync_end c b D n : core c b D -> b <= n < b + two32 ->
  zlen (slot_data (slot_0 c)) = cap -> zlen (slot_data (slot_1 c)) = cap ->
  let c' := set_slots c (slot_0 c) (slot_1 c) 0 in
  rx_rel (set_base (push_history_skips c' (wrapping_sub (rid n) (Window.base_id (window c')))) (rid n))
    (ReorderBuffer.mk n []) D.
Proof.
  intros Hc Hn H0 H1. cbv zeta. change (window (set_slots c (slot_0 c) (slot_1 c) 0)) with (window c).
  rewrite (co_base _ _ _ Hc), rid_delta by lia. apply sync_finish; [done|lia|done|done].
Qed.

Lemma sync_refines c s D n :
  rx_rel c s D -> - (two32 - wsize) < n - ReorderBuffer.base s < two32 ->
  let r := ReorderBuffer.sync wsize (rid (ReorderBuffer.base s)) s n in
  exists c', sync c (rid n) = Ok (c', seg <$> r.2) /\ rx_rel c' r.1 (D ++ r.2).
Proof.
  destruct s as [b l]. intros Hr Hn. destruct (sync_floor c b l D Hr) as [Hmin Hpos]. pose proof Hr as [Hc Hs Ho].
  cbn in Hc, Hs, Ho, Hn. unfold ReorderBuffer.sync, sync. cbn [ReorderBuffer.base ReorderBuffer.buf].
  pose proof Hs as (Hl & Hc0 & Hc1 & Hh). rewrite Hmin, (co_base _ _ _ Hc), (co_size _ _ _ Hc), sync_distance by done.
  clear Hmin. cbv zeta. set (floor := match last l with Some k => k - b | None => rid b end) in *.
  destruct ((floor <? n - b) && (n - b <=? wsize)) eqn:E; [reflect_bool|exists c; cbn; by rewrite app_nil_r].
  destruct l as [|k0 [|k1 [|]]]; [| | |done]; cbn in Ho; cbn [last] in *; rewrite Hl.
  - change (0 <? zlen []) with false. cbn [mbind outcome_bind fst snd]. rewrite app_nil_r.
    eexists. split; [reflexivity|]. apply (sync_end c b D n Hc); [lia|done|done].
  - change (0 <? zlen [k0]) with true. cbn iota. rewrite (slot_segment_holds _ k0 Hh). cbn [mbind outcome_bind].
    destruct (take_slot_ok slot_0 c b D k0 (or_introl eq_refl) Hc Hh ltac:(lia)) as (Ht & T0 & T1 & Tl).
    rewrite <- (co_base _ _ _ Hc). fold (take_slot slot_0 c). rewrite Tl, Hl.
    change (zlen [k0] =? 2) with false. cbn [mbind outcome_bind fst snd].
    eexists. split; [reflexivity|]. apply (sync_end _ _ _ n Ht); [lia|by rewrite T0|by rewrite T1].
  - change (0 <? zlen [k0; k1]) with true. cbn iota. destruct Hh as [Hh0 Hh1].
    rewrite (slot_segment_holds _ k0 Hh0). cbn [mbind outcome_bind].
    destruct (take_slot_ok slot_0 c b D k0 (or_introl eq_refl) Hc Hh0 ltac:(lia)) as (Ht & T0 & T1 & Tl).
    rewrite <- (co_base _ _ _ Hc). fold (take_slot slot_0 c). rewrite Tl, Hl.
    change (zlen [k0; k1] =? 2) with true. cbn iota. rewrite <- T1 in Hh1. rewrite (slot_segment_holds _ k1 Hh1).
    cbn [mbind outcome_bind fst snd].
    destruct (take_slot_ok slot_1 _ _ _ k1 (or_intror eq_refl) Ht Hh1 ltac:(lia)) as (Ht' & U0 & U1 & Ul).
    fold (take_slot slot_1 (take_slot slot_0 c)). cbn [mbind outcome_bind fst snd].
    rewrite <- app_assoc in Ht'. eexists. split; [reflexivity|].
    apply (sync_end _ _ _ n Ht'); [lia|by rewrite U0, T0|by rewrite U1, T1].
Qed.

Lemma new_refines : 0 <= cap -> is_u32 start -> rx_rel (new start wsize cap) (ReorderBuffer.mk 0 []) [].
Proof.
  intros Hcap Hs. split; cbn; [| |done].
  - assert (Hd : forall k, delivered_in [] k = false) by (intros k; by apply bool_decide_eq_false, not_elem_of_nil).
    split; cbn; try done.
    + unfold rid. rewrite Z.add_0_r. symmetry. by apply wrap32_small.
    + split; [done|]. intros i Hi. by rewrite Hd, Z.bits_0.
    + split; [done|]. intros i Hi. by rewrite Hd, Z.bits_0.
  - unfold slots_ok. cbn. assert (Hr : zlen (replicate (Z.to_nat cap) 0) = cap)
      by (unfold zlen; rewrite length_replicate; lia). done.
Qed.
End Refinement.

(** Only the segments known to the receiver matter. *)
Lemma rx_rel_ext start wsize cap seg seg' non non' c s D :
  (forall k, k ∈ D \/ k ∈ ReorderBuffer.buf s -> seg' k = seg k /\ non' k = non k) ->
  rx_rel start wsize cap seg non c s D -> rx_rel start wsize cap seg' non' c s D.
Proof.
  intros Heq [[Hb Hs Hbf Hrx [Hn1 Hn2]] (Hl & H0 & H1 & Hsl) Ho]. split; [split; try done|split_and!; try done|done].
  - split; [done|]. intros i Hi. rewrite Hn2 by done. unfold delivered_in.
    case_bool_decide as Hd; [|done]. cbn. f_equal. symmetry. apply Heq. by left.
  - assert (Hh : forall sl k, k ∈ ReorderBuffer.buf s -> holds start cap seg non sl k ->
      holds start cap seg' non' sl k).
    { intros sl k Hk. destruct (Heq k (or_intror Hk)) as [Es En]. unfold holds. by rewrite Es, En. }
    destruct (ReorderBuffer.buf s) as [|k0 [|k1 [|k2 l]]]; try done.
    + apply Hh; [by left|done].
    + destruct Hsl. split; (apply Hh; [|done]); [by left|right; by left].
Qed.
