(* ===== verification/SegmentChannel.v ===== *)
(** * Segments end to end

    Runs of the receiver: what it delivers ([segment_rx_delivery]), what it
    acknowledges ([segment_rx_acks]), that it absorbs reordering by up to two segments
    without loss ([reordering_absorbed]), that an honest acknowledgement always passes
    the sender's nonce check ([honest_ack_accepted]), and a defect of [sync]
    ([sync_ignored_when_empty]). *)

From Stdlib Require Import Sorted.
From S2P Require Import Prelude.
From S2P Require Import Word.
From S2P Require Import Fragment.
From S2P Require Import SegmentTx.
From S2P Require Import SegmentTxFacts.
From S2P Require Import DropDetection.
From S2P Require Import SegmentRx.
From S2P Require Import SegmentRxFacts.

Inductive srx_event : Set :=
| Arrive (k : Z)
| SyncTo (n : Z).

Definition event_position (ev : srx_event) : Z := match ev with Arrive k => k | SyncTo n => n end.

Section Run.
Context `{BuildProfile}.
Context (start wsize cap : Z) (seg : Z -> list Z) (non : Z -> bool).

(** The receiver fed with the segments at the given stream positions. *)
Fixpoint srx_run (c : SegmentRx.SegmentRx) (evs : list srx_event) :
    outcome (SegmentRx.SegmentRx * list (list Z)) :=
  match evs with
  | [] => Ok (c, [])
  | ev :: evs =>
      '(c, out) ←
        (match ev with
         | Arrive k => '(c, out, _) ← SegmentRx.receive c (wrap32 (start + k)) (non k) (seg k); Ok (c, out)
         | SyncTo n => SegmentRx.sync c (wrap32 (start + n))
         end);
      '(c, rest) ← srx_run c evs;
      Ok (c, out ++ rest)
  end.

Definition spec_event (s : ReorderBuffer.t) (ev : srx_event) : ReorderBuffer.t * list Z :=
  match ev with
  | Arrive k => ReorderBuffer.arrive wsize s k
  | SyncTo n => ReorderBuffer.sync wsize (wrap32 (start + ReorderBuffer.base s)) s n
  end.

Fixpoint spec_run (s : ReorderBuffer.t) (evs : list srx_event) : ReorderBuffer.t * list Z :=
  match evs with
  | [] => (s, [])
  | ev :: evs =>
      let '(s, out) := spec_event s ev in
      let '(s, rest) := spec_run s evs in
      (s, out ++ rest)
  end.

(** Ids are 32-bit: a position is only recognised when it is less than [2^32] ahead
    of the base and less than [2^32 - wsize] behind it. *)
Fixpoint in_range (s : ReorderBuffer.t) (evs : list srx_event) : Prop :=
  match evs with
  | [] => True
  | ev :: evs =>
      - (two32 - wsize) < event_position ev - ReorderBuffer.base s < two32 /\
      in_range (spec_event s ev).1 evs
  end.

Lemma srx_run_refines evs : 0 < wsize < two32 -> (forall k, zlen (seg k) <= cap) -> forall c s D,
  rx_rel start wsize cap seg non c s D -> in_range s evs ->
  exists c', srx_run c evs = Ok (c', seg <$> (spec_run s evs).2) /\
    rx_rel start wsize cap seg non c' (spec_run s evs).1 (D ++ (spec_run s evs).2).
Proof.
  intros Hw Hseg. induction evs as [|ev evs IH]; intros c s D Hr Hin.
  - exists c. cbn. by rewrite app_nil_r.
  - destruct Hin as [Hp Hin]. cbn [srx_run spec_run].
    assert (Hstep : exists c1, (match ev with
         | Arrive k => '(c, out, _) ← SegmentRx.receive c (wrap32 (start + k)) (non k) (seg k); Ok (c, out)
         | SyncTo n => SegmentRx.sync c (wrap32 (start + n))
         end) = Ok (c1, seg <$> (spec_event s ev).2) /\
      rx_rel start wsize cap seg non c1 (spec_event s ev).1 (D ++ (spec_event s ev).2)).
    { destruct ev as [k|n]; cbn [event_position spec_event] in *.
      - destruct (receive_refines start wsize cap Hw seg non Hseg c s D k Hr ltac:(lia)) as (c1 & Heq & Hr1).
        unfold rid in Heq. rewrite Heq. cbn [mbind outcome_bind]. by exists c1.
      - by apply sync_refines. }
    destruct Hstep as (c1 & -> & Hr1). cbn [mbind outcome_bind].
    destruct (IH c1 _ _ Hr1 Hin) as (c2 & -> & Hr2). cbn [mbind outcome_bind].
    destruct (spec_event s ev) as [s1 o1]. cbn [fst snd] in *. destruct (spec_run s1 evs) as [s2 o2].
    cbn [fst snd] in *. exists c2. by rewrite fmap_app, app_assoc.
Qed.
End Run.

(** ** What the specification delivers *)

(** [increasing lo hi l]: the list grows strictly within [lo <= _ < hi]. *)
Fixpoint increasing (lo hi : Z) (l : list Z) : Prop :=
  match l with
  | [] => lo <= hi
  | k :: r => lo <= k < hi /\ increasing (k + 1) hi r
  end.

Lemma increasing_app lo mid hi l r : increasing lo mid l -> increasing mid hi r -> increasing lo hi (l ++ r).
Proof.
  revert lo. induction l as [|k l IH]; intros lo; cbn.
  - intros Hlo. destruct r as [|k r]; cbn; [lia|]. intros [? ?]. split; [lia|done].
  - intros [Hk Hl] Hr. split; [|by apply IH].
    assert (Hm : forall l lo mid, increasing lo mid l -> lo <= mid)
      by (clear; induction l as [|y l IH]; intros lo mid; cbn; [done|]; intros [? Hi]; apply IH in Hi; lia).
    pose proof (Hm r mid hi Hr). lia.
Qed.

Lemma increasing_StronglySorted lo hi l : increasing lo hi l -> StronglySorted Z.lt l.
Proof.
  revert lo. induction l as [|k l IH]; intros lo; cbn; [constructor|]. intros [Hk Hl]. constructor; [by eapply IH|].
  clear -Hl. assert (Hg : forall l lo, increasing lo hi l -> Forall (fun x => lo <= x) l).
  { clear. induction l as [|y l IH]; intros lo; cbn; [constructor|]. intros [? Hi]. constructor; [lia|].
    eapply Forall_impl; [by apply IH|]. cbn. lia. }
  eapply Forall_impl; [by apply Hg|]. cbn. lia.
Qed.

(** The positions an accepted state knows: those buffered and those delivered. *)
Section Spec.
Context (wsize floor : Z) (Hfloor : 0 <= floor).

Definition buffer_ok (s : ReorderBuffer.t) : Prop :=
  in_order (ReorderBuffer.base s + 1) (ReorderBuffer.base s + wsize) (ReorderBuffer.buf s).

Lemma drain_increasing l : forall b hi, in_order b hi l ->
  increasing b (ReorderBuffer.base (ReorderBuffer.drain b l).1) (ReorderBuffer.drain b l).2 /\
  (forall k, In k (ReorderBuffer.drain b l).2 \/ In k (ReorderBuffer.buf (ReorderBuffer.drain b l).1) <-> In k l).
Proof.
  induction l as [|k l IH]; intros b hi Ho; cbn [ReorderBuffer.drain]; [split; [cbn; lia|cbn; tauto]|].
  destruct Ho as [Hk Ho]. destruct (Z.eqb_spec k b) as [->|Hne].
  - destruct (IH (b + 1) hi Ho) as [Hi Hin]. pose proof (drain_order l (b + 1) hi Ho) as [Hb _].
    destruct (ReorderBuffer.drain (b + 1) l) as [s o]. cbn in *. split; [split; [lia|done]|].
    intros x. rewrite <- Hin. tauto.
  - cbn. split; [lia|]. tauto.
Qed.

Lemma insert_sorted_spec k l : forall lo hi, in_order lo hi l -> lo <= k < hi -> ~ In k l ->
  in_order lo hi (ReorderBuffer.insert_sorted k l) /\
  forall x, In x (ReorderBuffer.insert_sorted k l) <-> x = k \/ In x l.
Proof.
  induction l as [|m l IH]; intros lo hi Ho Hk Hn; cbn in *.
  - split; [lia|]. intros x. split; intros [->|[]]; by left.
  - destruct Ho as [Hm Ho]. destruct (Z.ltb_spec k m).
    + cbn. split; [repeat split; lia || done|]. intros x. split; intros [->|Hx]; tauto.
    + destruct (IH (m + 1) hi Ho) as [Ho' Hin]; [assert (k <> m) by (intros ->; tauto); lia|tauto|].
      cbn. split; [split; [lia|done]|]. intros x. rewrite Hin. tauto.
Qed.

(** One event: deliveries go up from the old base to the new one, and every position
    known afterwards was known before or has just arrived. *)
Lemma arrive_spec s k : 0 < wsize -> buffer_ok s ->
  let r := ReorderBuffer.arrive wsize s k in
  buffer_ok r.1 /\ increasing (ReorderBuffer.base s) (ReorderBuffer.base r.1) r.2 /\
  (forall x, In x r.2 \/ In x (ReorderBuffer.buf r.1) -> x = k \/ In x (ReorderBuffer.buf s)).
Proof.
  destruct s as [b l]. unfold buffer_ok, ReorderBuffer.arrive. cbn [ReorderBuffer.base ReorderBuffer.buf].
  intros Hw Ho. cbv zeta. destruct ((b <=? k) && (k <? b + wsize) && negb (existsb (Z.eqb k) l)) eqn:E.
  2: { cbn. split; [done|]. split; [lia|tauto]. }
  reflect_bool. match goal with Hx : existsb _ _ = false |- _ => apply existsb_false in Hx as Hnew end.
  assert (Hlo : in_order b (b + wsize) l) by (destruct l; [done|]; cbn in Ho |- *; split; [lia|apply Ho]).
  destruct (insert_sorted_spec k l b (b + wsize) Hlo ltac:(lia) Hnew) as [Hi Hin].
  destruct (ReorderBuffer.insert_sorted k l) as [|m r]; [by destruct (proj2 (Hin k) (or_introl eq_refl))|].
  destruct Hi as [Hm Hr]. destruct ((m =? b) || (2 <? zlen (m :: r))) eqn:Em.
  - destruct (drain_increasing r (m + 1) _ Hr) as [Hinc Hdin]. pose proof (drain_order r (m + 1) _ Hr) as [Hb' Ho'].
    destruct (ReorderBuffer.drain (m + 1) r) as [s' o]. cbn in *. split; [|split; [split; [lia|done]|]].
    + eapply in_order_hi; [|exact Ho']. lia.
    + intros x Hx. apply Hin. destruct Hx as [[->|Hx]|Hx]; [by left|right|right]; apply Hdin; tauto.
  - reflect_bool. cbn. split; [split; [lia|done]|]. split; [lia|]. intros x [[]|Hx]. by apply Hin.
Qed.

Lemma in_order_increasing l lo hi n : in_order lo hi l -> lo <= n ->
  (forall k, last l = Some k -> k < n) -> increasing lo n l.
Proof.
  revert lo. induction l as [|k l IH]; intros lo Ho Hn Hl; [done|]. destruct Ho as [Hk Ho]. cbn [increasing].
  assert (Hkn : k < n).
  { destruct l as [|k1 l]; [by apply Hl|].
    assert (Hg : forall l lo hi z, in_order lo hi l -> last l = Some z -> lo <= z).
    { clear. induction l as [|a l IH]; intros lo hi z; [done|]. intros [Ha Ho] Hz. destruct l as [|a' l].
      - injection Hz as <-. lia.
      - specialize (IH (a + 1) hi z Ho Hz). lia. }
    destruct (last (k1 :: l)) as [z|] eqn:Ez; [|by apply last_None in Ez].
    specialize (Hg _ _ _ z Ho Ez). specialize (Hl z Ez). lia. }
  split; [lia|]. apply IH; [done|lia|]. intros z Hz. apply Hl. destruct l; [done|exact Hz].
Qed.

Lemma sync_spec s n f : 0 <= f -> buffer_ok s ->
  let r := ReorderBuffer.sync wsize f s n in
  buffer_ok r.1 /\ increasing (ReorderBuffer.base s) (ReorderBuffer.base r.1) r.2 /\
  (forall x, In x r.2 \/ In x (ReorderBuffer.buf r.1) -> In x (ReorderBuffer.buf s)).
Proof.
  destruct s as [b l]. unfold buffer_ok, ReorderBuffer.sync. cbn [ReorderBuffer.base ReorderBuffer.buf].
  intros Hf Ho. cbv zeta. destruct (_ && _) eqn:E.
  2: { cbn. split; [done|]. split; [lia|tauto]. }
  reflect_bool. cbn. split; [done|]. split; [|tauto].
  assert (Hbn : b <= n).
  { destruct (last l) as [z|] eqn:Ez; [|lia].
    assert (Hin : In z l) by (apply list_elem_of_In; by apply last_Some_elem_of).
    assert (Hge : forall l lo hi, in_order lo hi l -> In z l -> lo <= z).
    { clear. induction l as [|y l IH]; intros lo hi; cbn; [done|]. intros [? Ho] [->|Hin]; [lia|].
      specialize (IH _ _ Ho Hin). lia. }
    specialize (Hge _ _ _ Ho Hin). lia. }
  apply (in_order_increasing l b (b + wsize)); [|done|].
  - destruct l; [done|]. cbn in Ho |- *. split; [lia|apply Ho].
  - intros z Hz. rewrite Hz in *. lia.
Qed.
End Spec.

Lemma increasing_bounds l lo hi k : increasing lo hi l -> In k l -> lo <= k < hi.
Proof.
  revert lo. induction l as [|y l IH]; intros lo; cbn; [done|]. intros [Hy Hi] [->|Hk]; [done|].
  specialize (IH _ Hi Hk). lia.
Qed.

Lemma increasing_weaken l lo hi hi' : increasing lo hi l -> hi <= hi' -> increasing lo hi' l.
Proof. revert lo. induction l as [|y l IH]; intros lo; cbn; [lia|]. intros [Hy Hi] Hle. split; [lia|by apply IH]. Qed.

(** Positions that have arrived. *)
Definition arrived (evs : list srx_event) (k : Z) : Prop := In (Arrive k) evs.

Lemma spec_run_increasing start wsize evs : 0 < wsize -> forall s, buffer_ok wsize s ->
  buffer_ok wsize (spec_run start wsize s evs).1 /\
  increasing (ReorderBuffer.base s) (ReorderBuffer.base (spec_run start wsize s evs).1)
    (spec_run start wsize s evs).2 /\
  (forall k, In k (spec_run start wsize s evs).2 -> arrived evs k \/ In k (ReorderBuffer.buf s)).
Proof.
  intros Hw. induction evs as [|ev evs IH]; intros s Ho; cbn [spec_run]; [split; [done|split; [cbn; lia|cbn;
    tauto]]|].
  assert (Hev : buffer_ok wsize (spec_event start wsize s ev).1 /\
    increasing (ReorderBuffer.base s) (ReorderBuffer.base (spec_event start wsize s ev).1)
      (spec_event start wsize s ev).2 /\
    (forall x, In x (spec_event start wsize s ev).2 \/ In x (ReorderBuffer.buf (spec_event start wsize s ev).1) ->
       ev = Arrive x \/ In x (ReorderBuffer.buf s))).
  { destruct ev as [k|n]; cbn [spec_event].
    - destruct (arrive_spec wsize s k Hw Ho) as (H1 & H2 & H3). split; [done|]. split; [done|].
      intros x Hx. destruct (H3 x Hx) as [->|?]; tauto.
    - destruct (sync_spec wsize s n (wrap32 (start + ReorderBuffer.base s))) as (H1 & H2 & H3);
        [apply wrap32_range|done|]. split; [done|]. split; [done|]. intros x Hx. right. by apply H3. }
  destruct (spec_event start wsize s ev) as [s1 o1]. cbn [fst snd] in Hev. destruct Hev as (Ho1 & Hi1 & Hx1).
  destruct (IH s1 Ho1) as (Ho2 & Hi2 & Hx2). destruct (spec_run start wsize s1 evs) as [s2 o2]. cbn [fst snd] in *.
  split; [done|]. split; [by eapply increasing_app|]. intros k Hk. apply in_app_or in Hk as [Hk|Hk].
  - destruct (Hx1 k (or_introl Hk)) as [->|?]; [left; by left|by right].
  - destruct (Hx2 k Hk) as [?|Hb]; [left; by right|]. destruct (Hx1 k (or_intror Hb)) as [->|?]; [left;
      by left|by right].
Qed.

(** ** Theorems about the receiver *)

Definition start_state : ReorderBuffer.t := ReorderBuffer.mk 0 [].

(** C24: whatever segments arrive in whatever order, with copies and synchronisations in
    between, the receiver does not fault and hands over whole segments that did arrive,
    each at most once and in increasing stream order; its window base is past all of
    them. *)
Theorem segment_rx_delivery `{BuildProfile} start wsize cap seg non evs :
  0 < wsize < two32 -> 0 <= cap -> is_u32 start -> (forall k, zlen (seg k) <= cap) ->
  in_range start wsize start_state evs ->
  exists c ks n, srx_run start seg non (SegmentRx.new start wsize cap) evs = Ok (c, seg <$> ks) /\
    StronglySorted Z.lt ks /\ Forall (fun k => arrived evs k /\ 0 <= k < n) ks /\
    SegmentRx.next_expected_id c = wrap32 (start + n).
Proof.
  intros Hw Hcap Hs Hseg Hin. pose proof (new_refines start wsize cap seg non Hcap Hs) as Hr0.
  destruct (srx_run_refines start wsize cap seg non evs Hw Hseg _ _ _ Hr0 Hin) as (c & Hrun & Hr).
  destruct (spec_run_increasing start wsize evs (proj1 Hw) start_state I) as (_ & Hinc & Harr).
  exists c, (spec_run start wsize start_state evs).2, (ReorderBuffer.base (spec_run start wsize start_state evs).1).
  split; [exact Hrun|]. split; [by eapply increasing_StronglySorted|]. split.
  - apply Forall_forall. intros k Hk. apply list_elem_of_In in Hk. split; [by destruct (Harr k Hk) as [|[]]|].
    exact (increasing_bounds _ _ _ _ Hinc Hk).
  - unfold SegmentRx.next_expected_id. eapply co_base, rr_core, Hr.
Qed.

(** Positions 0 to 5 with the ids wrapping after two; 1 is lost, 3 comes twice and 2
    comes last, after the buffer has given it up. *)
Definition srx_example : list srx_event :=
  [Arrive 0; Arrive 3; Arrive 4; Arrive 3; Arrive 5; Arrive 2; SyncTo 9].

Lemma srx_example_in_range : in_range 4294967294 64 start_state srx_example.
Proof. vm_compute. repeat split; discriminate. Qed.

Lemma segment_rx_delivery_witness :
  in_range 4294967294 64 start_state srx_example /\
  exists c ks n, srx_run (H := true) 4294967294 (fun k => [k; k]) Z.odd (SegmentRx.new 4294967294 64 2) srx_example
      = Ok (c, (fun k => [k; k]) <$> ks) /\
    StronglySorted Z.lt ks /\ Forall (fun k => arrived srx_example k /\ 0 <= k < n) ks /\
    SegmentRx.next_expected_id c = wrap32 (4294967294 + n).
Proof.
  split; [exact srx_example_in_range|].
  apply (segment_rx_delivery (H := true) 4294967294 64 2 (fun k => [k; k]) Z.odd srx_example);
    [unfold two32; lia|lia|unfold is_u32, two32; lia|intros k; unfold zlen; cbn; lia|exact srx_example_in_range].
Defined.

(** The acknowledgement tells the truth: bit [i] of the reported history is set
    exactly when the segment [i + 1] before the reported base was handed over. *)
Theorem segment_rx_acks `{BuildProfile} start wsize cap seg non evs :
  0 < wsize < two32 -> 0 <= cap -> is_u32 start -> (forall k, zlen (seg k) <= cap) ->
  in_range start wsize start_state evs ->
  exists c ks n, srx_run start seg non (SegmentRx.new start wsize cap) evs = Ok (c, seg <$> ks) /\
    SegmentRx.next_expected_id c = wrap32 (start + n) /\
    0 <= (SegmentRx.next_ack_info c).1 < 32 /\
    forall i, 0 <= i < 5 -> (Z.testbit (SegmentRx.next_ack_info c).1 i = true <-> In (n - 1 - i) ks).
Proof.
  intros Hw Hcap Hs Hseg Hin. pose proof (new_refines start wsize cap seg non Hcap Hs) as Hr0.
  destruct (srx_run_refines start wsize cap seg non evs Hw Hseg _ _ _ Hr0 Hin) as (c & Hrun & Hr).
  set (n := ReorderBuffer.base (spec_run start wsize start_state evs).1).
  set (ks := (spec_run start wsize start_state evs).2) in *.
  exists c, ks, n. split; [exact Hrun|].
  pose proof Hr as [Hc _ _]. split; [eapply co_base, Hc|].
  destruct Hc as [_ _ _ [Hu Hbits] _]. cbn [app] in Hbits. fold n ks in Hbits.
  unfold SegmentRx.next_ack_info, SegmentRx.ACK_MASK. cbn [fst].
  assert (Hland : Z.land (SegmentRx.rx_history c) 31 = SegmentRx.rx_history c mod 2 ^ 5) by (apply (land_mask _ 5);
    lia).
  rewrite Hland. pose proof (Z.mod_pos_bound (SegmentRx.rx_history c) (2 ^ 5) ltac:(lia)) as Hb.
  rewrite Z.mod_small by (unfold two8; lia). split; [lia|].
  intros i Hi. rewrite testbit_mod_pow2, Hbits by lia.
  replace (i <? 5) with true by (symmetry; apply Z.ltb_lt; lia). cbn [andb].
  unfold delivered_in. rewrite bool_decide_eq_true. apply list_elem_of_In.
Qed.

Lemma segment_rx_acks_witness :
  in_range 4294967294 64 start_state srx_example /\
  exists c ks n, srx_run (H := true) 4294967294 (fun k => [k; k]) Z.odd (SegmentRx.new 4294967294 64 2) srx_example
      = Ok (c, (fun k => [k; k]) <$> ks) /\
    SegmentRx.next_expected_id c = wrap32 (4294967294 + n) /\
    0 <= (SegmentRx.next_ack_info c).1 < 32 /\
    forall i, 0 <= i < 5 -> (Z.testbit (SegmentRx.next_ack_info c).1 i = true <-> In (n - 1 - i) ks).
Proof.
  split; [exact srx_example_in_range|].
  apply (segment_rx_acks (H := true) 4294967294 64 2 (fun k => [k; k]) Z.odd srx_example);
    [unfold two32; lia|lia|unfold is_u32, two32; lia|intros k; unfold zlen; cbn; lia|exact srx_example_in_range].
Defined.

(** ** The nonce check end to end *)

Lemma compute_checksum_parity rx nonces :
  SegmentRx.compute_checksum rx nonces = parity 8 (Z.land rx nonces).
Proof.
  unfold SegmentRx.compute_checksum. rewrite low_bit_set.
  assert (H1 : forall x, Z.testbit x 0 = parity 1 x) by (intros x; rewrite parity_S; by rewrite xorb_false_r).
  by rewrite H1, (parity_fold 1 1), (parity_fold 2 2), (parity_fold 4 4) by done.
Qed.

Lemma parity_ext n x y : (forall i, 0 <= i < Z.of_nat n -> Z.testbit x i = Z.testbit y i) -> parity n x = parity n y.
Proof. intros Hxy. unfold parity. by rewrite (count_ones_from_ext n x y Hxy). Qed.

Lemma parity_low n m x : (m <= n)%nat -> (forall i, Z.of_nat m <= i < Z.of_nat n -> Z.testbit x i = false) ->
  parity n x = parity m x.
Proof. intros Hm Hz. unfold parity. by rewrite (count_ones_from_zeros n m x Hm Hz). Qed.

(** C27: an honest acknowledgement passes the nonce check: when the sender's window base
    is the base the receiver reports, and the segments carried the sender's nonces, the
    checksum the receiver computes is the one the sender expects. *)
Theorem honest_ack_accepted `{BuildProfile} start e cap seg non ops evs :
  6 <= e <= 31 -> 0 <= cap -> is_u32 start -> (forall k, zlen (seg k) <= cap) ->
  Forall stx_op_valid ops -> in_range start (2 ^ e) start_state evs ->
  let '(log, b) := stx_spec start e [] 0 ops in
  (forall k x, log !! Z.to_nat k = Some x -> 0 <= k -> x.1 = non k) ->
  exists s c out n, (s ← SegmentTx.new start (2 ^ e); stx_run s ops) = Ok s /\
    srx_run start seg non (SegmentRx.new start (2 ^ e) cap) evs = Ok (c, out) /\
    SegmentRx.next_expected_id c = wrap32 (start + n) /\
    (n = b -> let '(history, checksum) := SegmentRx.next_ack_info c in
       SegmentTx.expected_checksum (SegmentTx.nonce_history s) history = checksum).
Proof.
  intros He Hcap Hs Hseg Hv Hin. pose proof (window_size_split e He) as (_ & _ & _ & Hmax & Hmin).
  assert (Hw : 0 < 2 ^ e < two32) by (unfold window_size, two32 in *; lia).
  destruct (new_inv start e He Hs) as (s0 & Hn & Hinv0).
  destruct (stx_run_inv start e ops He s0 [] 0 Hv Hinv0) as (s & Hrun & Hinv).
  pose proof (new_refines start (2 ^ e) cap seg non Hcap Hs) as Hr0.
  destruct (srx_run_refines start (2 ^ e) cap seg non evs Hw Hseg _ _ _ Hr0 Hin) as (c & Hrx & Hr).
  destruct (stx_spec start e [] 0 ops) as [log b]. cbn [fst snd] in Hinv. intros Hnon.
  exists s, c. do 2 eexists. change (2 ^ e) with (window_size e) at 1. rewrite Hn. cbn [mbind outcome_bind].
  split; [exact Hrun|]. split; [exact Hrx|].
  pose proof Hr as [Hc _ _]. split; [eapply co_base, Hc|]. intros Hb.
  destruct Hc as [_ _ _ [Hu Hbits] [Hun Hnbits]].
  rewrite Hb in Hbits, Hnbits. cbn [app] in Hbits, Hnbits. unfold SegmentRx.next_ack_info.
  rewrite expected_checksum_eq, compute_checksum_parity. unfold SegmentRx.ACK_MASK.
  assert (Hland : Z.land (SegmentRx.rx_history c) 31 = SegmentRx.rx_history c mod 2 ^ 5) by (apply (land_mask _ 5);
    lia).
  rewrite Hland. pose proof (Z.mod_pos_bound (SegmentRx.rx_history c) (2 ^ 5) ltac:(lia)) as Hbd.
  rewrite (Z.mod_small (_ mod 2 ^ 5)) by (unfold two8; lia).
  set (rx := SegmentRx.rx_history c mod 2 ^ 5) in *.
  assert (Hrx5 : forall i, 0 <= i -> Z.testbit rx i = (i <? 5) && Z.testbit (SegmentRx.rx_history c) i)
    by (intros; unfold rx; apply testbit_mod_pow2; lia).
  assert (Hz : forall x i, 5 <= i -> Z.testbit (Z.land x rx) i = false).
  { intros x i Hi. rewrite Z.land_spec, Hrx5 by lia.
    replace (i <? 5) with false by (symmetry; apply Z.ltb_ge; lia). apply andb_false_r. }
  rewrite (parity_low 32 5), (Z.land_comm rx), (parity_low 8 5); try lia;
    [|intros i Hi; apply Hz; lia|intros i Hi; apply Hz; lia].
  apply parity_ext. intros i Hi. rewrite !Z.land_spec, Hrx5 by lia.
  replace (i <? 5) with true by (symmetry; apply Z.ltb_lt; lia). cbn [andb].
  change two8 with (2 ^ 8). rewrite testbit_mod_pow2 by lia.
  replace (i <? 8) with true by (symmetry; apply Z.ltb_lt; lia). cbn [andb].
  rewrite Hbits, Hnbits, (sv_nbits _ _ _ _ _ Hinv) by lia.
  destruct (delivered_in _ (b - 1 - i)) eqn:Ed; [|by rewrite !andb_false_r]. rewrite !andb_true_r. cbn [andb].
  unfold delivered_in in Ed. apply bool_decide_eq_true, list_elem_of_In in Ed.
  destruct (spec_run_increasing start (2 ^ e) evs (proj1 Hw) start_state I) as (_ & Hinc & _).
  apply (increasing_bounds _ _ _ _ Hinc) in Ed. pose proof (sv_base_range _ _ _ _ _ Hinv).
  destruct (lookup_lt_is_Some_2 log (Z.to_nat (b - 1 - i))) as [x Hx]; [unfold zlen in *; cbn in Ed; lia|].
  cbn in Ed. rewrite Hx, (Hnon (b - 1 - i) x Hx) by lia.
  by replace (i <? b) with true by (symmetry; apply Z.ltb_lt; lia).
Qed.

(** Five segments sent, the second lost: what the receiver then reports is accepted
    when the sender has taken over the reported base. *)
Definition honest_ops : list stx_op :=
  [TxSend true 10; TxSend false 10; TxSend true 10; TxSend true 10; TxSend false 10; TxAck 10 7 true].
Definition honest_non (k : Z) : bool := negb (k =? 1) && negb (k =? 4).
Definition honest_evs : list srx_event := [Arrive 0; Arrive 2; Arrive 3; Arrive 4].

Lemma honest_ack_accepted_witness :
  exists s c out n, (s ← SegmentTx.new 5 (2 ^ 6); stx_run (H := true) s honest_ops) = Ok s /\
    srx_run (H := true) 5 (fun k => [k]) honest_non (SegmentRx.new 5 (2 ^ 6) 2) honest_evs = Ok (c, out) /\
    SegmentRx.next_expected_id c = wrap32 (5 + n) /\
    (n = 5 -> let '(history, checksum) := SegmentRx.next_ack_info c in
       SegmentTx.expected_checksum (SegmentTx.nonce_history s) history = checksum).
Proof.
  assert (Hv : Forall stx_op_valid honest_ops).
  { unfold honest_ops, stx_op_valid, is_u32, two32. rewrite !Forall_cons. repeat split; try lia; constructor. }
  assert (Hin : in_range 5 (2 ^ 6) start_state honest_evs) by (vm_compute; repeat split; discriminate).
  pose proof (honest_ack_accepted (H := true) 5 6 2 (fun k => [k]) honest_non honest_ops honest_evs) as Ht.
  apply Ht; [lia|lia|unfold is_u32, two32; lia|intros k; unfold zlen; cbn; lia|exact Hv|exact Hin|].
  intros k x Hk Hk0. assert (Hlt : (Z.to_nat k < 5)%nat) by (apply lookup_lt_Some in Hk; exact Hk).
  assert (Hc : k = 0 \/ k = 1 \/ k = 2 \/ k = 3 \/ k = 4) by lia.
  destruct Hc as [->|[->|[->|[->| ->]]]]; injection Hk as <-; reflexivity.
Defined.

(** ** Reordering *)

Lemma seqZ_cons_lt m n : 0 < n -> seqZ m n = m :: seqZ (m + 1) (n - 1).
Proof. intros Hn. rewrite seqZ_cons by lia. by replace (Z.succ m) with (m + 1) by lia. Qed.

Lemma drain_seq l : forall b, (ReorderBuffer.drain b l).2 =
  seqZ b (ReorderBuffer.base (ReorderBuffer.drain b l).1 - b) /\ b <= ReorderBuffer.base (ReorderBuffer.drain b l).1.
Proof.
  induction l as [|k l IH]; intros b; cbn [ReorderBuffer.drain]; [by rewrite Z.sub_diag|].
  destruct (Z.eqb_spec k b) as [->|]; [|by cbn; rewrite Z.sub_diag]. destruct (IH (b + 1)) as [Ho Hb].
  destruct (ReorderBuffer.drain (b + 1) l) as [s o]. cbn in *. rewrite Ho. split; [|lia].
  rewrite (seqZ_cons_lt b) by lia. do 2 f_equal. lia.
Qed.

Lemma in_order_NoDup l lo hi : in_order lo hi l -> NoDup l /\ (forall x, x ∈ l -> lo <= x).
Proof.
  revert lo. induction l as [|k l IH]; intros lo; cbn.
  - intros _. split; [constructor|]. intros x Hx. by apply not_elem_of_nil in Hx.
  - intros [Hk Ho]. destruct (IH _ Ho) as [Hnd Hge]. split.
    + constructor; [|done]. intros Hin. specialize (Hge k Hin). lia.
    + intros x [->|Hx]%elem_of_cons; [lia|]. specialize (Hge x Hx). lia.
Qed.

Section Reordering.
Context (wsize n : Z) (Hn : 0 <= n <= wsize) (Hw : 0 < wsize).
Context (l : list Z) (Hperm : l ≡ₚ seqZ 0 n).

(** At most two later segments overtake each segment. *)
Context (Hlate : forall pre k suf, l = pre ++ k :: suf -> (length (filter (fun j : Z => (k < j)%Z) pre) <= 2)%nat).

Record absorbed (pre : list Z) (s : ReorderBuffer.t) : Prop := {
  ab_order : buffer_ok wsize s;
  ab_base : 0 <= ReorderBuffer.base s;
  ab_known : forall x, x ∈ pre <-> 0 <= x < ReorderBuffer.base s \/ x ∈ ReorderBuffer.buf s
}.

Lemma elem_of_arrivals x : x ∈ l <-> 0 <= x < n.
Proof. rewrite Hperm, elem_of_seqZ. lia. Qed.

Lemma arrivals_NoDup : NoDup l.
Proof. rewrite Hperm. apply NoDup_seqZ. Qed.

(** Three segments beyond a missing one would be one too many. *)
Lemma not_three_ahead pre suf b l3 : l = pre ++ suf -> b ∉ pre -> 0 <= b < n -> NoDup l3 ->
  (forall x, x ∈ l3 -> x ∈ pre /\ b < x) -> (length l3 <= 2)%nat.
Proof.
  intros Hl Hb Hbn Hnd Hin. assert (Hbs : b ∈ suf).
  { apply elem_of_arrivals in Hbn. rewrite Hl, elem_of_app in Hbn. tauto. }
  apply list_elem_of_split in Hbs as (s1 & s2 & ->). specialize (Hlate (pre ++ s1) b s2).
  etransitivity; [|apply Hlate; by rewrite <- app_assoc].
  apply submseteq_length, NoDup_submseteq; [done|]. intros x Hx. destruct (Hin x Hx) as [Hxp Hlt].
  apply list_elem_of_filter. split; [done|]. apply elem_of_app. by left.
Qed.

Lemma absorbed_step pre k suf s : l = pre ++ k :: suf -> absorbed pre s ->
  let r := ReorderBuffer.arrive wsize s k in
  absorbed (pre ++ [k]) r.1 /\ r.2 = seqZ (ReorderBuffer.base s) (ReorderBuffer.base r.1 - ReorderBuffer.base s).
Proof.
  destruct s as [b buf]. intros Hl [Ho Hb Hknown]. unfold buffer_ok in Ho. cbn in Ho, Hb, Hknown.
  assert (Hkl : 0 <= k < n) by (apply elem_of_arrivals; rewrite Hl, elem_of_app, elem_of_cons; tauto).
  assert (Hknew : k ∉ pre).
  { pose proof arrivals_NoDup as Hnd. rewrite Hl in Hnd. apply NoDup_app in Hnd as (_ & Hd & _).
    intros Hk. apply (Hd k Hk). apply elem_of_cons. by left. }
  assert (Hkb : b <= k /\ k ∉ buf) by (rewrite Hknown in Hknew; split; [lia|tauto]).
  assert (Hbn : b ∉ pre).
  { rewrite Hknown. intros [?|Hbb]; [lia|]. apply (in_order_NoDup _ _ _ Ho) in Hbb. lia. }
  unfold ReorderBuffer.arrive. cbn [ReorderBuffer.base ReorderBuffer.buf]. cbv zeta.
  replace (_ && _ && _) with true.
  2: { symmetry. rewrite !andb_true_iff. split; [split; [apply Z.leb_le|apply Z.ltb_lt]; lia|].
       apply negb_true_iff, existsb_false. rewrite <- list_elem_of_In. tauto. }
  assert (Hlo : in_order b (b + wsize) buf) by (destruct buf; [done|]; cbn in Ho |- *; split; [lia|apply Ho]).
  destruct (insert_sorted_spec k buf b (b + wsize) Hlo) as [Hi Hin]; [lia|rewrite <- list_elem_of_In; tauto|].
  destruct (ReorderBuffer.insert_sorted k buf) as [|m r] eqn:Eins; [by destruct (proj2 (Hin k) (or_introl eq_refl))|].
  assert (Hmem : forall x, x ∈ pre ++ [k] <-> 0 <= x < b \/ x ∈ m :: r).
  { intros x. rewrite elem_of_app, list_elem_of_singleton, Hknown, (list_elem_of_In (m :: r)), Hin,
      <- list_elem_of_In. tauto. }
  destruct Hi as [Hm Hr]. destruct (Z.eqb_spec m b) as [->|Hmb]; cbn [orb].
  - destruct (drain_seq r (b + 1)) as [Hout Hge]. destruct (drain_increasing r (b + 1) _ Hr) as [Hinc Hdin].
    pose proof (drain_order r (b + 1) _ Hr) as [_ Ho'].
    destruct (ReorderBuffer.drain (b + 1) r) as [s' o]. cbn in *. split; [split; [|lia|]|].
    + eapply in_order_hi; [|exact Ho']. lia.
    + intros x. rewrite Hmem, elem_of_cons, !list_elem_of_In, <- Hdin, Hout, <- (list_elem_of_In (seqZ _ _)),
        elem_of_seqZ.
      destruct (Z.lt_ge_cases x (ReorderBuffer.base s')); intuition lia.
    + rewrite Hout, (seqZ_cons_lt b) by lia. do 2 f_equal. lia.
  - assert (Hthree : (length (m :: r) <= 2)%nat).
    { apply (not_three_ahead (pre ++ [k]) suf b).
      - by rewrite <- app_assoc.
      - rewrite elem_of_app, list_elem_of_singleton. intros [?|Hbk]; [done|]. subst k.
        apply Hmb. pose proof (in_order_NoDup (m :: r) b (b + wsize) (conj Hm Hr)) as [_ Hge].
        assert (Hbm : b ∈ m :: r) by (apply list_elem_of_In, Hin; by left).
        apply elem_of_cons in Hbm as [->|Hbr]; [done|]. apply (in_order_NoDup _ _ _ Hr) in Hbr. lia.
      - assert (Hml : m ∈ l).
        { rewrite Hl. replace (pre ++ k :: suf) with ((pre ++ [k]) ++ suf) by (by rewrite <- app_assoc).
          apply elem_of_app. left. apply Hmem. right. apply elem_of_cons. by left. }
        apply elem_of_arrivals in Hml. lia.
      - apply (in_order_NoDup (m :: r) b (b + wsize)). by split.
      - intros x Hx. split; [apply Hmem; by right|].
        apply elem_of_cons in Hx as [->|Hx]; [lia|]. apply (in_order_NoDup _ _ _ Hr) in Hx. lia. }
    replace (2 <? zlen (m :: r)) with false by (symmetry; apply Z.ltb_ge; unfold zlen; lia).
    cbn [fst snd ReorderBuffer.base]. rewrite Z.sub_diag. split; [|done]. split; [|done|exact Hmem].
    unfold buffer_ok. cbn. split; [lia|done].
Qed.

Lemma absorbed_run start suf : forall pre s, l = pre ++ suf -> absorbed pre s ->
  let r := spec_run start wsize s (Arrive <$> suf) in
  absorbed l r.1 /\ r.2 = seqZ (ReorderBuffer.base s) (ReorderBuffer.base r.1 - ReorderBuffer.base s) /\
  ReorderBuffer.base s <= ReorderBuffer.base r.1.
Proof.
  induction suf as [|k suf IH]; intros pre s Hl Hab; cbn.
  - rewrite app_nil_r in Hl. subst pre. rewrite Z.sub_diag. split; [done|]. split; [done|lia].
  - destruct (absorbed_step pre k suf s Hl Hab) as [Hab1 Hout1].
    assert (Hb1 : ReorderBuffer.base s <= ReorderBuffer.base (ReorderBuffer.arrive wsize s k).1).
    { destruct (arrive_spec wsize s k Hw (ab_order _ _ Hab)) as (_ & Hinc & _).
      clear -Hinc. revert Hinc. generalize (ReorderBuffer.base s).
      induction (ReorderBuffer.arrive wsize s k).2 as [|y o IHo]; intros z; cbn; [done|].
      intros [? Hi]. apply IHo in Hi. lia. }
    destruct (ReorderBuffer.arrive wsize s k) as [s1 o1]. cbn [fst snd] in *.
    destruct (IH (pre ++ [k]) s1) as (Hab2 & Hout2 & Hb2); [by rewrite <- app_assoc|done|].
    destruct (spec_run start wsize s1 (Arrive <$> suf)) as [s2 o2]. cbn [fst snd] in *.
    split; [done|]. split; [|lia]. rewrite Hout1, Hout2.
    replace (ReorderBuffer.base s2 - ReorderBuffer.base s) with
      ((ReorderBuffer.base s1 - ReorderBuffer.base s) + (ReorderBuffer.base s2 - ReorderBuffer.base s1)) by lia.
    rewrite seqZ_app by lia. do 2 f_equal. lia.
Qed.

Lemma absorbed_base pre suf s : l = pre ++ suf -> absorbed pre s -> ReorderBuffer.base s <= n.
Proof.
  intros Hl [Ho Hb Hk]. destruct (Z.le_gt_cases (ReorderBuffer.base s) n) as [|Hgt]; [done|].
  assert (Hin : n ∈ l) by (rewrite Hl; apply elem_of_app; left; apply Hk; left; lia).
  apply elem_of_arrivals in Hin. lia.
Qed.

(** Once everything has arrived the base is past everything. *)
Lemma absorbed_all s : absorbed l s -> ReorderBuffer.base s = n.
Proof.
  intros Hab. pose proof (absorbed_base l [] s ltac:(by rewrite app_nil_r) Hab) as Hle.
  destruct Hab as [Ho Hb Hk]. destruct (Z.lt_ge_cases (ReorderBuffer.base s) n); [|lia].
  assert (Hin : ReorderBuffer.base s ∈ l) by (apply elem_of_arrivals; lia).
  apply Hk in Hin as [?|Hin]; [lia|]. apply (in_order_NoDup _ _ _ Ho) in Hin. lia.
Qed.

Lemma absorbed_in_range : n < two32 - wsize -> forall start suf pre s, l = pre ++ suf -> absorbed pre s ->
  in_range start wsize s (Arrive <$> suf).
Proof.
  intros Hsmall start. induction suf as [|k suf IH]; intros pre s Hl Hab; cbn; [done|].
  pose proof (absorbed_base pre (k :: suf) s Hl Hab). pose proof (ab_base _ _ Hab).
  assert (Hk : 0 <= k < n) by (apply elem_of_arrivals; rewrite Hl, elem_of_app, elem_of_cons; tauto).
  split; [lia|]. apply (IH (pre ++ [k])); [by rewrite <- app_assoc|]. by apply (absorbed_step pre k suf).
Qed.
End Reordering.

(** Reordering by up to two segments costs nothing: if every segment 0 to n - 1
    arrives once and is overtaken by at most two later ones, all of them are handed
    over, in order, and the window base ends past the last. *)
Theorem reordering_absorbed `{BuildProfile} start wsize cap seg non n l :
  0 < wsize < two32 / 2 -> 0 <= n <= wsize -> 0 <= cap -> is_u32 start -> (forall k, zlen (seg k) <= cap) ->
  l ≡ₚ seqZ 0 n ->
  (forall pre k suf, l = pre ++ k :: suf -> (length (filter (fun j : Z => (k < j)%Z) pre) <= 2)%nat) ->
  exists c, srx_run start seg non (SegmentRx.new start wsize cap) (Arrive <$> l) = Ok (c, seg <$> seqZ 0 n) /\
    SegmentRx.next_expected_id c = wrap32 (start + n).
Proof.
  intros Hw Hn Hcap Hs Hseg Hperm Hlate. change (two32 / 2) with 2147483648 in Hw.
  assert (Hw' : 0 < wsize < two32) by (unfold two32; lia).
  assert (Hab0 : absorbed wsize [] start_state).
  { split; cbn; [done|lia|]. intros x. split; [intros Hx; by apply not_elem_of_nil in Hx|].
    intros [?|Hx]; [lia|by apply not_elem_of_nil in Hx]. }
  pose proof (absorbed_in_range wsize n Hn (proj1 Hw) l Hperm Hlate ltac:(unfold two32;
    lia) start l [] _ eq_refl Hab0) as Hin.
  destruct (absorbed_run wsize n Hn (proj1 Hw) l Hperm Hlate start l [] _ eq_refl Hab0) as (Hab & Hout & Hb).
  pose proof (new_refines start wsize cap seg non Hcap Hs) as Hr0.
  destruct (srx_run_refines start wsize cap seg non _ Hw' Hseg _ _ _ Hr0 Hin) as (c & Hrun & Hr).
  assert (Hbase : ReorderBuffer.base (spec_run start wsize start_state (Arrive <$> l)).1 = n).
  { apply (absorbed_all wsize n Hn l Hperm _ Hab). }
  change (ReorderBuffer.mk 0 []) with start_state in Hrun, Hr. rewrite Hout, Hbase in Hrun.
  cbn [ReorderBuffer.base start_state] in Hrun. rewrite Z.sub_0_r in Hrun.
  exists c. split; [exact Hrun|]. destruct Hr as [Hc _ _]. rewrite <- Hbase. eapply co_base, Hc.
Qed.

(** Two segments overtake the first one, and the fourth overtakes the third. *)
Lemma reordering_absorbed_witness :
  [1; 2; 0; 4; 3] ≡ₚ seqZ 0 5 /\
  exists c, srx_run (H := true) 4294967295 (fun k => [k]) Z.odd (SegmentRx.new 4294967295 64 2)
      (Arrive <$> [1; 2; 0; 4; 3]) = Ok (c, (fun k => [k]) <$> seqZ 0 5) /\
    SegmentRx.next_expected_id c = wrap32 (4294967295 + 5).
Proof.
  assert (Hp : [1; 2; 0; 4; 3] ≡ₚ seqZ 0 5) by (apply (bool_decide_unpack _); vm_compute; exact I).
  split; [exact Hp|].
  apply (reordering_absorbed (H := true) 4294967295 64 2 (fun k => [k]) Z.odd 5 [1; 2; 0; 4; 3]);
    [vm_compute; split; reflexivity|lia|lia|unfold is_u32, two32; lia|intros k; unfold zlen; cbn; lia|exact Hp|].
  intros pre k suf Hl.
  destruct pre as [|? [|? [|? [|? [|? pre]]]]]; cbn in Hl; simplify_eq; try (vm_compute; lia).
  by destruct pre.
Defined.

(** [sync] is ignored whenever nothing is buffered and the window base has reached
    the window size, because it compares a distance with the base id itself: no id the
    sender can name moves the receiver, so after the loss of a full window the
    connection cannot resume. *)
Theorem sync_ignored_when_empty (c : SegmentRx.SegmentRx) (id : Z) :
  SegmentRx.len c = 0 -> Window.size (SegmentRx.window c) <= Window.base_id (SegmentRx.window c) ->
  SegmentRx.sync c id = Ok (c, []).
Proof.
  intros Hl Hb. unfold SegmentRx.sync. rewrite Hl. change (0 =? 1) with false. change (0 =? 2) with false. cbn iota.
  destruct (Z.leb_spec (wrapping_sub id (Window.base_id (SegmentRx.window c))) (Window.size (SegmentRx.window c)));
    [|by rewrite andb_false_r].
  by replace (_ <? _) with false by (symmetry; apply Z.ltb_ge; lia).
Qed.

(** A receiver with window size 64 that has received ids 0 to 63 in order. *)
Definition stuck_rx : SegmentRx.SegmentRx :=
  match srx_run (H := true) 0 (fun k => [k]) Z.odd (SegmentRx.new 0 64 2) (Arrive <$> seqZ 0 64) with
  | Ok (c, _) => c
  | Fault _ => SegmentRx.new 0 64 2
  end.

Lemma sync_ignored_when_empty_witness :
  SegmentRx.len stuck_rx = 0 /\ Window.base_id (SegmentRx.window stuck_rx) = 64 /\
  SegmentRx.sync stuck_rx 128 = Ok (stuck_rx, []).
Proof.
  assert (Hb : Window.base_id (SegmentRx.window stuck_rx) = 64) by (vm_compute; reflexivity).
  split; [vm_compute; reflexivity|]. split; [exact Hb|].
  apply sync_ignored_when_empty; [vm_compute; reflexivity|].
  rewrite Hb. vm_compute. discriminate.
Defined.
