(* ===== verification/SegmentRxSafety.v ===== *)
(** * Segment reception under arbitrary input

    The refinement of [SegmentRxFacts] concerns the segments of one honest sender.  Here
    the segments are whatever arrives: any id, nonce and bytes up to the slot size.  The
    buffer keeps its shape, never faults, and hands over only bytes it was given. *)

From S2P Require Import Prelude Word Fragment SegmentTx SegmentTxFacts SegmentRx.

Import SegmentRx.

Section Safety.
Context `{BuildProfile} (cap : Z).

(** Bytes a segment may consist of. *)
Definition segment_ok (s : list Z) : Prop := Forall is_u8 s /\ zlen s <= cap.

Record slot_wf (s : Slot) : Prop := {
  sl_cap : zlen (slot_data s) = cap;
  sl_len : 0 <= slot_len s <= cap;
  sl_bytes : Forall is_u8 (slot_data s);
}.

Record rx_wf (c : SegmentRx) : Prop := {
  rw_base : is_u32 (Window.base_id (window c));
  rw_slot0 : slot_wf (slot_0 c);
  rw_slot1 : slot_wf (slot_1 c);
  rw_len : 0 <= len c <= 2;
  rw_rx : is_u32 (rx_history c);
  rw_nonce : is_u32 (nonce_history c);
}.

Lemma new_wf base size : 0 <= cap -> is_u32 base -> rx_wf (new base size cap).
Proof.
  intros Hc Hb. assert (slot_wf (empty_slot cap)).
  { split; cbn; [unfold zlen; rewrite length_replicate; lia|lia|].
    apply Forall_replicate. unfold is_u8, two8. lia. }
  split; cbn; try done; lia.
Qed.

Lemma save_ok s id nonce data : slot_wf s -> segment_ok data ->
  exists s', save_segment s id nonce data = Ok s' /\ slot_wf s'.
Proof.
  intros [Hc Hl Hb] [Hd Hz]. unfold save_segment. rewrite Hc.
  replace (zlen data <=? cap) with true by (symmetry; by apply Z.leb_le).
  eexists. split; [done|]. pose proof (zlen_nonneg data). split; cbn; [|lia|].
  - rewrite zlen_app. unfold zlen in *. rewrite length_drop. lia.
  - apply Forall_app. split; [done|by apply Forall_drop].
Qed.

Lemma slot_segment_ok s : slot_wf s -> exists d, slot_segment s = Ok d /\ segment_ok d.
Proof.
  intros [Hc Hl Hb]. unfold slot_segment. rewrite Hc.
  replace (slot_len s <=? cap) with true by (symmetry; apply Z.leb_le; lia).
  eexists. split; [done|]. split; [by apply Forall_take|]. rewrite zlen_take; lia.
Qed.

Lemma set_slots_wf c s0 s1 n : rx_wf c -> slot_wf s0 -> slot_wf s1 -> 0 <= n <= 2 -> rx_wf (set_slots c s0 s1 n).
Proof. intros [] **. by split. Qed.

Lemma ack_wf c nonce : rx_wf c -> rx_wf (push_history_ack c nonce).
Proof.
  intros []. split; try done; cbn; apply lor_u32; try apply mod_two32_u32; [done|by destruct nonce].
Qed.

Lemma skips_wf c n : rx_wf c -> rx_wf (push_history_skips c n).
Proof. intros []. unfold push_history_skips. case_bool; split; try done; apply mod_two32_u32. Qed.

Lemma advance_wf c id : rx_wf c -> rx_wf (advance_window_past c id).
Proof. intros []. split; try done. apply wrapping_add_range. Qed.

Lemma swap_ok c : rx_wf c -> len c = 2 -> exists c', swap_slots c = Ok c' /\ rx_wf c' /\ len c' = 2.
Proof.
  intros Hc Hl. unfold swap_slots. rewrite debug_assert_true by (by rewrite Hl). cbn [mbind outcome_bind].
  eexists. split; [done|]. split; [|done]. destruct Hc. by apply set_slots_wf.
Qed.

Lemma swap_if_ok c : rx_wf c -> len c = 2 -> exists c', swap_slots_if_backward c = Ok c' /\ rx_wf c' /\ len c' = 2.
Proof.
  intros Hc Hl. unfold swap_slots_if_backward. rewrite debug_assert_true by (by rewrite Hl). cbn [mbind outcome_bind].
  case_bool; [by apply swap_ok|by exists c].
Qed.

Lemma deliver_ok fuel : forall c out, rx_wf c -> Forall segment_ok out -> len c < Z.of_nat fuel ->
  exists c' out', deliver_buffered fuel c out = Ok (c', out') /\ rx_wf c' /\ Forall segment_ok out'.
Proof.
  induction fuel as [|fuel IH]; intros c out Hc Ho Hf; [destruct Hc; lia|]. cbn [deliver_buffered].
  case_bool; [|by exists c, out]. destruct (slot_segment_ok _ (rw_slot0 _ Hc)) as (d & Hd & Hok).
  rewrite Hd. cbn [mbind outcome_bind].
  pose proof (advance_wf _ (slot_id (slot_0 (push_history_ack c (slot_nonce (slot_0 c)))))
    (ack_wf c (slot_nonce (slot_0 c)) Hc)) as Hadv.
  set (c1 := advance_window_past _ _) in *. assert (Hlen : len c1 = len c) by done. pose proof (rw_len _ Hc).
  assert (Hsw : exists c2, (if len c1 =? 2 then swap_slots c1 else Ok c1) = Ok c2 /\ rx_wf c2 /\ len c2 = len c).
  { destruct (Z.eqb_spec (len c1) 2) as [E2|]; [|by exists c1].
    destruct (swap_ok c1 Hadv E2) as (c2 & -> & ? & ?). exists c2. split_and!; done || lia. }
  destruct Hsw as (c2 & -> & Hc2 & Hl2). cbn [mbind outcome_bind].
  apply IH; [|by apply Forall_app_2, Forall_singleton|cbn; lia].
  destruct Hc2. apply set_slots_wf; done || lia.
Qed.

(** What the first half of [receive] hands to the second. *)
Lemma receive_wf c id nonce data : rx_wf c -> is_u32 id -> segment_ok data ->
  exists c' out n, receive c id nonce data = Ok (c', out, n) /\ rx_wf c' /\ Forall segment_ok out.
Proof.
  intros Hc Hid Hd. unfold receive. destruct (Window.contains _ _); [|by exists c, [], (len c)].
  assert (Hfin : forall c1 out, rx_wf c1 -> Forall segment_ok out ->
    exists c' out' n, ('(self, out) ← deliver_buffered 3 c1 out; Ok (self, out, len self)) = Ok (c', out', n) /\
      rx_wf c' /\ Forall segment_ok out').
  { intros c1 out Hc1 Ho. destruct (deliver_ok 3 c1 out Hc1 Ho) as (c' & out' & -> & Hc' & Ho').
    { pose proof (rw_len _ Hc1). lia. } cbn [mbind outcome_bind]. by eexists _, _, _. }
  pose proof Hc as [Hb Hs0 Hs1 Hl Hr Hn].
  case_bool. { cbn [mbind outcome_bind]. apply Hfin; [by apply advance_wf, ack_wf|by apply Forall_singleton]. }
  case_bool.
  { destruct (save_ok (slot_0 c) id nonce data Hs0 Hd) as (s & -> & Hs). cbn [mbind outcome_bind].
    eexists _, _, _. split; [done|]. split; [apply set_slots_wf; done || lia|done]. }
  case_bool.
  { case_bool; [|by eexists _, _, _].
    destruct (save_ok (slot_1 c) id nonce data Hs1 Hd) as (s & -> & Hs). cbn [mbind outcome_bind].
    destruct (swap_if_ok (set_slots c (slot_0 c) s 2)) as (c' & -> & Hc' & _); [apply set_slots_wf;
      done || lia|done|].
    by eexists _, _, _. }
  case_bool; [|lia]. case_bool; [|cbn [mbind outcome_bind]; by apply Hfin].
  case_bool. { cbn [mbind outcome_bind]. apply Hfin; [by apply advance_wf, ack_wf,
    skips_wf|by apply Forall_singleton]. }
  destruct (slot_segment_ok _ Hs0) as (d0 & -> & Hd0). cbn [mbind outcome_bind].
  set (c1 := advance_window_past _ _).
  assert (Hc1 : rx_wf c1) by (by apply advance_wf, ack_wf, skips_wf).
  destruct (save_ok (slot_0 c1) id nonce data (rw_slot0 _ Hc1) Hd) as (s & -> & Hs). cbn [mbind outcome_bind].
  destruct (swap_if_ok (set_slots c1 s (slot_1 c1) (len c1))) as (c' & -> & Hc' & _).
  { destruct Hc1. by apply set_slots_wf. } { unfold c1. cbn. unfold push_history_skips. by case_bool. }
  cbn [mbind outcome_bind]. apply Hfin; [done|by apply Forall_singleton].
Qed.

Lemma sync_wf c id : rx_wf c -> is_u32 id ->
  exists c' out, sync c id = Ok (c', out) /\ rx_wf c' /\ Forall segment_ok out.
Proof.
  intros Hc Hid. unfold sync. case_bool; [|by exists c, []].
  assert (Hfin : forall c1 out, rx_wf c1 -> Forall segment_ok out ->
    exists c' out', Ok (set_base (push_history_skips (set_slots c1 (slot_0 c1) (slot_1 c1) 0)
      (wrapping_sub id (Window.base_id (window (set_slots c1 (slot_0 c1) (slot_1 c1) 0))))) id, out) = Ok (c',
        out') /\
      rx_wf c' /\ Forall segment_ok out').
  { intros c1 out Hc1 Ho. eexists _, _. split; [done|]. split; [|done].
    assert (Hs : rx_wf (set_slots c1 (slot_0 c1) (slot_1 c1) 0)) by (destruct Hc1; apply set_slots_wf; done || lia).
    apply (skips_wf _ (wrapping_sub id (Window.base_id (window (set_slots c1 (slot_0 c1) (slot_1 c1) 0))))) in Hs.
    destruct Hs. by split. }
  case_bool; [|cbn [mbind outcome_bind]; by apply Hfin].
  destruct (slot_segment_ok _ (rw_slot0 _ Hc)) as (d0 & -> & Hd0). cbn [mbind outcome_bind].
  set (c1 := advance_window_past _ _).
  assert (Hc1 : rx_wf c1) by (by apply advance_wf, ack_wf, skips_wf).
  case_bool; [|cbn [mbind outcome_bind]; apply Hfin; [done|by apply Forall_singleton]].
  destruct (slot_segment_ok _ (rw_slot1 _ Hc1)) as (d1 & -> & Hd1). cbn [mbind outcome_bind].
  apply Hfin; [by apply advance_wf, ack_wf, skips_wf|]. apply Forall_cons; split; [done|by apply Forall_singleton].
Qed.
End Safety.
