(* ===== verification/CongestionControl.v ===== *)
(** * AIMD congestion control ([endpoint/cc.rs])

    The congestion window of an endpoint, in 16.16 fixed-point bytes: slow start,
    threshold slow start and congestion avoidance, driven by acknowledgements, drops
    and timeouts.  The proofs cover the absence of overflow, the lower bound of the
    window, its growth per window of acknowledgements and the rule that a window
    of drops halves it once. *)

From S2P Require Import Prelude Word.

Module AimdReno.

Definition INITIAL_CWND_MSS : Z := 10.

Inductive Mode : Set :=
| UnboundedSlowStart
| ThresholdSlowStart (ssthresh : Z)
| CongestionAvoidance.

Record AimdReno : Set := mkAimdReno {
  mode : Mode;
  mss_q16 : Z;
  cwnd_q16 : Z;
  dropcnt_q16 : Z;
}.

Section Ops.
Context `{BuildProfile}.

Definition new (mss : Z) : outcome AimdReno :=
  _ ← assert_ (mss <=? U16_MAX);
  mss_q16 ← shl64 mss 16;
  init ← mul64 INITIAL_CWND_MSS mss;
  cwnd_q16 ← shl64 init 16;
  Ok (mkAimdReno UnboundedSlowStart mss_q16 cwnd_q16 0).

(** Division by zero panics in every build profile. *)
Definition div64 (a b : Z) : outcome Z :=
  if b =? 0 then Fault Panicked else Ok (a / b).

Definition handle_ack (self : AimdReno) : outcome AimdReno :=
  dropcnt_q16' ←
    (if mss_q16 self <? dropcnt_q16 self
     then sub64 (dropcnt_q16 self) (mss_q16 self)
     else Ok 0);
  match mode self with
  | UnboundedSlowStart =>
      Ok (mkAimdReno (mode self) (mss_q16 self)
            (saturating_add64 (cwnd_q16 self) (mss_q16 self)) dropcnt_q16')
  | ThresholdSlowStart ssthresh =>
      let new_cwnd_q16 := saturating_add64 (cwnd_q16 self) (mss_q16 self) in
      if ssthresh <=? new_cwnd_q16
      then Ok (mkAimdReno CongestionAvoidance (mss_q16 self) ssthresh dropcnt_q16')
      else Ok (mkAimdReno (mode self) (mss_q16 self) new_cwnd_q16 dropcnt_q16')
  | CongestionAvoidance =>
      square ← mul64 (mss_q16 self) (mss_q16 self);
      numerator ← add64 square (cwnd_q16 self / 2);
      cwnd_inv_q16 ← div64 numerator (cwnd_q16 self);
      Ok (mkAimdReno (mode self) (mss_q16 self)
            (saturating_add64 (cwnd_q16 self) cwnd_inv_q16) dropcnt_q16')
  end.

Definition handle_timeout (self : AimdReno) : outcome AimdReno :=
  cwnd_min_q16 ← mul64 INITIAL_CWND_MSS (mss_q16 self);
  Ok (mkAimdReno (ThresholdSlowStart (Z.max (cwnd_q16 self / 2) cwnd_min_q16))
        (mss_q16 self) cwnd_min_q16 0).

Definition handle_drop (self : AimdReno) : outcome AimdReno :=
  cwnd_min_q16 ← mul64 INITIAL_CWND_MSS (mss_q16 self);
  if dropcnt_q16 self =? 0 then
    let new_cwnd_q16 := Z.max (cwnd_q16 self / 2) cwnd_min_q16 in
    Ok (mkAimdReno CongestionAvoidance (mss_q16 self) new_cwnd_q16 new_cwnd_q16)
  else Ok self.

(** [usize] has 64 bits, so the conversion of the source always succeeds. *)
Definition cwnd (self : AimdReno) : Z := Z.shiftr (cwnd_q16 self) 16.

(** ** Histories *)

Inductive event : Set := Ack | Timeout | Drop.

Definition step (self : AimdReno) (e : event) : outcome AimdReno :=
  match e with
  | Ack => handle_ack self
  | Timeout => handle_timeout self
  | Drop => handle_drop self
  end.

Fixpoint run (self : AimdReno) (es : list event) : outcome AimdReno :=
  match es with
  | [] => Ok self
  | e :: es => self ← step self e; run self es
  end.

Lemma run_app self es es' : run self (es ++ es') = (run self es ≫= fun s => run s es').
Proof.
  revert self. induction es as [|e es IH]; intros self; [done|]. cbn [run app].
  rewrite outcome_bind_assoc. destruct (step self e); [apply IH|done].
Qed.

(** The largest [mss] whose squared fixed-point value leaves room for half of any
    window: [46340 * 46340 < 2^31]. *)
Definition MSS_SAFE : Z := 46340.

Record inv (mss : Z) (s : AimdReno) : Prop := {
  inv_mss : mss_q16 s = mss * 65536;
  inv_low : 10 * mss_q16 s <= cwnd_q16 s;
  inv_high : cwnd_q16 s <= U64_MAX;
  inv_drop : 0 <= dropcnt_q16 s <= cwnd_q16 s;
  inv_mode : match mode s with
             | ThresholdSlowStart th => cwnd_q16 s <= th <= U64_MAX /\ dropcnt_q16 s = 0
             | _ => True
             end;
}.

Lemma inv_intro mss m q c d :
  q = mss * 65536 -> 10 * q <= c -> c <= U64_MAX -> 0 <= d <= c ->
  match m with ThresholdSlowStart th => c <= th <= U64_MAX /\ d = 0 | _ => True end ->
  inv mss (mkAimdReno m q c d).
Proof. by split. Qed.

Lemma cc_new_ok mss : 0 <= mss <= U16_MAX ->
  new mss = Ok (mkAimdReno UnboundedSlowStart (mss * 65536) (10 * mss * 65536) 0).
Proof.
  intros Hm. unfold new, INITIAL_CWND_MSS, U16_MAX in *.
  rewrite assert_true by (apply Z.leb_le; lia). cbn.
  rewrite mul64_ok by (unfold two64; lia). cbn.
  rewrite !Z.shiftl_mul_pow2 by lia. unfold two64.
  by rewrite !Z.mod_small by lia.
Qed.

Lemma cc_new_inv mss : 0 <= mss <= MSS_SAFE -> exists s, new mss = Ok s /\ inv mss s /\ mode s = UnboundedSlowStart.
Proof.
  unfold MSS_SAFE. intros Hm. rewrite cc_new_ok by (unfold U16_MAX; lia). eexists. split; [done|].
  split; [|done]. split; cbn; unfold U64_MAX; lia || done.
Qed.

Section Invariant.
Context (mss : Z) (Hmss : 1 <= mss <= MSS_SAFE).

Lemma square_ok s : inv mss s ->
  mul64 (mss_q16 s) (mss_q16 s) = Ok (mss_q16 s * mss_q16 s) /\
  add64 (mss_q16 s * mss_q16 s) (cwnd_q16 s / 2) = Ok (mss_q16 s * mss_q16 s + cwnd_q16 s / 2).
Proof.
  intros [Hq Hl Hh _ _]. unfold MSS_SAFE, U64_MAX in *.
  assert (0 <= mss_q16 s * mss_q16 s < 9223372036854775808) by (rewrite Hq; nia).
  split; [apply mul64_ok | apply add64_ok]; unfold two64; Z.div_mod_to_equations; lia.
Qed.

(** One congestion-avoidance increment: [mss^2 / cwnd] rounded to the nearest. *)
Definition increment (s : AimdReno) : Z := (mss_q16 s * mss_q16 s + cwnd_q16 s / 2) / cwnd_q16 s.

Lemma dropcnt_after (s : AimdReno) :
  (if mss_q16 s <? dropcnt_q16 s then sub64 (dropcnt_q16 s) (mss_q16 s) else Ok 0)
  = Ok (Z.max 0 (dropcnt_q16 s - mss_q16 s)).
Proof.
  case_bool.
  - rewrite sub64_ok by lia. f_equal. lia.
  - f_equal. lia.
Qed.

Lemma handle_ack_ca s : inv mss s -> mode s = CongestionAvoidance ->
  handle_ack s = Ok (mkAimdReno CongestionAvoidance (mss_q16 s)
    (saturating_add64 (cwnd_q16 s) (increment s)) (Z.max 0 (dropcnt_q16 s - mss_q16 s))).
Proof.
  intros Hi Hm. pose proof (inv_mss _ _ Hi). pose proof (inv_low _ _ Hi).
  destruct (square_ok s Hi) as [Hsq Hadd].
  unfold handle_ack. rewrite dropcnt_after. cbn. rewrite Hm, Hsq. cbn. rewrite Hadd. cbn.
  unfold div64. replace (cwnd_q16 s =? 0) with false by (symmetry; apply Z.eqb_neq; lia). done.
Qed.

Lemma increment_nonneg s : inv mss s -> 0 <= increment s.
Proof.
  intros Hi. pose proof (inv_mss _ _ Hi). pose proof (inv_low _ _ Hi). unfold increment.
  apply Z.div_pos; [|lia]. Z.div_mod_to_equations; nia.
Qed.

Lemma cwnd_min_ok s : inv mss s -> mul64 INITIAL_CWND_MSS (mss_q16 s) = Ok (10 * mss_q16 s).
Proof. intros Hi. pose proof (inv_mss _ _ Hi). apply mul64_ok. unfold INITIAL_CWND_MSS, MSS_SAFE, two64 in *. lia.
Qed.

Lemma handle_timeout_eq s : inv mss s ->
  handle_timeout s = Ok (mkAimdReno (ThresholdSlowStart (Z.max (cwnd_q16 s / 2) (10 * mss_q16 s)))
    (mss_q16 s) (10 * mss_q16 s) 0).
Proof. intros Hi. unfold handle_timeout. by rewrite (cwnd_min_ok s Hi). Qed.

Lemma handle_drop_eq s : inv mss s ->
  handle_drop s = Ok (if dropcnt_q16 s =? 0
    then let w := Z.max (cwnd_q16 s / 2) (10 * mss_q16 s) in
         mkAimdReno CongestionAvoidance (mss_q16 s) w w
    else s).
Proof. intros Hi. unfold handle_drop. rewrite (cwnd_min_ok s Hi). cbn. by case_bool. Qed.

Lemma handle_ack_slow s : mode s = UnboundedSlowStart ->
  handle_ack s = Ok (mkAimdReno UnboundedSlowStart (mss_q16 s)
    (saturating_add64 (cwnd_q16 s) (mss_q16 s)) (Z.max 0 (dropcnt_q16 s - mss_q16 s))).
Proof. intros Hm. unfold handle_ack. rewrite dropcnt_after. cbn. by rewrite Hm. Qed.

(** The outcome of an acknowledgement in threshold slow start. *)
Definition threshold_next (th : Z) (s : AimdReno) : AimdReno :=
  let w := saturating_add64 (cwnd_q16 s) (mss_q16 s) in
  let d := Z.max 0 (dropcnt_q16 s - mss_q16 s) in
  if th <=? w then mkAimdReno CongestionAvoidance (mss_q16 s) th d
  else mkAimdReno (ThresholdSlowStart th) (mss_q16 s) w d.

Lemma handle_ack_threshold s th : mode s = ThresholdSlowStart th ->
  handle_ack s = Ok (threshold_next th s).
Proof.
  intros Hm. unfold handle_ack, threshold_next. rewrite dropcnt_after. cbn. rewrite Hm. by case_bool.
Qed.

Lemma threshold_next_inv th s : inv mss s -> mode s = ThresholdSlowStart th -> inv mss (threshold_next th s).
Proof.
  intros [Hq Hl Hh Hd Hmode] Em. rewrite Em in Hmode. unfold threshold_next. cbv zeta.
  assert (Hs : cwnd_q16 s <= saturating_add64 (cwnd_q16 s) (mss_q16 s) <= U64_MAX)
    by (unfold saturating_add64, MSS_SAFE in *; lia).
  assert (Hs' : saturating_add64 (cwnd_q16 s) (mss_q16 s) <= cwnd_q16 s + mss_q16 s)
    by (unfold saturating_add64; lia).
  case_bool; apply inv_intro; unfold MSS_SAFE in *; lia || done.
Qed.

Lemma cc_ack_inv s : inv mss s -> exists s', handle_ack s = Ok s' /\ inv mss s'.
Proof.
  intros Hi. pose proof Hi as [Hq Hl Hh Hd Hmode]. pose proof (increment_nonneg s Hi) as Hn.
  destruct (mode s) as [|th|] eqn:Em.
  - eexists. split; [by apply handle_ack_slow|].
    apply inv_intro; unfold saturating_add64, U64_MAX, MSS_SAFE in *; lia || done.
  - eexists. split; [by apply handle_ack_threshold|]. by apply threshold_next_inv.
  - eexists. split; [by apply handle_ack_ca|].
    apply inv_intro; unfold saturating_add64, U64_MAX, MSS_SAFE in *; lia || done.
Qed.

Lemma half_bounds x : 0 <= x -> 0 <= x / 2 <= x.
Proof. intros. Z.div_mod_to_equations. lia. Qed.

Lemma cc_timeout_inv s : inv mss s -> exists s', handle_timeout s = Ok s' /\ inv mss s'.
Proof.
  intros Hi. pose proof Hi as [Hq Hl Hh Hd Hmode]. pose proof (half_bounds (cwnd_q16 s)).
  eexists. split; [by apply handle_timeout_eq|].
  apply inv_intro; unfold MSS_SAFE in *; lia.
Qed.

Lemma cc_drop_inv s : inv mss s -> exists s', handle_drop s = Ok s' /\ inv mss s'.
Proof.
  intros Hi. pose proof Hi as [Hq Hl Hh Hd Hmode]. pose proof (half_bounds (cwnd_q16 s)).
  rewrite (handle_drop_eq s Hi). eexists. split; [done|]. case_bool; [|done]. cbv zeta.
  apply inv_intro; unfold MSS_SAFE in *; lia || done.
Qed.

Lemma cc_step_inv s e : inv mss s -> exists s', step s e = Ok s' /\ inv mss s'.
Proof. destruct e; [apply cc_ack_inv | apply cc_timeout_inv | apply cc_drop_inv]. Qed.

Lemma cc_run_inv s es : inv mss s -> exists s', run s es = Ok s' /\ inv mss s'.
Proof.
  revert s. induction es as [|e es IH]; intros s Hi; [by exists s|].
  destruct (cc_step_inv s e Hi) as (s' & Hs & Hi'). cbn [run]. rewrite Hs. by apply IH.
Qed.

Lemma cwnd_low s : inv mss s -> 10 * mss <= cwnd s.
Proof.
  intros Hi. pose proof (inv_mss _ _ Hi). pose proof (inv_low _ _ Hi). unfold cwnd.
  rewrite Z.shiftr_div_pow2 by lia. apply Z.div_le_lower_bound; lia.
Qed.

Lemma step_mss s e s' : step s e = Ok s' -> mss_q16 s' = mss_q16 s.
Proof.
  destruct e; cbn [step]; unfold handle_ack, handle_timeout, handle_drop; intros Hs.
  - destruct (if mss_q16 s <? dropcnt_q16 s then _ else _) as [d|]; [|done]. cbn in Hs.
    destruct (mode s) as [|th|].
    + by inv_ok.
    + case_bool; by inv_ok.
    + by inv_ok.
  - by inv_ok.
  - inv_ok. case_bool; by inv_ok.
Qed.
End Invariant.

(** ** Slow start *)

Lemma slow_start_run mss s n :
  mss_q16 s = mss * 65536 -> 0 <= mss -> mode s = UnboundedSlowStart -> dropcnt_q16 s = 0 ->
  cwnd_q16 s + Z.of_nat n * mss_q16 s <= U64_MAX ->
  run s (replicate n Ack)
  = Ok (mkAimdReno UnboundedSlowStart (mss_q16 s) (cwnd_q16 s + Z.of_nat n * mss_q16 s) 0).
Proof.
  intros Hq Hm. revert s Hq. induction n as [|n IH]; intros s Hq Hmode Hd Hmax; cbn [replicate run].
  - destruct s; cbn in *. subst. do 2 f_equal. lia.
  - assert (He : handle_ack s = Ok (mkAimdReno UnboundedSlowStart (mss_q16 s) (cwnd_q16 s + mss_q16 s) 0)).
    { unfold handle_ack. rewrite dropcnt_after. cbn. rewrite Hmode. do 2 f_equal; [|lia].
      unfold saturating_add64. nia. }
    cbn [step]. rewrite He. cbn [mbind outcome_bind]. rewrite IH by (cbn [mss_q16 cwnd_q16 mode dropcnt_q16];
      done || nia).
    cbn [mss_q16 cwnd_q16]. do 2 f_equal. lia.
Qed.

(** One acknowledgement below the threshold, and the one that reaches it. *)
Lemma threshold_step mss s t : mss_q16 s = mss * 65536 -> 0 <= mss -> mode s = ThresholdSlowStart t ->
  0 <= cwnd_q16 s -> cwnd_q16 s + mss_q16 s <= U64_MAX -> exists d, handle_ack s = Ok (
    if t <=? cwnd_q16 s + mss_q16 s then mkAimdReno CongestionAvoidance (mss_q16 s) t d
    else mkAimdReno (ThresholdSlowStart t) (mss_q16 s) (cwnd_q16 s + mss_q16 s) d).
Proof.
  intros Hq Hm Hmode Hc Hmax. eexists. unfold handle_ack. rewrite dropcnt_after. cbn [mbind outcome_bind].
  rewrite Hmode. replace (saturating_add64 (cwnd_q16 s) (mss_q16 s)) with (cwnd_q16 s + mss_q16 s)
    by (unfold saturating_add64; lia). by destruct (_ <=? _).
Qed.

Lemma threshold_run mss t n : 0 <= mss -> forall s, mss_q16 s = mss * 65536 -> mode s = ThresholdSlowStart t ->
  0 <= cwnd_q16 s -> cwnd_q16 s + Z.of_nat n * mss_q16 s < t -> t <= U64_MAX ->
  exists d, run s (replicate n Ack) =
    Ok (mkAimdReno (ThresholdSlowStart t) (mss_q16 s) (cwnd_q16 s + Z.of_nat n * mss_q16 s) d).
Proof.
  intros Hm. induction n as [|n IH]; intros s Hq Hmode Hc Hlt Ht; cbn [replicate run].
  { exists (dropcnt_q16 s). destruct s. cbn in *. subst. do 2 f_equal. lia. }
  destruct (threshold_step mss s t Hq Hm Hmode Hc) as [d Hs]; [nia|]. cbn [step]. rewrite Hs.
  rewrite (proj2 (Z.leb_gt _ _)) by nia. cbn [mbind outcome_bind].
  destruct (IH (mkAimdReno (ThresholdSlowStart t) (mss_q16 s) (cwnd_q16 s + mss_q16 s) d)) as [d' Hr]; cbn; try done;
    [nia|nia|].
  rewrite Hr. exists d'. cbn [mss_q16 cwnd_q16]. do 2 f_equal. lia.
Qed.

(** ** Congestion avoidance *)

Section Avoidance.
Context (mss : Z) (Hmss : 1 <= mss <= MSS_SAFE).

(** [2 * inc - 1] times the window is at most twice the squared segment size. *)
Lemma increment_upper s : inv mss s ->
  (2 * increment s - 1) * cwnd_q16 s <= 2 * (mss_q16 s * mss_q16 s).
Proof.
  intros Hi. pose proof (inv_mss _ _ Hi). pose proof (inv_low _ _ Hi). unfold increment.
  assert (Hc : 0 < cwnd_q16 s) by lia.
  pose proof (Z.mul_div_le (mss_q16 s * mss_q16 s + cwnd_q16 s / 2) (cwnd_q16 s) Hc).
  pose proof (Z.mul_div_le (cwnd_q16 s) 2). nia.
Qed.

(** Over a run of acknowledgements every increment is bounded as if the window had
    stayed at its initial size [c]. *)
Lemma avoidance_run c s n : inv mss s -> mode s = CongestionAvoidance -> 0 < c <= cwnd_q16 s ->
  exists s', run s (replicate n Ack) = Ok s' /\ inv mss s' /\ mode s' = CongestionAvoidance /\
    mss_q16 s' = mss_q16 s /\ cwnd_q16 s <= cwnd_q16 s' /\
    (2 * (cwnd_q16 s' - cwnd_q16 s) - Z.of_nat n) * c <= 2 * Z.of_nat n * (mss_q16 s * mss_q16 s).
Proof.
  intros Hi Hm Hc. revert s Hi Hm Hc. induction n as [|n IH]; intros s Hi Hm Hc.
  { exists s. split_and!; try done; lia. }
  destruct (cc_step_inv mss Hmss s Ack Hi) as (s1 & Hs & Hi1). cbn [replicate run]. rewrite Hs.
  pose proof Hs as Hs1. cbn [step] in Hs1. rewrite (handle_ack_ca mss Hmss s Hi Hm) in Hs1.
  injection Hs1 as Hs1. pose proof (increment_nonneg mss Hmss s Hi). pose proof (inv_high _ _ Hi).
  assert (Hw : cwnd_q16 s <= cwnd_q16 s1 <= cwnd_q16 s + increment s)
    by (rewrite <- Hs1; cbn [cwnd_q16]; unfold saturating_add64; lia).
  destruct (IH s1) as (s' & Hr & Hi' & Hm' & Hq' & Hle & Hup); [done|by rewrite <- Hs1|lia|].
  assert (Hq1 : mss_q16 s1 = mss_q16 s) by (by rewrite <- Hs1). rewrite Hq1 in *.
  exists s'. split_and!; try done; [lia|]. pose proof (increment_upper s Hi) as Hu.
  rewrite Nat2Z.inj_succ.
  assert ((2 * increment s - 1) * c <= 2 * (mss_q16 s * mss_q16 s)) by nia.
  nia.
Qed.
End Avoidance.

(** ** Drops within one window *)

Definition is_ack (e : event) : bool := match e with Ack => true | _ => false end.
Definition acks (es : list event) : nat := length (filter (fun e => is_ack e = true) es).

Lemma ack_dropcnt s s' : handle_ack s = Ok s' ->
  dropcnt_q16 s' = Z.max 0 (dropcnt_q16 s - mss_q16 s).
Proof.
  unfold handle_ack. rewrite dropcnt_after. cbn. intros Hs. destruct (mode s).
  - by inv_ok.
  - case_bool; by inv_ok.
  - by inv_ok.
Qed.

Lemma drops_ignored mss (Hmss : 1 <= mss <= MSS_SAFE) s es :
  inv mss s -> Timeout ∉ es -> Z.of_nat (acks es) * mss_q16 s < dropcnt_q16 s ->
  run s es = run s (filter (fun e => is_ack e = true) es).
Proof.
  revert s. induction es as [|e es IH]; intros s Hi Ht Hn; [done|].
  rewrite not_elem_of_cons in Ht. destruct Ht as [Hte Ht].
  pose proof (inv_mss _ _ Hi) as Hq. unfold MSS_SAFE in *.
  destruct e; [| done |].
  - rewrite filter_cons_True by done. cbn [run].
    destruct (cc_step_inv mss Hmss s Ack Hi) as (s1 & Hs & Hi1). rewrite Hs. cbn [mbind outcome_bind].
    assert (Hm1 : mss_q16 s1 = mss_q16 s) by (rewrite (inv_mss _ _ Hi1); lia).
    apply IH; [done|done|]. rewrite Hm1, (ack_dropcnt s s1 Hs).
    unfold acks in *. rewrite filter_cons_True in Hn by done. cbn [length] in Hn. lia.
  - rewrite filter_cons_False by done. cbn [run step].
    rewrite (handle_drop_eq mss Hmss s Hi).
    replace (dropcnt_q16 s =? 0) with false by (symmetry; apply Z.eqb_neq; lia).
    cbn [mbind outcome_bind]. apply IH; [done|done|].
    unfold acks in *. rewrite filter_cons_False in Hn by done. done.
Qed.
End Ops.

(** ** Theorems *)

(** C34: For any segment size from 1 to 46340 bytes, and so for the endpoint's, no history
    of acknowledgements, timeouts and drops makes the fixed-point arithmetic overflow or
    divide by zero in any build profile, the congestion window never falls below ten
    segments, and the drop counter never exceeds the window. *)
Theorem cwnd_safe `{BuildProfile} mss es :
  1 <= mss <= MSS_SAFE ->
  exists s0 s, new mss = Ok s0 /\ run s0 es = Ok s /\
    10 * mss <= cwnd s < 2 ^ 48 /\ 0 <= dropcnt_q16 s <= cwnd_q16 s.
Proof.
  intros Hm. destruct (cc_new_inv mss) as (s0 & Hn & Hi0 & _); [unfold MSS_SAFE in *; lia|].
  destruct (cc_run_inv mss Hm s0 es Hi0) as (s & Hr & Hi).
  exists s0, s. split_and!; try done; try apply (inv_drop _ _ Hi).
  - by apply (cwnd_low mss).
  - pose proof (inv_high _ _ Hi). unfold cwnd. rewrite Z.shiftr_div_pow2 by lia.
    apply Z.div_lt_upper_bound; unfold U64_MAX in *; lia.
Qed.

Lemma cwnd_safe_witness :
  let H : BuildProfile := true in
  exists s0 s, new 1478 = Ok s0 /\ run s0 [Ack; Drop; Ack; Timeout; Ack] = Ok s /\
    10 * 1478 <= cwnd s < 2 ^ 48 /\ 0 <= dropcnt_q16 s <= cwnd_q16 s.
Proof. intros H. apply (cwnd_safe 1478). unfold MSS_SAFE. lia. Defined.

(** The assertion of the constructor admits segment sizes for which its own claim of
    safety is wrong: with 65535-byte segments, 600000 acknowledgements, a drop and one
    more acknowledgement overflow [mss * mss + cwnd / 2] and a debug build panics. *)
Theorem mss_assertion_insufficient :
  let H : BuildProfile := true in
  exists s0, new 65535 = Ok s0 /\ run s0 (replicate (Z.to_nat 600000) Ack ++ [Drop; Ack]) = Fault Panicked.
Proof.
  intros H. eexists. split; [by apply (cc_new_ok 65535)|].
  rewrite run_app, (slow_start_run 65535) by (cbn [mss_q16 cwnd_q16 mode dropcnt_q16];
    rewrite ?Z2Nat.id by lia; unfold U64_MAX; lia || done).
  cbn [mbind outcome_bind mss_q16 cwnd_q16]. rewrite Z2Nat.id by lia. by vm_compute.
Qed.

(** C35: In the code a drop halves the window (down to ten segments at the least) once per
    window: from a state with a clear drop counter, every further drop until a whole window
    of bytes has been acknowledged, counting one segment per acknowledgement, changes nothing
    at all; the run is that of its acknowledgements alone.  This is what lib.rs (lines 92 to
    94) wants to happen, but not how it says it: there the window is halved when the counter
    is not zero, and the counter runs down as frames are sent; in the code it is halved when
    the counter is zero, and the counter runs down as acknowledgements arrive. *)
Theorem drop_halves_once `{BuildProfile} mss s es :
  1 <= mss <= MSS_SAFE -> inv mss s -> dropcnt_q16 s = 0 -> Timeout ∉ es ->
  Z.of_nat (acks es) * mss_q16 s < Z.max (cwnd_q16 s / 2) (10 * mss_q16 s) ->
  exists s1, handle_drop s = Ok s1 /\
    cwnd_q16 s1 = Z.max (cwnd_q16 s / 2) (10 * mss_q16 s) /\
    mode s1 = CongestionAvoidance /\
    run s (Drop :: es) = run s1 (filter (fun e => is_ack e = true) es).
Proof.
  intros Hm Hi Hd Ht Hn. pose proof (handle_drop_eq mss Hm s Hi) as He.
  rewrite Hd in He. cbn [Z.eqb] in He. cbv zeta in He. destruct (cc_drop_inv mss Hm s Hi) as (s1 & Hs & Hi1).
  rewrite He in Hs. injection Hs as Hs. rewrite Hs in He. exists s1. cbn [run step]. rewrite He.
  cbn [mbind outcome_bind]. assert (Hq : mss_q16 s1 = mss_q16 s) by (by rewrite <- Hs).
  split_and!; [done|by rewrite <- Hs|by rewrite <- Hs|].
  apply (drops_ignored mss); [done..|]. rewrite Hq. by rewrite <- Hs.
Qed.

Lemma drop_halves_once_witness :
  let H : BuildProfile := true in
  let s := mkAimdReno UnboundedSlowStart (1478 * 65536) (100 * 1478 * 65536) 0 in
  let es := [Drop; Ack; Drop; Ack; Drop] in
  exists s1, handle_drop s = Ok s1 /\
    cwnd_q16 s1 = Z.max (cwnd_q16 s / 2) (10 * mss_q16 s) /\
    mode s1 = CongestionAvoidance /\
    run s (Drop :: es) = run s1 (filter (fun e => is_ack e = true) es).
Proof.
  intros H s es. apply (drop_halves_once 1478 s es).
  - unfold MSS_SAFE. lia.
  - split; vm_compute; try split; done.
  - reflexivity.
  - subst es. rewrite !not_elem_of_cons. split_and!; done || apply not_elem_of_nil.
  - reflexivity.
Defined.

(** C36: The window grows as Reno prescribes.  In unbounded slow start one window of
    acknowledgements adds one segment each, so it doubles the window.  In slow start up to a
    threshold every acknowledgement adds one segment while the sum stays below the threshold,
    and the one that reaches it sets the window to the threshold and begins congestion
    avoidance.  In congestion avoidance one window of acknowledgements adds at most one
    segment in all, up to half a fixed-point unit of rounding per acknowledgement, and never
    shrinks the window. *)
Theorem window_growth `{BuildProfile} mss s n :
  1 <= mss <= MSS_SAFE -> inv mss s -> Z.of_nat n * mss_q16 s <= cwnd_q16 s ->
  match mode s with
  | UnboundedSlowStart =>
      dropcnt_q16 s = 0 -> cwnd_q16 s + Z.of_nat n * mss_q16 s <= U64_MAX ->
      exists s', run s (replicate n Ack) = Ok s' /\ mode s' = UnboundedSlowStart /\
        cwnd_q16 s' = cwnd_q16 s + Z.of_nat n * mss_q16 s
  | CongestionAvoidance =>
      exists s', run s (replicate n Ack) = Ok s' /\ mode s' = CongestionAvoidance /\
        cwnd_q16 s <= cwnd_q16 s' /\ 2 * (cwnd_q16 s' - cwnd_q16 s) <= 2 * mss_q16 s + Z.of_nat n
  | ThresholdSlowStart ssthresh =>
      cwnd_q16 s + Z.of_nat n * mss_q16 s < ssthresh ->
      (exists s', run s (replicate n Ack) = Ok s' /\ mode s' = ThresholdSlowStart ssthresh /\
         cwnd_q16 s' = cwnd_q16 s + Z.of_nat n * mss_q16 s) /\
      (ssthresh <= cwnd_q16 s + Z.of_nat (S n) * mss_q16 s <= U64_MAX ->
       exists s', run s (replicate n Ack ++ [Ack]) = Ok s' /\ mode s' = CongestionAvoidance /\ cwnd_q16 s' = ssthresh)
  end.
Proof.
  intros Hm Hi Hn. pose proof (inv_mss _ _ Hi). pose proof (inv_low _ _ Hi). unfold MSS_SAFE in *.
  destruct (mode s) as [|t|] eqn:Em.
  2: { intros Hlt. pose proof (inv_mode _ _ Hi) as Hmode. rewrite Em in Hmode.
    destruct (threshold_run mss t n ltac:(lia) s) as [d Hr]; [done|done|lia|done|lia|].
    split; [rewrite Hr; by eexists|]. intros Hge. rewrite run_app, Hr. cbn [mbind outcome_bind run step].
    edestruct (threshold_step mss (mkAimdReno (ThresholdSlowStart t) (mss_q16 s)
      (cwnd_q16 s + Z.of_nat n * mss_q16 s) d)) as [d' Hs]; cbn; try done; [lia|nia|nia|].
    rewrite Hs. cbn [cwnd_q16 mss_q16]. rewrite (proj2 (Z.leb_le _ _)) by nia. by eexists. }
  - intros Hd Hmax. eexists. split; [apply (slow_start_run mss); done || lia|]. by split.
  - destruct (avoidance_run mss Hm (cwnd_q16 s) s n Hi Em) as (s' & Hr & _ & Hm' & _ & Hle & Hup); [lia|].
    exists s'. split_and!; try done.
    assert (2 * Z.of_nat n * (mss_q16 s * mss_q16 s) <= (2 * mss_q16 s) * cwnd_q16 s) by nia.
    nia.
Qed.

Lemma window_growth_witness :
  let H : BuildProfile := true in
  let s := mkAimdReno CongestionAvoidance (1478 * 65536) (100 * 1478 * 65536) 0 in
  exists s', run s (replicate 100 Ack) = Ok s' /\ mode s' = CongestionAvoidance /\
    cwnd_q16 s <= cwnd_q16 s' /\ 2 * (cwnd_q16 s' - cwnd_q16 s) <= 2 * mss_q16 s + Z.of_nat 100.
Proof.
  intros H s. apply (window_growth 1478 s 100).
  - unfold MSS_SAFE. lia.
  - split; vm_compute; try split; done.
  - by vm_compute.
Defined.
End AimdReno.
