(* ===== verification/Prio.v ===== *)
(** * Channel priorities ([endpoint/prio.rs])

    The weighted choice between the four channels of an endpoint: every channel has
    a counter of the bytes it sent, scaled by the weights of the other channels, and the
    ready channel with the least counter sends next.  The proofs cover the absence of
    overflow, the choice made by [next] and weighted fairness. *)

From S2P Require Import Prelude Word.

Module Prio.

(** [[T; CHANNEL_COUNT]]. *)
Record array4 : Set := Array4 { at0 : Z; at1 : Z; at2 : Z; at3 : Z }.

Definition index4 (a : array4) (i : Z) : outcome Z :=
  if i =? 0 then Ok (at0 a) else if i =? 1 then Ok (at1 a)
  else if i =? 2 then Ok (at2 a) else if i =? 3 then Ok (at3 a) else Fault Panicked.

Definition update4 (a : array4) (i x : Z) : outcome array4 :=
  if i =? 0 then Ok (Array4 x (at1 a) (at2 a) (at3 a))
  else if i =? 1 then Ok (Array4 (at0 a) x (at2 a) (at3 a))
  else if i =? 2 then Ok (Array4 (at0 a) (at1 a) x (at3 a))
  else if i =? 3 then Ok (Array4 (at0 a) (at1 a) (at2 a) x) else Fault Panicked.

Definition map4 (f : Z -> Z) (a : array4) : array4 :=
  Array4 (f (at0 a)) (f (at1 a)) (f (at2 a)) (f (at3 a)).

Definition CHANNEL_COUNT : Z := 4.
Definition DATA_SIZE_MAX : Z := U16_MAX.
Definition BURST_SIZE_MAX : Z := DATA_SIZE_MAX * 255.
Definition WEIGHT_MAX : Z := 256.

(** [x as u32]. *)
Definition as_u32 (x : Z) : Z := x mod two32.

Record Config : Set := mkConfig {
  weights : array4;
  counter_max : Z;
}.

Section Ops.
Context `{BuildProfile}.

Definition weight_ok (w : Z) : bool := negb (w =? 0) && (w <=? WEIGHT_MAX).

Definition mul3 (a b c : Z) : outcome Z := x ← mul32 a b; mul32 x c.

Definition config_new (ws : array4) (burst_size : Z) : outcome Config :=
  let '(Array4 w0 w1 w2 w3) := ws in
  _ ← assert_ (weight_ok w0);
  _ ← assert_ (weight_ok w1);
  _ ← assert_ (weight_ok w2);
  _ ← assert_ (weight_ok w3);
  product ← mul3 w0 w1 w2;
  _ ← assert_ (product <=? WEIGHT_MAX / w3);
  _ ← assert_ (negb (burst_size =? 0));
  _ ← assert_ (burst_size <=? BURST_SIZE_MAX);
  t0 ← mul3 w1 w2 w3;
  t1 ← mul3 w0 w2 w3;
  t2 ← mul3 w0 w1 w3;
  t3 ← mul3 w0 w1 w2;
  p012 ← mul3 w0 w1 w2;
  total_product ← mul32 p012 w3;
  counter_max ← mul32 (as_u32 burst_size) total_product;
  Ok (mkConfig (Array4 t0 t1 t2 t3) counter_max).

Record Prio : Set := mkPrio {
  p_counters : array4;
  p_weights : array4;
  p_counter_max : Z;
}.

Definition new (config : Config) : Prio :=
  mkPrio (Array4 0 0 0 0) (weights config) (counter_max config).

(** One [if] block of [next]: the accumulator is the pair of [min_chan] and [min_val];
    [min_chan] is [Some] exactly when the flag [set] of the source is true. *)
Definition consider (ready : bool) (i val : Z) (acc : option Z * Z) : option Z * Z :=
  let '(min_chan, min_val) := acc in
  let set := match min_chan with Some _ => true | None => false end in
  if ready && (negb set || (val <? min_val)) then (Some i, val) else acc.

Definition next (self : Prio) (ch0 ch1 ch2 ch3 : bool) : option Z :=
  let acc := (None, 0) in
  let acc := consider ch0 0 (at0 (p_counters self)) acc in
  let acc := consider ch1 1 (at1 (p_counters self)) acc in
  let acc := consider ch2 2 (at2 (p_counters self)) acc in
  let acc := consider ch3 3 (at3 (p_counters self)) acc in
  acc.1.

Definition mark_sent (self : Prio) (channel_idx data_size : Z) : outcome Prio :=
  _ ← debug_assert (channel_idx <? CHANNEL_COUNT);
  _ ← debug_assert (data_size <=? DATA_SIZE_MAX);
  weight ← index4 (p_weights self) channel_idx;
  counter ← index4 (p_counters self) channel_idx;
  weighted_size ← mul32 (as_u32 data_size) weight;
  let counter := wrapping_add counter weighted_size in
  counters ← update4 (p_counters self) channel_idx counter;
  if p_counter_max self <? counter then
    excess ← sub32 counter (p_counter_max self);
    Ok (mkPrio (map4 (fun c => saturating_sub c excess) counters) (p_weights self) (p_counter_max self))
  else Ok (mkPrio counters (p_weights self) (p_counter_max self)).
End Ops.

(** ** Arrays *)

Definition get4 (a : array4) (i : Z) : Z :=
  if i =? 0 then at0 a else if i =? 1 then at1 a else if i =? 2 then at2 a else at3 a.

Lemma channel_cases i : 0 <= i < 4 -> i = 0 \/ i = 1 \/ i = 2 \/ i = 3.
Proof. lia. Qed.

Ltac channels :=
  repeat match goal with
  | H : 0 <= ?i < 4 |- _ => is_var i; apply channel_cases in H as [->|[->|[->| ->]]]
  end.

Lemma index4_ok a i : 0 <= i < 4 -> index4 a i = Ok (get4 a i).
Proof. intros. channels; done. Qed.

Lemma update4_ok a i x : 0 <= i < 4 -> exists a', update4 a i x = Ok a' /\
  forall j, 0 <= j < 4 -> get4 a' j = if j =? i then x else get4 a j.
Proof. intros Hi. channels; eexists; (split; [done|]); intros; channels; done. Qed.

Lemma get4_map f a i : 0 <= i < 4 -> get4 (map4 f a) i = f (get4 a i).
Proof. intros. channels; done. Qed.

(** ** Configurations *)

(** The largest value of [counter_max]: [BURST_SIZE_MAX * WEIGHT_MAX]. *)
Definition COUNTER_LIMIT : Z := 4278124800.

Definition total (ws : array4) : Z := at0 ws * at1 ws * at2 ws * at3 ws.

Record config_facts (ws : array4) (burst : Z) (c : Config) : Prop := {
  cf_weight i : 0 <= i < 4 -> 1 <= get4 ws i;
  cf_burst : 1 <= burst <= BURST_SIZE_MAX;
  cf_total : 1 <= total ws <= WEIGHT_MAX;
  cf_product i : 0 <= i < 4 -> get4 (weights c) i * get4 ws i = total ws;
  cf_max : counter_max c = burst * total ws;
}.

Section Laws.
Context `{BuildProfile}.

Lemma mul3_ok a b c : 1 <= a <= 256 -> 1 <= b <= 256 -> 1 <= c <= 256 -> mul3 a b c = Ok (a * b * c).
Proof.
  intros. unfold mul3. assert (1 <= a * b <= 65536) by nia.
  rewrite mul32_ok by (unfold two32; lia). cbn. apply mul32_ok. unfold two32. nia.
Qed.

Lemma assert_inv b : assert_ b = Ok () -> b = true.
Proof. by destruct b. Qed.

Lemma weight_ok_spec w : 0 <= w -> weight_ok w = true -> 1 <= w <= 256.
Proof. unfold weight_ok, WEIGHT_MAX. intros ? Hw. reflect_bool. lia. Qed.

Lemma config_new_facts ws burst c :
  (forall i, 0 <= i < 4 -> 0 <= get4 ws i) -> 0 <= burst ->
  config_new ws burst = Ok c -> config_facts ws burst c.
Proof.
  destruct ws as [w0 w1 w2 w3]. intros Hpos Hb Hc.
  pose proof (Hpos 0). pose proof (Hpos 1). pose proof (Hpos 2). pose proof (Hpos 3). cbn in *.
  unfold config_new in Hc.
  apply outcome_bind_Ok in Hc as ([] & A0%assert_inv & Hc). apply weight_ok_spec in A0; [|lia].
  apply outcome_bind_Ok in Hc as ([] & A1%assert_inv & Hc). apply weight_ok_spec in A1; [|lia].
  apply outcome_bind_Ok in Hc as ([] & A2%assert_inv & Hc). apply weight_ok_spec in A2; [|lia].
  apply outcome_bind_Ok in Hc as ([] & A3%assert_inv & Hc). apply weight_ok_spec in A3; [|lia].
  rewrite !mul3_ok in Hc by lia. cbn in Hc.
  apply outcome_bind_Ok in Hc as ([] & Ap%assert_inv & Hc).
  apply outcome_bind_Ok in Hc as ([] & Az%assert_inv & Hc).
  apply outcome_bind_Ok in Hc as ([] & Am%assert_inv & Hc).
  reflect_bool. unfold BURST_SIZE_MAX, DATA_SIZE_MAX, WEIGHT_MAX, U16_MAX in *.
  assert (Hd : w0 * w1 * w2 * w3 <= 256).
  { pose proof (Z.mul_div_le 256 w3). nia. }
  assert (Hone : 1 <= w0 * w1 * w2) by nia.
  assert (Htot : 1 <= w0 * w1 * w2 * w3) by nia.
  rewrite mul32_ok in Hc by (unfold two32; lia). cbn in Hc.
  unfold as_u32 in Hc. rewrite Z.mod_small in Hc by (unfold two32; lia).
  rewrite mul32_ok in Hc by (unfold two32; nia). cbn in Hc. injection Hc as <-.
  split; cbn; unfold total, BURST_SIZE_MAX, DATA_SIZE_MAX, WEIGHT_MAX, U16_MAX; cbn; try lia.
  - intros. channels; cbn; lia.
  - intros. channels; cbn; ring.
Qed.

(** ** Sending *)

Record inv (ws : array4) (burst : Z) (p : Prio) : Prop := {
  i_config : config_facts ws burst (mkConfig (p_weights p) (p_counter_max p));
  i_counters i : 0 <= i < 4 -> 0 <= get4 (p_counters p) i <= p_counter_max p;
}.

Lemma weight_bounds ws burst c i : config_facts ws burst c -> 0 <= i < 4 -> 1 <= get4 (weights c) i <= total ws.
Proof.
  intros Hc Hi. pose proof (cf_weight _ _ _ Hc i Hi). pose proof (cf_product _ _ _ Hc i Hi).
  pose proof (cf_total _ _ _ Hc). nia.
Qed.

Lemma counter_max_bounds ws burst c : config_facts ws burst c -> 1 <= counter_max c <= COUNTER_LIMIT.
Proof.
  intros Hc. pose proof (cf_total _ _ _ Hc). pose proof (cf_burst _ _ _ Hc).
  rewrite (cf_max _ _ _ Hc). unfold BURST_SIZE_MAX, DATA_SIZE_MAX, U16_MAX, WEIGHT_MAX, COUNTER_LIMIT in *. nia.
Qed.

Lemma prio_new_inv ws burst c : config_facts ws burst c -> inv ws burst (new c).
Proof.
  intros Hc. pose proof (counter_max_bounds _ _ _ Hc). destruct c as [w m].
  split; [done|]. cbn in *. intros. channels; cbn; lia.
Qed.

Definition charge (p : Prio) (ch size : Z) (j : Z) : Z := if j =? ch then size * get4 (p_weights p) ch else 0.
Definition excess (p : Prio) (ch size : Z) : Z :=
  Z.max 0 (get4 (p_counters p) ch + size * get4 (p_weights p) ch - p_counter_max p).

Lemma prio_mark_sent_spec ws burst p ch size : inv ws burst p -> 0 <= ch < 4 -> 0 <= size <= DATA_SIZE_MAX ->
  exists p', mark_sent p ch size = Ok p' /\ inv ws burst p' /\
    p_weights p' = p_weights p /\ p_counter_max p' = p_counter_max p /\
    forall j, 0 <= j < 4 ->
      get4 (p_counters p') j = Z.max 0 (get4 (p_counters p) j + charge p ch size j - excess p ch size).
Proof.
  intros Hi Hch Hs. pose proof (i_config _ _ _ Hi) as Hc.
  pose proof (weight_bounds _ _ _ ch Hc Hch) as Hw. pose proof (counter_max_bounds _ _ _ Hc) as Hm.
  pose proof (cf_total _ _ _ Hc) as Ht. pose proof (i_counters _ _ _ Hi) as Hcs. pose proof (Hcs ch Hch) as Hcc.
  cbn [weights counter_max] in *. unfold DATA_SIZE_MAX, U16_MAX, WEIGHT_MAX, COUNTER_LIMIT in *.
  assert (0 <= size * get4 (p_weights p) ch <= 16776960) by nia.
  unfold mark_sent. rewrite !debug_assert_true by (unfold CHANNEL_COUNT, DATA_SIZE_MAX, U16_MAX;
    (apply Z.ltb_lt + apply Z.leb_le); lia). cbn [mbind outcome_bind].
  rewrite !index4_ok by done. cbn [mbind outcome_bind].
  unfold as_u32. rewrite Z.mod_small by (unfold two32; lia). rewrite mul32_ok by (unfold two32; lia).
  cbn [mbind outcome_bind]. unfold wrapping_add. rewrite wrap32_small by (unfold is_u32, two32; lia).
  destruct (update4_ok (p_counters p) ch (get4 (p_counters p) ch + size * get4 (p_weights p) ch) Hch)
    as (cs & Hu & Hg). rewrite Hu. cbn [mbind outcome_bind].
  assert (Hspec : forall j, 0 <= j < 4 -> get4 cs j = get4 (p_counters p) j + charge p ch size j).
  { intros j Hj. rewrite (Hg j Hj). unfold charge. destruct (Z.eqb_spec j ch); subst; lia. }
  assert (Hdone : forall p', p_weights p' = p_weights p -> p_counter_max p' = p_counter_max p ->
    (forall j, 0 <= j < 4 ->
      get4 (p_counters p') j = Z.max 0 (get4 (p_counters p) j + charge p ch size j - excess p ch size)) ->
    inv ws burst p').
  { intros p' Ew Em Ec. split; rewrite ?Ew, ?Em; [done|]. intros j Hj. rewrite (Ec j Hj).
    pose proof (Hcs j Hj). unfold charge, excess. destruct (Z.eqb_spec j ch); subst; lia. }
  case_bool.
  - rewrite sub32_ok by lia. cbn [mbind outcome_bind]. eexists. split; [done|].
    assert (Hj : forall j, 0 <= j < 4 -> get4 (map4 (fun c => saturating_sub c
      (get4 (p_counters p) ch + size * get4 (p_weights p) ch - p_counter_max p)) cs) j =
      Z.max 0 (get4 (p_counters p) j + charge p ch size j - excess p ch size)).
    { intros j Hj. rewrite get4_map, Hspec by done. unfold saturating_sub, excess. lia. }
    split; [by apply Hdone|]. done.
  - eexists. split; [done|].
    assert (Hj : forall j, 0 <= j < 4 -> get4 cs j =
      Z.max 0 (get4 (p_counters p) j + charge p ch size j - excess p ch size)).
    { intros j Hj. rewrite Hspec by done. pose proof (Hcs j Hj). unfold charge, excess.
      destruct (j =? ch); lia. }
    split; [by apply Hdone|]. done.
Qed.
End Laws.

(** ** The choice of the next channel *)

Definition ready (flags : bool * bool * bool * bool) (i : Z) : bool :=
  let '(r0, r1, r2, r3) := flags in
  if i =? 0 then r0 else if i =? 1 then r1 else if i =? 2 then r2 else r3.

Definition next_of (p : Prio) (flags : bool * bool * bool * bool) : option Z :=
  let '(r0, r1, r2, r3) := flags in next p r0 r1 r2 r3.

Lemma next_spec p flags :
  match next_of p flags with
  | Some i => 0 <= i < 4 /\ ready flags i = true /\
      forall j, 0 <= j < 4 -> ready flags j = true ->
        get4 (p_counters p) i <= get4 (p_counters p) j /\
        (j < i -> get4 (p_counters p) i < get4 (p_counters p) j)
  | None => forall j, 0 <= j < 4 -> ready flags j = false
  end.
Proof.
  destruct flags as [[[r0 r1] r2] r3]. destruct p as [[a b c d] ? ?]. unfold next_of, next, consider. cbn.
  destruct r0, r1, r2, r3; cbn; repeat (case_bool; cbn);
    repeat split; try done; intros; channels; cbn in *; (done || lia).
Qed.

(** ** Weighted fairness *)

(** One round: which channels have data, and the size the chosen one sends. *)
Definition round : Set := (bool * bool * bool * bool * Z)%type.

Fixpoint serve `{BuildProfile} (p : Prio) (rs : list round) : outcome (Prio * list (Z * Z)) :=
  match rs with
  | [] => Ok (p, [])
  | (flags, size) :: rs =>
      match next_of p flags with
      | None => serve p rs
      | Some ch =>
          p ← mark_sent p ch size;
          r ← serve p rs;
          Ok (r.1, (ch, size) :: r.2)
      end
  end.

(** The bytes a channel sent. *)
Fixpoint served (i : Z) (log : list (Z * Z)) : Z :=
  match log with
  | [] => 0
  | (ch, size) :: log => (if i =? ch then size else 0) + served i log
  end.

Definition always_ready (i : Z) (rs : list round) : Prop := Forall (fun r => ready r.1 i = true) rs.
Definition sizes_within (m : Z) (rs : list round) : Prop := Forall (fun r => 0 <= r.2 <= m) rs.

Section Fairness.
Context `{BuildProfile} (ws : array4) (burst : Z).

Lemma serve_ok p rs : inv ws burst p -> sizes_within DATA_SIZE_MAX rs ->
  exists p' log, serve p rs = Ok (p', log) /\ inv ws burst p' /\ p_weights p' = p_weights p.
Proof.
  revert p. induction rs as [|[flags size] rs IH]; intros p Hi Hs; [by exists p, []|].
  apply Forall_cons in Hs as [Hsize Hs]. cbn [fst snd] in Hsize. cbn [serve].
  pose proof (next_spec p flags) as Hn. destruct (next_of p flags) as [ch|]; [|by apply IH].
  destruct Hn as (Hch & _ & _).
  destruct (prio_mark_sent_spec ws burst p ch size Hi Hch Hsize) as (p1 & Hm & Hi1 & Hw & _).
  rewrite Hm. cbn [mbind outcome_bind].
  destruct (IH p1 Hi1 Hs) as (p' & log & Hr & Hi' & Hw'). rewrite Hr. cbn [mbind outcome_bind].
  do 2 eexists. split; [done|]. split; [done|]. cbn [fst]. congruence.
Qed.

Lemma charge_le ch p size : inv ws burst p -> 0 <= ch < 4 -> 0 <= size <= burst ->
  size * get4 (p_weights p) ch <= p_counter_max p.
Proof.
  intros Hi Hch Hs. pose proof (i_config _ _ _ Hi) as Hc.
  pose proof (weight_bounds _ _ _ ch Hc Hch) as Hw. pose proof (cf_max _ _ _ Hc) as Hm.
  cbn [weights counter_max] in *. rewrite Hm. nia.
Qed.

(** A channel that is ready is never saturated at zero, so its counter moves by what it
    sent less the common excess. *)
Lemma round_ready p flags size ch p' i :
  inv ws burst p -> 0 <= size <= burst -> size <= DATA_SIZE_MAX ->
  next_of p flags = Some ch -> mark_sent p ch size = Ok p' ->
  0 <= i < 4 -> ready flags i = true ->
  get4 (p_counters p') i = get4 (p_counters p) i + charge p ch size i - excess p ch size.
Proof.
  intros Hi Hs Hd Hn Hm Hr Hready. pose proof (next_spec p flags) as Hsp. rewrite Hn in Hsp.
  destruct Hsp as (Hch & _ & Hmin). destruct (Hmin i Hr Hready) as [Hle _].
  destruct (prio_mark_sent_spec ws burst p ch size Hi Hch) as (p1 & Hm1 & _ & _ & _ & Hc); [lia|].
  rewrite Hm in Hm1. injection Hm1 as <-. rewrite (Hc i Hr).
  pose proof (charge_le ch p size Hi Hch Hs). pose proof (i_counters _ _ _ Hi i Hr).
  pose proof (i_counters _ _ _ Hi ch Hch).
  pose proof (weight_bounds _ _ _ ch (i_config _ _ _ Hi) Hch). cbn [weights] in *.
  assert (0 <= size * get4 (p_weights p) ch) by nia.
  unfold charge, excess. destruct (Z.eqb_spec i ch); subst; lia.
Qed.

Lemma serve_gap i j p rs p' log :
  inv ws burst p -> sizes_within (Z.min burst DATA_SIZE_MAX) rs ->
  0 <= i < 4 -> 0 <= j < 4 -> always_ready i rs -> always_ready j rs ->
  serve p rs = Ok (p', log) ->
  get4 (p_counters p') i - get4 (p_counters p') j =
    get4 (p_counters p) i - get4 (p_counters p) j +
    (served i log * get4 (p_weights p) i - served j log * get4 (p_weights p) j).
Proof.
  intros Hi Hs Hri Hrj Hai Haj. revert p log Hi. induction rs as [|[flags size] rs IH]; intros p log Hi.
  { intros [= <- <-]. cbn. lia. }
  apply Forall_cons in Hs as [Hsize Hs]. apply Forall_cons in Hai as [Hfi Hai].
  apply Forall_cons in Haj as [Hfj Haj]. cbn [fst snd] in *. cbn [serve].
  pose proof (next_spec p flags) as Hn. destruct (next_of p flags) as [ch|] eqn:En.
  2: { specialize (Hn i Hri). congruence. }
  destruct Hn as (Hch & _ & _). intros Hr.
  destruct (prio_mark_sent_spec ws burst p ch size Hi Hch) as (p1 & Hm & Hi1 & Hw & _); [lia|].
  rewrite Hm in Hr. cbn [mbind outcome_bind] in Hr.
  apply outcome_bind_Ok in Hr as ([p2 log2] & Hr & [= -> <-]).
  rewrite (IH Hs Hai Haj p1 log2 Hi1 Hr), Hw.
  rewrite (round_ready p flags size ch p1 i), (round_ready p flags size ch p1 j) by (done || lia).
  cbn [served]. unfold charge.
  destruct (Z.eqb_spec i ch), (Z.eqb_spec j ch); subst; cbn [fst snd]; lia.
Qed.
End Fairness.

(** ** Theorems *)

(** Any weights and burst size that [Config::new] accepts leave the arithmetic of the
    channel counters within 32 bits: no sequence of sends of up to 65535 bytes each, on
    the channels [next] chooses, overflows or trips an assertion in any build profile,
    and every counter stays between zero and [counter_max], which is below
    [2^32 - 65535 * 256]. *)
Theorem prio_no_overflow `{BuildProfile} ws burst c rs :
  (forall i, 0 <= i < 4 -> 0 <= get4 ws i) -> 0 <= burst ->
  config_new ws burst = Ok c -> sizes_within DATA_SIZE_MAX rs ->
  exists p log, serve (new c) rs = Ok (p, log) /\
    counter_max c <= COUNTER_LIMIT /\
    forall i, 0 <= i < 4 -> 0 <= get4 (p_counters p) i <= p_counter_max p.
Proof.
  intros Hw Hb Hc Hs. pose proof (config_new_facts _ _ _ Hw Hb Hc) as Hf.
  destruct (serve_ok ws burst (new c) rs (prio_new_inv _ _ _ Hf) Hs) as (p & log & Hr & Hi & _).
  exists p, log. split; [done|]. split; [apply (counter_max_bounds _ _ _ Hf)|]. apply (i_counters _ _ _ Hi).
Qed.

Lemma prio_no_overflow_witness :
  let H : BuildProfile := true in
  let rs := [(true, true, false, false, 1024); (true, true, false, false, 65535)] in
  exists c, config_new (Array4 256 1 1 1) BURST_SIZE_MAX = Ok c /\
  exists p log, serve (new c) rs = Ok (p, log) /\
    counter_max c <= COUNTER_LIMIT /\
    forall i, 0 <= i < 4 -> 0 <= get4 (p_counters p) i <= p_counter_max p.
Proof.
  intros H rs. eexists. split; [by vm_compute|].
  apply (prio_no_overflow (Array4 256 1 1 1) BURST_SIZE_MAX).
  - intros. channels; cbn; lia.
  - by vm_compute.
  - by vm_compute.
  - subst rs. repeat constructor; by vm_compute.
Defined.

(** C37: Weighted fairness: as long as no datagram is larger than [burst_size] (nor than a frame
    can carry), two channels that have data in every round, each round sending what [next]
    chooses and recording it with [mark_sent], receive service in proportion to their
    weights, up to one burst: their normalised byte counts [served / weight] never differ by
    more than [burst_size], whatever the other two channels do.  The condition on sizes is
    needed: as the note on [burst_size] in endpoint/mod.rs says, with a burst that is too
    low all channels send with an effectively equal weight ([low_burst_equal]).  The default
    burst is 10000 and a datagram carries at most [FRAGMENT_SIZE] bytes. *)
Theorem weighted_fairness `{BuildProfile} ws burst c rs p log i j :
  (forall i, 0 <= i < 4 -> 0 <= get4 ws i) -> 0 <= burst ->
  config_new ws burst = Ok c -> sizes_within (Z.min burst DATA_SIZE_MAX) rs ->
  0 <= i < 4 -> 0 <= j < 4 -> always_ready i rs -> always_ready j rs ->
  serve (new c) rs = Ok (p, log) ->
  Z.abs (served i log * get4 ws j - served j log * get4 ws i) <= burst * (get4 ws i * get4 ws j).
Proof.
  intros Hw Hb Hc Hs Hi Hj Hai Haj Hr. pose proof (config_new_facts _ _ _ Hw Hb Hc) as Hf.
  pose proof (prio_new_inv _ _ _ Hf) as Hinv.
  pose proof (serve_gap ws burst i j _ _ _ _ Hinv Hs Hi Hj Hai Haj Hr) as Hgap.
  destruct (serve_ok ws burst (new c) rs Hinv) as (p1 & log1 & Hr1 & Hinv1 & _).
  { eapply Forall_impl; [exact Hs|]. cbn. lia. }
  rewrite Hr in Hr1. injection Hr1 as <- <-.
  pose proof (i_counters _ _ _ Hinv1 i Hi). pose proof (i_counters _ _ _ Hinv1 j Hj).
  pose proof (cf_max _ _ _ (i_config _ _ _ Hinv1)) as Hmax. cbn [counter_max] in Hmax.
  assert (Hz : forall k, 0 <= k < 4 -> get4 (p_counters (new c)) k = 0) by (intros; channels; done).
  rewrite !Hz in Hgap by done. cbn [new p_weights] in Hgap.
  pose proof (cf_product _ _ _ Hf i Hi). pose proof (cf_product _ _ _ Hf j Hj).
  pose proof (cf_weight _ _ _ Hf i Hi). pose proof (cf_weight _ _ _ Hf j Hj). pose proof (cf_total _ _ _ Hf).
  set (si := served i log) in *. set (sj := served j log) in *.
  assert (Hg : Z.abs (si * get4 (weights c) i - sj * get4 (weights c) j) <= burst * total ws) by lia.
  assert (He : (si * get4 ws j - sj * get4 ws i) * total ws =
    (si * get4 (weights c) i - sj * get4 (weights c) j) * (get4 ws i * get4 ws j)).
  { transitivity (si * get4 ws j * (get4 (weights c) i * get4 ws i)
      - sj * get4 ws i * (get4 (weights c) j * get4 ws j)); [|ring].
    rewrite !(cf_product _ _ _ Hf) by done. ring. }
  apply (Zmult_le_reg_r _ _ (total ws)); [lia|].
  transitivity (Z.abs ((si * get4 ws j - sj * get4 ws i) * total ws)).
  { rewrite Z.abs_mul, (Z.abs_eq (total ws)) by lia. lia. }
  rewrite He, Z.abs_mul, (Z.abs_eq (get4 ws i * get4 ws j)) by nia.
  transitivity (burst * total ws * (get4 ws i * get4 ws j)); [|lia].
  apply Z.mul_le_mono_nonneg_r; [nia|done].
Qed.

(** With a burst below the size of the datagrams, weights of three to one give equal service. *)
Lemma low_burst_equal :
  let H : BuildProfile := true in
  exists c p log, config_new (Array4 3 1 1 1) 10 = Ok c /\
    serve (new c) (replicate 12 (true, true, false, false, 1000)) = Ok (p, log) /\
    served 0 log = 6000 /\ served 1 log = 6000.
Proof. intros H. do 3 eexists. split; [by vm_compute|]. by split; [vm_compute|]. Qed.

Lemma weighted_fairness_witness :
  let H : BuildProfile := true in
  let rs := replicate 12 (true, true, false, false, 1000) in
  exists c p log, config_new (Array4 3 1 1 1) 2000 = Ok c /\ serve (new c) rs = Ok (p, log) /\
  Z.abs (served 0 log * 1 - served 1 log * 3) <= 2000 * (3 * 1).
Proof.
  intros H rs. do 3 eexists. split; [by vm_compute|]. split; [by vm_compute|].
  eapply (weighted_fairness (Array4 3 1 1 1) 2000 _ rs _ _ 0 1).
  - intros. channels; cbn; lia.
  - lia.
  - by vm_compute.
  - subst rs. repeat constructor; by vm_compute.
  - lia.
  - lia.
  - subst rs. repeat constructor; by vm_compute.
  - subst rs. repeat constructor; by vm_compute.
  - by vm_compute.
Defined.
End Prio.
