(* ===== verification/TimerQueue.v ===== *)
(** * The timer queue ([timer_queue.rs])

    A queue of weak references to timers that is tested a bounded number of entries at a
    time: every entry taken from the front is dropped if its timer is gone, and goes to
    the back otherwise, after the callback has run if it has expired.

    The timers live outside the queue: the state [σ] owns them, and the callback may change
    it, dropping timers included.  [upgrade] reads that state, [timer_test] may change it. *)

From S2P Require Import Prelude.

Section TimerQueue.
Context {σ W T : Type}.
(** [Weak::upgrade]. *)
Context (upgrade : σ -> W -> option T).
(** [Timer::test], which may change its timer. *)
Context (timer_test : σ -> T -> Z -> bool * σ).

Record TimerQueue : Type := mkTimerQueue { queue : list W }.

Definition default : TimerQueue := mkTimerQueue [].

Definition add_timer (self : TimerQueue) (timer : W) : TimerQueue :=
  mkTimerQueue (queue self ++ [timer]).

(** The body of the loop. *)
Definition test_one (cb : T -> σ -> σ) (now_ms : Z) (self : TimerQueue) (s : σ) : outcome (TimerQueue * σ) :=
  match queue self with
  | [] => Fault Panicked
  | timer_weak :: rest =>
      match upgrade s timer_weak with
      | Some timer =>
          let '(expired, s) := timer_test s timer now_ms in
          let s := if expired : bool then cb timer s else s in
          Ok (mkTimerQueue (rest ++ [timer_weak]), s)
      | None => Ok (mkTimerQueue rest, s)
      end
  end.

Fixpoint test_loop (iters : nat) (cb : T -> σ -> σ) (now_ms : Z) (self : TimerQueue) (s : σ)
  : outcome (TimerQueue * σ) :=
  match iters with
  | O => Ok (self, s)
  | S n => '(self, s) ← test_one cb now_ms self s; test_loop n cb now_ms self s
  end.

Definition test (limit : nat) (cb : T -> σ -> σ) (now_ms : Z) (self : TimerQueue) (s : σ)
  : outcome (TimerQueue * σ) :=
  let max_iters := Nat.min limit (length (queue self)) in
  test_loop max_iters cb now_ms self s.

Definition len (self : TimerQueue) : nat := length (queue self).

(** The state after one timer has had its turn. *)
Definition turn_of (cb : T -> σ -> σ) (now_ms : Z) (t : T) (s : σ) : σ :=
  let r := timer_test s t now_ms in if r.1 then cb t r.2 else r.2.

(** ** Specification

    A sweep over a prefix of the queue, entry by entry: the entries kept, and the state
    after the callbacks. *)
Fixpoint sweep (cb : T -> σ -> σ) (now_ms : Z) (ws : list W) (s : σ) : list W * σ :=
  match ws with
  | [] => ([], s)
  | w :: ws =>
      match upgrade s w with
      | Some t =>
          let s := turn_of cb now_ms t s in
          let r := sweep cb now_ms ws s in (w :: r.1, r.2)
      | None => sweep cb now_ms ws s
      end
  end.

Lemma test_loop_sweep n cb now ws rest s :
  length ws = n ->
  test_loop n cb now (mkTimerQueue (ws ++ rest)) s
  = Ok (mkTimerQueue (rest ++ (sweep cb now ws s).1), (sweep cb now ws s).2).
Proof.
  revert ws rest s. induction n as [|n IH]; intros [|w ws] rest s Hn; try done.
  - cbn. by rewrite app_nil_r.
  - injection Hn as Hn. cbn [test_loop sweep]. unfold test_one. cbn [queue app].
    destruct (upgrade s w) as [t|]; cbn [mbind outcome_bind].
    + unfold turn_of. destruct (timer_test s t now) as [b s']. cbn [fst snd mbind outcome_bind].
      rewrite <- app_assoc, IH by done. cbn [fst snd]. by rewrite <- app_assoc.
    + by rewrite IH.
Qed.

Lemma test_sweep limit cb now q s :
  test limit cb now (mkTimerQueue q) s
  = Ok (mkTimerQueue (drop limit q ++ (sweep cb now (take limit q) s).1), (sweep cb now (take limit q) s).2).
Proof.
  unfold test. cbn [queue]. rewrite <- (take_drop (Nat.min limit (length q)) q) at 2.
  rewrite test_loop_sweep by (rewrite length_take; lia).
  destruct (decide (limit <= length q)%nat).
  - by rewrite Nat.min_l by done.
  - rewrite Nat.min_r by lia. rewrite !(take_ge q), !drop_ge by lia. done.
Qed.

(** The entries examined during a sweep, each with the state in which it was. *)
Fixpoint examined (cb : T -> σ -> σ) (now_ms : Z) (ws : list W) (s : σ) : list (W * σ * Z) :=
  match ws with
  | [] => []
  | w :: ws =>
      (w, s, now_ms) ::
      match upgrade s w with
      | Some t => examined cb now_ms ws (turn_of cb now_ms t s)
      | None => examined cb now_ms ws s
      end
  end.

Lemma examined_fst cb now ws s : (fun x => x.1.1) <$> examined cb now ws s = ws.
Proof.
  revert s. induction ws as [|w ws IH]; intros s; [done|]. cbn.
  destruct (upgrade s w); by rewrite IH.
Qed.

(** ** Use over time *)

(** What happens to the queue and to its timers: bounded tests, new timers, and changes
    made by the rest of the program. *)
Inductive op : Type :=
| Test (limit : nat) (now_ms : Z)
| Add (w : W)
| World (f : σ -> σ).

Fixpoint run (cb : T -> σ -> σ) (self : TimerQueue) (s : σ) (ops : list op)
  : outcome (TimerQueue * σ * list (W * σ * Z)) :=
  match ops with
  | [] => Ok (self, s, [])
  | Test limit now :: ops =>
      '(self', s') ← test limit cb now self s;
      '(self'', s'', tr) ← run cb self' s' ops;
      Ok (self'', s'', examined cb now (take limit (queue self)) s ++ tr)
  | Add w :: ops => run cb (add_timer self w) s ops
  | World f :: ops => run cb self (f s) ops
  end.

Definition budget (ops : list op) : nat :=
  sum_list_with (fun o => match o with Test limit _ => limit | _ => O end) ops.

Lemma run_ok cb self s ops : exists r, run cb self s ops = Ok r.
Proof.
  revert self s. induction ops as [|[l now|w|f] ops IH]; intros [q] s; cbn [run].
  - by eexists.
  - rewrite test_sweep. cbn [mbind outcome_bind].
    edestruct IH as [[[q' s'] tr] Hr]. rewrite Hr. by eexists.
  - apply IH.
  - apply IH.
Qed.

Lemma turn cb self s ops i w self' s' tr :
  run cb self s ops = Ok (self', s', tr) -> queue self !! i = Some w -> (i < budget ops)%nat ->
  exists s1 now, (w, s1, now) ∈ tr.
Proof.
  revert self s i tr. induction ops as [|[l now|w'|f] ops IH]; intros [q] s i tr; cbn [run queue]; intros Hr Hi Hb.
  - unfold budget in Hb. cbn in Hb. lia.
  - rewrite test_sweep in Hr. cbn [mbind outcome_bind] in Hr.
    apply outcome_bind_Ok in Hr as ([[q1 s1] tr1] & Hr & [= -> -> <-]).
    destruct (decide (i < l)%nat) as [Hl|Hl].
    + assert (Hin : w ∈ (fun x => x.1.1) <$> examined cb now (take l q) s).
      { rewrite examined_fst. apply list_elem_of_lookup. exists i. by rewrite lookup_take_lt. }
      apply list_elem_of_fmap in Hin as ([[w1 s2] n] & -> & Hin).
      exists s2, n. apply elem_of_app. by left.
    + destruct (IH _ _ (i - l)%nat _ Hr) as (s2 & n & Hin).
      * cbn [queue]. rewrite lookup_app_l by (rewrite length_drop; apply lookup_lt_Some in Hi; lia).
        rewrite lookup_drop. by replace (l + (i - l))%nat with i by lia.
      * unfold budget in *. cbn in Hb. lia.
      * exists s2, n. apply elem_of_app. by right.
  - apply (IH _ _ i _ Hr); [|done]. cbn. by apply lookup_app_l_Some.
  - by apply (IH _ _ i _ Hr).
Qed.
End TimerQueue.
Arguments Test {σ W} _ _.
Arguments Add {σ W} _.
Arguments World {σ W} _.

(** C38: The queue never panics, a test of [limit] entries keeps exactly the entries of its
    prefix that are alive, behind the rest of the queue and in order, and every timer has
    its turn: an entry at index [i] is examined, whatever is added, dropped or called
    back meanwhile, as soon as the limits of the tests add up to more than [i]. *)
Theorem timer_turn {σ W T} (upgrade : σ -> W -> option T) (timer_test : σ -> T -> Z -> bool * σ)
    (cb : T -> σ -> σ) (q : TimerQueue) (s : σ) (ops : list op) :
  exists q' s' tr, run upgrade timer_test cb q s ops = Ok (q', s', tr) /\
    (forall i w, queue q !! i = Some w -> (i < budget ops)%nat -> exists s1 now, (w, s1, now) ∈ tr) /\
    (forall limit now, test upgrade timer_test limit cb now q s =
      let r := sweep upgrade timer_test cb now (take limit (queue q)) s in
      Ok (mkTimerQueue (drop limit (queue q) ++ r.1), r.2)).
Proof.
  destruct (run_ok upgrade timer_test cb q s ops) as [[[q' s'] tr] Hr].
  exists q', s', tr. split; [done|]. split.
  - intros i w. by apply (turn _ _ _ _ _ _ _ _ _ _ _ Hr).
  - intros. destruct q. apply test_sweep.
Qed.
