(* ===== verification/Float32.v ===== *)
(** * Single-precision arithmetic

    The [f32] operations of the round-trip estimator, on the Standard Library's
    specification of IEEE 754 binary arithmetic with 24 bits of precision: conversions
    from and to [u64] ([as] saturates), [+], [-], [*], [/], [abs], [max] and [ceil]. *)

From Stdlib Require Import SpecFloat.
From S2P Require Import Prelude Word.

Module F32.
Definition f32 : Set := spec_float.
Definition prec : Z := 24.
Definition emax : Z := 128.

(** The float nearest to [m * 2^e], ties to even. *)
Definition of_dyadic (m e : Z) : f32 := binary_normalize prec emax m e false.

(** [x as f32] for [x : u64]. *)
Definition of_u64 (x : Z) : f32 := of_dyadic x 0.

Definition add (x y : f32) : f32 := SFadd prec emax x y.
Definition sub (x y : f32) : f32 := SFsub prec emax x y.
Definition mul (x y : f32) : f32 := SFmul prec emax x y.
Definition div (x y : f32) : f32 := SFdiv prec emax x y.
Definition abs (x : f32) : f32 := SFabs x.

Definition is_nan (x : f32) : bool := match x with S754_nan => true | _ => false end.

(** [f32::max] returns the other operand when one is not a number. *)
Definition max (x y : f32) : f32 :=
  if is_nan x then y else if is_nan y then x else if SFltb x y then y else x.

(** [m * 2^e] rounded up, for [e < 0]. *)
Definition ceil_shift (m : Z) (e : Z) : Z := - (- m / 2 ^ (- e)).

Definition ceil (x : f32) : f32 :=
  match x with
  | S754_finite s m e =>
      if 0 <=? e then x
      else
        let n := ceil_shift (cond_Zopp s (Zpos m)) e in
        if n =? 0 then S754_zero s else of_dyadic n 0
  | _ => x
  end.

(** [x as u64]: truncation, saturating at both ends, zero for a NaN. *)
Definition to_u64 (x : f32) : Z :=
  match x with
  | S754_zero _ => 0
  | S754_infinity s => if s then 0 else U64_MAX
  | S754_nan => 0
  | S754_finite s m e =>
      if s then 0
      else Z.min U64_MAX (if 0 <=? e then Zpos m * 2 ^ e else Zpos m / 2 ^ (- e))
  end.

Lemma to_u64_range x : 0 <= to_u64 x <= U64_MAX.
Proof.
  destruct x as [| [] | |[] m e]; cbn [to_u64]; unfold U64_MAX; try lia.
  assert (0 <= (if 0 <=? e then Zpos m * 2 ^ e else Zpos m / 2 ^ (- e))).
  { case_bool; [apply Z.mul_nonneg_nonneg | apply Z.div_pos]; lia. }
  lia.
Qed.
End F32.

(** Small conversions, and roundings of each operation. *)
Example f32_roundtrip_exact : F32.to_u64 (F32.of_u64 16777215) = 16777215.
Proof. reflexivity. Qed.
Example f32_rounds_to_even : F32.to_u64 (F32.of_u64 16777217) = 16777216.
Proof. reflexivity. Qed.
Example f32_ceil : F32.to_u64 (F32.ceil (F32.div (F32.of_u64 7) (F32.of_u64 2))) = 4.
Proof. reflexivity. Qed.
Example f32_abs : F32.to_u64 (F32.abs (F32.sub (F32.of_u64 3) (F32.of_u64 10))) = 7.
Proof. reflexivity. Qed.
