(* ===== verification/Endpoint.v ===== *)
(** * The connection endpoint ([endpoint/mod.rs], [SendMode] of [lib.rs])

    The state machine of one side of an established connection: it owns the fragment
    buffers, the segment windows, congestion control, the round-trip estimator and the
    retransmission timer, and talks to its host through the [HostContext] interface. *)

From S2P Require Import Prelude Word Fragment Reliable Unreliable Frame Serial.
From S2P Require Import SegmentTx SegmentRx CongestionControl Prio Float32.

(** ** The interface to the host

    What the endpoint calls back, on a host state [C].  The endpoint never reads the
    host's state. *)
Class HostContext (C : Type) := {
  send_frame : list Z -> C -> C;
  set_rto_timer : Z -> C -> C;
  unset_rto_timer : C -> C;
  on_connect : C -> C;
  on_disconnect : C -> C;
  on_receive : list Z -> C -> C;
  on_timeout : C -> C;
}.

(** The thread's random number generator, from which segment nonces are drawn. *)
Class ThreadRng (C : Type) := rand_random : C -> bool * C.

Inductive SendMode : Set :=
| SendReliable
| SendUnreliable (timeout_ms : Z).

Module Endpoint.
Definition DISCONNECT_TIMEOUT_MS : Z := 10000.
Definition FRAME_SIZE_MAX : Z := 1472.
Definition SEGMENT_WINDOW_SIZE : Z := 4096.
Definition FRAGMENT_SIZE : Z := 1024.
Definition FRAGMENT_WINDOW_SIZE : Z := 4096.
Definition RTO_INITIAL_MS : Z := 1000.
Definition RTO_MAX_MS : Z := 60000.
Definition RTO_MIN_MS : Z := 1000.

Definition ALPHA : F32.f32 := F32.of_dyadic 1 (-3).
Definition BETA : F32.f32 := F32.of_dyadic 1 (-2).
Definition G_MS : F32.f32 := F32.of_dyadic 4 0.
Definition K : F32.f32 := F32.of_dyadic 4 0.
Definition ONE : F32.f32 := F32.of_dyadic 1 0.
Definition TWO : F32.f32 := F32.of_dyadic 2 0.

Record ChannelBalanceConfig : Set := mkChannelBalanceConfig {
  unreliable_weight : Z;
  reliable_weight : Z;
  burst_size : Z;
}.

(** [u64::clamp]. *)
Definition clamp (x lo hi : Z) : Z := if x <? lo then lo else if hi <? x then hi else x.

Inductive TimeoutAction : Set := Continue | Terminate.

Record Config : Set := mkConfig {
  timeout_time_ms : Z;
  prio_config : Prio.Config;
}.

(** ** Fragment transmission *)

Record FragmentTxBuffers : Set := mkFragmentTxBuffers {
  unrel : UnreliableTxBuffer.TxBuffer;
  rel : ReliableTxBuffer.TxBuffer;
  prio : Prio.Prio;
}.

Section Buffers.
Context `{BuildProfile}.

Definition prio_config_from (val : ChannelBalanceConfig) : outcome Prio.Config :=
  Prio.config_new (Prio.Array4 (unreliable_weight val) (reliable_weight val) 1 1) (burst_size val).

Definition validate (self : ChannelBalanceConfig) : outcome () := _ ← prio_config_from self; Ok ().

Definition balance_default : ChannelBalanceConfig := mkChannelBalanceConfig 1 1 10000.

Definition ftx_new (window_base_id window_size fragment_size : Z) (config : Prio.Config)
  : outcome FragmentTxBuffers :=
  unrel ← UnreliableTxBuffer.new window_base_id fragment_size;
  rel ← ReliableTxBuffer.new window_base_id fragment_size window_size;
  Ok (mkFragmentTxBuffers unrel rel (Prio.new config)).

Definition ftx_enqueue (self : FragmentTxBuffers) (packet_bytes : list Z) (mode : SendMode) (now_ms : Z)
  : outcome FragmentTxBuffers :=
  match mode with
  | SendReliable =>
      rel ← ReliableTxBuffer.push (rel self) packet_bytes;
      Ok (mkFragmentTxBuffers (unrel self) rel (prio self))
  | SendUnreliable timeout_ms =>
      t ← add64 now_ms timeout_ms;
      expire ← add64 t 1;
      unrel ← UnreliableTxBuffer.push (unrel self) packet_bytes expire;
      Ok (mkFragmentTxBuffers unrel (rel self) (prio self))
  end.

Definition ftx_acknowledge (self : FragmentTxBuffers) (rel_fragment_id : option Z) : outcome FragmentTxBuffers :=
  match rel_fragment_id with
  | Some id =>
      '(rel, _) ← ReliableTxBuffer.acknowledge (rel self) id;
      Ok (mkFragmentTxBuffers (unrel self) rel (prio self))
  | None => Ok self
  end.

Definition ftx_handle_timeout (self : FragmentTxBuffers) : FragmentTxBuffers :=
  mkFragmentTxBuffers (unrel self) (ReliableTxBuffer.resend_all (rel self)) (prio self).

Definition ftx_pop_expired (self : FragmentTxBuffers) (now_ms : Z) : FragmentTxBuffers :=
  mkFragmentTxBuffers (UnreliableTxBuffer.pop_expired (unrel self) now_ms) (rel self) (prio self).

Definition ftx_data_ready (self : FragmentTxBuffers) (now_ms : Z) : FragmentTxBuffers * bool :=
  let self := ftx_pop_expired self now_ms in
  (self, bool_decide (is_Some (UnreliableTxBuffer.peek_sendable (unrel self)))
      || bool_decide (is_Some (ReliableTxBuffer.peek_sendable (rel self)))).

(** The datagram of a fragment. *)
Definition datagram_of (channel_idx id : Z) (fragment : FragmentRc) : outcome Datagram :=
  data ← index_range (rc_data fragment) (rc_data_range fragment).1 (rc_data_range fragment).2;
  Ok {| dg_id := id; dg_unrel := channel_idx =? 0; dg_first := rc_first fragment;
        dg_last := rc_last fragment; dg_data := data |}.

(** [pop_sendable().expect("NANI?")] on the chosen channel. *)
Definition ftx_pop (self : FragmentTxBuffers) (channel_idx : Z) : outcome FragmentTxBuffers :=
  if channel_idx =? 0 then
    match UnreliableTxBuffer.pop_sendable (unrel self) with
    | (unrel, Some _) => Ok (mkFragmentTxBuffers unrel (rel self) (prio self))
    | (_, None) => Fault Panicked
    end
  else if channel_idx =? 1 then
    match ReliableTxBuffer.pop_sendable (rel self) with
    | (rel, Some _) => Ok (mkFragmentTxBuffers (unrel self) rel (prio self))
    | (_, None) => Fault Panicked
    end
  else Fault Panicked.

(** One turn of the loop of [flush]: [None] when the loop breaks. *)
Definition ftx_flush_step (self : FragmentTxBuffers) (writer : FrameWriter) (now_ms : Z)
  : outcome (FragmentTxBuffers * FrameWriter * option Z) :=
  let self := ftx_pop_expired self now_ms in
  let unrel_next := UnreliableTxBuffer.peek_sendable (unrel self) in
  let rel_next := ReliableTxBuffer.peek_sendable (rel self) in
  let next_channel_idx :=
    Prio.next (prio self) (bool_decide (is_Some unrel_next)) (bool_decide (is_Some rel_next)) false false in
  match next_channel_idx with
  | None => Ok (self, writer, None)
  | Some channel_idx =>
      next ← (if channel_idx =? 0 then Ok unrel_next
              else if channel_idx =? 1 then Ok rel_next else Fault Panicked);
      match next with
      | None => Fault Panicked
      | Some (id, fragment) =>
          datagram ← datagram_of channel_idx id fragment;
          '(writer, written) ← frame_writer_write writer datagram;
          if written : bool then
            let data_size := zlen (dg_data datagram) in
            prio ← Prio.mark_sent (prio self) channel_idx data_size;
            self ← ftx_pop (mkFragmentTxBuffers (unrel self) (rel self) prio) channel_idx;
            Ok (self, writer, Some data_size)
          else Ok (self, writer, None)
      end
  end.

(** Every turn of the loop that does not break writes a datagram, header included, into the
    frame; the size of the frame buffer is enough fuel. *)
Fixpoint ftx_flush_loop (fuel : nat) (self : FragmentTxBuffers) (writer : FrameWriter) (now_ms data_size_total : Z)
  : outcome (FragmentTxBuffers * FrameWriter * Z) :=
  match fuel with
  | O => Fault OutOfFuel
  | S fuel =>
      '(self, writer, sent) ← ftx_flush_step self writer now_ms;
      match sent with
      | None => Ok (self, writer, data_size_total)
      | Some data_size =>
          total ← add64 data_size_total data_size;
          ftx_flush_loop fuel self writer now_ms total
      end
  end.

Definition ftx_flush (self : FragmentTxBuffers) (writer : FrameWriter) (now_ms : Z)
  : outcome (FragmentTxBuffers * FrameWriter * Z) :=
  ftx_flush_loop (S (length (fw_buffer writer))) self writer now_ms 0.
End Buffers.

(** ** The endpoint's state *)

Record RttState : Set := mkRttState { srtt_ms : F32.f32; rttvar_ms : F32.f32 }.
Record RtoTimerState : Set := mkRtoTimerState { rts_rto_ms : Z; rts_rto_sum_ms : Z }.
Record RttTimerState : Set := mkRttTimerState {
  rtt_segment_id : Z;
  rtt_send_time_ms : Z;
  rtt_expire_time_ms : Z;
}.

Inductive StateId : Set := PreInit | Active | Closing | Closed | Zombie.

#[global] Instance state_id_eq_dec : EqDecision StateId.
Proof. solve_decision. Defined.

Record Endpoint : Set := mkEndpoint {
  config : Config;
  state_id : StateId;
  local_nonce : Z;
  remote_nonce : Z;
  segment_tx : SegmentTx.SegmentTx;
  fragment_tx : FragmentTxBuffers;
  cc_state : AimdReno.AimdReno;
  tx_buffer : list Z;
  rto_ms : Z;
  rto_timer_state : option RtoTimerState;
  rtt_state : option RttState;
  rtt_timer_state : option RttTimerState;
  segment_rx : SegmentRx.SegmentRx;
  unreliable_rx : UnreliableRxBuffer.RxBuffer;
  reliable_rx : ReliableRxBuffer.RxBuffer;
}.

(** Field assignments. *)
Definition set_state_id (x : StateId) (e : Endpoint) : Endpoint :=
  mkEndpoint (config e) x (local_nonce e) (remote_nonce e) (segment_tx e) (fragment_tx e) (cc_state
    e) (tx_buffer e) (rto_ms e) (rto_timer_state e) (rtt_state e) (rtt_timer_state e) (segment_rx e)
    (unreliable_rx e) (reliable_rx e).
Definition set_segment_tx (x : SegmentTx.SegmentTx) (e : Endpoint) : Endpoint :=
  mkEndpoint (config e) (state_id e) (local_nonce e) (remote_nonce e) x (fragment_tx e) (cc_state e)
    (tx_buffer e) (rto_ms e) (rto_timer_state e) (rtt_state e) (rtt_timer_state e) (segment_rx e)
    (unreliable_rx e) (reliable_rx e).
Definition set_fragment_tx (x : FragmentTxBuffers) (e : Endpoint) : Endpoint :=
  mkEndpoint (config e) (state_id e) (local_nonce e) (remote_nonce e) (segment_tx e) x (cc_state e)
    (tx_buffer e) (rto_ms e) (rto_timer_state e) (rtt_state e) (rtt_timer_state e) (segment_rx e)
    (unreliable_rx e) (reliable_rx e).
Definition set_cc_state (x : AimdReno.AimdReno) (e : Endpoint) : Endpoint :=
  mkEndpoint (config e) (state_id e) (local_nonce e) (remote_nonce e) (segment_tx e) (fragment_tx e)
    x (tx_buffer e) (rto_ms e) (rto_timer_state e) (rtt_state e) (rtt_timer_state e) (segment_rx e)
    (unreliable_rx e) (reliable_rx e).
Definition set_tx_buffer (x : list Z) (e : Endpoint) : Endpoint :=
  mkEndpoint (config e) (state_id e) (local_nonce e) (remote_nonce e) (segment_tx e) (fragment_tx e)
    (cc_state e) x (rto_ms e) (rto_timer_state e) (rtt_state e) (rtt_timer_state e) (segment_rx e)
    (unreliable_rx e) (reliable_rx e).
Definition set_rto_ms (x : Z) (e : Endpoint) : Endpoint :=
  mkEndpoint (config e) (state_id e) (local_nonce e) (remote_nonce e) (segment_tx e) (fragment_tx e)
    (cc_state e) (tx_buffer e) x (rto_timer_state e) (rtt_state e) (rtt_timer_state e) (segment_rx
    e) (unreliable_rx e) (reliable_rx e).
Definition set_rto_timer_state (x : option RtoTimerState) (e : Endpoint) : Endpoint :=
  mkEndpoint (config e) (state_id e) (local_nonce e) (remote_nonce e) (segment_tx e) (fragment_tx e)
    (cc_state e) (tx_buffer e) (rto_ms e) x (rtt_state e) (rtt_timer_state e) (segment_rx e)
    (unreliable_rx e) (reliable_rx e).
Definition set_rtt_state (x : option RttState) (e : Endpoint) : Endpoint :=
  mkEndpoint (config e) (state_id e) (local_nonce e) (remote_nonce e) (segment_tx e) (fragment_tx e)
    (cc_state e) (tx_buffer e) (rto_ms e) (rto_timer_state e) x (rtt_timer_state e) (segment_rx e)
    (unreliable_rx e) (reliable_rx e).
Definition set_rtt_timer_state (x : option RttTimerState) (e : Endpoint) : Endpoint :=
  mkEndpoint (config e) (state_id e) (local_nonce e) (remote_nonce e) (segment_tx e) (fragment_tx e)
    (cc_state e) (tx_buffer e) (rto_ms e) (rto_timer_state e) (rtt_state e) x (segment_rx e)
    (unreliable_rx e) (reliable_rx e).
Definition set_segment_rx (x : SegmentRx.SegmentRx) (e : Endpoint) : Endpoint :=
  mkEndpoint (config e) (state_id e) (local_nonce e) (remote_nonce e) (segment_tx e) (fragment_tx e)
    (cc_state e) (tx_buffer e) (rto_ms e) (rto_timer_state e) (rtt_state e) (rtt_timer_state e) x
    (unreliable_rx e) (reliable_rx e).
Definition set_unreliable_rx (x : UnreliableRxBuffer.RxBuffer) (e : Endpoint) : Endpoint :=
  mkEndpoint (config e) (state_id e) (local_nonce e) (remote_nonce e) (segment_tx e) (fragment_tx e)
    (cc_state e) (tx_buffer e) (rto_ms e) (rto_timer_state e) (rtt_state e) (rtt_timer_state e)
    (segment_rx e) x (reliable_rx e).
Definition set_reliable_rx (x : ReliableRxBuffer.RxBuffer) (e : Endpoint) : Endpoint :=
  mkEndpoint (config e) (state_id e) (local_nonce e) (remote_nonce e) (segment_tx e) (fragment_tx e)
    (cc_state e) (tx_buffer e) (rto_ms e) (rto_timer_state e) (rtt_state e) (rtt_timer_state e)
    (segment_rx e) (unreliable_rx e) x.

Section Endpoint.
Context `{BuildProfile} {C : Type} `{HostContext C} `{ThreadRng C}.

Definition new (cfg : Config) : outcome Endpoint :=
  segment_tx ← SegmentTx.new 0 SEGMENT_WINDOW_SIZE;
  fragment_tx ← ftx_new 0 FRAGMENT_WINDOW_SIZE FRAGMENT_SIZE (prio_config cfg);
  cc_state ← AimdReno.new FRAGMENT_SIZE;
  unreliable_rx ← UnreliableRxBuffer.new 0 FRAGMENT_SIZE;
  reliable_rx ← ReliableRxBuffer.new 0 FRAGMENT_SIZE;
  Ok {| config := cfg;
        state_id := PreInit;
        local_nonce := 0;
        remote_nonce := 0;
        segment_tx := segment_tx;
        fragment_tx := fragment_tx;
        cc_state := cc_state;
        tx_buffer := replicate (Z.to_nat FRAME_SIZE_MAX) 0;
        rto_ms := RTO_INITIAL_MS;
        rto_timer_state := None;
        rtt_state := None;
        rtt_timer_state := None;
        segment_rx := SegmentRx.new 0 SEGMENT_WINDOW_SIZE FRAME_SIZE_MAX;
        unreliable_rx := unreliable_rx;
        reliable_rx := reliable_rx |}.

Definition init (self : Endpoint) (ctx : C) : outcome (Endpoint * C) :=
  _ ← debug_assert (bool_decide (state_id self = PreInit));
  Ok (set_state_id Active self, on_connect ctx).

Definition enqueue (self : Endpoint) (packet_bytes : list Z) (mode : SendMode) (now_ms : Z) : outcome Endpoint :=
  if decide (state_id self = Active) then
    ft ← ftx_enqueue (fragment_tx self) packet_bytes mode now_ms;
    Ok (set_fragment_tx ft self)
  else Ok self.

(** ** Control frames *)

Definition send_close_frame (self : Endpoint) (ctx : C) : outcome (Endpoint * C) :=
  '(frame, buf) ← simple_frame_write (mkCloseFrame (remote_nonce self)) (tx_buffer self);
  Ok (set_tx_buffer buf self, send_frame frame ctx).

Definition send_close_ack_frame (self : Endpoint) (ctx : C) : outcome (Endpoint * C) :=
  '(frame, buf) ← simple_frame_write (mkCloseAckFrame (remote_nonce self)) (tx_buffer self);
  Ok (set_tx_buffer buf self, send_frame frame ctx).

Definition send_stream_sync_frame (self : Endpoint) (next_segment_id : Z) (ctx : C) : outcome (Endpoint * C) :=
  '(frame, buf) ← simple_frame_write (mkStreamSync next_segment_id) (tx_buffer self);
  Ok (set_tx_buffer buf self, send_frame frame ctx).

Definition validate_close_frame (self : Endpoint) (payload_bytes : list Z) : outcome bool :=
  frame ← simple_payload_read payload_bytes;
  Ok (match frame with
      | Some frame => cl_remote_nonce frame =? local_nonce self
      | None => false
      end).

Definition validate_close_ack_frame (self : Endpoint) (payload_bytes : list Z) : outcome bool :=
  frame ← simple_payload_read payload_bytes;
  Ok (match frame with
      | Some frame => ca_remote_nonce frame =? local_nonce self
      | None => false
      end).

Definition enter_closing (self : Endpoint) (now_ms : Z) (ctx : C) : outcome (Endpoint * C) :=
  let self := set_state_id Closing self in
  t ← add64 now_ms (rto_ms self);
  let ctx := set_rto_timer t ctx in
  let self := set_rto_timer_state (Some (mkRtoTimerState (rto_ms self) 0)) self in
  send_close_frame self ctx.

Definition enter_closed (self : Endpoint) (now_ms : Z) (ctx : C) : outcome (Endpoint * C) :=
  let self := set_state_id Closed self in
  let ctx := on_disconnect ctx in
  t ← add64 now_ms DISCONNECT_TIMEOUT_MS;
  let ctx := set_rto_timer t ctx in
  Ok (set_rto_timer_state None self, ctx).

(** ** The flush loop *)

Definition stream_frame_type (send_ack send_data : bool) : outcome FrameType :=
  match send_ack, send_data with
  | false, true => Ok StreamSegment
  | true, false => Ok StreamAckType
  | true, true => Ok StreamSegmentAck
  | false, false => Fault Panicked
  end.

(** The acknowledgement appended to a frame. *)
Definition write_ack (self : Endpoint) (ack_rel : bool) (writer : FrameWriter) : outcome FrameWriter :=
  let segment_id := SegmentRx.next_expected_id (segment_rx self) in
  let '(segment_history, segment_checksum) := SegmentRx.next_ack_info (segment_rx self) in
  let rel_fragment_id :=
    if ack_rel then Some (ReliableRxBuffer.next_expected_id (reliable_rx self)) else None in
  let ack := {| sa_segment_id := segment_id; sa_segment_history := segment_history;
                sa_segment_checksum := segment_checksum; sa_rel_fragment_id := rel_fragment_id |} in
  '(writer, _) ← frame_writer_write writer ack;
  Ok writer.

(** The segment appended to a frame, with the timers it starts. *)
Definition write_segment (self : Endpoint) (writer : FrameWriter) (now_ms : Z) (ctx : C)
  : outcome (Endpoint * FrameWriter * C) :=
  let segment_id := SegmentTx.next_id (segment_tx self) in
  let '(segment_nonce, ctx) := rand_random ctx in
  segment_tx ← SegmentTx.compute_next_nonce (segment_tx self) segment_nonce;
  let header := mkStreamSegmentHeader segment_id segment_nonce in
  '(writer, _) ← frame_writer_write writer header;
  '(fragment_tx, writer, size_written) ← ftx_flush (fragment_tx self) writer now_ms;
  _ ← debug_assert (0 <? size_written);
  segment_tx ← SegmentTx.mark_sent segment_tx size_written;
  let self := set_segment_tx segment_tx (set_fragment_tx fragment_tx self) in
  '(self, ctx) ←
    (match rto_timer_state self with
     | None =>
         t ← add64 now_ms (rto_ms self);
         Ok (set_rto_timer_state (Some (mkRtoTimerState (rto_ms self) 0)) self, set_rto_timer t ctx)
     | Some _ => Ok (self, ctx)
     end);
  self ←
    (match rtt_timer_state self with
     | None =>
         t ← add64 now_ms (rto_ms self);
         Ok (set_rtt_timer_state (Some (mkRttTimerState segment_id now_ms t)) self)
     | Some _ => Ok self
     end);
  Ok (self, writer, ctx).

(** One turn of the loop of [flush_stream]; the boolean tells whether the loop goes on. *)
Definition flush_step (send_ack ack_rel : bool) (self : Endpoint) (now_ms : Z) (ctx : C)
  : outcome (Endpoint * C * bool) :=
  let cwnd := AimdReno.cwnd (cc_state self) in
  let frame_window_limited := negb (SegmentTx.can_send (segment_tx self)) in
  let congestion_window_limited := cwnd <=? SegmentTx.bytes_in_transit (segment_tx self) in
  let '(ft, data_ready) := ftx_data_ready (fragment_tx self) now_ms in
  let self := set_fragment_tx ft self in
  let send_data := negb frame_window_limited && negb congestion_window_limited && data_ready in
  if send_ack || send_data then
    frame_type ← stream_frame_type send_ack send_data;
    writer ← frame_writer_new (tx_buffer self) frame_type;
    writer ← (if send_ack : bool then write_ack self ack_rel writer else Ok writer);
    '(self, writer, ctx) ←
      (if send_data : bool then write_segment self writer now_ms ctx else Ok (self, writer, ctx));
    '(frame, buf) ← frame_writer_finalize writer;
    Ok (set_tx_buffer buf self, send_frame frame ctx, true)
  else Ok (self, ctx, false).

Fixpoint flush_loop (fuel : nat) (send_ack ack_rel : bool) (self : Endpoint) (now_ms : Z) (ctx : C)
  : outcome (Endpoint * C) :=
  match fuel with
  | O => Fault OutOfFuel
  | S fuel =>
      '(self, ctx, more) ← flush_step send_ack ack_rel self now_ms ctx;
      if more : bool then flush_loop fuel false ack_rel self now_ms ctx else Ok (self, ctx)
  end.

(** Every turn but the first sends a segment, and the segment window holds at most
    [SEGMENT_WINDOW_SIZE] of them; the last turn breaks. *)
Definition flush_fuel : nat := Z.to_nat (SEGMENT_WINDOW_SIZE + 2).

Definition flush_stream (self : Endpoint) (send_ack ack_rel : bool) (now_ms : Z) (ctx : C)
  : outcome (Endpoint * C) :=
  flush_loop flush_fuel send_ack ack_rel self now_ms ctx.

Definition flush (self : Endpoint) (now_ms : Z) (ctx : C) : outcome (Endpoint * C) :=
  if decide (state_id self = Active) then flush_stream self false false now_ms ctx else Ok (self, ctx).

Definition disconnect (self : Endpoint) (now_ms : Z) (ctx : C) : outcome (Endpoint * C) :=
  if decide (state_id self = Active) then enter_closing self now_ms ctx else Ok (self, ctx).

(** ** Round-trip estimation and the retransmission timer *)

Definition rtt_sample (state : option RttState) (rtt_ms : F32.f32) : RttState :=
  match state with
  | Some s =>
      let rttvar_ms :=
        F32.add (F32.mul (F32.sub ONE BETA) (rttvar_ms s))
          (F32.mul BETA (F32.abs (F32.sub (srtt_ms s) rtt_ms))) in
      let srtt_ms := F32.add (F32.mul (F32.sub ONE ALPHA) (srtt_ms s)) (F32.mul ALPHA rtt_ms) in
      mkRttState srtt_ms rttvar_ms
  | None => mkRttState rtt_ms (F32.div rtt_ms TWO)
  end.

Definition rto_of (s : RttState) : Z :=
  clamp (F32.to_u64 (F32.ceil (F32.add (srtt_ms s) (F32.max G_MS (F32.mul K (rttvar_ms s))))))
    RTO_MIN_MS RTO_MAX_MS.

Definition update_rtt (self : Endpoint) (segment_id now_ms : Z) : outcome Endpoint :=
  match rtt_timer_state self with
  | Some state =>
      if segment_id =? wrapping_add (rtt_segment_id state) 1 then
        elapsed ← sub64 now_ms (rtt_send_time_ms state);
        let rtt_state := rtt_sample (rtt_state self) (F32.of_u64 elapsed) in
        let self := set_rtt_state (Some rtt_state) self in
        let self := set_rto_ms (rto_of rtt_state) self in
        Ok (set_rtt_timer_state None self)
      else if rtt_expire_time_ms state <=? now_ms then Ok (set_rtt_timer_state None self)
      else Ok self
  | None => Ok self
  end.

Definition update_rto_timer (self : Endpoint) (segment_id now_ms : Z) (ctx : C) : outcome (Endpoint * C) :=
  match rto_timer_state self with
  | Some _ =>
      if segment_id =? SegmentTx.next_id (segment_tx self) then
        Ok (set_rto_timer_state None self, unset_rto_timer ctx)
      else
        t ← add64 now_ms (rto_ms self);
        Ok (set_rto_timer_state (Some (mkRtoTimerState (rto_ms self) 0)) self, set_rto_timer t ctx)
  | None => Ok (self, ctx)
  end.

(** ** Incoming data *)

(** One datagram of a delivered segment. *)
Definition receive_datagram (self : Endpoint) (datagram : Datagram) (ctx : C) : Endpoint * C :=
  let fragment := mkFragmentRef (dg_first datagram) (dg_last datagram) (dg_data datagram) in
  if dg_unrel datagram then
    let '(rx, packet) := UnreliableRxBuffer.receive (unreliable_rx self) (dg_id datagram) fragment in
    (set_unreliable_rx rx self, match packet with Some p => on_receive p ctx | None => ctx end)
  else
    let '(rx, packet) := ReliableRxBuffer.receive (reliable_rx self) (dg_id datagram) fragment in
    (set_reliable_rx rx self, match packet with Some p => on_receive p ctx | None => ctx end).

(** The [while let] loop over the datagrams of a segment, with the flags [send_ack] and
    [ack_rel] of [handle_stream_frame].  Every datagram takes at least its header. *)
Fixpoint receive_datagrams (fuel : nat) (reader : PayloadReader) (self : Endpoint) (ctx : C)
    (send_ack ack_rel : bool) : outcome (Endpoint * C * bool * bool) :=
  match fuel with
  | O => Fault OutOfFuel
  | S fuel =>
      '(datagram, reader) ← payload_reader_read reader;
      match datagram with
      | None => Ok (self, ctx, send_ack, ack_rel)
      | Some datagram =>
          let '(self, ctx) := receive_datagram self datagram ctx in
          receive_datagrams fuel reader self ctx true (if dg_unrel datagram then ack_rel else true)
      end
  end.

(** The callback of [SegmentRx::receive] and [SegmentRx::sync]. *)
Definition receive_segment (self : Endpoint) (segment_bytes : list Z) (ctx : C) (send_ack ack_rel : bool)
  : outcome (Endpoint * C * bool * bool) :=
  receive_datagrams (S (length segment_bytes)) (payload_reader_new segment_bytes) self ctx send_ack ack_rel.

Fixpoint receive_segments (self : Endpoint) (segments : list (list Z)) (ctx : C) (send_ack ack_rel : bool)
  : outcome (Endpoint * C * bool * bool) :=
  match segments with
  | [] => Ok (self, ctx, send_ack, ack_rel)
  | segment_bytes :: segments =>
      '(self, ctx, send_ack, ack_rel) ← receive_segment self segment_bytes ctx send_ack ack_rel;
      receive_segments self segments ctx send_ack ack_rel
  end.

(** The handling of a [StreamAck]. *)
Definition handle_ack (self : Endpoint) (ack : StreamAck) (now_ms : Z) (ctx : C) : outcome (Endpoint * C) :=
  cc ← AimdReno.handle_ack (cc_state self);
  let self := set_cc_state cc self in
  '(stx, drop) ← SegmentTx.acknowledge (segment_tx self) (sa_segment_id ack) (sa_segment_history ack)
                   (sa_segment_checksum ack);
  let self := set_segment_tx stx self in
  self ← (if drop : bool then cc ← AimdReno.handle_drop (cc_state self); Ok (set_cc_state cc self) else Ok self);
  ft ← ftx_acknowledge (fragment_tx self) (sa_rel_fragment_id ack);
  let self := set_fragment_tx ft self in
  self ← update_rtt self (sa_segment_id ack) now_ms;
  update_rto_timer self (sa_segment_id ack) now_ms ctx.

(** The handling of a segment: the flags tell what is to be acknowledged. *)
Definition handle_segment (self : Endpoint) (header : StreamSegmentHeader) (segment_bytes : list Z) (ctx : C)
  : outcome (Endpoint * C * bool * bool) :=
  '(srx, delivered, _) ← SegmentRx.receive (segment_rx self) (ssh_id header) (ssh_nonce header) segment_bytes;
  receive_segments (set_segment_rx srx self) delivered ctx false false.

Definition read_ack_data (frame_type : FrameType) : outcome (bool * bool) :=
  match frame_type with
  | StreamSegment => Ok (false, true)
  | StreamAckType => Ok (true, false)
  | StreamSegmentAck => Ok (true, true)
  | _ => Fault Panicked
  end.

Definition handle_stream_frame (self : Endpoint) (frame_type : FrameType) (payload_bytes : list Z)
    (now_ms : Z) (ctx : C) : outcome (Endpoint * C) :=
  let reader := payload_reader_new payload_bytes in
  '(read_ack, read_data) ← read_ack_data frame_type;
  (* [None] is the early return on a truncated acknowledgement *)
  acked ←
    (if read_ack : bool then
       '(ack, reader) ← payload_reader_read reader;
       match ack with
       | Some ack => '(self, ctx) ← handle_ack self ack now_ms ctx; Ok (Some (self, ctx, reader))
       | None => Ok None
       end
     else Ok (Some (self, ctx, reader)));
  match acked with
  | None => Ok (self, ctx)
  | Some (self, ctx, reader) =>
      '(self, ctx, send_ack, ack_rel) ←
        (if read_data : bool then
           '(header, reader) ← payload_reader_read reader;
           match header with
           | Some header =>
               segment_bytes ← remaining_bytes reader;
               handle_segment self header segment_bytes ctx
           | None => Ok (self, ctx, false, false)
           end
         else Ok (self, ctx, false, false));
      flush_stream self send_ack ack_rel now_ms ctx
  end.

Definition handle_stream_sync_frame (self : Endpoint) (payload_bytes : list Z) (now_ms : Z) (ctx : C)
  : outcome (Endpoint * C) :=
  let reader := payload_reader_new payload_bytes in
  '(sync, _) ← payload_reader_read reader;
  match sync with
  | Some sync =>
      '(srx, delivered) ← SegmentRx.sync (segment_rx self) (sy_next_segment_id sync);
      '(self, ctx, _, _) ← receive_segments (set_segment_rx srx self) delivered ctx false false;
      let self := set_unreliable_rx (UnreliableRxBuffer.reset (unreliable_rx self)) self in
      flush_stream self true true now_ms ctx
  | None => Ok (self, ctx)
  end.

(** ** Entry points *)

Definition handle_frame (self : Endpoint) (frame_type : FrameType) (payload_bytes : list Z) (now_ms : Z) (ctx : C)
  : outcome (Endpoint * C) :=
  match state_id self with
  | Active =>
      match frame_type with
      | StreamSegment | StreamAckType | StreamSegmentAck =>
          handle_stream_frame self frame_type payload_bytes now_ms ctx
      | StreamSyncType => handle_stream_sync_frame self payload_bytes now_ms ctx
      | Close =>
          valid ← validate_close_frame self payload_bytes;
          if valid : bool then
            '(self, ctx) ← send_close_ack_frame self ctx;
            enter_closed self now_ms ctx
          else Ok (self, ctx)
      | _ => Ok (self, ctx)
      end
  | Closing =>
      match frame_type with
      | Close =>
          valid ← validate_close_frame self payload_bytes;
          if valid : bool then
            '(self, ctx) ← send_close_ack_frame self ctx;
            enter_closed self now_ms ctx
          else Ok (self, ctx)
      | CloseAck =>
          valid ← validate_close_ack_frame self payload_bytes;
          if valid : bool then enter_closed self now_ms ctx else Ok (self, ctx)
      | _ => Ok (self, ctx)
      end
  | Closed =>
      if decide (frame_type = Close) then
        valid ← validate_close_frame self payload_bytes;
        if valid : bool then send_close_ack_frame self ctx else Ok (self, ctx)
      else Ok (self, ctx)
  | _ => Ok (self, ctx)
  end.

(** The timer state of [handle_rto_timer], its sum advanced by the last timeout. *)
Definition advance_rto_sum (self : Endpoint) : outcome RtoTimerState :=
  match rto_timer_state self with
  | None => Fault Panicked
  | Some ts => sum ← add64 (rts_rto_sum_ms ts) (rts_rto_ms ts); Ok (mkRtoTimerState (rts_rto_ms ts) sum)
  end.

(** Exponential backoff: the timer is set for the doubled timeout. *)
Definition back_off (self : Endpoint) (ts : RtoTimerState) (now_ms : Z) (ctx : C) : outcome (Endpoint * C) :=
  doubled ← mul64 (rto_ms self) 2;
  let self := set_rto_ms (clamp doubled RTO_MIN_MS RTO_MAX_MS) self in
  t ← add64 now_ms (rto_ms self);
  Ok (set_rto_timer_state (Some (mkRtoTimerState (rto_ms self) (rts_rto_sum_ms ts))) self, set_rto_timer t ctx).

Definition handle_rto_timer (self : Endpoint) (now_ms : Z) (ctx : C) : outcome (Endpoint * C * TimeoutAction) :=
  match state_id self with
  | Active =>
      ts ← advance_rto_sum self;
      let self := set_rto_timer_state (Some ts) self in
      if timeout_time_ms (config self) <=? rts_rto_sum_ms ts then
        Ok (set_state_id Zombie self, on_timeout ctx, Terminate)
      else
        '(self, ctx) ← back_off self ts now_ms ctx;
        cc ← AimdReno.handle_timeout (cc_state self);
        let self := set_cc_state cc self in
        let self := set_fragment_tx (ftx_handle_timeout (fragment_tx self)) self in
        '(self, ctx) ← send_stream_sync_frame self (SegmentTx.next_id (segment_tx self)) ctx;
        '(self, ctx) ← flush_stream self false false now_ms ctx;
        Ok (self, ctx, Continue)
  | Closing =>
      ts ← advance_rto_sum self;
      let self := set_rto_timer_state (Some ts) self in
      if timeout_time_ms (config self) <=? rts_rto_sum_ms ts then
        Ok (set_state_id Zombie self, on_timeout ctx, Terminate)
      else
        '(self, ctx) ← back_off self ts now_ms ctx;
        '(self, ctx) ← send_close_frame self ctx;
        Ok (self, ctx, Continue)
  | Closed => Ok (set_state_id Zombie self, ctx, Terminate)
  | _ => Ok (self, ctx, Continue)
  end.
End Endpoint.
End Endpoint.
