(* ===== verification/FragmentTxFacts.v ===== *)
(** * The fragment transmit buffers of the endpoint

    [ftx_inv] is what the endpoint's calls maintain of the two send buffers and the channel
    priorities; under it the loop that fills a frame with datagrams terminates without a
    fault, writes valid datagrams only, and writes one whenever there is data and room for
    a whole fragment. *)

From S2P Require Import Prelude Word Fragment Reliable ReliableFacts Unreliable.
From S2P Require Import Frame Serial SerialFacts FrameFacts Prio Endpoint.

Import Endpoint.

Section Facts.
Context `{BuildProfile}.

(** A fragment in a send buffer: a range of at most [FRAGMENT_SIZE] bytes of its packet,
    not empty where the debug assertion of the flush loop asks for it. *)
Record fragment_ok (f : FragmentRc) : Prop := {
  fo_range : 0 <= (rc_data_range f).1 <= (rc_data_range f).2;
  fo_end : (rc_data_range f).2 <= zlen (rc_data f);
  fo_size : (rc_data_range f).2 - (rc_data_range f).1 <= FRAGMENT_SIZE;
  fo_bytes : Forall is_u8 (rc_data f);
  fo_nonempty : debug_assertions = true -> (rc_data_range f).1 < (rc_data_range f).2;
}.

(** A packet the application may queue: bytes, and not empty in a debug build. *)
Definition packet_ok (p : list Z) : Prop :=
  Forall is_u8 p /\ (debug_assertions = true -> 0 < zlen p).

Lemma fragments_ok p : packet_ok p -> Forall fragment_ok (fragment_packet FRAGMENT_SIZE p).
Proof.
  intros [Hu Hne]. apply Forall_fmap, Forall_forall. intros k Hk%elem_of_seqZ.
  pose proof (fragment_count_bounds FRAGMENT_SIZE ltac:(unfold FRAGMENT_SIZE; lia) p) as (Hc & Hlen & Hlast).
  unfold FRAGMENT_SIZE in *. pose proof (zlen_nonneg p).
  assert (Hb : k * 1024 <= zlen p /\ (0 < zlen p -> k * 1024 < zlen p)).
  { destruct (Z.eq_dec (fragment_count 1024 p) 1); [lia|]. pose proof (Hlast ltac:(lia)). nia. }
  split; cbn [rc_data_range rc_data fragment_at fst snd]; unfold FRAGMENT_SIZE; try done; try lia.
  intros Hd. specialize (Hne Hd). lia.
Qed.

Definition unrel_inv (t : UnreliableTxBuffer.TxBuffer) : Prop :=
  UnreliableTxBuffer.fragment_size t = FRAGMENT_SIZE /\
  is_u32 (UnreliableTxBuffer.next_fragment_id t) /\
  Forall (fun e => fragment_ok (UnreliableTxBuffer.fragment e)) (UnreliableTxBuffer.fragments t).

Definition rel_inv (t : ReliableTxBuffer.TxBuffer) : Prop :=
  exists s, t = represents 0 FRAGMENT_SIZE FRAGMENT_WINDOW_SIZE s /\
    window_ok FRAGMENT_WINDOW_SIZE s /\ Forall fragment_ok (SendWindow.stream s).

Record ftx_inv (ft : FragmentTxBuffers) : Prop := {
  fi_unrel : unrel_inv (unrel ft);
  fi_rel : rel_inv (rel ft);
  fi_prio : exists ws burst, Prio.inv ws burst (prio ft);
}.

(** ** The operations keep the invariant *)

Lemma rel_step t op : rel_inv t -> tx_op_valid op ->
  (forall p, op = Push p -> packet_ok p) ->
  exists t' o, tx_step t op = Ok (t', o) /\ rel_inv t'.
Proof.
  intros (s & -> & Hw & Hs) Hop Hp.
  destruct (step_represents 0 FRAGMENT_SIZE FRAGMENT_WINDOW_SIZE ltac:(unfold FRAGMENT_SIZE; lia)
    ltac:(unfold FRAGMENT_WINDOW_SIZE, two32; lia) s op Hw Hop) as [He Hw'].
  do 2 eexists. split; [exact He|]. eexists. split; [done|]. split; [done|].
  destruct op; cbn [spec_step]; unfold SendWindow.pop, SendWindow.ack, SendWindow.resend.
  - cbn. apply Forall_app. split; [done|]. by apply fragments_ok, Hp.
  - done.
  - case_bool; [|done]. by destruct (SendWindow.stream s !! _).
  - done.
  - repeat (case_bool; try done).
Qed.

Lemma rel_push t p : rel_inv t -> packet_ok p -> exists t', ReliableTxBuffer.push t p = Ok t' /\ rel_inv t'.
Proof.
  intros Ht Hp. destruct (rel_step t (Push p) Ht I) as (t' & o & He & Hi); [by intros ? [= ->]|].
  exists t'. split; [|done]. cbn [tx_step] in He. apply outcome_bind_Ok in He as (? & ? & [= -> _]). done.
Qed.

Lemma rel_ack t id : rel_inv t -> is_u32 id ->
  exists t' b, ReliableTxBuffer.acknowledge t id = Ok (t', b) /\ rel_inv t'.
Proof.
  intros Ht Hp. destruct (rel_step t (Ack id) Ht Hp) as (t' & o & He & Hi); [done|].
  cbn [tx_step] in He. apply outcome_bind_Ok in He as ([t1 b] & ? & [= -> _]). by exists t', b.
Qed.

Lemma rel_resend t : rel_inv t -> rel_inv (ReliableTxBuffer.resend_all t).
Proof. intros Ht. destruct (rel_step t ResendAll Ht I) as (t' & o & [= -> _] & Hi); done. Qed.

(** What a buffer offers next is a good fragment under a 32-bit id, and popping it succeeds. *)
Lemma rel_pop t : rel_inv t ->
  match ReliableTxBuffer.peek_sendable t with
  | Some (id, f) => is_u32 id /\ fragment_ok f /\
      exists t', ReliableTxBuffer.pop_sendable t = (t', Some (id, f)) /\ rel_inv t'
  | None => True
  end.
Proof.
  intros Ht. pose proof Ht as (s & -> & Hw & Hs).
  destruct (pop_represents 0 FRAGMENT_SIZE FRAGMENT_WINDOW_SIZE
    ltac:(unfold FRAGMENT_WINDOW_SIZE, two32; lia) s Hw) as [Hpop Hpeek].
  destruct (rel_step _ Pop Ht I) as (t' & o & He & Hi); [done|]. cbn [tx_step] in He.
  rewrite Hpeek. rewrite Hpop in He |- *. injection He as <- _.
  unfold SendWindow.pop in *. case_bool; [|done].
  destruct (SendWindow.stream s !! _) as [f|] eqn:Ef; [|done]. cbn [snd number fmap option_fmap option_map fst] in *.
  split; [apply wrap32_range|]. split; [by eapply Forall_lookup_1|]. by eexists.
Qed.

Lemma unrel_push t p e : unrel_inv t -> packet_ok p ->
  exists t', UnreliableTxBuffer.push t p e = Ok t' /\ unrel_inv t'.
Proof.
  intros (Hf & Hi & Hq) Hp. unfold UnreliableTxBuffer.push. rewrite Hf.
  rewrite (push_loop_spec FRAGMENT_SIZE ltac:(unfold FRAGMENT_SIZE; lia)). cbn [mbind outcome_bind].
  eexists. split; [done|]. split_and!; try done. cbn. apply Forall_app. split; [done|].
  apply Forall_fmap. eapply Forall_impl; [by apply fragments_ok|]. done.
Qed.

Lemma pop_expired_suffix l now : exists r, l = r ++ UnreliableTxBuffer.pop_expired_loop l now.
Proof.
  induction l as [|x l [r IH]]; [by exists []|]. cbn. case_bool; [|by exists []].
  exists (x :: r). cbn. by f_equal.
Qed.

Lemma unrel_expire t now : unrel_inv t -> unrel_inv (UnreliableTxBuffer.pop_expired t now).
Proof.
  intros (Hf & Hi & Hq). split_and!; try done. cbn.
  destruct (pop_expired_suffix (UnreliableTxBuffer.fragments t) now) as [r Hr].
  rewrite Hr in Hq. by apply Forall_app in Hq as [_ ?].
Qed.

Lemma unrel_pop t : unrel_inv t ->
  match UnreliableTxBuffer.peek_sendable t with
  | Some (id, f) => is_u32 id /\ fragment_ok f /\
      exists t', UnreliableTxBuffer.pop_sendable t = (t', Some (id, f)) /\ unrel_inv t'
  | None => True
  end.
Proof.
  intros (Hf & Hi & Hq). unfold UnreliableTxBuffer.peek_sendable, UnreliableTxBuffer.pop_sendable.
  destruct (UnreliableTxBuffer.fragments t) as [|e rest]; [done|]. apply Forall_cons in Hq as [He Hq].
  split; [done|]. split; [done|]. eexists. split; [done|]. split_and!; try done. apply wrapping_add_range.
Qed.

(** ** Filling a frame *)

Definition datagram_overhead : Z := DATAGRAM_HEADER_SIZE + FRAME_CRC_SIZE.

Definition data_waiting (ft : FragmentTxBuffers) : bool :=
  bool_decide (is_Some (UnreliableTxBuffer.peek_sendable (unrel ft)))
  || bool_decide (is_Some (ReliableTxBuffer.peek_sendable (rel ft))).

Lemma datagram_of_ok ch id f : fragment_ok f -> is_u32 id ->
  exists d, datagram_of ch id f = Ok d /\ datagram_valid d /\
    zlen (dg_data d) <= FRAGMENT_SIZE /\ (debug_assertions = true -> 0 < zlen (dg_data d)).
Proof.
  intros [Hr He Hs Hb Hn] Hid. unfold datagram_of. rewrite index_range_ok by lia. cbn [mbind outcome_bind].
  eexists. split; [done|]. unfold datagram_valid. cbn [dg_id dg_data]. rewrite slice_length by lia.
  unfold FRAGMENT_SIZE, DATAGRAM_DATA_SIZE_MAX, U16_MAX in *. split_and!; try done; try lia.
  - by apply Forall_take, Forall_drop.
  - intros Hd. specialize (Hn Hd). lia.
Qed.

(** What the loop takes next, and that it can be taken. *)
Lemma ftx_next ft : ftx_inv ft ->
  match Prio.next (prio ft) (bool_decide (is_Some (UnreliableTxBuffer.peek_sendable (unrel ft))))
          (bool_decide (is_Some (ReliableTxBuffer.peek_sendable (rel ft)))) false false with
  | None => data_waiting ft = false
  | Some ch => data_waiting ft = true /\ 0 <= ch < 2 /\
      exists id f, (if ch =? 0 then UnreliableTxBuffer.peek_sendable (unrel ft)
                    else ReliableTxBuffer.peek_sendable (rel ft)) = Some (id, f) /\
        is_u32 id /\ fragment_ok f /\
        forall p, (exists ws burst, Prio.inv ws burst p) ->
          exists ft', ftx_pop (mkFragmentTxBuffers (unrel ft) (rel ft) p) ch = Ok ft' /\ ftx_inv ft'
  end.
Proof.
  intros [Hu Hr Hp]. unfold data_waiting.
  pose proof (unrel_pop _ Hu) as Hup. pose proof (rel_pop _ Hr) as Hrp.
  set (u := UnreliableTxBuffer.peek_sendable (unrel ft)) in *.
  set (r := ReliableTxBuffer.peek_sendable (rel ft)) in *.
  pose proof (Prio.next_spec (prio ft) (bool_decide (is_Some u), bool_decide (is_Some r), false, false)) as Hn.
  unfold Prio.next_of in Hn. destruct (Prio.next _ _ _ _ _) as [ch|].
  2: { pose proof (Hn 0 ltac:(lia)) as H0. pose proof (Hn 1 ltac:(lia)) as H1. cbn in H0, H1. by rewrite H0, H1. }
  destruct Hn as (Hch & Hready & _). Prio.channels; cbn [Prio.ready Z.eqb Pos.eqb] in Hready; try done.
  - rewrite Hready. split; [done|]. split; [lia|]. cbn [Z.eqb].
    apply bool_decide_eq_true in Hready as [[id f] Hu']. rewrite Hu' in Hup |- *.
    destruct Hup as (Hid & Hf & t' & Ht & Hi). exists id, f. split_and!; try done.
    intros p Hp'. unfold ftx_pop. cbn [Z.eqb unrel rel]. rewrite Ht. eexists. by split.
  - rewrite Hready, orb_true_r. split; [done|]. split; [lia|]. cbn [Z.eqb].
    apply bool_decide_eq_true in Hready as [[id f] Hr']. rewrite Hr' in Hrp |- *.
    destruct Hrp as (Hid & Hf & t' & Ht & Hi). exists id, f. split_and!; try done.
    intros p Hp'. unfold ftx_pop. cbn [Z.eqb unrel rel]. rewrite Ht. eexists. by split.
Qed.

Lemma ftx_expire ft now : ftx_inv ft -> ftx_inv (ftx_pop_expired ft now).
Proof. intros [Hu Hr Hp]. split; [by apply unrel_expire|done|done]. Qed.

Lemma ftx_flush_step_ok ft wr now bs tail :
  ftx_inv ft -> fw_at wr bs tail -> FRAME_CRC_SIZE <= zlen tail ->
  exists ft' wr' o, ftx_flush_step ft wr now = Ok (ft', wr', o) /\ ftx_inv ft' /\
    match o with
    | None => wr' = wr /\ (data_waiting (ftx_pop_expired ft now) = true ->
                           zlen tail < FRAGMENT_SIZE + datagram_overhead)
    | Some n => exists d, datagram_valid d /\ n = zlen (dg_data d) /\ n <= FRAGMENT_SIZE /\
        (debug_assertions = true -> 0 < n) /\
        fw_at wr' (bs ++ datagram_encode d) (drop (length (datagram_encode d)) tail) /\
        zlen (datagram_encode d) + FRAME_CRC_SIZE <= zlen tail
    end.
Proof.
  intros Hft Hat Hroom. unfold ftx_flush_step.
  pose proof (ftx_expire ft now Hft) as Hex. set (fe := ftx_pop_expired ft now) in *.
  pose proof (ftx_next fe Hex) as Hn.
  destruct (Prio.next (prio fe) _ _ _ _) as [ch|].
  2: { exists fe, wr, None. split_and!; try done. by rewrite Hn. }
  destruct Hn as (Hw & Hch & id & f & Hpeek & Hid & Hf & Hpop).
  assert (Hnext : (if ch =? 0 then Ok (UnreliableTxBuffer.peek_sendable (unrel fe))
    else if ch =? 1 then Ok (ReliableTxBuffer.peek_sendable (rel fe)) else Fault Panicked) = Ok (Some (id, f))).
  { rewrite <- Hpeek. destruct (Z.eqb_spec ch 0); [done|]. by destruct (Z.eqb_spec ch 1); [|lia]. }
  rewrite Hnext. cbn [mbind outcome_bind].
  destruct (datagram_of_ok ch id f Hf Hid) as (d & Hd & Hv & Hsz & Hne). rewrite Hd. cbn [mbind outcome_bind].
  pose proof (datagram_encode_length d) as Hlen. pose proof (zlen_nonneg (dg_data d)).
  destruct (Z_le_gt_dec (zlen (datagram_encode d) + FRAME_CRC_SIZE) (zlen tail)) as [Hfit|Hfull].
  - destruct (frame_writer_write_fits (A := Datagram) (H0 := datagram_serial) (H1 := datagram_ok)
      wr bs tail d Hat Hv Hfit) as (wr' & Hwr & Hat').
    rewrite Hwr. cbn [mbind outcome_bind]. destruct (fi_prio _ Hex) as (ws & burst & Hp).
    destruct (Prio.prio_mark_sent_spec ws burst (prio fe) ch (zlen (dg_data d)) Hp) as (p' & Hm & Hp' & _).
    { lia. } { unfold Prio.DATA_SIZE_MAX, FRAGMENT_SIZE, U16_MAX in *. lia. }
    rewrite Hm. cbn [mbind outcome_bind]. destruct (Hpop p') as (ft' & Hpo & Hi'); [by eexists _, _|].
    rewrite Hpo. exists ft', wr', (Some (zlen (dg_data d))). split; [done|]. split; [done|]. by exists d.
  - rewrite (frame_writer_write_full (A := Datagram) (H0 := datagram_serial) (H1 := datagram_ok)
      wr bs tail d Hat Hroom) by (cbn [serial_encode datagram_ok]; lia).
    exists fe, wr, None. split_and!; try done. intros _. unfold datagram_overhead. lia.
Qed.

Definition data_total (ds : list Datagram) : Z := foldr (fun d s => zlen (dg_data d) + s) 0 ds.

Lemma data_total_bounds ds : 0 <= data_total ds <= zlen (encode_all ds).
Proof.
  induction ds as [|d ds IH]; [done|]. cbn [data_total foldr encode_all mbind list_bind].
  fold (data_total ds) (encode_all ds). rewrite zlen_app. cbn [serial_encode datagram_ok].
  rewrite datagram_encode_length. pose proof (zlen_nonneg (dg_data d)). unfold DATAGRAM_HEADER_SIZE. lia.
Qed.

(** The loop writes some valid datagrams, at least one if the first fits, and returns
    the total size of their data. *)
Lemma ftx_flush_loop_ok fuel : forall ft wr now total bs tail,
  ftx_inv ft -> fw_at wr bs tail -> FRAME_CRC_SIZE <= zlen tail <= FRAME_SIZE_MAX ->
  (length tail < fuel)%nat -> 0 <= total -> total + zlen tail <= two32 ->
  exists ft' wr' ds, ftx_flush_loop fuel ft wr now total = Ok (ft', wr', total + data_total ds) /\
    ftx_inv ft' /\ Forall datagram_valid ds /\ zlen (encode_all ds) + FRAME_CRC_SIZE <= zlen tail /\
    fw_at wr' (bs ++ encode_all ds) (drop (length (encode_all ds)) tail) /\
    Forall (fun d => debug_assertions = true -> 0 < zlen (dg_data d)) ds /\
    (data_waiting (ftx_pop_expired ft now) = true -> FRAGMENT_SIZE + datagram_overhead <= zlen tail -> ds <> []).
Proof.
  induction fuel as [|fuel IH]; intros ft wr now total bs tail Hft Hat Hroom Hfuel Htot Hmax; [lia|].
  destruct (ftx_flush_step_ok ft wr now bs tail Hft Hat ltac:(lia)) as (ft1 & wr1 & o & Hs & Hft1 & Ho).
  cbn [ftx_flush_loop]. rewrite Hs. cbn [mbind outcome_bind]. destruct o as [n|].
  2: { destruct Ho as [-> Hsmall]. exists ft1, wr, []. change (encode_all []) with (@nil Z).
       cbn [data_total foldr length]. rewrite Z.add_0_r, app_nil_r, drop_0, zlen_nil.
       split_and!; try done; [lia|]. intros Hw Hl. specialize (Hsmall Hw). lia. }
  destruct Ho as (d & Hv & -> & Hsz & Hne & Hat1 & Hfit).
  pose proof (datagram_encode_length d) as Hlen. pose proof (zlen_nonneg (dg_data d)).
  assert (Hdrop : zlen (drop (length (datagram_encode d)) tail) = zlen tail - zlen (datagram_encode d)).
  { unfold zlen in *. rewrite length_drop. unfold FRAME_CRC_SIZE in *. lia. }
  unfold FRAME_SIZE_MAX, FRAGMENT_SIZE, FRAME_CRC_SIZE, DATAGRAM_HEADER_SIZE, two32 in *.
  rewrite add64_ok by (unfold two64; lia). cbn [mbind outcome_bind].
  destruct (IH ft1 wr1 now (total + zlen (dg_data d)) _ _ Hft1 Hat1)
    as (ft2 & wr2 & ds & Hl & Hi & Hds & Hsp & Hat2 & Hn2 & _).
  { lia. } { unfold zlen in *. lia. } { lia. } { lia. }
  exists ft2, wr2, (d :: ds). rewrite Hl. cbn [data_total foldr encode_all mbind list_bind].
  fold (data_total ds) (encode_all ds). cbn [serial_encode datagram_ok]. rewrite zlen_app.
  split_and!; try done.
  - do 2 f_equal. lia.
  - by constructor.
  - lia.
  - by rewrite <- app_assoc, drop_drop, <- length_app in Hat2.
  - by constructor.
Qed.
End Facts.
