(* ===== verification/EndpointFacts.v ===== *)
(** * The endpoint's invariant

    [ep_inv] is what every entry point of the endpoint maintains, whatever the application
    asks and whatever arrives; [events] is the interaction with the host.  Each operation is
    shown to return, to keep the invariant, and to touch its host only by events of the
    kind its state allows. *)

From S2P Require Import Prelude Word Fragment Reliable ReliableFacts Unreliable.
From S2P Require Import Frame Serial SerialFacts FrameFacts.
From S2P Require Import SegmentTx SegmentTxFacts SegmentRx SegmentRxFacts SegmentRxSafety.
From S2P Require Import CongestionControl Prio Endpoint FragmentTxFacts.

Import Endpoint.

(** ** Events *)

Inductive event : Set :=
| EvSend (frame : list Z)
| EvSetTimer (time_ms : Z)
| EvUnsetTimer
| EvConnect
| EvDisconnect
| EvReceive (packet : list Z)
| EvTimeout
| EvRandom.

Section Events.
Context {C : Type} `{HostContext C} `{ThreadRng C}.

Definition perform (c : C) (e : event) : C :=
  match e with
  | EvSend f => send_frame f c
  | EvSetTimer t => set_rto_timer t c
  | EvUnsetTimer => unset_rto_timer c
  | EvConnect => on_connect c
  | EvDisconnect => on_disconnect c
  | EvReceive p => on_receive p c
  | EvTimeout => on_timeout c
  | EvRandom => (rand_random c).2
  end.

Definition performs (c : C) (es : list event) : C := fold_left perform es c.

Lemma performs_app c es es' : performs c (es ++ es') = performs (performs c es) es'.
Proof. apply fold_left_app. Qed.
End Events.

(** Whether the retransmission timer is set after some events. *)
Definition arm_event (armed : bool) (e : event) : bool :=
  match e with EvSetTimer _ => true | EvUnsetTimer => false | _ => armed end.
Definition arm (armed : bool) (es : list event) : bool := fold_left arm_event es armed.

Lemma arm_app a es es' : arm a (es ++ es') = arm (arm a es) es'.
Proof. apply fold_left_app. Qed.

(** ** Frames *)

Section Frames.
Context `{BuildProfile}.

Inductive frame_content : FrameType -> list Z -> Prop :=
| fc_segment (h : StreamSegmentHeader) (ds : list Datagram) :
    block_valid h -> Forall datagram_valid ds ->
    frame_content StreamSegment (block_encode h ++ encode_all ds)
| fc_ack (a : StreamAck) : block_valid a -> frame_content StreamAckType (block_encode a)
| fc_segment_ack (a : StreamAck) (h : StreamSegmentHeader) (ds : list Datagram) :
    block_valid a -> block_valid h -> Forall datagram_valid ds ->
    frame_content StreamSegmentAck (block_encode a ++ block_encode h ++ encode_all ds)
| fc_sync (s : StreamSync) : block_valid s -> frame_content StreamSyncType (block_encode s)
| fc_close (c : CloseFrame) : block_valid c -> frame_content Close (block_encode c)
| fc_close_ack (c : CloseAckFrame) : block_valid c -> frame_content CloseAck (block_encode c).

(** A frame the endpoint may send: sealed, of a stream type with the contents of that
    type, and within the maximum size. *)
Definition frame_ok (f : list Z) : Prop :=
  exists t bs, f = seal (frame_type_bits t :: bs) /\ frame_content t bs /\ Forall is_u8 bs /\
    zlen f <= FRAME_SIZE_MAX.
End Frames.

(** ** The invariant *)

Section Invariant.
Context `{BuildProfile}.

(** Times in milliseconds stay far below the end of the [u64] range. *)
Definition TIME_MAX : Z := 9223372036854775808.

Definition segments_inv (s : SegmentTx.SegmentTx) : Prop := exists log b, seg_inv 0 12 s log b.

Record ep_inv (now : Z) (e : Endpoint) : Prop := {
  ei_now : 0 <= now <= TIME_MAX;
  ei_timeout : 0 <= timeout_time_ms (config e) <= TIME_MAX;
  ei_nonce : is_u32 (remote_nonce e);
  ei_segment_tx : segments_inv (segment_tx e);
  ei_fragment_tx : ftx_inv (fragment_tx e);
  ei_cc : AimdReno.inv 1024 (cc_state e);
  ei_tx_buffer : zlen (tx_buffer e) = FRAME_SIZE_MAX;
  ei_rto : RTO_MIN_MS <= rto_ms e <= RTO_MAX_MS;
  ei_rto_timer : match rto_timer_state e with
                 | Some ts => RTO_MIN_MS <= rts_rto_ms ts <= RTO_MAX_MS /\
                     0 <= rts_rto_sum_ms ts /\
                     (state_id e <> Zombie -> rts_rto_sum_ms ts <= timeout_time_ms (config e))
                 | None => True
                 end;
  ei_rtt_timer : match rtt_timer_state e with Some ts => rtt_send_time_ms ts <= now | None => True end;
  ei_segment_rx : rx_wf FRAME_SIZE_MAX (segment_rx e);
  ei_reliable_rx : is_u32 (ReliableRxBuffer.next_fragment_id (reliable_rx e));
}.

Lemma ep_inv_later now now' e : ep_inv now e -> now <= now' <= TIME_MAX -> ep_inv now' e.
Proof.
  intros [] Hn. split; try done; [lia|]. destruct (rtt_timer_state e); [lia|done].
Qed.

(** Events that move data: valid frames, packets, and the timer set one to sixty seconds
    ahead. *)
Definition data_event (now : Z) (e : event) : Prop :=
  match e with
  | EvSend f => frame_ok f
  | EvSetTimer t => now + RTO_MIN_MS <= t <= now + RTO_MAX_MS
  | EvUnsetTimer | EvReceive _ | EvRandom => True
  | _ => False
  end.

(** The timer is set exactly when there is a timer state. *)
Definition has_timer (e : Endpoint) : bool := bool_decide (is_Some (rto_timer_state e)).

(** A step that stays in the same state. *)
Record quiet (now : Z) (e e' : Endpoint) (evs : list event) : Prop := {
  q_state : state_id e' = state_id e;
  q_config : config e' = config e;
  q_timer : arm (has_timer e) evs = has_timer e';
  q_events : Forall (data_event now) evs;
}.

Lemma quiet_refl now e : quiet now e e [].
Proof. by split. Qed.

Lemma quiet_trans now e1 e2 e3 es1 es2 :
  quiet now e1 e2 es1 -> quiet now e2 e3 es2 -> quiet now e1 e3 (es1 ++ es2).
Proof.
  intros [S1 C1 T1 E1] [S2 C2 T2 E2]. split; [congruence|congruence| |by apply Forall_app].
  by rewrite arm_app, T1.
Qed.

(** ** The segment window *)

(** Segments that may still be sent. *)
Definition room (s : SegmentTx.SegmentTx) : Z :=
  SEGMENT_WINDOW_SIZE - wrapping_sub (SegmentTx.next_id s) (SegmentTx.base_id s).

Lemma in_flight s log b : seg_inv 0 12 s log b ->
  wrapping_sub (SegmentTx.next_id s) (SegmentTx.base_id s) = zlen log - b.
Proof.
  intros Hs. pose proof (sv_base_range _ _ _ _ _ Hs). pose proof (sv_window _ _ _ _ _ Hs) as Hw.
  rewrite (sv_base _ _ _ _ _ Hs), (sv_next _ _ _ _ _ Hs). apply wrapping_sub_pos.
  unfold window_size in Hw. change (2 ^ 12) with 4096 in Hw. unfold two32. lia.
Qed.

Lemma room_bounds s : segments_inv s -> 0 <= room s <= SEGMENT_WINDOW_SIZE.
Proof.
  intros (log & b & Hs). unfold room, SEGMENT_WINDOW_SIZE. rewrite (in_flight s log b Hs).
  pose proof (sv_base_range _ _ _ _ _ Hs). pose proof (sv_window _ _ _ _ _ Hs) as Hw.
  unfold window_size in Hw. change (2 ^ 12) with 4096 in Hw. lia.
Qed.

Lemma can_send_room s : segments_inv s -> SegmentTx.can_send s = (0 <? room s).
Proof.
  intros (log & b & Hs). unfold SegmentTx.can_send, room. rewrite (sv_size _ _ _ _ _ Hs).
  unfold window_size. change (2 ^ 12) with 4096. unfold SEGMENT_WINDOW_SIZE.
  destruct (Z.ltb_spec (wrapping_sub (SegmentTx.next_id s) (SegmentTx.base_id s)) 4096);
    symmetry; [apply Z.ltb_lt|apply Z.ltb_ge]; lia.
Qed.

(** Drawing the nonce, and later accounting for the segment. *)
Lemma send_segment s nonce : segments_inv s -> 0 < room s ->
  is_u32 (SegmentTx.next_id s) /\
  exists s1, SegmentTx.compute_next_nonce s nonce = Ok s1 /\
    forall sz, 0 <= sz < two32 -> exists s2, SegmentTx.mark_sent s1 sz = Ok s2 /\ segments_inv s2 /\
      room s2 = room s - 1 /\ SegmentTx.bytes_in_transit s2 = SegmentTx.bytes_in_transit s + sz.
Proof.
  intros (log & b & Hs) Hroom. unfold room in Hroom. rewrite (in_flight s log b Hs) in Hroom.
  unfold SEGMENT_WINDOW_SIZE in Hroom.
  assert (Hw : zlen log < b + window_size 12) by (unfold window_size; change (2 ^ 12) with 4096; lia).
  split; [rewrite (sv_next _ _ _ _ _ Hs); apply wrap32_range|].
  destruct (send_inv 0 12 ltac:(lia) s log b nonce 0 Hs Hw ltac:(unfold two32; lia)) as (s' & Hc & _).
  apply outcome_bind_Ok in Hc as (s1 & Hc & _). exists s1. split; [done|]. intros sz Hsz.
  destruct (send_inv 0 12 ltac:(lia) s log b nonce sz Hs Hw Hsz) as (s2 & Hm & Hs2).
  rewrite Hc in Hm. cbn [mbind outcome_bind] in Hm. exists s2. split; [done|].
  split; [by eexists _, _|]. split.
  - unfold room. rewrite (in_flight _ _ _ Hs), (in_flight _ _ _ Hs2), zlen_app.
    change (zlen [(nonce, sz)]) with 1. lia.
  - unfold SegmentTx.bytes_in_transit. rewrite (sv_total _ _ _ _ _ Hs), (sv_total _ _ _ _ _ Hs2).
    pose proof (sv_base_range _ _ _ _ _ Hs). unfold zlen in *. rewrite drop_app_le by lia.
    rewrite sizes_sum_app. cbn. lia.
Qed.

Lemma acknowledge_segments s id rh cs : segments_inv s -> is_u32 id -> is_u32 rh ->
  exists s' drop, SegmentTx.acknowledge s id rh cs = Ok (s', drop) /\ segments_inv s'.
Proof.
  intros (log & b & Hs) Hid Hrh.
  destruct (ack_inv 0 12 ltac:(lia) s log b id rh cs Hs Hid Hrh) as (s' & d & Ha & Hs').
  exists s', d. split; [done|]. by eexists _, _.
Qed.
End Invariant.

(** ** Sending *)

(** Linear facts about the sizes of frames and their parts. *)
Ltac frame_sizes :=
  unfold FRAGMENT_SIZE, datagram_overhead, DATAGRAM_HEADER_SIZE, FRAME_OVERHEAD_SIZE, FRAME_HEADER_SIZE,
    FRAME_CRC_SIZE,
    STREAM_SEGMENT_HEADER_SIZE, STREAM_ACK_SIZE, FRAME_SIZE_MAX, two32 in *; lia.

Ltac sizes :=
  repeat match goal with |- context [block_size ?A] => let n := eval cbv in (block_size A) in change (block_size A)
    with n end;
  frame_sizes.

Section Sending.
Context `{BuildProfile} {C : Type} `{HostContext C} `{ThreadRng C}.

Lemma write_block {A} `{BlockSerialOk A} wr bs tail (a : A) :
  fw_at wr bs tail -> block_valid a -> block_size A + FRAME_CRC_SIZE <= zlen tail ->
  exists wr', frame_writer_write wr a = Ok (wr', true) /\
    fw_at wr' (bs ++ block_encode a) (drop (length (block_encode a)) tail) /\
    zlen (drop (length (block_encode a)) tail) = zlen tail - block_size A.
Proof.
  intros Hat Hv Hl. pose proof (fits_room a) as Hz.
  destruct (frame_writer_write_fits (A := A) (H0 := block_serial) (H1 := block_serial_ok) wr bs tail a Hat Hv)
    as (wr' & Hw & Hat').
  { cbn [serial_encode block_serial_ok]. lia. }
  exists wr'. split; [done|]. split; [done|]. unfold zlen in *. rewrite length_drop. unfold FRAME_CRC_SIZE in *. lia.
Qed.

(** The acknowledgement an endpoint sends. *)
Definition outgoing_ack (e : Endpoint) (r : bool) : StreamAck :=
  mkStreamAck (SegmentRx.next_expected_id (segment_rx e)) (SegmentRx.next_ack_info (segment_rx e)).1
    (SegmentRx.next_ack_info (segment_rx e)).2
    (if r then Some (ReliableRxBuffer.next_expected_id (reliable_rx e)) else None).

Lemma outgoing_ack_valid now e r : ep_inv now e -> block_valid (outgoing_ack e r).
Proof.
  intros Hi. split; [apply (rw_base _ _ (ei_segment_rx _ _ Hi))|]. split.
  - cbn [outgoing_ack sa_segment_history SegmentRx.next_ack_info fst]. unfold SegmentRx.ACK_MASK, two8.
    change 0x1f with (Z.ones 5).
    rewrite Z.land_ones by lia. Z.div_mod_to_equations. lia.
  - destruct r; cbn; [apply (ei_reliable_rx _ _ Hi)|unfold is_u32, two32; lia].
Qed.

Lemma write_ack_ok now e r wr bs tail : ep_inv now e -> fw_at wr bs tail ->
  STREAM_ACK_SIZE + FRAME_CRC_SIZE <= zlen tail ->
  let a := outgoing_ack e r in
  exists wr', write_ack e r wr = Ok wr' /\ block_valid a /\
    fw_at wr' (bs ++ block_encode a) (drop (length (block_encode a)) tail) /\
    zlen (drop (length (block_encode a)) tail) = zlen tail - STREAM_ACK_SIZE.
Proof.
  intros Hi Hat Hl a. pose proof (outgoing_ack_valid now e r Hi : block_valid a) as Hv. unfold write_ack.
  rewrite (surjective_pairing (SegmentRx.next_ack_info (segment_rx e))). fold (outgoing_ack e r). fold a.
  destruct (write_block wr bs tail a Hat Hv) as (wr' & Hw & Hat' & Hz); [done|].
  rewrite Hw. cbn [mbind outcome_bind]. by exists wr'.
Qed.

Lemma pop_expired_idemp l now :
  UnreliableTxBuffer.pop_expired_loop (UnreliableTxBuffer.pop_expired_loop l now) now
  = UnreliableTxBuffer.pop_expired_loop l now.
Proof.
  induction l as [|x l IH]; [done|]. cbn [UnreliableTxBuffer.pop_expired_loop].
  destruct (UnreliableTxBuffer.expire_time_ms x <=? now) eqn:E; [done|].
  cbn [UnreliableTxBuffer.pop_expired_loop]. by rewrite E.
Qed.

Lemma expire_idemp ft now : ftx_pop_expired (ftx_pop_expired ft now) now = ftx_pop_expired ft now.
Proof.
  unfold ftx_pop_expired, UnreliableTxBuffer.pop_expired. cbn. by rewrite pop_expired_idemp.
Qed.

Lemma size_written_ok ds : ds <> [] ->
  Forall (fun d => debug_assertions = true -> 0 < zlen (dg_data d)) ds ->
  debug_assert (0 <? 0 + data_total ds) = Ok ().
Proof.
  intros Hne Hf. assert (Hd : debug_assertions = true \/ debug_assertions = false) by (destruct debug_assertions;
    auto).
  destruct Hd as [Hd|Hd]; [|unfold debug_assert; by rewrite Hd].
  apply debug_assert_true, Z.ltb_lt. destruct ds as [|d ds]; [done|]. apply Forall_cons in Hf as [Hf _].
  specialize (Hf Hd). cbn [data_total foldr]. fold (data_total ds). pose proof (data_total_bounds ds). lia.
Qed.

(** The two timers started with a segment. *)
Definition start_rto (e : Endpoint) (now : Z) : Endpoint * list event :=
  match rto_timer_state e with
  | None => (set_rto_timer_state (Some (mkRtoTimerState (rto_ms e) 0)) e, [EvSetTimer (now + rto_ms e)])
  | Some _ => (e, [])
  end.

Lemma start_rto_ok now e : ep_inv now e ->
  ep_inv now (start_rto e now).1 /\ quiet now e (start_rto e now).1 (start_rto e now).2.
Proof.
  intros Hi. unfold start_rto. destruct (rto_timer_state e) as [ts|] eqn:Et; cbn [fst snd].
  { split; [done|apply quiet_refl]. }
  destruct Hi. split.
  - split; try done. cbn. unfold RTO_MIN_MS, RTO_MAX_MS in *. split_and!; try lia.
  - split; try done. apply Forall_singleton. cbn. lia.
Qed.

Lemma start_rto_eq e now ctx : ep_inv now e ->
  (match rto_timer_state e with
   | None => t ← add64 now (rto_ms e);
       Ok (set_rto_timer_state (Some (mkRtoTimerState (rto_ms e) 0)) e, set_rto_timer t ctx)
   | Some _ => Ok (e, ctx)
   end) = Ok ((start_rto e now).1, performs ctx (start_rto e now).2).
Proof.
  intros Hi. unfold start_rto. destruct (rto_timer_state e); [done|].
  rewrite add64_ok; [done|]. destruct Hi. unfold TIME_MAX, RTO_MIN_MS, RTO_MAX_MS, two64 in *. lia.
Qed.

Lemma start_rtt_ok e now id : ep_inv now e ->
  exists e', (match rtt_timer_state e with
     | None => t ← add64 now (rto_ms e); Ok (set_rtt_timer_state (Some (mkRttTimerState id now t)) e)
     | Some _ => Ok e
     end) = Ok e' /\ ep_inv now e' /\ quiet now e e' [] /\
    segment_tx e' = segment_tx e /\ tx_buffer e' = tx_buffer e /\ cc_state e' = cc_state e.
Proof.
  intros Hi. destruct (rtt_timer_state e) eqn:Et.
  - exists e. by split_and!.
  - rewrite add64_ok by (destruct Hi; unfold TIME_MAX, RTO_MIN_MS, RTO_MAX_MS, two64 in *; lia).
    cbn [mbind outcome_bind]. eexists. split; [done|]. split_and!; try done.
    destruct Hi. split; try done. cbn. lia.
Qed.

Lemma start_rto_fields e now : let e' := (start_rto e now).1 in
  segment_tx e' = segment_tx e /\ tx_buffer e' = tx_buffer e /\ cc_state e' = cc_state e.
Proof. cbv zeta. unfold start_rto. by destruct (rto_timer_state e). Qed.

Lemma write_segment_ok now e wr bs tail ctx :
  ep_inv now e -> 0 < room (segment_tx e) -> fw_at wr bs tail ->
  data_waiting (fragment_tx e) = true -> ftx_pop_expired (fragment_tx e) now = fragment_tx e ->
  FRAGMENT_SIZE + datagram_overhead + STREAM_SEGMENT_HEADER_SIZE <= zlen tail <= FRAME_SIZE_MAX ->
  exists e' wr' (h : StreamSegmentHeader) (ds : list Datagram) evs tail', write_segment e wr now ctx = Ok (e', wr',
    performs ctx evs) /\
    block_valid h /\ Forall datagram_valid ds /\
    fw_at wr' (bs ++ block_encode h ++ encode_all ds) tail' /\ FRAME_CRC_SIZE <= zlen tail' /\
    zlen tail' = zlen tail - zlen (block_encode h ++ encode_all ds) /\
    ep_inv now e' /\ quiet now e e' evs /\ tx_buffer e' = tx_buffer e /\ cc_state e' = cc_state e /\
    room (segment_tx e') = room (segment_tx e) - 1 /\
    SegmentTx.bytes_in_transit (segment_tx e) <= SegmentTx.bytes_in_transit (segment_tx e') <
      SegmentTx.bytes_in_transit (segment_tx e) + FRAME_SIZE_MAX.
Proof.
  intros Hi Hroom Hat Hwait Hpop Hl. unfold write_segment.
  destruct (rand_random ctx) as [nonce ctx1] eqn:Er.
  destruct (send_segment (segment_tx e) nonce (ei_segment_tx _ _ Hi) Hroom) as (Hid & s1 & Hc & Hmark).
  rewrite Hc. cbn [mbind outcome_bind].
  set (h := mkStreamSegmentHeader _ nonce). assert (Hv : block_valid h) by exact Hid.
  destruct (write_block (A := StreamSegmentHeader) wr bs tail h Hat Hv) as (wr1 & Hw & Hat1 & Hz1); [sizes|].
  change (block_size StreamSegmentHeader) with 5 in Hz1.
  rewrite Hw. cbn [mbind outcome_bind]. set (tail1 := drop _ tail) in *.
  assert (Hfuel : (length tail1 < S (length (fw_buffer wr1)))%nat).
  { destruct Hat1 as [-> _]. rewrite length_app. lia. }
  destruct (ftx_flush_loop_ok (S (length (fw_buffer wr1))) (fragment_tx e) wr1 now 0 _ tail1
    (ei_fragment_tx _ _ Hi) Hat1) as (ft & wr2 & ds & Hf & Hft & Hds & Hsp & Hat2 & Hne & Hsome);
    [sizes|done|lia|sizes|].
  unfold ftx_flush. rewrite Hf. cbn [mbind outcome_bind].
  rewrite Hpop in Hsome. specialize (Hsome Hwait ltac:(sizes)).
  pose proof (data_total_bounds ds) as Hdt.
  rewrite (size_written_ok ds Hsome Hne). cbn [mbind outcome_bind].
  destruct (Hmark (0 + data_total ds)) as (s2 & -> & Hs2 & Hroom2 & Hbytes); [sizes|].
  cbn [mbind outcome_bind]. set (e1 := set_segment_tx s2 (set_fragment_tx ft e)).
  assert (Hi1 : ep_inv now e1) by (destruct Hi; by split).
  assert (Hq1 : quiet now e e1 [EvRandom]) by (split; try done; by apply Forall_singleton).
  destruct (start_rto_ok now e1 Hi1) as [Hi2 Hq2]. rewrite (start_rto_eq e1 now ctx1 Hi1).
  destruct (start_rto_fields e1 now) as (Hf1 & Hf2 & Hf3). cbn [mbind outcome_bind].
  destruct (start_rtt_ok _ now (SegmentTx.next_id (segment_tx e)) Hi2) as (e3 & -> & Hi3 & Hq3 & Hg1 & Hg2 & Hg3).
  cbn [mbind outcome_bind].
  exists e3, wr2, h, ds, ([EvRandom] ++ (start_rto e1 now).2), (drop (length (encode_all ds)) tail1).
  assert (Hz2 : zlen (drop (length (encode_all ds)) tail1) = zlen tail1 - zlen (encode_all ds)).
  { unfold zlen in *. rewrite length_drop. unfold FRAME_CRC_SIZE in *. lia. }
  pose proof (quiet_trans _ _ _ _ _ _ Hq1 (quiet_trans _ _ _ _ _ _ Hq2 Hq3)) as Hq. rewrite app_nil_r in Hq.
  rewrite <- app_assoc in Hat2. pose proof (fits_room h) as Hh. change (block_size StreamSegmentHeader) with 5 in Hh.
  split_and!; try done.
  - rewrite performs_app. cbn [performs fold_left perform]. by rewrite Er.
  - sizes.
  - rewrite zlen_app. lia.
  - by rewrite Hg2, Hf2.
  - by rewrite Hg3, Hf3.
  - by rewrite Hg1, Hf1.
  - rewrite Hg1, Hf1. cbn [e1 segment_tx set_segment_tx]. lia.
  - rewrite Hg1, Hf1. cbn [e1 segment_tx set_segment_tx]. sizes.
Qed.

(** Closing a frame whose contents have been written. *)
Lemma finish_frame t content wr tail : frame_content t content -> Forall is_u8 content ->
  fw_at wr (frame_type_bits t :: content) tail -> FRAME_CRC_SIZE <= zlen tail ->
  zlen (frame_type_bits t :: content) + zlen tail = FRAME_SIZE_MAX ->
  exists f buf, frame_writer_finalize wr = Ok (f, buf) /\ frame_ok f /\ zlen buf = FRAME_SIZE_MAX.
Proof.
  intros Hc Hu Hat Hl Hz. rewrite (finalize_at wr _ _ Hat Hl). do 2 eexists. split; [done|].
  assert (Hseal : zlen (seal (frame_type_bits t :: content)) = zlen (frame_type_bits t :: content) + 4).
  { unfold seal. by rewrite zlen_app. }
  split.
  - exists t, content. split_and!; try done. sizes.
  - rewrite zlen_app, Hseal. unfold zlen in *. rewrite length_drop. unfold FRAME_CRC_SIZE in *. lia.
Qed.

Definition frame_window_open (e : Endpoint) : bool := 0 <? room (segment_tx e).
Definition congestion_window_open (e : Endpoint) : bool :=
  SegmentTx.bytes_in_transit (segment_tx e) <? AimdReno.cwnd (cc_state e).

(** What one turn of the flush loop does to the segment window. *)
Definition flush_progress (a : bool) (e e' : Endpoint) : Prop :=
  (a = true /\ segment_tx e' = segment_tx e) \/
  (congestion_window_open e = true /\ room (segment_tx e') = room (segment_tx e) - 1 /\
   SegmentTx.bytes_in_transit (segment_tx e) <= SegmentTx.bytes_in_transit (segment_tx e') <
     SegmentTx.bytes_in_transit (segment_tx e) + FRAME_SIZE_MAX).

Lemma set_buffer_ok now e buf : ep_inv now e -> zlen buf = FRAME_SIZE_MAX -> ep_inv now (set_tx_buffer buf e).
Proof. intros [] Hz. by split. Qed.

Lemma send_quiet now e e' evs f buf : quiet now e e' evs -> frame_ok f ->
  quiet now e (set_tx_buffer buf e') (evs ++ [EvSend f]).
Proof.
  intros Hq Hf. eapply quiet_trans; [done|]. split; try done. by apply Forall_singleton.
Qed.

Lemma endpoint_expire_inv now e : ep_inv now e -> ep_inv now (set_fragment_tx (ftx_pop_expired (fragment_tx e) now)
  e).
Proof. intros []. split; try done. by apply ftx_expire. Qed.

(** A turn that sends a frame without data. *)
Lemma flush_ack_only now e r : ep_inv now e ->
  exists f buf, (writer ← frame_writer_new (tx_buffer e) StreamAckType;
     writer ← write_ack e r writer;
     '(frame, buf) ← frame_writer_finalize writer; Ok (frame, buf)) = Ok (f, buf) /\
    frame_ok f /\ zlen buf = FRAME_SIZE_MAX.
Proof.
  intros Hi. pose proof (ei_tx_buffer _ _ Hi) as Hz.
  destruct (frame_writer_new_at (tx_buffer e) StreamAckType) as (wr & -> & Hat); [sizes|]. cbn [mbind outcome_bind].
  assert (Hd : zlen (drop 1 (tx_buffer e)) = zlen (tx_buffer e) - 1) by (unfold zlen in *; rewrite length_drop;
    sizes).
  destruct (write_ack_ok now e r wr _ _ Hi Hat) as (wr' & -> & Hv & Hat' & Hz'); [sizes|]. cbn [mbind outcome_bind].
  set (a := outgoing_ack e r) in *.
  destruct (finish_frame StreamAckType (block_encode a) wr' _ (fc_ack a Hv) (block_encode_u8 a Hv) Hat')
    as (f & buf & -> & Hf & Hb).
  { sizes. } { rewrite zlen_cons, fits_room. sizes. }
  by exists f, buf.
Qed.

(** The contents before the segment: nothing, or an acknowledgement. *)
Lemma flush_prefix now e (a r : bool) t : ep_inv now e ->
  exists wr pre tail, (writer ← frame_writer_new (tx_buffer e) t;
      if a then write_ack e r writer else Ok writer) = Ok wr /\
    fw_at wr (frame_type_bits t :: pre) tail /\ zlen (frame_type_bits t :: pre) + zlen tail = FRAME_SIZE_MAX /\
    zlen pre <= STREAM_ACK_SIZE /\ Forall is_u8 pre /\
    (if a then block_valid (outgoing_ack e r) /\ pre = block_encode (outgoing_ack e r) else pre = []).
Proof.
  intros Hi. pose proof (ei_tx_buffer _ _ Hi) as Hz.
  destruct (frame_writer_new_at (tx_buffer e) t) as (wr & -> & Hat); [sizes|]. cbn [mbind outcome_bind].
  assert (Hd : zlen (drop 1 (tx_buffer e)) = zlen (tx_buffer e) - 1) by (unfold zlen in *; rewrite length_drop;
    sizes).
  destruct a.
  - destruct (write_ack_ok now e r wr _ _ Hi Hat) as (wr' & -> & Hv & Hat' & Hz'); [sizes|].
    set (k := outgoing_ack e r) in *. pose proof (fits_room k) as Hk. change (block_size StreamAck) with 9 in Hk.
    exists wr', (block_encode k), (drop (length (block_encode k)) (drop 1 (tx_buffer e))). split_and!; try done.
    + rewrite zlen_cons. sizes.
    + by apply block_encode_u8.
  - exists wr, [], (drop 1 (tx_buffer e)). split_and!; try done. rewrite Hd, Hz, zlen_cons, zlen_nil. sizes.
Qed.

Lemma flush_data now e (a r : bool) ctx :
  ep_inv now e -> 0 < room (segment_tx e) ->
  data_waiting (fragment_tx e) = true -> ftx_pop_expired (fragment_tx e) now = fragment_tx e ->
  exists e' evs, (writer ← frame_writer_new (tx_buffer e) (if a then StreamSegmentAck else StreamSegment);
      writer ← (if a then write_ack e r writer else Ok writer);
      '(self, writer, ctx) ← write_segment e writer now ctx;
      '(frame, buf) ← frame_writer_finalize writer;
      Ok (set_tx_buffer buf self, send_frame frame ctx, true)) = Ok (e', performs ctx evs, true) /\
    ep_inv now e' /\ quiet now e e' evs /\ cc_state e' = cc_state e /\
    room (segment_tx e') = room (segment_tx e) - 1 /\
    SegmentTx.bytes_in_transit (segment_tx e) <= SegmentTx.bytes_in_transit (segment_tx e') <
      SegmentTx.bytes_in_transit (segment_tx e) + FRAME_SIZE_MAX.
Proof.
  intros Hi Hroom Hwait Hpop. set (t := if a then StreamSegmentAck else StreamSegment).
  destruct (flush_prefix now e a r t Hi) as (wr & pre & tail & Hw & Hat & Hz & Hpre & Hu & Hpk).
  rewrite zlen_cons in Hz. pose proof (zlen_nonneg pre).
  destruct (write_segment_ok now e wr _ tail ctx Hi Hroom Hat Hwait Hpop)
    as (e1 & wr1 & h & ds & evs & tail1 & Hs & Hvh & Hvd & Hat1 & Hl1 & Hz1 & Hi1 & Hq1 & Hb1 & Hc1 & Hr1 & Ht1);
      [sizes|].
  rewrite <- outcome_bind_assoc, Hw. cbn [mbind outcome_bind]. rewrite Hs. cbn [mbind outcome_bind].
  assert (Hcontent : frame_content t (pre ++ block_encode h ++ encode_all ds)).
  { unfold t. destruct a; [destruct Hpk as [Hk ->]|subst pre]; by constructor. }
  change ((frame_type_bits t :: pre) ++ block_encode h ++ encode_all ds)
    with (frame_type_bits t :: (pre ++ block_encode h ++ encode_all ds)) in Hat1.
  destruct (finish_frame t _ wr1 tail1 Hcontent) as (f & buf & -> & Hf & Hbuf); [|exact Hat1|exact Hl1| |].
  { apply Forall_app. split; [done|]. apply Forall_app. split; [by apply block_encode_u8|by apply encode_all_u8]. }
  { rewrite zlen_cons, zlen_app. sizes. }
  cbn [mbind outcome_bind]. exists (set_tx_buffer buf e1), (evs ++ [EvSend f]).
  rewrite performs_app. split; [done|]. split; [by apply set_buffer_ok|]. split; [by apply send_quiet|]. done.
Qed.

Lemma flush_step_ok now e (a r : bool) ctx : ep_inv now e ->
  exists e' evs more, flush_step a r e now ctx = Ok (e', performs ctx evs, more) /\
    ep_inv now e' /\ quiet now e e' evs /\ cc_state e' = cc_state e /\
    (if more : bool then flush_progress a e e'
     else a = false /\ evs = [] /\ segment_tx e' = segment_tx e /\
       frame_window_open e && congestion_window_open e && data_waiting (fragment_tx e') = false).
Proof.
  intros Hi. unfold flush_step. cbn [ftx_data_ready].
  rewrite (can_send_room _ (ei_segment_tx _ _ Hi)), negb_involutive.
  fold (frame_window_open e). set (ft := ftx_pop_expired (fragment_tx e) now).
  change (bool_decide (is_Some (UnreliableTxBuffer.peek_sendable (unrel ft)))
    || bool_decide (is_Some (ReliableTxBuffer.peek_sendable (rel ft)))) with (data_waiting ft).
  assert (Hcw : negb (AimdReno.cwnd (cc_state e) <=? SegmentTx.bytes_in_transit (segment_tx e))
    = congestion_window_open e).
  { unfold congestion_window_open. apply eq_sym, Z.ltb_antisym. }
  rewrite Hcw. pose proof (endpoint_expire_inv now e Hi) as Hi1. fold ft in Hi1.
  set (e1 := set_fragment_tx ft e) in *.
  assert (Hq1 : quiet now e e1 []) by by split.
  destruct (frame_window_open e && congestion_window_open e && data_waiting ft) eqn:Esend.
  - rewrite orb_true_r. apply andb_true_iff in Esend as [[Hroom Hcong]%andb_true_iff Hwait].
    apply Z.ltb_lt in Hroom.
    destruct (flush_data now e1 a r ctx Hi1 Hroom Hwait (expire_idemp _ _))
      as (e2 & evs & Hf & Hi2 & Hq2 & Hc2 & Hr2 & Hb2).
    exists e2, evs, true. split.
    { rewrite <- Hf. by destruct a. }
    split; [done|]. split; [by apply (quiet_trans _ _ _ _ _ _ Hq1 Hq2)|]. split; [done|]. by right.
  - rewrite orb_false_r. destruct a.
    + destruct (flush_ack_only now e1 r Hi1) as (f & buf & Hf & Hok & Hz).
      exists (set_tx_buffer buf e1), [EvSend f], true. split.
      { cbn [stream_frame_type mbind outcome_bind]. cbn [mbind outcome_bind] in Hf. 
        apply outcome_bind_Ok in Hf as (w1 & -> & Hf). cbn [mbind outcome_bind].
        apply outcome_bind_Ok in Hf as (w2 & -> & Hf). cbn [mbind outcome_bind].
        apply outcome_bind_Ok in Hf as ([f1 b1] & -> & [= -> ->]). done. }
      split; [by apply set_buffer_ok|]. split; [by apply (send_quiet now e e1 [])|]. split; [done|]. by left.
    + exists e1, [], false. split; [done|]. split_and!; done.
Qed.

(** The flush loop terminates within its fuel: every turn but the first sends a segment. *)
Lemma flush_loop_ok now r fuel : forall e (a : bool) ctx, ep_inv now e ->
  room (segment_tx e) + (if a then 1 else 0) < Z.of_nat fuel ->
  exists e' evs, flush_loop fuel a r e now ctx = Ok (e', performs ctx evs) /\
    ep_inv now e' /\ quiet now e e' evs /\ cc_state e' = cc_state e /\
    frame_window_open e' && congestion_window_open e' && data_waiting (fragment_tx e') = false /\
    SegmentTx.bytes_in_transit (segment_tx e') <
      Z.max (SegmentTx.bytes_in_transit (segment_tx e) + 1) (AimdReno.cwnd (cc_state e) + FRAME_SIZE_MAX).
Proof.
  induction fuel as [|fuel IH]; intros e a ctx Hi Hfuel.
  { pose proof (room_bounds _ (ei_segment_tx _ _ Hi)). destruct a; lia. }
  cbn [flush_loop]. destruct (flush_step_ok now e a r ctx Hi) as (e1 & evs & more & -> & Hi1 & Hq1 & Hc1 & Hm).
  cbn [mbind outcome_bind]. destruct more.
  - destruct (IH e1 false (performs ctx evs) Hi1) as (e2 & evs2 & Hl & Hi2 & Hq2 & Hc2 & Hstop & Hb2).
    { destruct Hm as [[-> ->]|(_ & -> & _)]; [lia|]. destruct a; lia. }
    exists e2, (evs ++ evs2). rewrite performs_app. split; [done|]. split; [done|].
    split; [by eapply quiet_trans|]. split; [congruence|]. split; [done|]. rewrite Hc1 in Hb2.
    destruct Hm as [[_ Hs]|(Hcw & _ & Hb)]; [by rewrite <- Hs|].
    unfold congestion_window_open in Hcw. apply Z.ltb_lt in Hcw. lia.
  - destruct Hm as (-> & -> & Hs & Hstop). exists e1, []. split; [done|]. split; [done|]. split; [done|].
    split; [done|].
    unfold frame_window_open, congestion_window_open in *. rewrite Hc1, Hs in *. split; [done|]. lia.
Qed.

Lemma flush_stream_ok now e (a r : bool) ctx : ep_inv now e ->
  exists e' evs, flush_stream e a r now ctx = Ok (e', performs ctx evs) /\
    ep_inv now e' /\ quiet now e e' evs /\ cc_state e' = cc_state e /\
    frame_window_open e' && congestion_window_open e' && data_waiting (fragment_tx e') = false /\
    SegmentTx.bytes_in_transit (segment_tx e') <
      Z.max (SegmentTx.bytes_in_transit (segment_tx e) + 1) (AimdReno.cwnd (cc_state e) + FRAME_SIZE_MAX).
Proof.
  intros Hi. apply flush_loop_ok; [done|]. pose proof (room_bounds _ (ei_segment_tx _ _ Hi)).
  unfold flush_fuel, SEGMENT_WINDOW_SIZE in *. destruct a; lia.
Qed.
End Sending.
