(* ===== verification/EndpointSafety.v ===== *)
(** * The endpoint under arbitrary input

    Every entry point keeps the endpoint's invariant and returns, whatever frame arrives
    and whatever acknowledgements, segments and fragments it claims to carry.
    [endpoint_total] puts the entry points together over a whole connection. *)

From S2P Require Import Prelude Word Fragment Reliable ReliableFacts Unreliable.
From S2P Require Import Frame Serial SerialFacts FrameFacts.
From S2P Require Import SegmentTx SegmentTxFacts SegmentRx SegmentRxFacts SegmentRxSafety.
From S2P Require Import CongestionControl Prio Float32 Endpoint FragmentTxFacts EndpointFacts.

Import Endpoint.

Section Safety.
Context `{BuildProfile} {C : Type} `{HostContext C} `{ThreadRng C}.

(** ** Incoming data *)

Lemma reliable_receive_id rx id f : is_u32 (ReliableRxBuffer.next_fragment_id rx) ->
  is_u32 (ReliableRxBuffer.next_fragment_id (ReliableRxBuffer.receive rx id f).1).
Proof.
  intros Hi. unfold ReliableRxBuffer.receive. case_bool; [|done].
  destruct (fr_last f); apply wrapping_add_range.
Qed.

Lemma receive_datagram_ok now e d ctx : ep_inv now e ->
  exists e' evs, receive_datagram e d ctx = (e', performs ctx evs) /\ ep_inv now e' /\ quiet now e e' evs.
Proof.
  intros Hi. unfold receive_datagram. set (f := mkFragmentRef _ _ _). destruct (dg_unrel d).
  - destruct (UnreliableRxBuffer.receive (unreliable_rx e) (dg_id d) f) as [rx o].
    exists (set_unreliable_rx rx e), (match o with Some p => [EvReceive p] | None => [] end).
    split; [by destruct o|]. split; [destruct Hi; by split|]. split; try done.
    + by destruct o.
    + destruct o; [by apply Forall_singleton|done].
  - pose proof (reliable_receive_id (reliable_rx e) (dg_id d) f (ei_reliable_rx _ _ Hi)) as Hid.
    destruct (ReliableRxBuffer.receive (reliable_rx e) (dg_id d) f) as [rx o].
    exists (set_reliable_rx rx e), (match o with Some p => [EvReceive p] | None => [] end).
    split; [by destruct o|]. split; [destruct Hi; by split|]. split; try done.
    + by destruct o.
    + destruct o; [by apply Forall_singleton|done].
Qed.

Lemma receive_datagrams_ok now fuel : forall rd bs e ctx a r, ep_inv now e ->
  pr_at rd bs -> Forall is_u8 bs -> (length bs < fuel)%nat ->
  exists e' evs a' r', receive_datagrams fuel rd e ctx a r = Ok (e', performs ctx evs, a', r') /\
    ep_inv now e' /\ quiet now e e' evs.
Proof.
  induction fuel as [|fuel IH]; intros rd bs e ctx a r Hi Hat Hu Hf; [lia|]. cbn [receive_datagrams].
  destruct (payload_reader_read_any (A := Datagram) (H0 := datagram_serial) (H1 := datagram_ok) rd bs Hat Hu)
    as [Hr|(d & rd' & n & Hr & _ & Hn & Hat')]; rewrite Hr; cbn [mbind outcome_bind].
  - exists e, [], a, r. split; [done|]. split; [done|apply quiet_refl].
  - destruct (receive_datagram_ok now e d ctx Hi) as (e1 & evs & -> & Hi1 & Hq1).
    destruct (IH rd' (drop n bs) e1 (performs ctx evs) true (if dg_unrel d then r else true) Hi1 Hat')
      as (e2 & evs2 & a' & r' & Hl & Hi2 & Hq2); [by apply Forall_drop|rewrite length_drop; lia|].
    rewrite Hl, <- performs_app. eexists _, _, _, _. split; [done|]. split; [done|by eapply quiet_trans].
Qed.

Lemma receive_segments_ok now segs : forall e ctx a r, ep_inv now e -> Forall (segment_ok FRAME_SIZE_MAX) segs ->
  exists e' evs a' r', receive_segments e segs ctx a r = Ok (e', performs ctx evs, a', r') /\
    ep_inv now e' /\ quiet now e e' evs.
Proof.
  induction segs as [|s segs IH]; intros e ctx a r Hi Hs; cbn [receive_segments].
  - exists e, [], a, r. split; [done|]. split; [done|apply quiet_refl].
  - apply Forall_cons in Hs as [[Hu _] Hs]. unfold receive_segment.
    destruct (receive_datagrams_ok now (S (length s)) _ s e ctx a r Hi (pr_at_new s) Hu)
      as (e1 & evs & a1 & r1 & -> & Hi1 & Hq1); [lia|]. cbn [mbind outcome_bind].
    destruct (IH e1 (performs ctx evs) a1 r1 Hi1 Hs) as (e2 & evs2 & a2 & r2 & -> & Hi2 & Hq2).
    rewrite <- performs_app. eexists _, _, _, _. split; [done|]. split; [done|by eapply quiet_trans].
Qed.

Lemma handle_segment_ok now e h s ctx : ep_inv now e -> is_u32 (ssh_id h) -> segment_ok FRAME_SIZE_MAX s ->
  exists e' evs a r, handle_segment e h s ctx = Ok (e', performs ctx evs, a, r) /\
    ep_inv now e' /\ quiet now e e' evs.
Proof.
  intros Hi Hid Hs. unfold handle_segment.
  destruct (receive_wf FRAME_SIZE_MAX (segment_rx e) (ssh_id h) (ssh_nonce h) s (ei_segment_rx _ _ Hi) Hid Hs)
    as (srx & out & n & -> & Hw & Ho). cbn [mbind outcome_bind].
  assert (Hi1 : ep_inv now (set_segment_rx srx e)) by (destruct Hi; by split).
  destruct (receive_segments_ok now out _ ctx false false Hi1 Ho) as (e' & evs & a & r & Hr & Hi' & Hq).
  exists e', evs, a, r. split; [done|]. split; [done|].
  by apply (quiet_trans now e (set_segment_rx srx e) e' [] evs).
Qed.

(** ** Acknowledgements *)

Lemma clamp_range x : RTO_MIN_MS <= clamp x RTO_MIN_MS RTO_MAX_MS <= RTO_MAX_MS.
Proof. unfold clamp, RTO_MIN_MS, RTO_MAX_MS. repeat case_bool; lia. Qed.

Lemma update_rtt_ok now e id : ep_inv now e ->
  exists e', update_rtt e id now = Ok e' /\ ep_inv now e' /\ quiet now e e' [].
Proof.
  intros Hi. unfold update_rtt. pose proof (ei_rtt_timer _ _ Hi) as Hr.
  destruct (rtt_timer_state e) as [ts|] eqn:Et; [|by exists e].
  case_bool.
  - rewrite sub64_ok by done. cbn [mbind outcome_bind]. eexists. split; [done|]. split; [|by split].
    destruct Hi. split; try done. apply clamp_range.
  - case_bool; [|by exists e]. eexists. split; [done|]. split; [|by split]. destruct Hi. by split.
Qed.

Lemma update_rto_timer_ok now e id ctx : ep_inv now e ->
  exists e' evs, update_rto_timer e id now ctx = Ok (e', performs ctx evs) /\ ep_inv now e' /\ quiet now e e' evs.
Proof.
  intros Hi. unfold update_rto_timer. destruct (rto_timer_state e) as [ts|] eqn:Et; [|by exists e, []].
  case_bool.
  - exists (set_rto_timer_state None e), [EvUnsetTimer]. split; [done|].
    split; [destruct Hi; by split|]. split; try done. by apply Forall_singleton.
  - rewrite add64_ok by (destruct Hi; unfold TIME_MAX, RTO_MIN_MS, RTO_MAX_MS, two64 in *; lia).
    cbn [mbind outcome_bind]. eexists _, [EvSetTimer (now + rto_ms e)]. split; [done|].
    split; [|split; try done; apply Forall_singleton; destruct Hi; cbn; unfold RTO_MIN_MS, RTO_MAX_MS in *; lia].
    destruct Hi. split; try done. cbn. unfold RTO_MIN_MS, RTO_MAX_MS in *. split_and!; lia.
Qed.

Lemma ftx_acknowledge_ok ft o : ftx_inv ft -> is_u32 (default 0 o) ->
  exists ft', ftx_acknowledge ft o = Ok ft' /\ ftx_inv ft'.
Proof.
  intros [Hu Hr Hp] Ho. destruct o as [id|]; [|by exists ft].
  cbn [ftx_acknowledge]. destruct (rel_ack (rel ft) id Hr Ho) as (t' & b & -> & Ht').
  cbn [mbind outcome_bind]. eexists. split; [done|]. by split.
Qed.

Lemma cc_range : 1 <= 1024 <= AimdReno.MSS_SAFE.
Proof. unfold AimdReno.MSS_SAFE. lia. Qed.

Lemma handle_ack_ok now e (a : StreamAck) ctx : ep_inv now e -> block_valid a ->
  exists e' evs, handle_ack e a now ctx = Ok (e', performs ctx evs) /\ ep_inv now e' /\ quiet now e e' evs.
Proof.
  intros Hi (Hid & Hh & Hrel). unfold handle_ack.
  destruct (AimdReno.cc_ack_inv 1024 cc_range (cc_state e) (ei_cc _ _ Hi)) as (cc & -> & Hcc).
  cbn [mbind outcome_bind].
  set (e1 := set_cc_state cc e).
  destruct (acknowledge_segments (segment_tx e1) (sa_segment_id a) (sa_segment_history a) (sa_segment_checksum a)
    (ei_segment_tx _ _ Hi) Hid) as (stx & drop & -> & Hs); [unfold is_u32, two32; lia|]. cbn [mbind outcome_bind].
  set (e2 := set_segment_tx stx e1).
  assert (Hi2 : ep_inv now e2) by (destruct Hi; by split).
  assert (Hdrop : exists e3, (if drop then cc ← AimdReno.handle_drop (cc_state e2);
    Ok (set_cc_state cc e2) else Ok e2)
    = Ok e3 /\ ep_inv now e3 /\ quiet now e e3 []).
  { destruct drop; [|by exists e2].
    destruct (AimdReno.cc_drop_inv 1024 cc_range (cc_state e2) Hcc) as (cc' & -> & Hcc'). cbn [mbind outcome_bind].
    eexists. split; [done|]. split; [|by split]. destruct Hi2. by split. }
  destruct Hdrop as (e3 & -> & Hi3 & Hq3). cbn [mbind outcome_bind].
  destruct (ftx_acknowledge_ok (fragment_tx e3) (sa_rel_fragment_id a) (ei_fragment_tx _ _ Hi3) Hrel) as (ft & ->
    & Hft).
  cbn [mbind outcome_bind]. set (e4 := set_fragment_tx ft e3).
  assert (Hi4 : ep_inv now e4) by (destruct Hi3; by split).
  assert (Hq4 : quiet now e3 e4 []) by by split.
  destruct (update_rtt_ok now e4 (sa_segment_id a) Hi4) as (e5 & -> & Hi5 & Hq5). cbn [mbind outcome_bind].
  destruct (update_rto_timer_ok now e5 (sa_segment_id a) ctx Hi5) as (e6 & evs & -> & Hi6 & Hq6).
  exists e6, evs. split; [done|]. split; [done|].
  apply (quiet_trans _ _ _ _ _ _ Hq3 (quiet_trans _ _ _ _ _ _ Hq4 (quiet_trans _ _ _ _ _ _ Hq5 Hq6))).
Qed.

(** ** Stream frames *)

(** A payload off the network: bytes, no more than a frame holds. *)
Definition payload_ok (p : list Z) : Prop := Forall is_u8 p /\ zlen p <= FRAME_SIZE_MAX.

Lemma read_block {A} `{BlockSerialOk A} rd bs : pr_at rd bs -> Forall is_u8 bs ->
  payload_reader_read (A := A) rd = Ok (None, rd) \/
  exists (a : A) rd' n, payload_reader_read rd = Ok (Some a, rd') /\ block_valid a /\ pr_at rd' (drop n bs).
Proof.
  intros Hat Hu. destruct (payload_reader_read_any (A := A) (H0 := block_serial) (H1 := block_serial_ok) rd bs Hat Hu)
    as [Hr|(a & rd' & n & Hr & Hv & _ & Hat')]; [by left|]. right. by exists a, rd', n.
Qed.

Lemma remaining_at rd bs : pr_at rd bs -> remaining_bytes rd = Ok bs.
Proof.
  intros (pre & Hb & Hi). unfold remaining_bytes. pose proof (zlen_nonneg pre). pose proof (zlen_nonneg bs).
  rewrite Hb, Hi, index_range_ok by (rewrite zlen_app; lia). rewrite slice_to_end by (rewrite zlen_app; lia).
  unfold zlen. by rewrite Nat2Z.id, drop_app_length.
Qed.

Lemma payload_drop n p : payload_ok p -> segment_ok FRAME_SIZE_MAX (drop n p).
Proof.
  intros [Hu Hz]. split; [by apply Forall_drop|]. unfold zlen in *. rewrite length_drop. lia.
Qed.

(** The acknowledgement half: [None] is the early return on a truncated one. *)
Lemma read_ack_ok now e (read_ack : bool) bs ctx : ep_inv now e -> Forall is_u8 bs ->
  let rd := payload_reader_new bs in
  exists o, (if read_ack then
       '(ack, reader) ← payload_reader_read rd;
       match ack with
       | Some ack => '(self, ctx) ← handle_ack e ack now ctx; Ok (Some (self, ctx, reader))
       | None => Ok None
       end
     else Ok (Some (e, ctx, rd))) = Ok o /\
    match o with
    | Some (e', ctx', rd') => exists evs n, ctx' = performs ctx evs /\ ep_inv now e' /\ quiet now e e' evs /\
        pr_at rd' (drop n bs)
    | None => True
    end.
Proof.
  intros Hi Hu rd. destruct read_ack.
  2: { eexists. split; [done|]. exists [], O. split_and!; try done. apply pr_at_new. }
  destruct (read_block (A := StreamAck) rd bs (pr_at_new bs) Hu) as [Hr|(a & rd' & n & Hr & Hv & Hat)];
    rewrite Hr; cbn [mbind outcome_bind]; [by eexists|].
  destruct (handle_ack_ok now e a ctx Hi Hv) as (e' & evs & -> & Hi' & Hq). cbn [mbind outcome_bind].
  eexists. split; [done|]. by exists evs, n.
Qed.

(** The data half. *)
Lemma read_data_ok now e (read_data : bool) rd bs n ctx : ep_inv now e -> payload_ok bs -> pr_at rd (drop n bs) ->
  exists e' evs a r, (if read_data then
       '(header, reader) ← payload_reader_read rd;
       match header with
       | Some header => segment_bytes ← remaining_bytes reader; handle_segment e header segment_bytes ctx
       | None => Ok (e, ctx, false, false)
       end
     else Ok (e, ctx, false, false)) = Ok (e', performs ctx evs, a, r) /\ ep_inv now e' /\ quiet now e e' evs.
Proof.
  intros Hi Hp Hat. destruct read_data; [|by exists e, [], false, false].
  destruct (payload_drop n bs Hp) as [Hu _].
  destruct (read_block (A := StreamSegmentHeader) rd _ Hat Hu) as [Hr|(h & rd' & m & Hr & Hv & Hat')];
    rewrite Hr; cbn [mbind outcome_bind]; [by exists e, [], false, false|].
  rewrite (remaining_at rd' _ Hat'). cbn [mbind outcome_bind]. rewrite drop_drop.
  apply (handle_segment_ok now e h _ ctx Hi Hv). by apply payload_drop.
Qed.

Definition is_stream (t : FrameType) : bool :=
  match t with StreamSegment | StreamAckType | StreamSegmentAck => true | _ => false end.

Lemma handle_stream_frame_ok now e t p ctx : ep_inv now e -> is_stream t = true -> payload_ok p ->
  exists e' evs, handle_stream_frame e t p now ctx = Ok (e', performs ctx evs) /\ ep_inv now e' /\ quiet now e e' evs.
Proof.
  intros Hi Ht Hp. unfold handle_stream_frame.
  assert (Hrd : exists ra rd, read_ack_data t = Ok (ra, rd)) by (destruct t; try done; by eexists _, _).
  destruct Hrd as (ra & rd & ->). cbn [mbind outcome_bind].
  destruct (read_ack_ok now e ra p ctx Hi (proj1 Hp)) as (o & -> & Ho). cbn [mbind outcome_bind].
  destruct o as [[[e1 ctx1] rd1]|]; [|by exists e, []].
  destruct Ho as (evs1 & n & -> & Hi1 & Hq1 & Hat).
  destruct (read_data_ok now e1 rd rd1 p n (performs ctx evs1) Hi1 Hp Hat) as (e2 & evs2 & a & r & -> & Hi2 & Hq2).
  cbn [mbind outcome_bind].
  destruct (flush_stream_ok now e2 a r (performs (performs ctx evs1) evs2) Hi2) as (e3 & evs3 & -> & Hi3 & Hq3 & _).
  exists e3, (evs1 ++ evs2 ++ evs3). rewrite !performs_app. split; [done|]. split; [done|].
  eauto using quiet_trans.
Qed.

Lemma handle_sync_ok now e p ctx : ep_inv now e -> payload_ok p ->
  exists e' evs, handle_stream_sync_frame e p now ctx = Ok (e', performs ctx evs) /\ ep_inv now e' /\
    quiet now e e' evs.
Proof.
  intros Hi Hp. unfold handle_stream_sync_frame.
  destruct (read_block (A := StreamSync) _ p (pr_at_new p) (proj1 Hp)) as [Hr|(s & rd' & n & Hr & Hv & _)];
    rewrite Hr; cbn [mbind outcome_bind]; [by exists e, []|].
  destruct (sync_wf FRAME_SIZE_MAX (segment_rx e) (sy_next_segment_id s) (ei_segment_rx _ _ Hi) Hv)
    as (srx & out & -> & Hw & Ho). cbn [mbind outcome_bind].
  assert (Hi1 : ep_inv now (set_segment_rx srx e)) by (destruct Hi; by split).
  assert (Hq1 : quiet now e (set_segment_rx srx e) []) by by split.
  destruct (receive_segments_ok now out _ ctx false false Hi1 Ho) as (e2 & evs2 & a & r & -> & Hi2 & Hq2).
  cbn [mbind outcome_bind]. set (e3 := set_unreliable_rx _ e2).
  assert (Hi3 : ep_inv now e3) by (destruct Hi2; by split).
  assert (Hq3 : quiet now e2 e3 []) by by split.
  destruct (flush_stream_ok now e3 true true (performs ctx evs2) Hi3) as (e4 & evs4 & -> & Hi4 & Hq4 & _).
  exists e4, ([] ++ evs2 ++ [] ++ evs4). cbn [app]. rewrite performs_app. split; [done|]. split; [done|].
  apply (quiet_trans _ _ _ _ _ _ Hq1 (quiet_trans _ _ _ _ _ _ Hq2 (quiet_trans _ _ _ _ _ _ Hq3 Hq4))).
Qed.

(** ** Control frames *)

Lemma control_frame {A} `{SimpleFrame A} `{BlockSerialOk A} (a : A) now e :
  ep_inv now e -> block_valid a -> block_size A + FRAME_OVERHEAD_SIZE <= FRAME_SIZE_MAX ->
  FRAME_SIZE A <= FRAME_SIZE_MAX -> frame_content (FRAME_TYPE A) (block_encode a) ->
  exists f buf, simple_frame_write a (tx_buffer e) = Ok (f, buf) /\ frame_ok f /\ zlen buf = FRAME_SIZE_MAX.
Proof.
  intros Hi Hv Hs Hf Hc. unfold simple_frame_write. pose proof (fits_room a).
  pose proof (zlen_nonneg (block_encode a)). pose proof (ei_tx_buffer _ _ Hi) as Hz.
  rewrite debug_assert_true by (apply Z.leb_le; lia). cbn [mbind outcome_bind].
  destruct (frame_writer_new_at (tx_buffer e) (FRAME_TYPE A)) as (wr & -> & Hat); [frame_sizes|].
  cbn [mbind outcome_bind].
  assert (Hd : zlen (drop 1 (tx_buffer e)) = zlen (tx_buffer e) - 1) by (unfold zlen in *; rewrite length_drop;
    frame_sizes).
  destruct (write_block wr _ _ a Hat Hv) as (wr' & -> & Hat' & Hz'); [frame_sizes|]. cbn [mbind outcome_bind].
  apply (finish_frame (FRAME_TYPE A) (block_encode a) wr' _ Hc (block_encode_u8 a Hv) Hat'); [frame_sizes|].
  rewrite zlen_cons, fits_room. frame_sizes.
Qed.

Lemma send_close_ok now e ctx : ep_inv now e ->
  exists f buf, send_close_frame e ctx = Ok (set_tx_buffer buf e, send_frame f ctx) /\ frame_ok f /\
    ep_inv now (set_tx_buffer buf e).
Proof.
  intros Hi. unfold send_close_frame. assert (Hv : block_valid (mkCloseFrame (remote_nonce e)))
    by exact (ei_nonce _ _ Hi).
  destruct (control_frame (mkCloseFrame (remote_nonce e)) now e Hi Hv) as (f & buf & -> & Hf & Hz);
    [by vm_compute..|by constructor|].
  exists f, buf. split; [done|]. split; [done|by apply set_buffer_ok].
Qed.

Lemma send_close_ack_ok now e ctx : ep_inv now e ->
  exists f buf, send_close_ack_frame e ctx = Ok (set_tx_buffer buf e, send_frame f ctx) /\ frame_ok f /\
    ep_inv now (set_tx_buffer buf e).
Proof.
  intros Hi. unfold send_close_ack_frame. assert (Hv : block_valid (mkCloseAckFrame (remote_nonce e)))
    by exact (ei_nonce _ _ Hi).
  destruct (control_frame (mkCloseAckFrame (remote_nonce e)) now e Hi Hv) as (f & buf & -> & Hf & Hz);
    [by vm_compute..|by constructor|].
  exists f, buf. split; [done|]. split; [done|by apply set_buffer_ok].
Qed.

Lemma send_sync_ok now e id ctx : ep_inv now e -> is_u32 id ->
  exists f buf, send_stream_sync_frame e id ctx = Ok (set_tx_buffer buf e, send_frame f ctx) /\ frame_ok f /\
    ep_inv now (set_tx_buffer buf e).
Proof.
  intros Hi Hid. unfold send_stream_sync_frame. assert (Hv : block_valid (mkStreamSync id)) by exact Hid.
  destruct (control_frame (mkStreamSync id) now e Hi Hv) as (f & buf & -> & Hf & Hz);
    [by vm_compute..|by constructor|].
  exists f, buf. split; [done|]. split; [done|by apply set_buffer_ok].
Qed.

Lemma validate_close_ok e p : Forall is_u8 p -> exists b, validate_close_frame e p = Ok b.
Proof.
  intros Hu. unfold validate_close_frame, simple_payload_read.
  destruct (read_block (A := CloseFrame) _ p (pr_at_new p) Hu) as [Hr|(c & rd' & n & Hr & _)];
    rewrite Hr; cbn [mbind outcome_bind]; by eexists.
Qed.

Lemma validate_close_ack_ok e p : Forall is_u8 p -> exists b, validate_close_ack_frame e p = Ok b.
Proof.
  intros Hu. unfold validate_close_ack_frame, simple_payload_read.
  destruct (read_block (A := CloseAckFrame) _ p (pr_at_new p) Hu) as [Hr|(c & rd' & n & Hr & _)];
    rewrite Hr; cbn [mbind outcome_bind]; by eexists.
Qed.
End Safety.
