(* ===== verification/EndpointMachine.v ===== *)
(** * The connection state machine

    [transition] is the endpoint's life as a step relation: what the host sees of each call
    and which state follows.  Every entry point of the endpoint takes such a step from any
    state that keeps the invariant, so reachability arguments are by rule induction on runs
    of transitions. *)

From S2P Require Import Prelude Word Fragment Frame Serial SerialFacts FrameFacts.
From S2P Require Import SegmentTx SegmentTxFacts SegmentRx SegmentRxSafety CongestionControl Prio.
From S2P Require Import Reliable Unreliable Endpoint FragmentTxFacts EndpointFacts EndpointSafety.

Import Endpoint.

(** ** The step relation *)

Section Transition.
Context `{BuildProfile}.

(** Events allowed without a change of state. *)
Definition allowed (s : StateId) (ev : event) : Prop :=
  match s, ev with
  | Active, (EvSend _ | EvSetTimer _ | EvUnsetTimer | EvReceive _ | EvRandom) => True
  | Closing, (EvSend _ | EvSetTimer _) => True
  | Closed, EvSend _ => True
  | _, _ => False
  end.

Definition open_state (s : StateId) : Prop := s = Active \/ s = Closing.

(** [timer_ok armed e]: what the timer of the host and of the endpoint are in each state. *)
Definition timer_ok (armed : bool) (e : Endpoint) : Prop :=
  match state_id e with
  | PreInit => armed = false /\ has_timer e = false
  | Active => has_timer e = armed
  | Closing => armed = true /\ has_timer e = true
  | Closed => armed = true
  | Zombie => True
  end.

Inductive transition (now : Z) (e e' : Endpoint) : list event -> Prop :=
| tr_quiet evs :
    quiet now e e' evs -> Forall (allowed (state_id e)) evs -> transition now e e' evs
| tr_init :
    state_id e = PreInit -> state_id e' = Active -> has_timer e' = has_timer e ->
    transition now e e' [EvConnect]
| tr_closing t f :
    state_id e = Active -> state_id e' = Closing -> has_timer e' = true ->
    data_event now (EvSetTimer t) -> frame_ok f ->
    transition now e e' [EvSetTimer t; EvSend f]
| tr_closed pre :
    open_state (state_id e) -> state_id e' = Closed ->
    (pre = [] \/ exists f, pre = [EvSend f] /\ frame_ok f) ->
    transition now e e' (pre ++ [EvDisconnect; EvSetTimer (now + DISCONNECT_TIMEOUT_MS)])
| tr_backoff t evs :
    open_state (state_id e) -> state_id e' = state_id e -> data_event now (EvSetTimer t) ->
    Forall (data_event now) evs -> Forall (allowed (state_id e)) evs ->
    arm true evs = has_timer e' ->
    transition now e e' (EvSetTimer t :: evs)
| tr_timeout :
    open_state (state_id e) -> state_id e' = Zombie -> transition now e e' [EvTimeout]
| tr_zombie :
    state_id e = Closed -> state_id e' = Zombie -> transition now e e' [].

Lemma arm_closing evs : Forall (allowed Closing) evs -> arm true evs = true.
Proof. induction 1 as [|ev evs Hev _ IH]; [done|]. destruct ev; done. Qed.

Lemma arm_closed a evs : Forall (allowed Closed) evs -> arm a evs = a.
Proof. induction 1 as [|ev evs Hev _ IH]; [done|]. destruct ev; done. Qed.

Lemma allowed_none s evs : s = PreInit \/ s = Zombie -> Forall (allowed s) evs -> evs = [].
Proof. intros Hs Ha. destruct Ha as [|ev evs Hev _]; [done|]. by destruct Hs as [-> | ->]. Qed.

Lemma transition_started now e e' evs : transition now e e' evs -> state_id e <> PreInit -> state_id e' <> PreInit.
Proof. intros [evs' Hq _| | | | | |] Hne; try congruence; [by rewrite (q_state _ _ _ _ Hq)]. Qed.

Lemma transition_zombie now e e' evs : transition now e e' evs -> state_id e = Zombie -> state_id e' = Zombie.
Proof.
  unfold open_state. intros [evs' Hq _| | | | | |] Hz; try congruence; [by rewrite (q_state _ _ _ _ Hq)|..];
    destruct H0 as [?|?]; congruence.
Qed.

(** Transitions keep the timers of both sides in step. *)
Lemma transition_timer now e e' evs armed :
  transition now e e' evs -> timer_ok armed e -> timer_ok (arm armed evs) e'.
Proof.
  unfold timer_ok, open_state. intros Ht Hok. destruct Ht as
    [evs [Hs Hc Htm He] Ha|Hs Hs' Htm|t f Hs Hs' Htm Hd Hf|pre Hs Hs' Hp|t evs Hs Hs' Hd He Ha Htm|Hs Hs'|Hs Hs'].
  - rewrite Hs. destruct (state_id e).
    + assert (evs = []) as -> by (apply (allowed_none PreInit); auto). by destruct Hok as [-> <-].
    + by rewrite <- Hok.
    + destruct Hok as [-> Hh]. by rewrite <- Htm, Hh, (arm_closing evs Ha).
    + by rewrite arm_closed.
    + done.
  - rewrite Hs', Htm. rewrite Hs in Hok. by destruct Hok as [-> ->].
  - by rewrite Hs', Htm.
  - by rewrite Hs', arm_app.
  - rewrite Hs'. cbn [arm fold_left arm_event]. fold (arm true evs).
    destruct Hs as [Hs|Hs]; rewrite Hs in *; [done|]. by rewrite <- Htm, (arm_closing evs Ha).
  - by rewrite Hs'.
  - by rewrite Hs'.
Qed.

Lemma data_allowed now evs : Forall (data_event now) evs -> Forall (allowed Active) evs.
Proof. intros Hd. eapply Forall_impl; [exact Hd|]. by intros []. Qed.

Lemma quiet_active now e e' evs : state_id e = Active -> quiet now e e' evs -> transition now e e' evs.
Proof. intros Hs Hq. apply tr_quiet; [done|]. rewrite Hs. by apply (data_allowed now), Hq. Qed.

Lemma transition_refl now e : transition now e e [].
Proof. apply tr_quiet; [apply quiet_refl|done]. Qed.
End Transition.

(** ** The entry points *)

Inductive call : Set :=
| CInit
| CEnqueue (packet : list Z) (mode : SendMode)
| CFlush
| CDisconnect
| CFrame (frame_type : FrameType) (payload : list Z)
| CTimer.

Section Calls.
Context `{BuildProfile} {C : Type} `{HostContext C} `{ThreadRng C}.

Definition invoke (e : Endpoint) (c : call) (now : Z) (ctx : C) : outcome (Endpoint * C) :=
  match c with
  | CInit => init e ctx
  | CEnqueue p m => e ← enqueue e p m now; Ok (e, ctx)
  | CFlush => flush e now ctx
  | CDisconnect => disconnect e now ctx
  | CFrame t p => handle_frame e t p now ctx
  | CTimer => '(e, ctx, _) ← handle_rto_timer e now ctx; Ok (e, ctx)
  end.

Definition mode_ok (m : SendMode) : Prop :=
  match m with SendReliable => True | SendUnreliable t => is_u16 t end.

(** What the host owes the endpoint: [init] once and first, bytes, frames that fit the
    receive buffer, and timer calls only while the timer is set. *)
Definition call_ok (armed : bool) (e : Endpoint) (c : call) : Prop :=
  match c with
  | CInit => state_id e = PreInit
  | CEnqueue p m => packet_ok p /\ mode_ok m
  | CFrame _ p => payload_ok p
  | CTimer => armed = true
  | _ => True
  end.

(** The result every entry point is shown to have, and the stronger one of those that
    cannot end the connection by themselves: all but the timer. *)
Definition stepped (now : Z) (e : Endpoint) (ctx : C) (r : outcome (Endpoint * C)) : Prop :=
  exists e' evs, r = Ok (e', performs ctx evs) /\ ep_inv now e' /\ transition now e e' evs.

Definition proceeds (now : Z) (e : Endpoint) (ctx : C) (r : outcome (Endpoint * C)) : Prop :=
  exists e' evs, r = Ok (e', performs ctx evs) /\ ep_inv now e' /\ transition now e e' evs /\
    (state_id e <> Zombie -> state_id e' <> Zombie).

Lemma proceeds_stepped now e ctx r : proceeds now e ctx r -> stepped now e ctx r.
Proof. intros (e' & evs & Hr & Hi & Ht & _). by exists e', evs. Qed.

Lemma proceeds_refl now e ctx : ep_inv now e -> proceeds now e ctx (Ok (e, ctx)).
Proof. intros Hi. exists e, []. split; [done|]. split; [done|]. split; [apply transition_refl|done]. Qed.

Lemma proceeds_quiet now e ctx r : state_id e = Active ->
  (exists e' evs, r = Ok (e', performs ctx evs) /\ ep_inv now e' /\ quiet now e e' evs) -> proceeds now e ctx r.
Proof.
  intros Hs (e' & evs & Hr & Hi & Hq). exists e', evs. split; [done|]. split; [done|].
  split; [by apply quiet_active|]. by rewrite (q_state _ _ _ _ Hq).
Qed.

Lemma set_state_inv now e s : ep_inv now e -> (s = Zombie \/ state_id e <> Zombie) -> ep_inv now (set_state_id s e).
Proof.
  intros [] Hs. split; try done. cbn. destruct (rto_timer_state e); [|done].
  destruct ei_rto_timer as (? & ? & Hsum). split; [done|]. split; [done|]. intros Hne. apply Hsum. tauto.
Qed.

Lemma init_proceeds now e ctx : ep_inv now e -> state_id e = PreInit -> proceeds now e ctx (init e ctx).
Proof.
  intros Hi Hs. unfold init. rewrite debug_assert_true by by apply bool_decide_eq_true. cbn [mbind outcome_bind].
  exists (set_state_id Active e), [EvConnect]. split; [done|]. split; [|by split; [apply tr_init|]].
  apply set_state_inv; [done|right; by rewrite Hs].
Qed.

Lemma enqueue_proceeds now e p m ctx : ep_inv now e -> packet_ok p -> mode_ok m ->
  proceeds now e ctx (e ← enqueue e p m now; Ok (e, ctx)).
Proof.
  intros Hi Hp Hm. unfold enqueue. destruct (decide (state_id e = Active)) as [Hs|]; [|by apply proceeds_refl].
  apply proceeds_quiet; [done|]. pose proof (ei_fragment_tx _ _ Hi) as [Hu Hr Hpr]. pose proof (ei_now _ _ Hi).
  assert (Hft : exists ft, ftx_enqueue (fragment_tx e) p m now = Ok ft /\ ftx_inv ft).
  { destruct m as [|t]; cbn [ftx_enqueue mode_ok] in *.
    - destruct (rel_push _ p Hr Hp) as (t' & -> & Ht). cbn [mbind outcome_bind]. eexists. by split.
    - unfold is_u16, two16, TIME_MAX in *. rewrite !add64_ok by (unfold two64; lia). cbn [mbind outcome_bind].
      rewrite add64_ok by (unfold two64; lia). cbn [mbind outcome_bind].
      destruct (unrel_push _ p (now + t + 1) Hu Hp) as (t' & -> & Ht). cbn [mbind outcome_bind]. eexists. by split. }
  destruct Hft as (ft & -> & Hft). cbn [mbind outcome_bind]. exists (set_fragment_tx ft e), [].
  split; [done|]. split; [destruct Hi; by split|by split].
Qed.

Lemma flush_proceeds now e ctx : ep_inv now e -> proceeds now e ctx (flush e now ctx).
Proof.
  intros Hi. unfold flush. destruct (decide (state_id e = Active)); [|by apply proceeds_refl].
  apply proceeds_quiet; [done|].
  destruct (flush_stream_ok now e false false ctx Hi) as (e' & evs & -> & Hi' & Hq & _). by exists e', evs.
Qed.

Lemma disconnect_proceeds now e ctx : ep_inv now e -> proceeds now e ctx (disconnect e now ctx).
Proof.
  intros Hi. unfold disconnect. destruct (decide (state_id e = Active)) as [Hs|]; [|by apply proceeds_refl].
  unfold enter_closing. pose proof (ei_now _ _ Hi). pose proof (ei_rto _ _ Hi) as Hrto.
  pose proof (ei_timeout _ _ Hi). unfold TIME_MAX, RTO_MIN_MS, RTO_MAX_MS in *.
  change (rto_ms (set_state_id Closing e)) with (rto_ms e).
  rewrite add64_ok by (unfold two64; lia). cbn [mbind outcome_bind].
  set (e1 := set_rto_timer_state _ _).
  assert (Hi1 : ep_inv now e1).
  { destruct Hi. split; try done. cbn. unfold RTO_MAX_MS. split_and!; lia. }
  destruct (send_close_ok now e1 (set_rto_timer (now + rto_ms e) ctx) Hi1) as (f & buf & -> & Hf & Hi2).
  exists (set_tx_buffer buf e1), [EvSetTimer (now + rto_ms e); EvSend f]. split; [done|]. split; [done|].
  split; [|done]. apply tr_closing; try done. cbn. unfold RTO_MIN_MS, RTO_MAX_MS. lia.
Qed.

Lemma enter_closed_ok now e ctx : ep_inv now e -> open_state (state_id e) ->
  exists e', enter_closed e now ctx =
      Ok (e', performs ctx [EvDisconnect; EvSetTimer (now + DISCONNECT_TIMEOUT_MS)]) /\
    ep_inv now e' /\ state_id e' = Closed.
Proof.
  intros Hi Hs. unfold enter_closed. pose proof (ei_now _ _ Hi). unfold TIME_MAX in *.
  rewrite add64_ok by (unfold two64, DISCONNECT_TIMEOUT_MS; lia). cbn [mbind outcome_bind].
  eexists. split; [done|]. split; [|done]. destruct Hi. by split.
Qed.

(** The answer to a valid close request. *)
Lemma close_request_proceeds now e p ctx : ep_inv now e -> open_state (state_id e) -> payload_ok p ->
  proceeds now e ctx (valid ← validate_close_frame e p;
    if valid : bool then '(self, ctx) ← send_close_ack_frame e ctx; enter_closed self now ctx else Ok (e, ctx)).
Proof.
  intros Hi Hs [Hu _]. destruct (validate_close_ok e p Hu) as (v & ->). cbn [mbind outcome_bind].
  destruct v; [|by apply proceeds_refl].
  destruct (send_close_ack_ok now e ctx Hi) as (f & buf & -> & Hf & Hi1). cbn [mbind outcome_bind].
  destruct (enter_closed_ok now _ (send_frame f ctx) Hi1 Hs) as (e' & -> & Hi' & Hs').
  exists e', ([EvSend f] ++ [EvDisconnect; EvSetTimer (now + DISCONNECT_TIMEOUT_MS)]).
  split; [done|]. split; [done|]. split; [|by rewrite Hs']. apply tr_closed; try done. right. by exists f.
Qed.

Lemma handle_frame_proceeds now e t p ctx : ep_inv now e -> payload_ok p ->
  proceeds now e ctx (handle_frame e t p now ctx).
Proof.
  intros Hi Hp. unfold handle_frame. destruct (state_id e) eqn:Es.
  - by apply proceeds_refl.
  - assert (Ho : open_state (state_id e)) by (by left).
    destruct t; try (by apply proceeds_refl); try (by apply close_request_proceeds);
      apply proceeds_quiet; try done; [by apply handle_stream_frame_ok..|by apply handle_sync_ok].
  - assert (Ho : open_state (state_id e)) by (by right).
    destruct t; try (by apply proceeds_refl); try (by apply close_request_proceeds).
    destruct (validate_close_ack_ok e p (proj1 Hp)) as (v & ->). cbn [mbind outcome_bind].
    destruct v; [|by apply proceeds_refl].
    destruct (enter_closed_ok now e ctx Hi Ho) as (e' & -> & Hi' & Hs').
    eexists e', ([] ++ _). split; [done|]. split; [done|]. split; [|by rewrite Hs']. apply tr_closed; try done.
    by left.
  - destruct (decide (t = Close)); [|by apply proceeds_refl].
    destruct (validate_close_ok e p (proj1 Hp)) as (v & ->). cbn [mbind outcome_bind].
    destruct v; [|by apply proceeds_refl].
    destruct (send_close_ack_ok now e ctx Hi) as (f & buf & -> & Hf & Hi1).
    exists (set_tx_buffer buf e), [EvSend f]. split; [done|]. split; [done|].
    split; [|by cbn; rewrite Es]. apply tr_quiet; [split; try done; by apply Forall_singleton|].
    rewrite Es. by apply Forall_singleton.
  - by apply proceeds_refl.
Qed.

(** ** The retransmission timer *)

Lemma advance_ok now e : ep_inv now e -> state_id e <> Zombie -> has_timer e = true ->
  exists ts, advance_rto_sum e = Ok ts /\ RTO_MIN_MS <= rts_rto_ms ts <= RTO_MAX_MS /\ 0 <= rts_rto_sum_ms ts.
Proof.
  intros Hi Hz Ht. unfold has_timer in Ht. apply bool_decide_eq_true in Ht as [ts Ht].
  pose proof (ei_rto_timer _ _ Hi) as Hr. rewrite Ht in Hr. destruct Hr as (Hr & Hs & Hmax). specialize (Hmax Hz).
  pose proof (ei_timeout _ _ Hi). unfold advance_rto_sum. rewrite Ht. unfold TIME_MAX, RTO_MIN_MS, RTO_MAX_MS in *.
  rewrite add64_ok by (unfold two64; lia). cbn [mbind outcome_bind]. eexists. split; [done|]. cbn. lia.
Qed.

Definition doubled_rto (e : Endpoint) : Z := clamp (rto_ms e * 2) RTO_MIN_MS RTO_MAX_MS.

Definition backed_off (e : Endpoint) (ts : RtoTimerState) : Endpoint :=
  set_rto_timer_state (Some (mkRtoTimerState (doubled_rto e) (rts_rto_sum_ms ts))) (set_rto_ms (doubled_rto e) e).

Lemma back_off_ok now e ts ctx : ep_inv now e -> 0 <= rts_rto_sum_ms ts <= timeout_time_ms (config e) ->
  back_off (set_rto_timer_state (Some ts) e) ts now ctx =
    Ok (backed_off (set_rto_timer_state (Some ts) e) ts, set_rto_timer (now + doubled_rto e) ctx) /\
  ep_inv now (backed_off (set_rto_timer_state (Some ts) e) ts) /\ data_event now (EvSetTimer (now + doubled_rto e)).
Proof.
  intros Hi Hts. pose proof (clamp_range (rto_ms e * 2)) as Hcl. fold (doubled_rto e) in Hcl.
  pose proof (ei_rto _ _ Hi). pose proof (ei_now _ _ Hi). unfold TIME_MAX in *.
  split; [|split; [|unfold data_event; lia]].
  - unfold back_off. cbn [rto_ms set_rto_timer_state]. unfold RTO_MIN_MS, RTO_MAX_MS in *.
    rewrite mul64_ok by (unfold two64; lia). cbn [mbind outcome_bind rto_ms set_rto_ms].
    change (clamp (rto_ms e * 2) _ _) with (doubled_rto e).
    rewrite add64_ok by (unfold two64; lia). done.
  - destruct Hi. split; try done. cbn. change (doubled_rto (set_rto_timer_state (Some ts) e)) with (doubled_rto e).
    unfold RTO_MIN_MS, RTO_MAX_MS in *. split_and!; lia.
Qed.

Lemma next_id_u32 s : segments_inv s -> is_u32 (SegmentTx.next_id s).
Proof. intros (log & b & Hs). rewrite (sv_next _ _ _ _ _ Hs). apply wrap32_range. Qed.

(** The active half of a timeout that does not end the connection. *)
Lemma active_timeout now e ctx : ep_inv now e -> state_id e = Active -> has_timer e = true ->
  exists e' evs, (cc ← AimdReno.handle_timeout (cc_state e);
      let self := set_cc_state cc e in
      let self := set_fragment_tx (ftx_handle_timeout (fragment_tx self)) self in
      '(self, ctx) ← send_stream_sync_frame self (SegmentTx.next_id (segment_tx self)) ctx;
      '(self, ctx) ← flush_stream self false false now ctx;
      Ok (self, ctx, Continue)) = Ok (e', performs ctx evs, Continue) /\
    ep_inv now e' /\ quiet now e e' evs.
Proof.
  intros Hi Hs Ht. destruct (AimdReno.cc_timeout_inv 1024 cc_range (cc_state e) (ei_cc _ _ Hi)) as (cc & -> & Hcc).
  cbn [mbind outcome_bind]. set (e1 := set_cc_state cc e). set (e2 := set_fragment_tx _ e1).
  assert (Hi2 : ep_inv now e2).
  { destruct Hi as [? ? ? ? [Hu Hr Hp]]. split; try done. split; try done. by apply rel_resend. }
  assert (Hq2 : quiet now e e2 []) by by split.
  destruct (send_sync_ok now e2 _ ctx Hi2 (next_id_u32 _ (ei_segment_tx _ _ Hi2))) as (f & buf & Hsend & Hf & Hi3).
  cbv zeta. rewrite Hsend. cbn [mbind outcome_bind].
  destruct (flush_stream_ok now _ false false (send_frame f ctx) Hi3) as (e4 & evs & -> & Hi4 & Hq4 & _).
  cbn [mbind outcome_bind]. exists e4, ([] ++ ([] ++ [EvSend f]) ++ evs). split; [done|]. split; [done|].
  eapply quiet_trans; [exact Hq2|]. eapply quiet_trans; [|exact Hq4]. by apply (send_quiet now e2 e2 []).
Qed.

(** The result of the timer handler: [Terminate] exactly when the endpoint becomes a zombie,
    and a host that cleared its timer before the call has it set again when it is needed. *)
Definition timer_result (now : Z) (e : Endpoint) (ctx : C) (r : outcome (Endpoint * C * TimeoutAction)) : Prop :=
  exists e' evs a, r = Ok (e', performs ctx evs, a) /\ ep_inv now e' /\ transition now e e' evs /\
    timer_ok (arm false evs) e' /\
    match a with
    | Terminate => state_id e' = Zombie /\ state_id e <> Zombie /\ state_id e <> PreInit
    | Continue => state_id e' = state_id e
    end.

Lemma rearmed e ev evs s : state_id e = s -> open_state s ->
  match ev with EvSetTimer _ => True | _ => False end -> Forall (allowed s) evs ->
  arm true evs = has_timer e -> timer_ok (arm false (ev :: evs)) e.
Proof.
  intros Hs Ho Hev Ha Ht. unfold timer_ok. rewrite Hs. destruct ev; try done.
  cbn [arm fold_left arm_event]. fold (arm true evs). rewrite <- Ht.
  destruct Ho as [-> | ->]; [done|]. by rewrite (arm_closing evs Ha).
Qed.

Lemma timed_out now e ts ctx : ep_inv now e -> open_state (state_id e) -> RTO_MIN_MS <= rts_rto_ms ts <= RTO_MAX_MS ->
  0 <= rts_rto_sum_ms ts ->
  timer_result now e ctx (Ok (set_state_id Zombie (set_rto_timer_state (Some ts) e), on_timeout ctx, Terminate)).
Proof.
  intros Hi Ho Hr Hsum. eexists _, [EvTimeout], Terminate. split; [done|].
  split; [destruct Hi; by split|]. split; [by apply tr_timeout|]. split; [done|].
  split; [done|]. by destruct Ho as [-> | ->].
Qed.

Lemma timer_full now e ctx : ep_inv now e -> timer_ok true e -> timer_result now e ctx (handle_rto_timer e now ctx).
Proof.
  intros Hi Hok. unfold handle_rto_timer, timer_ok in *. destruct (state_id e) eqn:Es.
  - by destruct Hok.
  - assert (Ho : open_state (state_id e)) by (rewrite Es; by left).
    destruct (advance_ok now e Hi) as (ts & -> & Hr & Hsum); [by rewrite Es|done|]. cbn [mbind outcome_bind].
    cbn [config set_rto_timer_state]. case_bool; [by apply timed_out|].
    destruct (back_off_ok now e ts ctx Hi) as (-> & Hi1 & Hd); [lia|]. cbn [mbind outcome_bind].
    set (e1 := backed_off _ _) in *.
    destruct (active_timeout now e1 (set_rto_timer (now + doubled_rto e) ctx) Hi1) as (e2 & evs & Hf & Hi2 & Hq2);
      [done|done|].
    cbv zeta in Hf. rewrite Hf. cbn [mbind outcome_bind]. destruct Hq2 as [Hs2 Hc2 Ht2 He2].
    exists e2, (EvSetTimer (now + doubled_rto e) :: evs), Continue. split; [done|]. split; [done|].
    assert (Ha : Forall (allowed Active) evs) by by eapply data_allowed.
    split; [apply tr_backoff; try done; by rewrite Es|]. rewrite Es.
    split; [by apply (rearmed e2 _ evs Active); [rewrite Hs2|left| | |]|by rewrite Hs2].
  - assert (Ho : open_state (state_id e)) by (rewrite Es; by right). destruct Hok as [_ Hok].
    destruct (advance_ok now e Hi) as (ts & -> & Hr & Hsum); [by rewrite Es|done|]. cbn [mbind outcome_bind].
    cbn [config set_rto_timer_state]. case_bool; [by apply timed_out|].
    destruct (back_off_ok now e ts ctx Hi) as (-> & Hi1 & Hd); [lia|]. cbn [mbind outcome_bind].
    set (e1 := backed_off _ _) in *.
    destruct (send_close_ok now e1 (set_rto_timer (now + doubled_rto e) ctx) Hi1) as (f & buf & -> & Hf & Hi2).
    cbn [mbind outcome_bind]. exists (set_tx_buffer buf e1), [EvSetTimer (now + doubled_rto e); EvSend f], Continue.
    split; [done|]. split; [done|]. assert (Ha : Forall (allowed Closing) [EvSend f]) by by apply Forall_singleton.
    split; [|by split; [apply (rearmed _ _ _ Closing); [|right| | |]|]].
    apply tr_backoff; try done; [by apply Forall_singleton|by rewrite Es].
  - exists (set_state_id Zombie e), [], Terminate. split; [done|]. split; [apply set_state_inv; auto|].
    split; [by apply tr_zombie|]. by rewrite Es.
  - exists e, [], Continue. split; [done|]. split; [done|]. split; [apply transition_refl|].
    split; [unfold timer_ok; by rewrite Es|done].
Qed.

Lemma timer_stepped now e ctx : ep_inv now e -> timer_ok true e ->
  stepped now e ctx ('(e, ctx, _) ← handle_rto_timer e now ctx; Ok (e, ctx)).
Proof.
  intros Hi Hok. destruct (timer_full now e ctx Hi Hok) as (e' & evs & a & -> & Hi' & Ht & _).
  cbn [mbind outcome_bind]. by exists e', evs.
Qed.

(** Every entry point takes a transition. *)
Lemma call_stepped now e c ctx armed : ep_inv now e -> timer_ok armed e -> call_ok armed e c ->
  stepped now e ctx (invoke e c now ctx).
Proof.
  intros Hi Ht Hc. destruct c as [|p m| | |t p|]; cbn [invoke call_ok] in *.
  - by apply proceeds_stepped, init_proceeds.
  - destruct Hc. by apply proceeds_stepped, enqueue_proceeds.
  - by apply proceeds_stepped, flush_proceeds.
  - by apply proceeds_stepped, disconnect_proceeds.
  - by apply proceeds_stepped, handle_frame_proceeds.
  - subst armed. by apply timer_stepped.
Qed.
End Calls.
