(* ===== verification/EndpointTimer.v ===== *)
(** * When the retransmission timer runs

    An active endpoint's timer runs exactly while a segment is in flight: sending the first
    segment starts it, and only an acknowledgement of everything sent stops it.  The
    invariant [timer_fits] says so of the segments and the timer state of the endpoint; every
    entry point keeps it, whatever arrives. *)

From S2P Require Import Prelude Word Reliable Unreliable Frame Serial SerialFacts FrameFacts.
From S2P Require Import SegmentTx SegmentRx CongestionControl.
From S2P Require Import Endpoint FragmentTxFacts EndpointFacts EndpointSafety EndpointMachine.

Import Endpoint.

(** How many segments have been sent and not acknowledged. *)
Definition segments_in_flight (e : Endpoint) : Z :=
  wrapping_sub (SegmentTx.next_id (segment_tx e)) (SegmentTx.base_id (segment_tx e)).

Record timer_fits (e : Endpoint) : Prop := {
  tf_next : is_u32 (SegmentTx.next_id (segment_tx e));
  tf_size : SegmentTx.size (segment_tx e) = SEGMENT_WINDOW_SIZE;
  tf_timer : has_timer e = (0 <? segments_in_flight e);
}.

(** The calls that touch neither. *)
Definition same_timer (e e' : Endpoint) : Prop :=
  segment_tx e' = segment_tx e /\ rto_timer_state e' = rto_timer_state e.

#[export] Instance same_timer_preorder : PreOrder same_timer.
Proof. split; [by intros e|]. intros e1 e2 e3 [Hs Ht] [Hs' Ht']. split; congruence. Qed.

Lemma fits_same e e' : same_timer e e' -> timer_fits e -> timer_fits e'.
Proof.
  intros [Hs Ht] [Hn Hz Hi]. split; unfold segments_in_flight, has_timer in *; by rewrite ?Hs, ?Ht.
Qed.

Lemma in_flight_range e : 0 <= segments_in_flight e < two32.
Proof. unfold segments_in_flight, wrapping_sub, wrap32, two32. apply Z.mod_pos_bound. lia. Qed.

Lemma wrapping_sub_zero a b : is_u32 a -> is_u32 b -> wrapping_sub a b = 0 -> a = b.
Proof. unfold is_u32, wrapping_sub, wrap32, two32. intros Ha Hb Hs. Z.div_mod_to_equations. lia. Qed.

(** ** Acknowledgements *)

Section Timer.
Context `{BuildProfile} {C : Type} `{HostContext C} `{ThreadRng C}.

(** The window moves to an acknowledgement that lies in it. *)
Lemma acknowledge_window s id rh cs : holds (fun x =>
    SegmentTx.next_id x.1 = SegmentTx.next_id s /\ SegmentTx.size x.1 = SegmentTx.size s /\
    let flight := wrapping_sub (SegmentTx.next_id s) (SegmentTx.base_id s) in
    let delta := wrapping_sub id (SegmentTx.base_id s) in
    SegmentTx.base_id x.1 = if (0 <? delta) && (delta <=? flight) then id else SegmentTx.base_id s)
  (SegmentTx.acknowledge s id rh cs).
Proof.
  unfold SegmentTx.acknowledge. destruct (_ <=? wrapping_sub (SegmentTx.next_id s) _); [|by rewrite andb_false_r].
  rewrite andb_true_r. set (delta := wrapping_sub id _).
  apply (holds_bind (fun s' => SegmentTx.next_id s' = SegmentTx.next_id s /\ SegmentTx.size s' = SegmentTx.size s /\
    SegmentTx.base_id s' = if 0 <? delta then id else SegmentTx.base_id s)).
  - destruct (0 <? delta); [|done]. by do 2 (apply holds_any; intros ?).
  - intros s' Hs. by apply holds_any; intros [ah drop].
Qed.

Definition acked (e e' : Endpoint) (id : Z) : Prop :=
  SegmentTx.next_id (segment_tx e') = SegmentTx.next_id (segment_tx e) /\
  SegmentTx.size (segment_tx e') = SegmentTx.size (segment_tx e) /\
  rto_timer_state e' = rto_timer_state e /\
  let delta := wrapping_sub id (SegmentTx.base_id (segment_tx e)) in
  SegmentTx.base_id (segment_tx e') =
    if (0 <? delta) && (delta <=? segments_in_flight e) then id else SegmentTx.base_id (segment_tx e).

Lemma update_rto_fits e e' id now ctx : timer_fits e -> is_u32 id -> acked e e' id ->
  holds (fun x => timer_fits x.1) (update_rto_timer e' id now ctx).
Proof.
  intros [Hn Hz Ht] Hid (Hn' & Hz' & Ht' & Hb'). pose proof (in_flight_range e) as Hr. unfold update_rto_timer.
  assert (Hrun : rto_timer_state e' = None -> segments_in_flight e = 0).
  { intros Hno. unfold has_timer in Ht. rewrite <- Ht', Hno in Ht. symmetry in Ht. apply Z.ltb_ge in Ht. lia. }
  assert (Hfl : rto_timer_state e' <> None -> 0 < segments_in_flight e).
  { intros Hyes. unfold has_timer in Ht. rewrite <- Ht' in Ht. destruct (rto_timer_state e'); [|done].
    symmetry in Ht. by apply Z.ltb_lt in Ht. }
  destruct (rto_timer_state e') as [ts|] eqn:Es.
  - specialize (Hfl ltac:(done)). clear Hrun. rewrite Hn'. case_bool.
    + subst id. split; cbn; [by rewrite Hn'|by rewrite Hz', Hz|]. unfold segments_in_flight in *. cbn.
      rewrite Hn', Hb'. fold (segments_in_flight e) in *. rewrite (proj2 (Z.ltb_lt _ _) Hfl), Z.leb_refl.
      unfold wrapping_sub. by rewrite Z.sub_diag.
    + apply holds_any. intros t. split; cbn; [by rewrite Hn'|by rewrite Hz', Hz|].
      symmetry. apply Z.ltb_lt. pose proof (in_flight_range e') as Hr'.
      enough (segments_in_flight e' <> 0) by (unfold segments_in_flight in *; cbn; lia).
      unfold segments_in_flight. rewrite Hn', Hb'. case_bool; [|fold (segments_in_flight e); lia].
      intros Hzero. by apply wrapping_sub_zero in Hzero.
  - specialize (Hrun ltac:(done)). clear Hfl. cbn. split; [by rewrite Hn'|by rewrite Hz', Hz|].
    unfold has_timer. rewrite Es. cbn. symmetry. apply Z.ltb_ge. unfold segments_in_flight. rewrite Hn', Hb', Hrun.
    rewrite (proj2 (andb_false_iff _ _)); [fold (segments_in_flight e); lia|].
    destruct (Z.ltb_spec 0 (wrapping_sub id (SegmentTx.base_id (segment_tx e)))); [right; apply Z.leb_gt;
      lia|by left].
Qed.

Lemma update_rtt_same_timer e id now : holds (same_timer e) (update_rtt e id now).
Proof.
  unfold update_rtt. destruct (rtt_timer_state e); [|done]. case_bool; [|by case_bool].
  by apply holds_any.
Qed.

Lemma handle_ack_fits e (a : StreamAck) now ctx : timer_fits e -> is_u32 (sa_segment_id a) ->
  holds (fun x => timer_fits x.1) (handle_ack e a now ctx).
Proof.
  intros Hf Hid. unfold handle_ack. apply holds_any. intros cc.
  eapply holds_bind; [apply acknowledge_window|]. intros [stx drop] (Hn & Hz & Hb). cbn [fst] in *.
  eapply (holds_bind (same_timer (set_segment_tx stx (set_cc_state cc e)))).
  { destruct drop; [|by cbn]. by apply holds_any. }
  intros e3 He3. apply holds_any. intros ft.
  eapply holds_bind; [apply update_rtt_same_timer|]. intros e5 He5. apply (update_rto_fits e); [done..|].
  destruct He3 as [Hs3 Ht3], He5 as [Hs5 Ht5]. cbn in Hs5, Ht5, Hs3, Ht3. unfold acked. rewrite Hs5, Ht5, Hs3, Ht3.
  by split_and!.
Qed.

(** ** Segments sent *)

Lemma mark_sent_window s n : SegmentTx.can_send s = true -> SegmentTx.size s = SEGMENT_WINDOW_SIZE ->
  holds (fun s' => is_u32 (SegmentTx.next_id s') /\ SegmentTx.size s' = SEGMENT_WINDOW_SIZE /\
    0 < wrapping_sub (SegmentTx.next_id s') (SegmentTx.base_id s')) (SegmentTx.mark_sent s n).
Proof.
  unfold SegmentTx.can_send. intros Hc Hz. rewrite Hz in Hc. apply Z.ltb_lt in Hc. unfold SegmentTx.mark_sent.
  do 3 (apply holds_any; intros ?). cbn. split; [apply wrapping_add_range|]. split; [done|].
  unfold wrapping_sub, wrapping_add, wrap32, two32, SEGMENT_WINDOW_SIZE in *. Z.div_mod_to_equations. lia.
Qed.

Lemma compute_nonce_window s b : holds (fun s' => SegmentTx.next_id s' = SegmentTx.next_id s /\
  SegmentTx.base_id s' = SegmentTx.base_id s /\ SegmentTx.size s' = SegmentTx.size s)
  (SegmentTx.compute_next_nonce s b).
Proof. unfold SegmentTx.compute_next_nonce. repeat (apply holds_any; intros ?). done. Qed.

Lemma write_segment_fits e wr now ctx : timer_fits e -> SegmentTx.can_send (segment_tx e) = true ->
  holds (fun x => timer_fits x.1.1) (write_segment e wr now ctx).
Proof.
  intros [Hn Hz Ht] Hc. unfold write_segment. destruct (rand_random ctx) as [nonce ctx1].
  eapply holds_bind; [apply compute_nonce_window|]. intros s1 (Hn1 & Hb1 & Hz1).
  apply holds_any. intros [wr1 w]. apply holds_any. intros [[ft wr2] size]. apply holds_any. intros _.
  eapply holds_bind; [apply (mark_sent_window s1)|].
  { unfold SegmentTx.can_send in *. by rewrite Hn1, Hb1, Hz1. } { by rewrite Hz1. }
  intros s2 (Hn2 & Hz2 & Hfl).
  eapply (holds_bind (fun x => timer_fits x.1)).
  - cbn [rto_timer_state set_segment_tx set_fragment_tx]. destruct (rto_timer_state e) as [ts|] eqn:Es.
    + split; [done..|]. unfold has_timer. cbn. rewrite Es. symmetry. by apply Z.ltb_lt.
    + apply holds_any. intros t. split; [done..|]. symmetry. by apply Z.ltb_lt.
  - intros [e3 ctx3] Hf3. cbn [fst] in Hf3. eapply (holds_bind (same_timer e3)).
    + destruct (rtt_timer_state e3); [done|]. by apply holds_any.
    + intros e4 He4. by apply (fits_same e3).
Qed.

Lemma flush_step_fits (a r : bool) e now ctx : timer_fits e ->
  holds (fun x => timer_fits x.1.1) (flush_step a r e now ctx).
Proof.
  intros Hf. unfold flush_step. destruct (ftx_data_ready (fragment_tx e) now) as [ft ready].
  assert (Hf1 : timer_fits (set_fragment_tx ft e)) by by apply (fits_same e).
  rewrite negb_involutive. destruct (SegmentTx.can_send (segment_tx e)) eqn:Ec.
  - case_bool; [|done]. do 3 (apply holds_any; intros ?). apply (holds_bind (fun x => timer_fits x.1.1)).
    + case_bool; [by apply write_segment_fits|done].
    + intros [[e2 wr2] ctx2] Hf2. apply holds_any. intros [f buf]. by apply (fits_same e2).
  - cbn [andb]. rewrite orb_false_r. destruct a; [|done]. do 3 (apply holds_any; intros ?).
    cbn [mbind outcome_bind]. apply holds_any. intros [f buf]. by apply (fits_same e).
Qed.

Lemma flush_loop_fits fuel : forall (a r : bool) e now ctx, timer_fits e ->
  holds (fun x => timer_fits x.1) (flush_loop fuel a r e now ctx).
Proof.
  induction fuel as [|fuel IH]; intros a r e now ctx Hf; cbn [flush_loop]; [done|].
  apply (holds_bind (fun x => timer_fits x.1.1)); [by apply flush_step_fits|].
  intros [[e1 ctx1] []] Hf1; [by apply IH|exact Hf1].
Qed.

Lemma flush_stream_fits e (a r : bool) now ctx : timer_fits e ->
  holds (fun x => timer_fits x.1) (flush_stream e a r now ctx).
Proof. apply flush_loop_fits. Qed.

(** ** Segments received *)

Lemma receive_datagram_same_timer e d ctx : same_timer e (receive_datagram e d ctx).1.
Proof.
  unfold receive_datagram. destruct (dg_unrel d).
  - by destruct (UnreliableRxBuffer.receive _ _ _).
  - by destruct (ReliableRxBuffer.receive _ _ _).
Qed.

Lemma receive_datagrams_same_timer fuel : forall rd e ctx a r,
  holds (fun x => same_timer e x.1.1.1) (receive_datagrams fuel rd e ctx a r).
Proof.
  induction fuel as [|fuel IH]; intros rd e ctx a r; cbn [receive_datagrams]; [done|].
  apply holds_any. intros [[d|] rd']; [|by cbn]. pose proof (receive_datagram_same_timer e d ctx) as Hd.
  destruct (receive_datagram e d ctx) as [e1 ctx1]. cbn [fst] in Hd.
  eapply holds_impl; [apply IH|]. intros x Hx. by etrans.
Qed.

Lemma receive_segments_same_timer segs : forall e ctx a r,
  holds (fun x => same_timer e x.1.1.1) (receive_segments e segs ctx a r).
Proof.
  induction segs as [|s segs IH]; intros e ctx a r; cbn [receive_segments]; [by cbn|].
  eapply holds_bind; [apply receive_datagrams_same_timer|]. intros [[[e1 ctx1] a1] r1] He1. cbn [fst] in He1.
  eapply holds_impl; [apply IH|]. intros x Hx. by etrans.
Qed.

Lemma handle_segment_same_timer e h s ctx : holds (fun x => same_timer e x.1.1.1) (handle_segment e h s ctx).
Proof.
  unfold handle_segment. apply holds_any. intros [[srx out] n].
  apply (receive_segments_same_timer out (set_segment_rx srx e)).
Qed.

Lemma handle_stream_frame_fits e t p now ctx : timer_fits e -> payload_ok p ->
  holds (fun x => timer_fits x.1) (handle_stream_frame e t p now ctx).
Proof.
  intros Hf [Hu _]. unfold handle_stream_frame. apply holds_any. intros [ra rd].
  apply (holds_bind (fun o => match o with Some (e1, _, _) => timer_fits e1 | None => True end)).
  - destruct ra; [|done].
    destruct (read_block (A := StreamAck) _ p (pr_at_new p) Hu) as [->|(a & rd' & n & -> & Hv & _)];
      cbn [mbind outcome_bind]; [done|].
    eapply holds_bind; [apply handle_ack_fits; [done|apply Hv]|]. by intros [e1 ctx1] Hf1.
  - intros [[[e1 ctx1] rd1]|] Hf1; [|exact Hf].
    apply (holds_bind (fun x => same_timer e1 x.1.1.1)).
    + destruct rd; [|by cbn]. apply holds_any. intros [[h|] rd2]; [|by cbn]. apply holds_any. intros bs.
      apply handle_segment_same_timer.
    + intros [[[e2 ctx2] a] r] He2. apply flush_stream_fits. by apply (fits_same e1).
Qed.

Lemma handle_sync_fits e p now ctx : timer_fits e -> holds (fun x => timer_fits x.1)
  (handle_stream_sync_frame e p now ctx).
Proof.
  intros Hf. unfold handle_stream_sync_frame. apply holds_any. intros [[s|] rd]; [|exact Hf].
  apply holds_any. intros [srx out]. eapply holds_bind; [apply receive_segments_same_timer|].
  intros [[[e2 ctx2] a] r] He2. apply flush_stream_fits. by apply (fits_same e); [etrans; [|exact He2]|].
Qed.

(** ** Every entry point *)

(** What is kept as long as the endpoint has not begun to close. *)
Definition timer_kept (e : Endpoint) : Prop := state_id e = PreInit \/ state_id e = Active -> timer_fits e.

Definition over_for (e : Endpoint) : Prop := state_id e = Closing \/ state_id e = Closed \/ state_id e = Zombie.

Lemma over_kept e : over_for e -> timer_kept e.
Proof. intros [E|[E|E]] [F|F]; congruence. Qed.

Lemma fits_kept (r : outcome (Endpoint * C)) : holds (fun x => timer_fits x.1) r -> holds (fun x => timer_kept x.1) r.
Proof. intros Hr. eapply holds_impl; [exact Hr|]. by intros x Hx _. Qed.

Lemma closed_kept (r : outcome (Endpoint * C)) : holds (fun x => over_for x.1) r -> holds (fun x => timer_kept x.1) r.
Proof. intros Hr. eapply holds_impl; [exact Hr|]. intros x. apply over_kept. Qed.

Lemma enter_closing_over e now ctx : holds (fun x => over_for x.1) (enter_closing e now ctx).
Proof.
  unfold enter_closing. apply holds_any. intros t. unfold send_close_frame. apply holds_any. intros [f buf].
  by left.
Qed.

Lemma enter_closed_over e now ctx : holds (fun x => over_for x.1) (enter_closed e now ctx).
Proof. unfold enter_closed. apply holds_any. intros t. right. by left. Qed.

Lemma close_frame_kept e (b : bool) now ctx : timer_kept e ->
  holds (fun x => timer_kept x.1)
    (if b then '(self, ctx) ← send_close_ack_frame e ctx; enter_closed self now ctx else Ok (e, ctx)).
Proof.
  intros Hk. destruct b; [|exact Hk]. apply holds_any. intros [e1 ctx1]. apply closed_kept, enter_closed_over.
Qed.

Lemma handle_frame_kept e t p now ctx : timer_kept e -> payload_ok p ->
  holds (fun x => timer_kept x.1) (handle_frame e t p now ctx).
Proof.
  intros Hk Hp. unfold handle_frame. destruct (state_id e) eqn:Es; try exact Hk.
  - assert (Hf : timer_fits e) by (apply Hk; by right).
    destruct t; try exact Hk; try by (apply fits_kept, handle_stream_frame_fits).
    + by apply holds_any; intros b; apply close_frame_kept.
    + by apply fits_kept, handle_sync_fits.
  - destruct t; try exact Hk; apply holds_any; intros b; [by apply close_frame_kept|].
    destruct b; [|exact Hk]. apply closed_kept, enter_closed_over.
  - case_decide; [|exact Hk]. apply holds_any. intros b. destruct b; [|exact Hk].
    apply holds_any. intros [f buf]. apply over_kept. right. by left.
Qed.

Lemma timer_call_kept e now ctx : timer_kept e -> holds (fun x => timer_kept x.1.1) (handle_rto_timer e now ctx).
Proof.
  intros Hk. unfold handle_rto_timer. destruct (state_id e) eqn:Es; try exact Hk.
  - assert (Hf : timer_fits e) by (apply Hk; by right). unfold advance_rto_sum.
    destruct (rto_timer_state e) as [ts|] eqn:Et; [|done]. apply holds_any. intros ts'.
    assert (Hrun : 0 < segments_in_flight e).
    { apply Z.ltb_lt. rewrite <- (tf_timer e Hf). unfold has_timer. by rewrite Et. }
    case_bool; [apply over_kept; by right; right|].
    apply (holds_bind (fun x => timer_fits x.1)).
    { unfold back_off. do 2 (apply holds_any; intros ?). destruct Hf as [Hn Hz _]. split; [done..|].
      symmetry. by apply Z.ltb_lt. }
    intros [e1 ctx1] Hf1. apply holds_any. intros cc.
    apply (holds_bind (fun x => timer_fits x.1)).
    { unfold send_stream_sync_frame. apply holds_any. intros [f buf]. by apply (fits_same e1). }
    intros [e2 ctx2] Hf2. apply (holds_bind (fun x => timer_fits x.1)); [by apply flush_stream_fits|].
    intros [e3 ctx3] Hf3 _. exact Hf3.
  - apply holds_any. intros ts. case_bool; [apply over_kept; by right; right|].
    apply (holds_bind (fun x => over_for x.1)).
    { unfold back_off. do 2 (apply holds_any; intros ?). by left. }
    intros [e1 ctx1] Ho. unfold send_close_frame. 
    apply (holds_bind (fun x => over_for x.1)); [apply holds_any; by intros [f buf]|].
    intros [e2 ctx2] Ho2. by apply over_kept.
  - apply over_kept. by right; right.
Qed.

Lemma call_timer_kept e c now ctx armed : timer_kept e -> call_ok armed e c ->
  holds (fun x => timer_kept x.1) (invoke e c now ctx).
Proof.
  intros Hk Hc. destruct c as [|p m| | |t p|]; cbn [invoke].
  - cbn [call_ok] in Hc. unfold init. apply holds_any. intros _. intros _. apply (fits_same e); [done|].
    apply Hk. by left.
  - apply (holds_bind timer_kept); [|done]. unfold enqueue. case_decide as Hs; [|exact Hk].
    apply holds_any. intros ft _. apply (fits_same e); [done|]. apply Hk. by right.
  - unfold flush. case_decide as Hs; [|exact Hk]. apply fits_kept, flush_stream_fits, Hk. by right.
  - unfold disconnect. case_decide; [|exact Hk]. apply closed_kept, enter_closing_over.
  - by apply handle_frame_kept.
  - apply (holds_bind (fun x => timer_kept x.1.1)); [by apply timer_call_kept|]. by intros [[e' ctx'] x].
Qed.

Lemma new_timer_fits cfg : holds timer_fits (new cfg).
Proof.
  unfold new. apply (holds_bind (fun s => SegmentTx.next_id s = 0 /\ SegmentTx.base_id s = 0 /\
    SegmentTx.size s = SEGMENT_WINDOW_SIZE)).
  - unfold SegmentTx.new. do 2 (apply holds_any; intros ?). done.
  - intros s (Hn & Hb & Hz). do 4 (apply holds_any; intros ?). split; cbn; [by rewrite Hn|done|].
    unfold segments_in_flight. cbn. by rewrite Hn, Hb.
Qed.
End Timer.
