(* ===== verification/HostIndependence.v ===== *)
(** * An endpoint does not depend on its host

    An endpoint learns nothing from its host but the random bits it draws.  So two hosts that
    agree on those see the same endpoint: whatever relation between them is kept by the
    calls of [HostContext] and by drawing a bit is kept by every entry point, with the same
    endpoint, result and fault on both sides.  What is proved of an endpoint and a recording
    host holds of the endpoint inside a client or a server. *)

From S2P Require Import Prelude Word Frame Serial Prio Reliable Unreliable SegmentTx SegmentRx CongestionControl.
From S2P Require Import Endpoint EndpointFacts EndpointMachine.

Import Endpoint.

(** ** Related outcomes *)

Definition agree {A B} (P : A -> B -> Prop) (m : outcome A) (n : outcome B) : Prop :=
  match m, n with
  | Ok a, Ok b => P a b
  | Fault f, Fault g => f = g
  | _, _ => False
  end.

Lemma agree_bind {A B A' B'} (P : A -> B -> Prop) (Q : A' -> B' -> Prop) m n k l :
  agree P m n -> (forall a b, P a b -> agree Q (k a) (l b)) -> agree Q (m ≫= k) (n ≫= l).
Proof. destruct m, n; cbn; intros HP Hk; subst; [by apply Hk|done..]. Qed.

Lemma agree_same {A A' B'} (Q : A' -> B' -> Prop) (m : outcome A) k l :
  (forall a, agree Q (k a) (l a)) -> agree Q (m ≫= k) (m ≫= l).
Proof. destruct m; cbn; auto. Qed.

Section Independence.
Context `{BuildProfile} {C D : Type} `{HostContext C} `{ThreadRng C} `{HostContext D} `{ThreadRng D}.

(** Two hosts that stay related whatever an endpoint asks of them. *)
Class HostRelation (R : C -> D -> Prop) : Prop := {
  hr_send f c d : R c d -> R (send_frame f c) (send_frame f d);
  hr_set t c d : R c d -> R (set_rto_timer t c) (set_rto_timer t d);
  hr_unset c d : R c d -> R (unset_rto_timer c) (unset_rto_timer d);
  hr_connect c d : R c d -> R (on_connect c) (on_connect d);
  hr_disconnect c d : R c d -> R (on_disconnect c) (on_disconnect d);
  hr_receive p c d : R c d -> R (on_receive p c) (on_receive p d);
  hr_timeout c d : R c d -> R (on_timeout c) (on_timeout d);
  hr_random c d : R c d -> (rand_random c).1 = (rand_random d).1 /\ R (rand_random c).2 (rand_random d).2;
}.

Context (R : C -> D -> Prop) `{!HostRelation R}.

(** The same endpoint, with related hosts; and with a further result. *)
Definition same (x : Endpoint * C) (y : Endpoint * D) : Prop := x.1 = y.1 /\ R x.2 y.2.
Definition same_with {A} (x : Endpoint * C * A) (y : Endpoint * D * A) : Prop := same x.1 y.1 /\ x.2 = y.2.
Definition same_flags (x : Endpoint * C * bool * bool) (y : Endpoint * D * bool * bool)
  : Prop := same_with x.1 y.1 /\ x.2 = y.2.

Ltac related :=
  repeat first
    [ progress cbn [fst snd]
    | match goal with
      | |- agree _ (Ok _) (Ok _) => cbn [agree]
      | |- same _ _ => split
      | |- same_with _ _ => split
      | |- same_flags _ _ => split
      | |- agree _ (Fault _) (Fault _) => reflexivity
      | |- _ = _ => reflexivity
      | |- R (send_frame _ _) (send_frame _ _) => apply hr_send
      | |- R (set_rto_timer _ _) (set_rto_timer _ _) => apply hr_set
      | |- R (unset_rto_timer _) (unset_rto_timer _) => apply hr_unset
      | |- R (on_connect _) (on_connect _) => apply hr_connect
      | |- R (on_disconnect _) (on_disconnect _) => apply hr_disconnect
      | |- R (on_receive _ _) (on_receive _ _) => apply hr_receive
      | |- R (on_timeout _) (on_timeout _) => apply hr_timeout
      | |- R _ _ => assumption
      end ].

Lemma send_close_same e c d : R c d -> agree same (send_close_frame e c) (send_close_frame e d).
Proof. intros HR. unfold send_close_frame. apply agree_same. intros [f buf]. related. Qed.

Lemma send_close_ack_same e c d : R c d -> agree same (send_close_ack_frame e c) (send_close_ack_frame e d).
Proof. intros HR. unfold send_close_ack_frame. apply agree_same. intros [f buf]. related. Qed.

Lemma send_sync_same e id c d : R c d -> agree same (send_stream_sync_frame e id c) (send_stream_sync_frame e id d).
Proof. intros HR. unfold send_stream_sync_frame. apply agree_same. intros [f buf]. related. Qed.

Lemma enter_closing_same e now c d : R c d -> agree same (enter_closing e now c) (enter_closing e now d).
Proof. intros HR. unfold enter_closing. apply agree_same. intros t. apply send_close_same. related. Qed.

Lemma enter_closed_same e now c d : R c d -> agree same (enter_closed e now c) (enter_closed e now d).
Proof. intros HR. unfold enter_closed. apply agree_same. intros t. related. Qed.

(** ** Sending *)

Definition same_frame (x : Endpoint * FrameWriter * C) (y : Endpoint * FrameWriter * D) : Prop :=
  x.1 = y.1 /\ R x.2 y.2.

Lemma write_segment_same e wr now c d : R c d -> agree same_frame (write_segment e wr now c)
  (write_segment e wr now d).
Proof.
  intros HR. unfold write_segment. destruct (hr_random c d HR) as [Hb Hn].
  destruct (rand_random c) as [b c1], (rand_random d) as [b' d1]. cbn [fst snd] in *. subst b'.
  apply agree_same. intros s1. apply agree_same. intros [w1 x1]. apply agree_same. intros [[ft w2] n].
  apply agree_same. intros []. apply agree_same. intros s2.
  apply (agree_bind same).
  - destruct (rto_timer_state _); [related|]. apply agree_same. intros t. related.
  - intros [e1 c2] [e2 d2] [Ee HR2]. cbn [fst snd] in *. subst e2. apply agree_same. intros e3. by split.
Qed.

Lemma flush_step_same a r e now c d : R c d -> agree same_with (flush_step a r e now c) (flush_step a r e now d).
Proof.
  intros HR. unfold flush_step. destruct (ftx_data_ready _ _) as [ft ready]. case_bool; [|related].
  apply agree_same. intros t. apply agree_same. intros w. apply agree_same. intros w1. apply (agree_bind same_frame).
  - case_bool; [by apply write_segment_same|by split].
  - intros [[e1 w2] c1] [[e2 w3] d1] [Ee HR1]. cbn [fst snd] in *. injection Ee as -> ->.
    apply agree_same. intros [f buf]. related.
Qed.

Lemma flush_loop_same r now fuel : forall a e c d, R c d ->
  agree same (flush_loop fuel a r e now c) (flush_loop fuel a r e now d).
Proof.
  induction fuel as [|fuel IH]; intros a e c d HR; cbn [flush_loop]; [done|].
  apply (agree_bind same_with); [by apply flush_step_same|].
  intros [[e1 c1] m1] [[e2 d1] m2] [[Ee HR1] Em]. cbn [fst snd] in *. subst. case_bool; [by apply IH|related].
Qed.

Lemma flush_stream_same e a r now c d : R c d -> agree same (flush_stream e a r now c) (flush_stream e a r now d).
Proof. apply flush_loop_same. Qed.

(** ** Receiving *)

Lemma receive_datagram_same e dg c d : R c d -> same (receive_datagram e dg c) (receive_datagram e dg d).
Proof.
  intros HR. unfold receive_datagram. destruct (dg_unrel dg).
  - destruct (UnreliableRxBuffer.receive _ _ _) as [rx [p|]]; related.
  - destruct (ReliableRxBuffer.receive _ _ _) as [rx [p|]]; related.
Qed.

Lemma receive_datagrams_same fuel : forall rd e c d a r, R c d ->
  agree same_flags (receive_datagrams fuel rd e c a r) (receive_datagrams fuel rd e d a r).
Proof.
  induction fuel as [|fuel IH]; intros rd e c d a r HR; cbn [receive_datagrams]; [done|].
  apply agree_same. intros [[dg|] rd']; [|by related].
  pose proof (receive_datagram_same e dg c d HR) as [Ee HR1].
  destruct (receive_datagram e dg c) as [e1 c1], (receive_datagram e dg d) as [e2 d1]. cbn [fst snd] in *. subst e2.
  by apply IH.
Qed.

Lemma receive_segments_same ss : forall e c d a r, R c d ->
  agree same_flags (receive_segments e ss c a r) (receive_segments e ss d a r).
Proof.
  induction ss as [|s ss IH]; intros e c d a r HR; cbn [receive_segments]; [by related|].
  apply (agree_bind same_flags); [by apply receive_datagrams_same|].
  intros [[[e1 c1] a1] r1] [[[e2 d1] a2] r2] [[[Ee HR1] Ea] Er]. cbn [fst snd] in *. subst. by apply IH.
Qed.

Lemma update_rto_same_host e id now c d : R c d ->
  agree same (update_rto_timer e id now c) (update_rto_timer e id now d).
Proof.
  intros HR. unfold update_rto_timer. destruct (rto_timer_state e); [|by related]. case_bool; [by related|].
  apply agree_same. intros t. related.
Qed.

Lemma handle_ack_same e a now c d : R c d -> agree same (handle_ack e a now c) (handle_ack e a now d).
Proof.
  intros HR. unfold handle_ack. apply agree_same. intros cc. apply agree_same. intros [stx dr].
  apply agree_same. intros e3. apply agree_same. intros ft. apply agree_same. intros e5.
  by apply update_rto_same_host.
Qed.

Lemma handle_segment_same e hd s c d : R c d -> agree same_flags (handle_segment e hd s c) (handle_segment e hd s d).
Proof. intros HR. unfold handle_segment. apply agree_same. intros [[srx out] n]. by apply receive_segments_same. Qed.

(** ** Frames *)

Lemma stream_frame_same e t p now c d : R c d ->
  agree same (handle_stream_frame e t p now c) (handle_stream_frame e t p now d).
Proof.
  intros HR. unfold handle_stream_frame. apply agree_same. intros [ra rdt].
  apply (agree_bind (fun x y => match x, y with
    | Some (e1, c1, rd1), Some (e2, d1, rd2) => e1 = e2 /\ rd1 = rd2 /\ R c1 d1
    | None, None => True | _, _ => False end)).
  - destruct ra; [|done]. apply agree_same. intros [[ack|] rd]; [|done].
    apply (agree_bind same); [by apply handle_ack_same|]. by intros [e1 c1] [e2 d1] [Ee HR1].
  - intros [[[e1 c1] rd1]|] [[[e2 d1] rd2]|]; try done. intros (-> & -> & HR1).
    apply (agree_bind same_flags).
    + destruct rdt; [|by related]. apply agree_same. intros [[hd|] rd]; [|by related].
      apply agree_same. intros s. by apply handle_segment_same.
    + intros [[[e3 c3] a3] r3] [[[e4 d4] a4] r4] [[[Ee HR3] Ea] Er]. cbn [fst snd] in *. subst.
      by apply flush_stream_same.
Qed.

Lemma sync_frame_same e p now c d : R c d ->
  agree same (handle_stream_sync_frame e p now c) (handle_stream_sync_frame e p now d).
Proof.
  intros HR. unfold handle_stream_sync_frame. apply agree_same. intros [[sy|] rd]; [|by related].
  apply agree_same. intros [srx out]. apply (agree_bind same_flags); [by apply receive_segments_same|].
  intros [[[e3 c3] a3] r3] [[[e4 d4] a4] r4] [[[Ee HR3] Ea] Er]. cbn [fst snd] in *. subst.
  by apply flush_stream_same.
Qed.

Lemma close_request_same e p now c d : R c d ->
  agree same
    (valid ← validate_close_frame e p;
     if valid : bool then '(self, ctx) ← send_close_ack_frame e c; enter_closed self now ctx else Ok (e, c))
    (valid ← validate_close_frame e p;
     if valid : bool then '(self, ctx) ← send_close_ack_frame e d; enter_closed self now ctx else Ok (e, d)).
Proof.
  intros HR. apply agree_same. intros []; [|by related]. apply (agree_bind same); [by apply send_close_ack_same|].
  intros [e1 c1] [e2 d1] [Ee HR1]. cbn [fst snd] in *. subst. by apply enter_closed_same.
Qed.

Lemma handle_frame_same e t p now c d : R c d -> agree same (handle_frame e t p now c) (handle_frame e t p now d).
Proof.
  intros HR. unfold handle_frame. destruct (state_id e); try by related.
  - destruct t; try (by related); try (by apply stream_frame_same);
      [by apply close_request_same|by apply sync_frame_same].
  - destruct t; try (by related); [by apply close_request_same|].
    apply agree_same. intros []; [by apply enter_closed_same|by related].
  - case_decide; [|by related]. apply agree_same. intros []; [by apply send_close_ack_same|by related].
Qed.

(** ** The timer *)

Lemma back_off_same e ts now c d : R c d -> agree same (back_off e ts now c) (back_off e ts now d).
Proof. intros HR. unfold back_off. apply agree_same. intros n. apply agree_same. intros t. related. Qed.

Lemma handle_rto_timer_same e now c d : R c d -> agree same_with (handle_rto_timer e now c)
  (handle_rto_timer e now d).
Proof.
  intros HR. unfold handle_rto_timer. destruct (state_id e); try by related.
  - apply agree_same. intros ts. case_bool; [by related|]. apply (agree_bind same); [by apply back_off_same|].
    intros [e1 c1] [e2 d1] [Ee HR1]. cbn [fst snd] in *. subst e2. apply agree_same. intros cc.
    apply (agree_bind same); [by apply send_sync_same|]. intros [e3 c3] [e4 d4] [Ee HR3]. cbn [fst snd] in *.
    subst e4.
    apply (agree_bind same); [by apply flush_stream_same|]. by intros [e5 c5] [e6 d6] [Ee HR5].
  - apply agree_same. intros ts. case_bool; [by related|]. apply (agree_bind same); [by apply back_off_same|].
    intros [e1 c1] [e2 d1] [Ee HR1]. cbn [fst snd] in *. subst e2.
    apply (agree_bind same); [by apply send_close_same|]. by intros [e5 c5] [e6 d6] [Ee HR5].
Qed.

(** ** Every call *)

Lemma invoke_same e k now c d : R c d -> agree same (invoke e k now c) (invoke e k now d).
Proof.
  intros HR. destruct k as [|p m| | |t p|]; cbn [invoke].
  - unfold init. apply agree_same. intros []. related.
  - apply agree_same. intros e1. related.
  - unfold flush. case_decide; [by apply flush_stream_same|by related].
  - unfold disconnect. case_decide; [by apply enter_closing_same|by related].
  - by apply handle_frame_same.
  - apply (agree_bind same_with); [by apply handle_rto_timer_same|].
    intros [[e1 c1] x1] [[e2 d1] x2] [[Ee HR1] Ex]. by split.
Qed.
End Independence.

(** ** What a host keeps

    A property of the host that every request of an endpoint keeps is kept by every call. *)

Section Keeping.
Context `{BuildProfile} {C : Type} `{HostContext C} `{ThreadRng C}.

Class HostProperty (P : C -> Prop) : Prop := {
  hp_send f c : P c -> P (send_frame f c);
  hp_set t c : P c -> P (set_rto_timer t c);
  hp_unset c : P c -> P (unset_rto_timer c);
  hp_connect c : P c -> P (on_connect c);
  hp_disconnect c : P c -> P (on_disconnect c);
  hp_receive p c : P c -> P (on_receive p c);
  hp_timeout c : P c -> P (on_timeout c);
  hp_random c : P c -> P (rand_random c).2;
}.

Lemma property_relation (P : C -> Prop) : HostProperty P -> HostRelation (fun c d => c = d /\ P c).
Proof.
  intros []. split; intros; repeat match goal with H : _ /\ _ |- _ => destruct H; subst end; auto.
Qed.

Lemma invoke_keeps (P : C -> Prop) `{!HostProperty P} e k now c e' c' : P c -> invoke e k now c = Ok (e', c') -> P c'.
Proof.
  intros Hc Hi. pose proof (property_relation P _) as Hrel.
  pose proof (invoke_same (fun c d => c = d /\ P c) e k now c c (conj eq_refl Hc)) as Hs.
  rewrite Hi in Hs. by destruct Hs as [_ [_ Hp]].
Qed.
End Keeping.
