(* ===== verification/EndpointSession.v ===== *)
(** * Whole connections

    A concrete host that records what the endpoint does, the states an endpoint can reach
    under any use, and the theorems about them: no call panics or loops, the application
    sees a well-formed session, every frame sent is one the peer accepts, and the timer is
    kept while it is needed. *)

From S2P Require Import Prelude Word Crc Fragment Frame Serial SerialFacts FrameFacts.
From S2P Require Import SegmentTx SegmentTxFacts SegmentRx SegmentRxSafety CongestionControl Prio.
From S2P Require Import Reliable ReliableFacts Unreliable Endpoint FragmentTxFacts EndpointFacts.
From S2P Require Import EndpointSafety.
From S2P Require Import EndpointMachine EndpointTimer.

Import Endpoint.

(** ** The recording host *)

Record Host : Type := mkHost {
  h_log : list event;
  h_coins : nat -> bool;
  h_draws : nat;
}.

Definition record (ev : event) (h : Host) : Host := mkHost (h_log h ++ [ev]) (h_coins h) (h_draws h).

#[export] Instance host_context : HostContext Host := {|
  send_frame f := record (EvSend f);
  set_rto_timer t := record (EvSetTimer t);
  unset_rto_timer := record EvUnsetTimer;
  on_connect := record EvConnect;
  on_disconnect := record EvDisconnect;
  on_receive p := record (EvReceive p);
  on_timeout := record EvTimeout;
|}.

#[export] Instance host_rng : ThreadRng Host := fun h =>
  (h_coins h (h_draws h), mkHost (h_log h ++ [EvRandom]) (h_coins h) (S (h_draws h))).

(** Other bits to come: the generator has other users. *)
Definition reseed (coins : nat -> bool) (h : Host) : Host := mkHost (h_log h) coins (h_draws h).

Lemma performs_log h evs : h_log (performs h evs) = h_log h ++ evs.
Proof.
  revert h. induction evs as [|ev evs IH]; intros h; [by rewrite app_nil_r|].
  change (performs h (ev :: evs)) with (performs (perform h ev) evs). rewrite IH.
  change (ev :: evs) with ([ev] ++ evs). rewrite app_assoc. f_equal. by destruct ev.
Qed.

Definition armed (h : Host) : bool := arm false (h_log h).

Section Session.
Context `{BuildProfile}.

(** A configuration from [ChannelBalanceConfig] and a timeout. *)
Definition config_ok (cfg : Config) : Prop :=
  (exists ws burst, Prio.config_facts ws burst (prio_config cfg)) /\ 0 <= timeout_time_ms cfg <= TIME_MAX.

(** The states an endpoint reaches under any use: calls at non-decreasing times, each
    allowed when it is made, whatever bits are drawn. *)
Inductive reachable (cfg : Config) : Z -> Endpoint -> Host -> Prop :=
| reach_new coins e : new cfg = Ok e -> reachable cfg 0 e (mkHost [] coins 0)
| reach_call now e h c now' e' h' :
    reachable cfg now e h -> now <= now' <= TIME_MAX -> call_ok (armed h) e c ->
    invoke e c now' h = Ok (e', h') -> reachable cfg now' e' h'
| reach_reseed now e h coins : reachable cfg now e h -> reachable cfg now e (reseed coins h).

Lemma endpoint_new_ok cfg : config_ok cfg -> exists e, new cfg = Ok e /\ ep_inv 0 e /\ state_id e = PreInit /\
  has_timer e = false.
Proof.
  intros [(ws & burst & Hp) Ht]. unfold new. unfold SEGMENT_WINDOW_SIZE, FRAGMENT_SIZE, FRAGMENT_WINDOW_SIZE.
  change 4096 with (window_size 12).
  destruct (new_inv 0 12 ltac:(lia)) as (stx & Hstx & Hs); [unfold is_u32, two32; lia|].
  rewrite Hstx. cbn [mbind outcome_bind]. unfold ftx_new, UnreliableTxBuffer.new, UnreliableRxBuffer.new,
    ReliableRxBuffer.new.
  rewrite (new_represents 0 1024 (window_size 12)) by (by vm_compute).
  cbn [mbind outcome_bind assert_ Z.ltb Z.compare].
  destruct (AimdReno.cc_new_inv 1024) as (cc & Hcc & Hci & _); [unfold AimdReno.MSS_SAFE; lia|].
  rewrite Hcc. cbn [mbind outcome_bind]. eexists. split; [done|]. split; [|done].
  split; try done.
  - by eexists _, _.
  - split.
    + by split_and!.
    + exists SendWindow.init. split; [done|]. split; [|apply Forall_nil_2].
      split; cbn; unfold FRAGMENT_WINDOW_SIZE, zlen; cbn; lia.
    + exists ws, burst. by apply Prio.prio_new_inv.
  - apply new_wf; done.
Qed.

Definition is_callback (ev : event) : bool :=
  match ev with EvConnect | EvDisconnect | EvReceive _ | EvTimeout => true | _ => false end.
Definition callbacks (log : list event) : list event := filter (fun ev => is_callback ev = true) log.

(** What the application has seen in each state. *)
Definition session (s : StateId) (seen : list event) : Prop :=
  match s with
  | PreInit => seen = []
  | Active | Closing => exists ps, seen = EvConnect :: (EvReceive <$> ps)
  | Closed => exists ps, seen = EvConnect :: (EvReceive <$> ps) ++ [EvDisconnect]
  | Zombie => exists ps last, seen = EvConnect :: (EvReceive <$> ps) ++ [last] /\
    (last = EvDisconnect \/ last = EvTimeout)
  end.

Lemma callbacks_app l k : callbacks (l ++ k) = callbacks l ++ callbacks k.
Proof. apply filter_app. Qed.

Lemma callbacks_active evs : Forall (allowed Active) evs -> exists ps, callbacks evs = EvReceive <$> ps.
Proof.
  induction 1 as [|ev evs Hev _ [ps IH]]; [by exists []|]. unfold callbacks in *.
  destruct ev; cbn in Hev; try done; try (rewrite filter_cons_False by done; by exists ps).
  rewrite filter_cons_True by done. exists (packet :: ps). by rewrite IH.
Qed.

Lemma callbacks_none s evs : s <> Active -> Forall (allowed s) evs -> callbacks evs = [].
Proof.
  intros Hs. induction 1 as [|ev evs Hev _ IH]; [done|]. unfold callbacks in *.
  rewrite filter_cons_False; [done|]. by destruct s, ev.
Qed.

Lemma session_step now e e' evs log :
  transition now e e' evs -> session (state_id e) (callbacks log) ->
  session (state_id e') (callbacks (log ++ evs)).
Proof.
  rewrite callbacks_app. intros Ht Hs. destruct Ht as
    [evs [Es Hc Htm He] Ha|Es Es' Htm|t f Es Es' Htm Hd Hf|pre Es Es' Hp|t evs Es Es' Hd He Ha Htm|Es Es'|Es Es'].
  - rewrite Es. destruct (decide (state_id e = Active)) as [Ea|Ea].
    + rewrite Ea in *. destruct (callbacks_active _ Ha) as [qs ->]. destruct Hs as [ps ->].
      exists (ps ++ qs). by rewrite fmap_app.
    + by rewrite (callbacks_none (state_id e) evs), app_nil_r.
  - rewrite Es in Hs. rewrite Es', Hs. by exists [].
  - rewrite Es in Hs. rewrite Es'. destruct Hs as [ps ->]. exists ps. cbn. by rewrite app_nil_r.
  - rewrite Es', callbacks_app. assert (Hpre : callbacks pre = []) by (by destruct Hp as [->|(f & -> & _)]).
    rewrite Hpre. assert (Hps : exists ps, callbacks log = EvConnect :: (EvReceive <$> ps))
      by (by destruct Es as [E|E]; rewrite E in Hs).
    destruct Hps as [ps ->]. by exists ps.
  - rewrite Es'. change (EvSetTimer t :: evs) with ([EvSetTimer t] ++ evs). rewrite callbacks_app. cbn [app].
    change (callbacks [EvSetTimer t]) with (@nil event). destruct Es as [Ea|Ea]; rewrite Ea in *.
    + destruct (callbacks_active _ Ha) as [qs ->]. destruct Hs as [ps ->]. exists (ps ++ qs). by rewrite fmap_app.
    + by rewrite (callbacks_none Closing evs), app_nil_r.
  - rewrite Es'. assert (Hps : exists ps, callbacks log = EvConnect :: (EvReceive <$> ps))
      by (by destruct Es as [E|E]; rewrite E in Hs).
    destruct Hps as [ps ->]. exists ps, EvTimeout. by auto.
  - rewrite Es in Hs. rewrite Es', app_nil_r. destruct Hs as [ps ->]. exists ps, EvDisconnect. by auto.
Qed.

(** Frames, and how far ahead the timer is set. *)
Definition event_ok (ev : event) : Prop :=
  match ev with EvSend f => frame_ok f | _ => True end.

Lemma data_event_ok now evs : Forall (data_event now) evs -> Forall event_ok evs.
Proof. intros Hd. eapply Forall_impl; [exact Hd|]. by intros []. Qed.

Lemma transition_events now e e' evs : transition now e e' evs -> Forall event_ok evs.
Proof.
  intros [evs' [_ _ _ He] _| | |pre _ _ [->|(f & -> & Hf)]|t evs' _ _ _ He _ _| |]; repeat constructor; try done.
  - by eapply data_event_ok.
  - by eapply data_event_ok.
Qed.

(** Everything that holds of a reachable state. *)
Lemma reachable_facts cfg now e h : config_ok cfg -> reachable cfg now e h ->
  ep_inv now e /\ timer_ok (armed h) e /\ session (state_id e) (callbacks (h_log h)) /\ Forall event_ok (h_log h).
Proof.
  intros Hcfg. induction 1 as [coins e Hn|now e h c now' e' h' Hr (Hi & Ht & Hs & He)
    Hnow Hc Hinv|now e h coins _ IH]; [..|exact IH].
  - destruct (endpoint_new_ok cfg Hcfg) as (e0 & Hn' & Hi & Hs & Ht). rewrite Hn in Hn'. injection Hn' as <-.
    split; [done|]. unfold timer_ok, armed. rewrite Hs. split; [done|]. split; [done|apply Forall_nil_2].
  - pose proof (ep_inv_later now now' e Hi Hnow) as Hi1.
    destruct (call_stepped now' e c h (armed h) Hi1 Ht Hc) as (e1 & evs & Hinv' & Hi' & Htr).
    rewrite Hinv in Hinv'. injection Hinv' as -> ->. split; [done|].
    unfold armed in *. rewrite performs_log, arm_app. split; [by eapply transition_timer|].
    split; [by eapply session_step|]. apply Forall_app. split; [done|by eapply transition_events].
Qed.

Lemma reachable_timer cfg now e h : config_ok cfg -> reachable cfg now e h -> timer_kept e.
Proof.
  intros Hcfg. induction 1 as [coins e Hn|now e h c now' e' h' Hr IH Hnow Hc Hinv|now e h coins _ IH]; [|..|exact IH].
  - intros _. exact (holds_Ok _ _ _ (new_timer_fits cfg) Hn).
  - exact (holds_Ok _ _ _ (call_timer_kept e c now' h (armed h) IH Hc) Hinv).
Qed.

Lemma armed_in_flight cfg now e h : config_ok cfg -> reachable cfg now e h -> state_id e = Active ->
  armed h = (0 <? segments_in_flight e).
Proof.
  intros Hcfg Hr Ha. destruct (reachable_facts cfg now e h Hcfg Hr) as (_ & Ht & _ & _). unfold timer_ok in Ht.
  rewrite Ha in Ht. rewrite <- Ht. apply tf_timer, (reachable_timer cfg now e h Hcfg Hr). by right.
Qed.

(** ** Driving an endpoint *)

#[export] Instance is_u8_dec x : Decision (is_u8 x).
Proof. unfold is_u8. apply _. Defined.
#[export] Instance is_u16_dec x : Decision (is_u16 x).
Proof. unfold is_u16. apply _. Defined.
#[export] Instance packet_ok_dec p : Decision (packet_ok p).
Proof. unfold packet_ok. apply _. Defined.
#[export] Instance payload_ok_dec p : Decision (payload_ok p).
Proof. unfold payload_ok. apply _. Defined.
#[export] Instance mode_ok_dec m : Decision (mode_ok m).
Proof. destruct m; cbn [mode_ok]; apply _. Defined.
#[export] Instance call_ok_dec a e c : Decision (call_ok a e c).
Proof. destruct c; cbn [call_ok]; apply _. Defined.

(** Calls at given times, refused when they are not allowed. *)
Fixpoint drive (e : Endpoint) (h : Host) (now : Z) (cs : list (Z * call)) : option (Z * Endpoint * Host) :=
  match cs with
  | [] => Some (now, e, h)
  | (t, c) :: cs =>
      if decide (now <= t <= TIME_MAX /\ call_ok (armed h) e c) then
        match invoke e c t h with
        | Ok (e, h) => drive e h t cs
        | Fault _ => None
        end
      else None
  end.

Definition start (cfg : Config) (coins : nat -> bool) (cs : list (Z * call)) : option (Z * Endpoint * Host) :=
  match new cfg with
  | Ok e => drive e (mkHost [] coins 0) 0 cs
  | Fault _ => None
  end.

Lemma drive_reachable cfg cs : forall now e h r, reachable cfg now e h -> drive e h now cs = Some r ->
  reachable cfg r.1.1 r.1.2 r.2.
Proof.
  induction cs as [|[t c] cs IH]; intros now e h r Hr Hd; cbn [drive] in Hd; [by injection Hd as <-|].
  destruct (decide _) as [[Ht Hc]|]; [|done].
  destruct (invoke e c t h) as [[e' h']|] eqn:Hi; [|done].
  apply (IH _ _ _ _ (reach_call cfg now e h c t e' h' Hr Ht Hc Hi) Hd).
Qed.

Lemma start_reachable cfg coins cs r : start cfg coins cs = Some r -> reachable cfg r.1.1 r.1.2 r.2.
Proof.
  unfold start. destruct (new cfg) as [e|] eqn:Hn; [|done]. by apply drive_reachable, reach_new.
Qed.

(** A computed observation of a driven endpoint is one of a reachable state. *)
Lemma start_observe {A} cfg coins cs (f : Z * Endpoint * Host -> A) x :
  f <$> start cfg coins cs = Some x -> exists r, reachable cfg r.1.1 r.1.2 r.2 /\ f r = x.
Proof.
  intros Hx. apply fmap_Some in Hx as (r & Hs & ->). exists r. split; [by eapply start_reachable|done].
Qed.

(** The frames sent so far, and the call a received frame amounts to. *)
Definition frames (log : list event) : list (list Z) :=
  omap (fun ev => match ev with EvSend f => Some f | _ => None end) log.
Definition packets (log : list event) : list (list Z) :=
  omap (fun ev => match ev with EvReceive p => Some p | _ => None end) log.
Definition arrival (f : list Z) : list call :=
  match read_type f, payload f with
  | Ok (Some t), Ok p => [CFrame t p]
  | _, _ => []
  end.
End Session.

(** ** Examples: a debug build, the default priorities and a ten-second timeout *)

Section Examples.
#[local] Instance debug_build : BuildProfile := true.

Definition example_prio : Prio.Config := Prio.mkConfig (Prio.Array4 1 1 1 1) 10000.
Definition example_config : Config := mkConfig 10000 example_prio.

Lemma example_prio_default : prio_config_from balance_default = Ok example_prio.
Proof. reflexivity. Qed.

Lemma example_config_ok : config_ok example_config.
Proof.
  split; [|by vm_compute]. exists (Prio.Array4 1 1 1 1), 10000.
  apply Prio.config_new_facts; [|done|reflexivity]. intros i Hi. Prio.channels; done.
Qed.

Definition example_calls : list (Z * call) :=
  [(0, CInit); (5, CEnqueue [1; 2; 3] SendReliable); (6, CEnqueue [4] (SendUnreliable 50)); (7, CFlush)].

Lemma example_reachable : exists now e h,
  reachable example_config now e h /\ state_id e = Active /\ now = 7 /\ armed h = true.
Proof.
  destruct (start_observe example_config (fun _ => true) example_calls
    (fun r => (state_id r.1.2, r.1.1, armed r.2)) (Active, 7, true)) as ([[now e] h] & Hr & Ho).
  { vm_compute. reflexivity. }
  exists now, e, h. split; [exact Hr|]. cbn [fst snd] in Ho. injection Ho as Hs Hn Ha. auto.
Qed.

(** An empty packet is accepted and the next flush fails its assertion that something was
    written. *)
Lemma empty_stops : exists cfg now e h e', config_ok cfg /\ reachable cfg now e h /\
  invoke e (CEnqueue [] SendReliable) now h = Ok (e', h) /\ invoke e' CFlush now h = Fault Panicked.
Proof.
  destruct (start_observe example_config (fun _ => true) [(0, CInit)] (fun r =>
    (e ← enqueue r.1.2 [] SendReliable r.1.1; Ok (invoke e CFlush r.1.1 r.2))) (Ok (Fault Panicked)))
    as ([[now e] h] & Hr & Ho); [vm_compute; reflexivity|].
  cbn [fst snd] in Ho. apply outcome_bind_Ok in Ho as (e' & He & [= Hf]).
  exists example_config, now, e, h, e'. split; [exact example_config_ok|]. split; [exact Hr|].
  split; [|exact Hf]. cbn [invoke]. by rewrite He.
Qed.
End Examples.

(** ** Theorems *)

Section Theorems.
Context `{BuildProfile}.

(** C1: While the application queues no empty packet in a debug build, no use of an endpoint
    makes it panic, fail an assertion, overflow, index outside a buffer or loop forever.
    From every reachable state every call that is allowed returns, whatever frame types and
    payloads arrive (forged acknowledgements, segments, fragments and synchronisations
    included), whatever octets the application sends and whenever the timer fires.  Allowed
    ([call_ok]) means: [init] once and first, packets of octets which a debug build takes not
    to be empty, 16-bit timeouts, frames no longer than the receive buffer, timer calls while
    the timer is set.  The condition on packets is needed: in a debug build an empty packet is
    accepted by [enqueue] and the next flush panics.  A release build has no such condition. *)
Theorem endpoint_total :
  (forall cfg now e h c now', config_ok cfg -> reachable cfg now e h -> now <= now' <= TIME_MAX ->
     call_ok (armed h) e c -> exists e' h', invoke e c now' h = Ok (e', h')) /\
  (debug_assertions = true -> exists cfg now e h e', config_ok cfg /\ reachable cfg now e h /\
     invoke e (CEnqueue [] SendReliable) now h = Ok (e', h) /\ invoke e' CFlush now h = Fault Panicked) /\
  (debug_assertions = false -> forall a e p m, call_ok a e (CEnqueue p m) <-> Forall is_u8 p /\ mode_ok m).
Proof.
  split; [|split].
  - intros cfg now e h c now' Hcfg Hr Hn Hc. destruct (reachable_facts cfg now e h Hcfg Hr) as (Hi & Ht & _).
    destruct (call_stepped now' e c h (armed h)) as (e' & evs & Hinv & _); [by apply (ep_inv_later now)|done|done|].
    by eexists _, _.
  - match goal with profile : BuildProfile |- _ => destruct profile end; [intros _; exact empty_stops|done].
  - intros Hd a e p m. cbn [call_ok]. unfold packet_ok. rewrite Hd. split; [by intros [[Hu _] Hm]|by intros [Hu Hm]].
Qed.

(** C10: The application sees a well-formed session: nothing before the connection, then one
    [on_connect], then packets, and packets stop for good with exactly one [on_disconnect]
    or one [on_timeout]; and the state machine follows the session.  The host's timer is not
    set before the connection; while the endpoint is active it is set exactly when a segment
    is in flight, that is, sent and not yet acknowledged (and the endpoint's own timer state
    agrees); while it is closing or closed it is always set.  (Fragments may be outstanding
    with no segment in flight: see [reliable_delivery_stalls].) *)
Theorem endpoint_session cfg now e h :
  config_ok cfg -> reachable cfg now e h ->
  session (state_id e) (callbacks (h_log h)) /\ timer_ok (armed h) e /\
  (state_id e = Active -> (armed h = true <-> 0 < segments_in_flight e)).
Proof.
  intros Hcfg Hr. destruct (reachable_facts cfg now e h Hcfg Hr) as (_ & Ht & Hs & _). split; [done|]. split; [done|].
  intros Ha. rewrite (armed_in_flight cfg now e h Hcfg Hr Ha). apply Z.ltb_lt.
Qed.

(** C17: Every frame an endpoint sends fits the largest frame size, passes the receiver's
    checks, and carries what its type says: a segment of valid datagrams, an
    acknowledgement, both, a synchronisation or a close frame. *)
Theorem endpoint_frames_valid cfg now e h f :
  config_ok cfg -> reachable cfg now e h -> f ∈ frames (h_log h) ->
  zlen f <= FRAME_SIZE_MAX /\ verify_minimum_size f = true /\ verify_crc f = Ok true /\
  exists t p, read_type f = Ok (Some t) /\ payload f = Ok p /\ frame_content t p /\ payload_ok p.
Proof.
  intros Hcfg Hr Hf. destruct (reachable_facts cfg now e h Hcfg Hr) as (_ & _ & _ & He).
  apply list_elem_of_omap in Hf as (ev & Hin & Hev). rewrite Forall_forall in He. specialize (He ev Hin).
  destruct ev; try done. injection Hev as ->. destruct He as (t & p & -> & Hc & Hu & Hz).
  destruct (seal_checks t p Hu) as (H1 & H2 & H3 & H4). split_and!; try done.
  exists t, p. split_and!; try done. unfold seal in Hz. rewrite zlen_app, zlen_cons in Hz.
  pose proof (zlen_nonneg (to_le_bytes (compute (frame_type_bits t :: p)))). split; [done|lia].
Qed.

(** C23: A flush sends as much as it may and no more: it stops only when nothing waits, the
    segment window is full or the bytes in transit have reached the congestion window,
    and it never puts more than one frame beyond the congestion window in transit. *)
Theorem flush_discipline cfg now e h now' :
  config_ok cfg -> reachable cfg now e h -> now <= now' <= TIME_MAX -> state_id e = Active ->
  exists e' h', flush e now' h = Ok (e', h') /\
    (data_waiting (fragment_tx e') = false \/ SegmentTx.can_send (segment_tx e') = false \/
     AimdReno.cwnd (cc_state e') <= SegmentTx.bytes_in_transit (segment_tx e')) /\
    SegmentTx.bytes_in_transit (segment_tx e') <
      Z.max (SegmentTx.bytes_in_transit (segment_tx e) + 1) (AimdReno.cwnd (cc_state e) + FRAME_SIZE_MAX).
Proof.
  intros Hcfg Hr Hn Hs. destruct (reachable_facts cfg now e h Hcfg Hr) as (Hi & _).
  unfold flush. rewrite decide_True by done.
  destruct (flush_stream_ok now' e false false h) as (e' & evs & -> & Hi' & _ & Hc & Hstop & Hb);
    [by apply (ep_inv_later now)|].
  eexists _, _. split; [done|]. split; [|done]. rewrite (can_send_room _ (ei_segment_tx _ _ Hi')).
  fold (frame_window_open e'). destruct (data_waiting _); [|by left]. right.
  destruct (frame_window_open e'); [|by left]. right. cbn in Hstop. rewrite andb_true_r in Hstop.
  by apply Z.ltb_ge in Hstop.
Qed.
End Theorems.

#[local] Instance session_debug_build : BuildProfile := true.

Lemma endpoint_frames_valid_witness :
  let f := [6; 1; 0; 0; 0; 0; 7; 0; 0; 0; 0; 0; 1; 4; 6; 0; 0; 0; 0; 0; 3; 1; 2; 3; 35; 13; 39; 3] in
  zlen f <= FRAME_SIZE_MAX /\ verify_minimum_size f = true /\ verify_crc f = Ok true /\
  exists t p, read_type f = Ok (Some t) /\ payload f = Ok p /\ frame_content t p /\ payload_ok p.
Proof.
  intros f. destruct (start_observe example_config (fun _ => true) example_calls
    (fun r => frames (h_log r.2)) [f]) as ([[now e] h] & Hr & Ho).
  { vm_compute. reflexivity. }
  cbn [fst snd] in *. apply (endpoint_frames_valid example_config now e h f).
  - exact example_config_ok.
  - exact Hr.
  - rewrite Ho. by apply list_elem_of_singleton.
Defined.

Lemma endpoint_total_witness : exists now e h, reachable example_config now e h /\
  exists e' h', invoke e (CFrame StreamAckType [1; 0; 0; 0; 200; 7; 7; 7; 7]) 20 h = Ok (e', h').
Proof.
  destruct example_reachable as (now & e & h & Hr & _ & Hn & _). exists now, e, h. split; [exact Hr|].
  apply (proj1 endpoint_total example_config now).
  - exact example_config_ok.
  - exact Hr.
  - rewrite Hn. by vm_compute.
  - by apply (bool_decide_unpack _); vm_compute.
Defined.

Lemma endpoint_session_witness : exists now e h, reachable example_config now e h /\ state_id e = Active /\
  session Active (callbacks (h_log h)) /\ armed h = true /\ 0 < segments_in_flight e.
Proof.
  destruct example_reachable as (now & e & h & Hr & Hs & _ & Ha). exists now, e, h.
  destruct (endpoint_session example_config now e h example_config_ok Hr) as (Hse & _ & Hi).
  rewrite Hs in Hse. split; [exact Hr|]. split; [exact Hs|]. split; [exact Hse|]. split; [exact Ha|].
  by apply Hi.
Defined.

Lemma flush_discipline_witness : exists now e h, reachable example_config now e h /\
  exists e' h', flush e 20 h = Ok (e', h') /\
    (data_waiting (fragment_tx e') = false \/ SegmentTx.can_send (segment_tx e') = false \/
     AimdReno.cwnd (cc_state e') <= SegmentTx.bytes_in_transit (segment_tx e')) /\
    SegmentTx.bytes_in_transit (segment_tx e') <
      Z.max (SegmentTx.bytes_in_transit (segment_tx e) + 1) (AimdReno.cwnd (cc_state e) + FRAME_SIZE_MAX).
Proof.
  destruct example_reachable as (now & e & h & Hr & Hs & Hn & _). exists now, e, h. split; [exact Hr|].
  apply (flush_discipline example_config now).
  - exact example_config_ok.
  - exact Hr.
  - rewrite Hn. by vm_compute.
  - exact Hs.
Defined.

(** A flush with nothing to send does nothing. *)
Record nothing_to_send (e : Endpoint) : Prop := {
  ns_active : state_id e = Active;
  ns_unreliable : UnreliableTxBuffer.fragments (unrel (fragment_tx e)) = [];
  ns_reliable : ReliableTxBuffer.peek_sendable (rel (fragment_tx e)) = None;
}.

Lemma flush_idle `{BuildProfile} {C} `{HostContext C} `{ThreadRng C} e t (ctx : C) : nothing_to_send e ->
  exists e', flush e t ctx = Ok (e', ctx) /\ nothing_to_send e'.
Proof.
  intros [Hs Hu Hr]. unfold flush. rewrite decide_True by done. unfold flush_stream.
  assert (Hf : exists n, flush_fuel = S n) by by eexists. destruct Hf as [n ->]. cbn [flush_loop].
  unfold flush_step, ftx_data_ready, ftx_pop_expired, UnreliableTxBuffer.pop_expired,
    UnreliableTxBuffer.peek_sendable.
  cbn [unrel rel UnreliableTxBuffer.fragments]. rewrite Hu, Hr. cbn [UnreliableTxBuffer.pop_expired_loop].
  rewrite (bool_decide_eq_false_2 (is_Some None)) by (by intros []). cbn [orb]. rewrite andb_false_r.
  eexists. split; [done|by split].
Qed.

(** An empty packet is accepted by [enqueue], and in a debug build the next flush fails
    its assertion that something was written; a release build sends the packet. *)
Theorem empty_packet_panics :
  let outcome_of (profile : BuildProfile) := (e ← new (H := profile) example_config;
    '(e, h) ← init (H := profile) e (mkHost [] (fun _ => true) 0);
    e ← enqueue (H := profile) e [] SendReliable 0;
    '(e, h) ← flush (H := profile) e 0 h; Ok (length (frames (h_log h)))) in
  outcome_of true = Fault Panicked /\ outcome_of false = Ok 1%nat.
Proof. split; vm_compute; reflexivity. Qed.
