(* ===== verification/StreamHalf.v ===== *)
(** * One side of a connection, as the network sees it

    Seen from its buffers, an endpoint is one half of two streams: it sends the fragments of
    its own packets and receives those of its peer.  [half] is the reliable part of it, with
    the moves [half_step] of [ReliableChannel]; [flow] the segments and the unreliable part.
    [tracks] says that an endpoint and its host are in the state of a half and a flow, down to
    the bytes of the frames sent and of the segments held back. *)

From S2P Require Import Prelude Word Fragment Reliable ReliableFacts Unreliable UnreliableChannel.
From S2P Require Import Frame Serial SerialFacts FrameFacts.
From S2P Require Import SegmentTx SegmentTxFacts SegmentRx SegmentRxFacts SegmentChannel Prio.
From S2P Require Import Endpoint FragmentTxFacts EndpointFacts EndpointSafety EndpointMachine.
From S2P Require Import EndpointSession.

Import Endpoint.

(** ** The reliable part *)

Record half : Set := mkHalf {
  hf_tx : ReliableTxBuffer.TxBuffer;
  hf_rx : ReliableRxBuffer.RxBuffer;
  hf_sent : list (Z * FragmentRc);
  hf_acks : list Z;
  hf_pushed : list (list Z);
  hf_delivered : list (list Z);
}.

(** The moves of a half; [sent] and [acks] are what the peer has put on the wire. *)
Inductive half_step `{BuildProfile} (sent : list (Z * FragmentRc)) (acks : list Z) : half -> half -> Prop :=
| hs_push tx tx' rx ss aa ps ds p : ReliableTxBuffer.push tx p = Ok tx' ->
    half_step sent acks (mkHalf tx rx ss aa ps ds) (mkHalf tx' rx ss aa (ps ++ [p]) ds)
| hs_send tx tx' rx ss aa ps ds id f : ReliableTxBuffer.pop_sendable tx = (tx', Some (id, f)) ->
    half_step sent acks (mkHalf tx rx ss aa ps ds) (mkHalf tx' rx ((id, f) :: ss) aa ps ds)
| hs_receive tx rx rx' ss aa ps ds id f o : (id, f) ∈ sent ->
    ReliableRxBuffer.receive rx id (fragment_ref_from f) = (rx', o) ->
    half_step sent acks (mkHalf tx rx ss aa ps ds) (mkHalf tx rx' ss aa ps (ds ++ option_list o))
| hs_emit tx rx ss aa ps ds :
    half_step sent acks (mkHalf tx rx ss aa ps ds) (mkHalf tx rx ss (ReliableRxBuffer.next_expected_id rx :: aa)
      ps ds)
| hs_ack tx tx' rx ss aa ps ds a b : a ∈ acks -> ReliableTxBuffer.acknowledge tx a = Ok (tx', b) ->
    half_step sent acks (mkHalf tx rx ss aa ps ds) (mkHalf tx' rx ss aa ps ds)
| hs_timeout tx rx ss aa ps ds :
    half_step sent acks (mkHalf tx rx ss aa ps ds) (mkHalf (ReliableTxBuffer.resend_all tx) rx ss aa ps ds).

(** What has been sent stays sent. *)
Lemma half_step_mono `{BuildProfile} sent acks x y : half_step sent acks x y ->
  hf_sent x ⊆ hf_sent y /\ hf_acks x ⊆ hf_acks y.
Proof. destruct 1; cbn; set_solver. Qed.

Lemma half_steps_mono `{BuildProfile} sent acks x y : rtc (half_step sent acks) x y ->
  hf_sent x ⊆ hf_sent y /\ hf_acks x ⊆ hf_acks y.
Proof.
  induction 1 as [x|x y z Hxy _ [IHs IHa]]; [set_solver|]. destruct (half_step_mono _ _ _ _ Hxy). set_solver.
Qed.

(** ** Segments *)

(** A fragment on its way, and the datagram that carries it. *)
Record item : Set := mkItem { it_unrel : bool; it_id : Z; it_fragment : FragmentRc }.

Definition item_datagram (i : item) : Datagram :=
  let f := fragment_ref_from (it_fragment i) in
  {| dg_id := it_id i; dg_unrel := it_unrel i; dg_first := fr_first f; dg_last := fr_last f; dg_data := fr_data f |}.

(** A segment: its nonce and what it carries. *)
Record segment : Set := mkSegment { sg_nonce : bool; sg_items : list item }.

Section Provenance.
Context `{BuildProfile}.

Definition segment_bytes (s : segment) : list Z := encode_all (item_datagram <$> sg_items s).
Definition segment_header (k : nat) (s : segment) : StreamSegmentHeader :=
  mkStreamSegmentHeader (wrap32 (Z.of_nat k)) (sg_nonce s).

Lemma segment_header_valid k s : block_valid (segment_header k s).
Proof. apply wrap32_range. Qed.

(** The segment at a position of the stream, and its unreliable fragments. *)
Definition seg_at (ss : list segment) (k : Z) : segment :=
  match ss !! Z.to_nat k with Some s => s | None => mkSegment false [] end.
Definition unreliable (its : list item) : list (Z * FragmentRc) :=
  omap (fun i => if it_unrel i then Some (it_id i, it_fragment i) else None) its.
Definition unreliable_in (ss : list segment) : list (Z * FragmentRc) := ss ≫= fun s => unreliable (sg_items s).

Lemma unreliable_app l k : unreliable (l ++ k) = unreliable l ++ unreliable k.
Proof. apply omap_app. Qed.

Lemma unreliable_in_snoc ss s : unreliable_in (ss ++ [s]) = unreliable_in ss ++ unreliable (sg_items s).
Proof. unfold unreliable_in. rewrite bind_app. cbn. by rewrite app_nil_r. Qed.

Lemma seg_at_lookup ss k s : ss !! k = Some s -> seg_at ss (Z.of_nat k) = s.
Proof. intros Hk. unfold seg_at. by rewrite Nat2Z.id, Hk. Qed.

Lemma seg_at_prefix ss ss' k : ss `prefix_of` ss' -> 0 <= k < zlen ss -> seg_at ss' k = seg_at ss k.
Proof.
  intros Hp Hk. unfold seg_at. destruct (lookup_lt_is_Some_2 ss (Z.to_nat k)) as [s Hs]; [unfold zlen in Hk; lia|].
  by rewrite (prefix_lookup_Some _ _ _ _ Hs Hp), Hs.
Qed.

(** Segments at increasing positions carry their unreliable fragments in order. *)
Lemma unreliable_at_sublist ss ks lo : 0 <= lo -> increasing lo (zlen ss) ks ->
  (ks ≫= fun k => unreliable (sg_items (seg_at ss k))) `sublist_of` unreliable_in (drop (Z.to_nat lo) ss).
Proof.
  revert lo. induction ks as [|k ks IH]; intros lo Hlo; cbn [increasing mbind list_bind]; [intros;
    apply sublist_nil_l|].
  intros [Hk Hi]. destruct (lookup_lt_is_Some_2 ss (Z.to_nat k)) as [s Hs]; [unfold zlen in Hk; lia|].
  assert (Hd : drop (Z.to_nat lo) ss = take (Z.to_nat k - Z.to_nat lo) (drop (Z.to_nat lo) ss)
    ++ s :: drop (Z.to_nat (k + 1)) ss).
  { rewrite <- (take_drop (Z.to_nat k - Z.to_nat lo) (drop (Z.to_nat lo) ss)) at 1. f_equal. rewrite drop_drop.
    replace (Z.to_nat lo + (Z.to_nat k - Z.to_nat lo))%nat with (Z.to_nat k) by lia.
    replace (Z.to_nat (k + 1)) with (S (Z.to_nat k)) by lia. by apply drop_S. }
  rewrite Hd. unfold unreliable_in at 1. rewrite bind_app. apply sublist_inserts_l. cbn [mbind list_bind].
  apply sublist_app; [|apply IH; [lia|done]]. unfold seg_at. by rewrite Hs.
Qed.

(** ** Frames *)

Definition ack_from (acks : list Z) (a : StreamAck) : Prop :=
  match sa_rel_fragment_id a with Some id => id ∈ acks | None => True end.

(** The frames a side sends: they carry its segments, its acknowledgements, or tell how many
    segments it has sent. *)
Inductive content_from (segs : list segment) (acks : list Z) : FrameType -> list Z -> Prop :=
| from_segment k s : segs !! k = Some s ->
    content_from segs acks StreamSegment (block_encode (segment_header k s) ++ segment_bytes s)
| from_ack (a : StreamAck) : block_valid a -> ack_from acks a ->
    content_from segs acks StreamAckType (block_encode a)
| from_segment_ack (a : StreamAck) k s : block_valid a -> ack_from acks a -> segs !! k = Some s ->
    content_from segs acks StreamSegmentAck (block_encode a ++ block_encode (segment_header k s) ++ segment_bytes s)
| from_sync n : (n <= length segs)%nat ->
    content_from segs acks StreamSyncType (block_encode (mkStreamSync (wrap32 (Z.of_nat n))))
| from_other t p : is_stream t = false -> t <> StreamSyncType -> content_from segs acks t p.

Definition frame_from (segs : list segment) (acks : list Z) (f : list Z) : Prop :=
  exists t p, f = seal (frame_type_bits t :: p) /\ Forall is_u8 p /\ content_from segs acks t p.

Lemma frame_from_mono segs segs' acks acks' f : segs `prefix_of` segs' -> acks ⊆ acks' ->
  frame_from segs acks f -> frame_from segs' acks' f.
Proof.
  intros Hs Ha (t & p & -> & Hu & Hc). exists t, p. split; [done|]. split; [done|].
  assert (Hack : forall a, ack_from acks a -> ack_from acks' a).
  { intros a. unfold ack_from. destruct (sa_rel_fragment_id a); [apply Ha|done]. }
  destruct Hc; constructor; eauto using prefix_lookup_Some. apply prefix_length in Hs. lia.
Qed.

(** What a segment holds: datagrams the frame codec accepts, of reliable fragments that were
    sent. *)
Definition item_ok (sent : list (Z * FragmentRc)) (i : item) : Prop :=
  datagram_valid (item_datagram i) /\ (it_unrel i = false -> (it_id i, it_fragment i) ∈ sent).
Definition segment_from (sent : list (Z * FragmentRc)) (s : segment) : Prop :=
  Forall (item_ok sent) (sg_items s) /\ zlen (segment_bytes s) <= FRAME_SIZE_MAX.

Lemma item_ok_mono sent sent' i : sent ⊆ sent' -> item_ok sent i -> item_ok sent' i.
Proof. intros Hs [Hv Hi]. split; [done|]. intros Hu. by apply Hs, Hi. Qed.

Lemma segment_from_mono sent sent' s : sent ⊆ sent' -> segment_from sent s -> segment_from sent' s.
Proof. intros Hs [Hi Hz]. split; [|done]. eapply Forall_impl; [exact Hi|]. intros i. by apply item_ok_mono. Qed.

End Provenance.

(** ** The segments and the unreliable part *)

(** The segments sent; the calls made of the unreliable send buffer and the fragments it gave
    up; what the receiver of segments knows of the peer's: those it holds back and those it
    has handed over; and what has arrived at the unreliable receive buffer. *)
Record flow : Set := mkFlow {
  fl_segments : list segment;
  fl_ops : list utx_op;
  fl_fragments : list (Z * FragmentRc);
  fl_reorder : ReorderBuffer.t;
  fl_got : list Z;
  fl_arrivals : list urx_event;
}.

Definition first_flow : flow := mkFlow [] [] [] (ReorderBuffer.mk 0 []) [] [].

Definition first_utx : UnreliableTxBuffer.TxBuffer := UnreliableTxBuffer.mkTxBuffer [] 0 FRAGMENT_SIZE.
Definition first_urx : UnreliableRxBuffer.RxBuffer := UnreliableRxBuffer.mkRxBuffer FRAGMENT_SIZE 0 None.

(** The packets the unreliable receive buffer has completed. *)
Definition fl_delivered (u : flow) : list (list Z) := (urx_run first_urx (fl_arrivals u)).2.

(** How a flow agrees with itself and with the segments of the peer; [pending] are fragments
    of segments handed over that are still to be looked at. *)
Record flow_ok (peer : list segment) (pending : list (Z * FragmentRc)) (u : flow) : Prop := {
  fo_fragments : unreliable_in (fl_segments u) = fl_fragments u;
  fo_got : increasing 0 (ReorderBuffer.base (fl_reorder u)) (fl_got u);
  fo_held : forall k, k ∈ ReorderBuffer.buf (fl_reorder u) -> 0 <= k < zlen peer;
  fo_base : ReorderBuffer.base (fl_reorder u) <= zlen peer;
  fo_arrivals : urx_got (fl_arrivals u) ++ pending = fl_got u ≫= fun k => unreliable (sg_items (seg_at peer k));
}.

(** What a flow never takes back. *)
Definition grows (u v : flow) : Prop :=
  fl_segments u `prefix_of` fl_segments v /\ utx_pushed (fl_ops v) = utx_pushed (fl_ops u).

Lemma grows_refl u : grows u u.
Proof. done. Qed.

Lemma grows_trans u v w : grows u v -> grows v w -> grows u w.
Proof. intros [H1 E1] [H2 E2]. split; [by etrans|congruence]. Qed.
