(* ===== verification/StreamReceive.v ===== *)
(** * What an endpoint does with what arrives

    [tracks] says that an endpoint and its host are in the state of a half and a flow;
    [moved] that they have come to such a state by moves of the half.  Here: the segments and
    the acknowledgements of the peer. *)

From S2P Require Import Prelude Word Fragment Reliable ReliableFacts Unreliable UnreliableChannel.
From S2P Require Import Frame Serial SerialFacts FrameFacts.
From S2P Require Import SegmentTx SegmentTxFacts SegmentRx SegmentRxFacts SegmentChannel.
From S2P Require Import CongestionControl Prio.
From S2P Require Import Endpoint FragmentTxFacts EndpointFacts EndpointSafety EndpointMachine.
From S2P Require Import EndpointSession StreamHalf.

Import Endpoint.

Lemma bind_ext_elem {A B} (f g : A -> list B) l : (forall x, x ∈ l -> f x = g x) -> l ≫= f = l ≫= g.
Proof.
  induction l as [|x l IH]; intros Hfg; cbn; [done|]. rewrite Hfg by by left. f_equal. apply IH. intros y Hy.
  apply Hfg. by right.
Qed.

(** ** An endpoint in the state of a half and a flow *)

Section Tracks.
Context `{BuildProfile}.

(** [peer] are the segments the peer has sent. *)
Definition rx_follows (peer : list segment) (c : SegmentRx.SegmentRx) (u : flow) : Prop :=
  rx_rel 0 SEGMENT_WINDOW_SIZE FRAME_SIZE_MAX (fun k => segment_bytes (seg_at peer k))
    (fun k => sg_nonce (seg_at peer k))
    c (fl_reorder u) (fl_got u).

Record tracks (peer : list segment) (pending : list (Z * FragmentRc)) (e : Endpoint) (h : Host) (x : half)
  (u : flow) : Prop := {
  tk_tx : rel (fragment_tx e) = hf_tx x;
  tk_rx : reliable_rx e = hf_rx x;
  tk_utx : utx_run first_utx (fl_ops u) = Ok (unrel (fragment_tx e), fl_fragments u);
  tk_next : SegmentTx.next_id (segment_tx e) = wrap32 (zlen (fl_segments u));
  tk_srx : rx_follows peer (segment_rx e) u;
  tk_urx : unreliable_rx e = (urx_run first_urx (fl_arrivals u)).1;
  tk_flow : flow_ok peer pending u;
  tk_segments : Forall (segment_from (hf_sent x)) (fl_segments u);
  tk_frames : Forall (frame_from (fl_segments u) (hf_acks x)) (frames (h_log h));
  tk_packets : interleaves (hf_delivered x) (fl_delivered u) (packets (h_log h));
  tk_draws : h_draws h = length (fl_segments u);
}.

(** The positions a flow knows are positions of the peer's stream. *)
Lemma known_positions peer pending u k : flow_ok peer pending u ->
  k ∈ fl_got u \/ k ∈ ReorderBuffer.buf (fl_reorder u) -> 0 <= k < zlen peer.
Proof.
  intros [_ Hg Hh Hb _] [Hk|Hk]; [|by apply Hh]. apply list_elem_of_In in Hk.
  pose proof (increasing_bounds _ _ _ _ Hg Hk). lia.
Qed.

(** The peer sends more. *)
Lemma tracks_peer peer peer' pending e h x u : peer `prefix_of` peer' ->
  tracks peer pending e h x u -> tracks peer' pending e h x u.
Proof.
  intros Hp [? ? ? ? Hs ? Hf ? ? ? ?]. pose proof (prefix_length _ _ Hp) as Hz.
  split; try done.
  - eapply rx_rel_ext; [|exact Hs]. intros k Hk. cbv beta. rewrite (seg_at_prefix peer peer');
      [done|done|by eapply known_positions].
  - pose proof Hf as [H1 H2 H3 H4 H5]. split; try done.
    + intros k Hk. specialize (H3 k Hk). unfold zlen in *. lia.
    + unfold zlen in *. lia.
    + rewrite H5. apply bind_ext_elem. intros k Hk. rewrite (seg_at_prefix peer peer'); [done|done|].
      eapply known_positions; [done|by left].
Qed.

(** What leaves the streams alone. *)
Definition same_stream (e e' : Endpoint) : Prop :=
  fragment_tx e' = fragment_tx e /\ reliable_rx e' = reliable_rx e /\ segment_rx e' = segment_rx e /\
  unreliable_rx e' = unreliable_rx e /\ SegmentTx.next_id (segment_tx e') = SegmentTx.next_id (segment_tx e).
Definition same_traffic (h h' : Host) : Prop :=
  frames (h_log h') = frames (h_log h) /\ packets (h_log h') = packets (h_log h) /\ h_draws h' = h_draws h.

Lemma same_stream_trans e1 e2 e3 : same_stream e1 e2 -> same_stream e2 e3 -> same_stream e1 e3.
Proof. intros (?&?&?&?&?) (?&?&?&?&?). split_and!; congruence. Qed.

Lemma frames_app l k : frames (l ++ k) = frames l ++ frames k.
Proof. apply omap_app. Qed.
Lemma packets_app l k : packets (l ++ k) = packets l ++ packets k.
Proof. apply omap_app. Qed.

Lemma record_traffic ev h : match ev with EvSend _ | EvReceive _ => False | _ => True end ->
  same_traffic h (record ev h).
Proof.
  intros Hev. unfold same_traffic, record. cbn [h_log h_draws]. rewrite frames_app, packets_app.
  destruct ev; try done; by rewrite !app_nil_r.
Qed.

Lemma traffic_trans h1 h2 h3 : same_traffic h1 h2 -> same_traffic h2 h3 -> same_traffic h1 h3.
Proof. intros (?&?&?) (?&?&?). split_and!; congruence. Qed.

Lemma tracks_same peer pending e h x u e' h' : tracks peer pending e h x u -> same_stream e e' -> same_traffic h h' ->
  tracks peer pending e' h' x u.
Proof. intros [] (Ef & Er & Es & Eu & En) (Hf & Hp & Hd). split; congruence. Qed.
End Tracks.

(** ** Moves *)

(** Fewer segments than ids: a position is recognised by its id. *)
Definition recognised (peer : list segment) : Prop := zlen peer + SEGMENT_WINDOW_SIZE < two32.

Section Moves.
Context `{BuildProfile} (sent : list (Z * FragmentRc)) (acks : list Z) (peer : list segment).
Context (Hpeer : Forall (segment_from sent) peer) (Hids : recognised peer).

(** The half moves on to a state of the endpoint, without pushing anything. *)
Definition moved_with (pending : list (Z * FragmentRc)) (x : half) (u : flow) (e : Endpoint) (h : Host) : Prop :=
  exists y v, rtc (half_step sent acks) x y /\ hf_pushed y = hf_pushed x /\ grows u v /\ tracks peer pending e h y v.
Definition moved : half -> flow -> Endpoint -> Host -> Prop := moved_with [].

Lemma moved_refl pending x u e h : tracks peer pending e h x u -> moved_with pending x u e h.
Proof. intros Ht. exists x, u. split; [apply rtc_refl|done]. Qed.

Lemma moved_trans pending pending' x u e h e' h' : moved_with pending x u e h ->
  (forall y v, tracks peer pending e h y v -> moved_with pending' y v e' h') -> moved_with pending' x u e' h'.
Proof.
  intros (y & v & Hxy & Hp & Hg & Ht) Hn. destruct (Hn y v Ht) as (z & w & Hyz & Hp' & Hg' & Ht').
  exists z, w. split; [by etrans|]. split; [congruence|]. split; [by eapply grows_trans|done].
Qed.

Lemma moved_same x u e h e' h' : moved x u e h -> same_stream e e' -> same_traffic h h' -> moved x u e' h'.
Proof. intros Hm Hs Ht. eapply moved_trans; [exact Hm|]. intros y v Hy. apply moved_refl. by eapply tracks_same. Qed.

(** Only the half moves, by one step. *)
Lemma moved_step pending x y u e h : half_step sent acks x y -> hf_pushed y = hf_pushed x ->
  tracks peer pending e h y u ->
  moved_with pending x u e h.
Proof. intros Hs Hp Ht. exists y, u. split; [by apply rtc_once|done]. Qed.

(** ** Receiving *)

(** A packet handed to the application, if any. *)
Lemma receive_traffic (o : option (list Z)) h :
  let h' := match o with Some p => record (EvReceive p) h | None => h end in
  frames (h_log h') = frames (h_log h) /\ packets (h_log h') = packets (h_log h) ++ option_list o /\
    h_draws h' = h_draws h.
Proof.
  destruct o as [p|]; cbn [record h_log h_draws option_list];
    rewrite ?frames_app, ?packets_app, ?app_nil_r; cbn; by rewrite ?app_nil_r.
Qed.

Lemma receive_item_moved i pending e h x u e' h' : item_ok sent i ->
  tracks peer (unreliable [i] ++ pending) e h x u ->
  receive_datagram e (item_datagram i) h = (e', h') -> moved_with pending x u e' h'.
Proof.
  intros [_ Hin] [Htx Hrx Hut Hn Hs Hur Hfl Hsg Hf Hp Hd]. unfold receive_datagram.
  change (mkFragmentRef _ _ _) with (fragment_ref_from (it_fragment i)). cbn [item_datagram dg_unrel dg_id].
  destruct i as [[] id f]; cbn [it_unrel it_id it_fragment unreliable omap list_omap app] in *.
  - destruct (UnreliableRxBuffer.receive (unreliable_rx e) id (fragment_ref_from f)) as [rx' o] eqn:Hr.
    intros [= <- <-].
    set (v := mkFlow (fl_segments u) (fl_ops u) (fl_fragments u) (fl_reorder u) (fl_got u)
      (fl_arrivals u ++ [UGot id f])).
    assert (Hrun : urx_run first_urx (fl_arrivals u ++ [UGot id f]) = (rx', fl_delivered u ++ option_list o)).
    { rewrite urx_run_app, <- Hur. cbn [urx_run]. rewrite Hr. cbn [fst snd]. by rewrite app_nil_r. }
    destruct (receive_traffic o h) as (E1 & E2 & E3). exists x, v. split; [apply rtc_refl|]. split; [done|].
    split; [done|].
    split; try done.
    + cbn [unreliable_rx set_unreliable_rx]. subst v. cbn [fl_arrivals]. by rewrite Hrun.
    + destruct Hfl as [? ? ? ? Ha]. split; try done. subst v. cbn [fl_arrivals fl_got].
      by rewrite urx_got_app, <- app_assoc.
    + by rewrite E1.
    + unfold fl_delivered. subst v. cbn [fl_arrivals]. rewrite E2, Hrun, <- (app_nil_r (hf_delivered x)).
      apply interleaves_app; [done|apply interleaves_right].
    + by rewrite E3.
  - rewrite Hrx. destruct (ReliableRxBuffer.receive (hf_rx x) id (fragment_ref_from f)) as [rx' o] eqn:Hr.
    intros [= <- <-].
    destruct (receive_traffic o h) as (E1 & E2 & E3).
    eapply (moved_step _ _ (mkHalf (hf_tx x) rx' (hf_sent x) (hf_acks x) (hf_pushed x)
      (hf_delivered x ++ option_list o)));
      [destruct x; eapply hs_receive; [by apply Hin|exact Hr]|done|].
    split; try done; [by rewrite E1|rewrite E2, <- (app_nil_r (fl_delivered u))|by rewrite E3].
    apply interleaves_app; [done|apply interleaves_left].
Qed.

Lemma read_end rd : pr_at rd [] -> payload_reader_read (A := Datagram) rd = Ok (None, rd).
Proof.
  intros Hat. destruct (payload_reader_read_any (A := Datagram) (H0 := datagram_serial) (H1 := datagram_ok) rd [] Hat)
    as [Hr|(d & rd' & n & _ & _ & Hn & _)]; [apply Forall_nil_2|done|]. cbn in Hn. lia.
Qed.

Lemma receive_items_moved fuel : forall rd nonce its pending e h x u a r e' h' a' r',
  tracks peer (unreliable its ++ pending) e h x u -> pr_at rd (segment_bytes (mkSegment nonce its)) ->
    Forall (item_ok sent) its ->
  receive_datagrams fuel rd e h a r = Ok (e', h', a', r') -> moved_with pending x u e' h'.
Proof.
  induction fuel as [|fuel IH]; intros rd nonce its pending e h x u a r e' h' a' r' Ht Hat Hi;
    cbn [receive_datagrams]; [done|].
  destruct its as [|i its].
  - rewrite (read_end rd Hat). cbn [mbind outcome_bind]. intros [= <- <- _ _]. by apply moved_refl.
  - apply Forall_cons in Hi as [Hi Hits]. pose proof Hi as [Hv _].
    destruct (payload_reader_read_encode (A := Datagram) (H0 := datagram_serial) (H1 := datagram_ok)
      rd (item_datagram i) (segment_bytes (mkSegment nonce its)) Hat Hv) as (rd' & Hr & Hat').
    rewrite Hr. cbn [mbind outcome_bind]. destruct (receive_datagram e (item_datagram i) h) as [e1 h1] eqn:E1.
    intros Hl.
    eapply (moved_trans (unreliable its ++ pending)); [eapply (receive_item_moved i); [done| |exact E1]|].
    + change (i :: its) with ([i] ++ its) in Ht. by rewrite unreliable_app, <- app_assoc in Ht.
    + intros y v Hy. by eapply IH.
Qed.

Lemma seg_at_from k : segment_from sent (seg_at peer k).
Proof.
  unfold seg_at. destruct (peer !! Z.to_nat k) as [s|] eqn:E; [|split; [apply Forall_nil_2|by vm_compute]].
  rewrite Forall_lookup in Hpeer. by eapply Hpeer.
Qed.

Lemma receive_segments_moved ks : forall e h x u a r e' h' a' r',
  tracks peer (ks ≫= fun k => unreliable (sg_items (seg_at peer k))) e h x u ->
  receive_segments e ((fun k => segment_bytes (seg_at peer k)) <$> ks) h a r = Ok (e', h', a', r') -> moved x u e' h'.
Proof.
  induction ks as [|k ks IH]; intros e h x u a r e' h' a' r' Ht; cbn [receive_segments fmap list_fmap].
  - intros [= <- <- _ _]. by apply moved_refl.
  - intros Hr. apply outcome_bind_Ok in Hr as ([[[e1 h1] a1] r1] & H1 & Hr).
    eapply (moved_trans (ks ≫= fun k => unreliable (sg_items (seg_at peer k))));
      [eapply (receive_items_moved _ _ (sg_nonce (seg_at peer k)) (sg_items (seg_at peer k)));
        [exact Ht|apply pr_at_new|apply seg_at_from|exact H1]|].
    intros y v Hy. by eapply IH.
Qed.

(** ** Segments *)

(** The flow after the receiver of segments has handed over some more. *)
Definition hands_over (u : flow) (r : ReorderBuffer.t * list Z) : flow :=
  mkFlow (fl_segments u) (fl_ops u) (fl_fragments u) r.1 (fl_got u ++ r.2) (fl_arrivals u).

Definition fragments_at (ks : list Z) : list (Z * FragmentRc) := ks ≫= fun k => unreliable (sg_items (seg_at peer k)).

Lemma increasing_le l : forall lo hi, increasing lo hi l -> lo <= hi.
Proof. induction l as [|k l IH]; intros lo hi; cbn; [done|]. intros [Hk Hi]. apply IH in Hi. lia. Qed.

(** What holds of the positions handed over and of those now held. *)
Lemma hands_over_ok u r : flow_ok peer [] u -> increasing (ReorderBuffer.base (fl_reorder u))
  (ReorderBuffer.base r.1) r.2 ->
  (forall k, In k r.2 \/ In k (ReorderBuffer.buf r.1) -> 0 <= k < zlen peer) -> ReorderBuffer.base r.1 <= zlen peer ->
  flow_ok peer (fragments_at r.2) (hands_over u r).
Proof.
  intros [Hf Hg Hh Hb Ha] Hi Hk Hb'. split; cbn [hands_over fl_segments fl_fragments fl_reorder fl_got fl_arrivals];
    try done.
  - by eapply increasing_app.
  - intros k Hin. apply Hk. right. by apply list_elem_of_In.
  - rewrite app_nil_r in Ha. by rewrite bind_app, Ha.
Qed.

Lemma base_nonneg pending u : flow_ok peer pending u -> 0 <= ReorderBuffer.base (fl_reorder u).
Proof. intros [_ Hg _ _ _]. by apply increasing_le in Hg. Qed.

(** A position below which the base stays. *)
Lemma arrive_base s k n : buffer_ok SEGMENT_WINDOW_SIZE s -> ReorderBuffer.base s <= n -> k < n ->
  (forall j, In j (ReorderBuffer.buf s) -> j < n) -> ReorderBuffer.base (ReorderBuffer.arrive SEGMENT_WINDOW_SIZE s
    k).1 <= n.
Proof.
  destruct s as [b l]. unfold buffer_ok, ReorderBuffer.arrive. cbn [ReorderBuffer.base ReorderBuffer.buf].
  intros Ho Hb Hk Hl.
  destruct (_ && _) eqn:E; [|done]. reflect_bool.
  match goal with Hx : existsb _ _ = false |- _ => apply existsb_false in Hx as Hnew end.
  assert (Hlo : in_order b (b + SEGMENT_WINDOW_SIZE) l) by (destruct l; [done|]; cbn in Ho |- *; split;
    [lia|apply Ho]).
  destruct (insert_sorted_spec k l b (b + SEGMENT_WINDOW_SIZE) Hlo ltac:(lia) Hnew) as [Hi Hin].
  destruct (ReorderBuffer.insert_sorted k l) as [|m r]; [done|]. destruct Hi as [Hm Hr].
  assert (Hall : forall j, In j (m :: r) -> j < n) by (intros j Hj; apply Hin in Hj as [->|?]; [done|by apply Hl]).
  case_bool; [|done]. assert (Hmn : m < n) by (apply Hall; by left).
  assert (Hd : forall r b' hi, in_order b' hi r -> b' <= n -> (forall j, In j r -> j < n) ->
    ReorderBuffer.base (ReorderBuffer.drain b' r).1 <= n).
  { clear. induction r as [|j r IH]; intros b' hi; cbn [ReorderBuffer.drain in_order]; [done|]. intros [Hj Ho] Hb Hl.
    destruct (j =? b'); [|done]. specialize (IH (b' + 1) hi). destruct (ReorderBuffer.drain (b' + 1) r) as [s o].
    cbn in *.
    apply IH; [|specialize (Hl j (or_introl eq_refl)); lia|intros i Hi; apply Hl; by right].
    destruct r; [done|]. cbn in *. split; [lia|apply Ho]. }
  specialize (Hd r (m + 1) _ Hr ltac:(lia) (fun j Hj => Hall j (or_intror Hj))).
  by destruct (ReorderBuffer.drain (m + 1) r).
Qed.

Lemma segment_received c u k s c' out n : rx_follows peer c u -> flow_ok peer [] u -> peer !! k = Some s ->
  SegmentRx.receive c (wrap32 (Z.of_nat k)) (sg_nonce s) (segment_bytes s) = Ok (c', out, n) ->
  exists r : ReorderBuffer.t * list Z, out = (fun k => segment_bytes (seg_at peer k)) <$> r.2 /\
    rx_follows peer c' (hands_over u r) /\
    flow_ok peer (fragments_at r.2) (hands_over u r).
Proof.
  intros Hr Hf Hs. pose proof (lookup_lt_Some _ _ _ Hs) as Hk. unfold recognised in Hids.
  pose proof (base_nonneg _ _ Hf) as Hb0. pose proof (fo_base _ _ _ Hf) as Hb. unfold zlen in Hb, Hids.
  assert (Hseg : forall k, zlen (segment_bytes (seg_at peer k)) <= FRAME_SIZE_MAX) by (intros j; apply seg_at_from).
  destruct (receive_refines 0 SEGMENT_WINDOW_SIZE FRAME_SIZE_MAX ltac:(by vm_compute)
    (fun k => segment_bytes (seg_at peer k))
    (fun k => sg_nonce (seg_at peer k)) Hseg c (fl_reorder u) (fl_got u) (Z.of_nat k) Hr) as (c1 & Hrec & Hr1);
      [unfold SEGMENT_WINDOW_SIZE, two32 in *; lia|].
  cbv beta in Hrec. unfold rid in Hrec. rewrite (seg_at_lookup _ _ _ Hs), Z.add_0_l in Hrec. rewrite Hrec.
  intros [= <- <- <-].
  pose proof (rr_order _ _ _ _ _ _ _ _ Hr) as Ho.
  destruct (arrive_spec SEGMENT_WINDOW_SIZE (fl_reorder u) (Z.of_nat k) ltac:(by vm_compute) Ho) as (_ & Hi & Hin).
  exists (ReorderBuffer.arrive SEGMENT_WINDOW_SIZE (fl_reorder u) (Z.of_nat k)). split; [done|]. split; [done|].
  assert (Hheld : forall j, In j (ReorderBuffer.buf (fl_reorder u)) -> 0 <= j < zlen peer).
  { intros j Hj. apply (fo_held _ _ _ Hf). by apply list_elem_of_In. }
  apply hands_over_ok; try done.
  - intros j Hj. apply Hin in Hj as [->|Hj]; [unfold zlen; lia|by apply Hheld].
  - apply arrive_base; [done|unfold zlen; lia|unfold zlen; lia|]. intros j Hj. by apply Hheld.
Qed.

Lemma segment_synced c u n c' out : rx_follows peer c u -> flow_ok peer [] u -> (n <= length peer)%nat ->
  SegmentRx.sync c (wrap32 (Z.of_nat n)) = Ok (c', out) ->
  exists r : ReorderBuffer.t * list Z, out = (fun k => segment_bytes (seg_at peer k)) <$> r.2 /\
    rx_follows peer c' (hands_over u r) /\
    flow_ok peer (fragments_at r.2) (hands_over u r).
Proof.
  intros Hr Hf Hn. unfold recognised in Hids.
  pose proof (base_nonneg _ _ Hf) as Hb0. pose proof (fo_base _ _ _ Hf) as Hb. unfold zlen in Hb, Hids.
  destruct (sync_refines 0 SEGMENT_WINDOW_SIZE FRAME_SIZE_MAX ltac:(by vm_compute)
    (fun k => segment_bytes (seg_at peer k))
    (fun k => sg_nonce (seg_at peer k)) (fun j => proj2 (seg_at_from j)) c (fl_reorder u) (fl_got u) (Z.of_nat n)
      Hr) as (c1 & Hsy & Hr1); [unfold SEGMENT_WINDOW_SIZE in *; lia|].
  change (rid 0 (Z.of_nat n)) with (wrap32 (Z.of_nat n)) in Hsy. rewrite Hsy. intros [= <- <-].
  pose proof (rr_order _ _ _ _ _ _ _ _ Hr) as Ho.
  set (floor := rid 0 (ReorderBuffer.base (fl_reorder u))) in *.
  destruct (sync_spec SEGMENT_WINDOW_SIZE (fl_reorder u) (Z.of_nat n) floor) as (_ & Hi & Hin);
    [apply wrap32_range|done|].
  exists (ReorderBuffer.sync SEGMENT_WINDOW_SIZE floor (fl_reorder u) (Z.of_nat n)). split; [done|]. split; [done|].
  apply hands_over_ok; try done.
  - intros j Hj. apply (fo_held _ _ _ Hf). apply list_elem_of_In. by apply Hin.
  - unfold ReorderBuffer.sync. case_bool; cbn [fst ReorderBuffer.base]; unfold zlen; lia.
Qed.

Lemma hands_over_tracks srx r e h x u : tracks peer [] e h x u -> rx_follows peer srx (hands_over u r) ->
  flow_ok peer (fragments_at r.2) (hands_over u r) -> tracks peer (fragments_at r.2) (set_segment_rx srx e)
    h x (hands_over u r).
Proof. intros [] Hr Hf. by split. Qed.

(** The segments handed over are looked at. *)
Lemma handed_over_moved srx r e h x u a k e' h' a' k' : tracks peer [] e h x u ->
  rx_follows peer srx (hands_over u r) ->
  flow_ok peer (fragments_at r.2) (hands_over u r) ->
  receive_segments (set_segment_rx srx e) ((fun k => segment_bytes (seg_at peer k)) <$> r.2) h a k = Ok (e', h', a',
    k') ->
  moved x u e' h'.
Proof.
  intros Ht Hr Hf Hrs. eapply (moved_trans (fragments_at r.2)).
  - exists x, (hands_over u r). split; [apply rtc_refl|]. split; [done|]. split; [done|]. by apply hands_over_tracks.
  - intros y v Hy. by eapply receive_segments_moved.
Qed.

Lemma handle_segment_moved e h x u k s e' h' a r : tracks peer [] e h x u -> peer !! k = Some s ->
  handle_segment e (segment_header k s) (segment_bytes s) h = Ok (e', h', a, r) -> moved x u e' h'.
Proof.
  intros Ht Hs. unfold handle_segment. cbn [segment_header ssh_id ssh_nonce]. intros Hr.
  apply outcome_bind_Ok in Hr as ([[srx out] n] & Hrc & Hr).
  destruct (segment_received _ u k s _ _ _ (tk_srx _ _ _ _ _ _ Ht) (tk_flow _ _ _ _ _ _ Ht) Hs Hrc) as (g & ->
    & Hg & Hfg).
  by eapply handed_over_moved.
Qed.

(** ** Acknowledgements *)

Lemma update_rtt_same e id now e' : update_rtt e id now = Ok e' -> same_stream e e'.
Proof.
  unfold update_rtt. destruct (rtt_timer_state e); [|by intros [= <-]].
  case_bool; [|by case_bool; intros [= <-]]. intros Hr. by inv_ok.
Qed.

Lemma update_rto_same e id now h e' h' : update_rto_timer e id now h = Ok (e', h') ->
  same_stream e e' /\ same_traffic h h'.
Proof.
  unfold update_rto_timer. destruct (rto_timer_state e); [|by intros [= <- <-]].
  case_bool; intros Hr; inv_ok; split; try done; by apply record_traffic.
Qed.

Lemma acknowledge_next s id hist cs s' d : SegmentTx.acknowledge s id hist cs = Ok (s', d) ->
  SegmentTx.next_id s' = SegmentTx.next_id s.
Proof.
  unfold SegmentTx.acknowledge. case_bool; [|by intros [= <- _]]. intros Hr.
  apply outcome_bind_Ok in Hr as (s1 & H1 & Hr). apply outcome_bind_Ok in Hr as ([hist' dr] & _ & [= <- _]).
  cbn [SegmentTx.next_id]. revert H1. case_bool; [|by intros [= <-]]. intros H1. by inv_ok.
Qed.

Lemma handle_ack_moved e a now h x u e' h' : tracks peer [] e h x u -> ack_from acks a ->
  handle_ack e a now h = Ok (e', h') -> moved x u e' h'.
Proof.
  intros Ht Ha. unfold handle_ack. intros Hr.
  apply outcome_bind_Ok in Hr as (cc & _ & Hr). apply outcome_bind_Ok in Hr as ([stx dr] & Hstx & Hr).
  apply outcome_bind_Ok in Hr as (e3 & H3 & Hr). apply outcome_bind_Ok in Hr as (ft & Hft & Hr).
  apply outcome_bind_Ok in Hr as (e5 & H5 & Hr). apply update_rtt_same in H5. apply update_rto_same in Hr as [H6 Htr].
  apply acknowledge_next in Hstx. cbn [segment_tx set_cc_state] in Hstx.
  assert (H03 : same_stream e e3).
  { destruct dr; [|by injection H3 as <-]. apply outcome_bind_Ok in H3 as (cc' & _ & [= <-]). done. }
  assert (Hm : moved x u (set_fragment_tx ft e3) h).
  { pose proof (tracks_same _ _ e h x u e3 h Ht H03 (conj eq_refl (conj eq_refl eq_refl))) as Ht3.
    unfold ack_from in Ha.
    destruct (sa_rel_fragment_id a) as [id|]; cbn [ftx_acknowledge] in Hft.
    - apply outcome_bind_Ok in Hft as ([tx' b] & Hack & [= <-]). pose proof Ht3 as [Htx ? ? ? ? ? ? ? ? ? ?].
      eapply (moved_step _ _ (mkHalf tx' (hf_rx x) (hf_sent x) (hf_acks x) (hf_pushed x) (hf_delivered x)));
        [|done|by split].
      rewrite Htx in Hack. destruct x. by eapply hs_ack.
    - injection Hft as <-. apply moved_refl. by destruct Ht3. }
  eapply moved_same; [exact Hm| |exact Htr]. by eapply same_stream_trans.
Qed.
End Moves.
