(* ===== verification/StreamSend.v ===== *)
(** * What an endpoint sends

    A frame under way takes fragments from the two send buffers; when it is finished, the
    flow has one more segment and the half has sent what is in it. *)

From S2P Require Import Prelude Word Fragment Reliable ReliableFacts Unreliable UnreliableChannel.
From S2P Require Import Frame Serial SerialFacts FrameFacts.
From S2P Require Import SegmentTx SegmentTxFacts SegmentRx SegmentRxFacts SegmentChannel.
From S2P Require Import CongestionControl Prio.
From S2P Require Import Endpoint FragmentTxFacts EndpointFacts EndpointSafety EndpointMachine.
From S2P Require Import EndpointSession.
From S2P Require Import StreamHalf StreamReceive.

Import Endpoint.

Section Sending.
Context `{BuildProfile} (sent : list (Z * FragmentRc)) (acks : list Z) (peer : list segment).

(** ** Filling a segment *)

(** Fragments leave the reliable buffer and nothing else happens to the half. *)
Record sends (x y : half) : Prop := {
  sd_steps : rtc (half_step sent acks) x y;
  sd_rx : hf_rx y = hf_rx x;
  sd_acks : hf_acks y = hf_acks x;
  sd_pushed : hf_pushed y = hf_pushed x;
  sd_delivered : hf_delivered y = hf_delivered x;
}.

Lemma sends_refl x : sends x x.
Proof. split; [apply rtc_refl|done..]. Qed.

Lemma sends_trans x y z : sends x y -> sends y z -> sends x z.
Proof. intros [] []. split; [by etrans|congruence..]. Qed.

(** What the buffers of fragments and a half agree on: [ops] were called and [out] given up. *)
Definition queued_as (ft : FragmentTxBuffers) (x : half) (ops : list utx_op) (out : list (Z * FragmentRc)) : Prop :=
  rel ft = hf_tx x /\ utx_run first_utx ops = Ok (unrel ft, out).

Lemma expired_as ft x ops out now : queued_as ft x ops out -> queued_as (ftx_pop_expired ft now)
  x (ops ++ [UExpire now]) out.
Proof.
  intros [Hr Hu]. split; [done|]. rewrite <- (app_nil_r out). by eapply utx_run_app.
Qed.

Lemma write_result {A} `{SerialOk A} wr bs tail (a : A) wr' b : fw_at wr bs tail -> serial_valid a ->
  FRAME_CRC_SIZE <= zlen tail -> frame_writer_write wr a = Ok (wr', b) ->
  if b then exists tail', fw_at wr' (bs ++ serial_encode a) tail' /\ FRAME_CRC_SIZE <= zlen tail' /\
    zlen (serial_encode a) + zlen tail' = zlen tail
  else wr' = wr.
Proof.
  intros Hat Hv Hl Hw. destruct (Z_le_gt_dec (zlen (serial_encode a) + FRAME_CRC_SIZE) (zlen tail)) as [Hfit|Hfull].
  - destruct (frame_writer_write_fits wr bs tail a Hat Hv Hfit) as (wr1 & Hw1 & Hat1).
    rewrite Hw in Hw1. injection Hw1 as -> ->. exists (drop (length (serial_encode a)) tail). split; [done|].
    unfold zlen, FRAME_CRC_SIZE in *. rewrite length_drop. lia.
  - rewrite (frame_writer_write_full wr bs tail a Hat Hl) in Hw by lia. by injection Hw as <- <-.
Qed.

(** The datagram of a popped fragment. *)
Lemma datagram_of_item ch id f d : fragment_ok f -> datagram_of ch id f = Ok d ->
  d = item_datagram (mkItem (ch =? 0) id f).
Proof.
  intros [Hr He _ _ _] Hd. unfold datagram_of in Hd. rewrite index_range_ok in Hd by lia. by injection Hd as <-.
Qed.

(** The chosen fragment leaves its buffer. *)
Lemma popped_sends ft p x ops out ch ft' id f : (ch = 0 \/ ch = 1) -> queued_as ft x ops out ->
  (ch = 0 -> exists t', UnreliableTxBuffer.pop_sendable (unrel ft) = (t', Some (id, f))) ->
  (ch = 1 -> exists t', ReliableTxBuffer.pop_sendable (rel ft) = (t', Some (id, f))) ->
  ftx_pop (mkFragmentTxBuffers (unrel ft) (rel ft) p) ch = Ok ft' ->
  let i := mkItem (ch =? 0) id f in
  exists y ops', sends x y /\ queued_as ft' y ops' (out ++ unreliable [i]) /\ utx_pushed ops' = utx_pushed ops /\
    (it_unrel i = false -> (id, f) ∈ hf_sent y).
Proof.
  intros [-> | ->] [Htx Hut] H0 H1 Hp; unfold ftx_pop in Hp; cbn [Z.eqb Pos.eqb rel unrel] in Hp.
  - destruct H0 as [t' Ht']; [done|]. rewrite Ht' in Hp. injection Hp as <-.
    exists x, (ops ++ [USend]). split; [apply sends_refl|]. split; [split; [done|]|].
    + eapply utx_run_app; [exact Hut|]. cbn [utx_run]. by rewrite Ht'.
    + split; [|done]. rewrite utx_pushed_app. by apply app_nil_r.
  - destruct H1 as [t' Ht']; [done|]. rewrite Ht' in Hp. injection Hp as <-. rewrite Htx in Ht'.
    exists (mkHalf t' (hf_rx x) ((id, f) :: hf_sent x) (hf_acks x) (hf_pushed x) (hf_delivered x)), ops.
    split; [split; try done; destruct x; by apply rtc_once, hs_send|].
    split; [split; [done|]; cbn; by rewrite app_nil_r|]. split; [done|]. intros _. by left.
Qed.

Lemma ftx_step_sends ft wr now ft' wr' o x ops out bs tail : ftx_inv ft -> queued_as ft x ops out ->
  fw_at wr bs tail ->
  FRAME_CRC_SIZE <= zlen tail -> ftx_flush_step ft wr now = Ok (ft', wr', o) ->
  exists ops', utx_pushed ops' = utx_pushed ops /\
  match o with
  | None => queued_as ft' x ops' out /\ wr' = wr
  | Some _ => exists i y tail', sends x y /\ queued_as ft' y ops' (out ++ unreliable [i]) /\ item_ok (hf_sent y) i /\
      fw_at wr' (bs ++ datagram_encode (item_datagram i)) tail' /\ FRAME_CRC_SIZE <= zlen tail' /\
      zlen (datagram_encode (item_datagram i)) + zlen tail' = zlen tail
  end.
Proof.
  intros Hft Hq Hat Hl. unfold ftx_flush_step. apply (expired_as _ _ _ _ now) in Hq.
  assert (Hex : utx_pushed (ops ++ [UExpire now]) = utx_pushed ops) by (rewrite utx_pushed_app; apply app_nil_r).
  pose proof (ftx_expire ft now Hft) as [Hun Hrel _]. set (fe := ftx_pop_expired ft now) in *. clearbody fe.
  set (ops1 := ops ++ [UExpire now]) in *. clearbody ops1.
  destruct (Prio.next _ _ _ _ _) as [ch|]; [|intros [= <- <- <-]; by exists ops1].
  intros Hr. apply outcome_bind_Ok in Hr as (nx & Hnx & Hr). destruct nx as [[id f]|]; [|done].
  assert (Hch : (ch = 0 \/ ch = 1) /\ is_u32 id /\ fragment_ok f /\
    (ch = 0 -> exists t', UnreliableTxBuffer.pop_sendable (unrel fe) = (t', Some (id, f))) /\
    (ch = 1 -> exists t', ReliableTxBuffer.pop_sendable (rel fe) = (t', Some (id, f)))).
  { revert Hnx. case_bool; [|case_bool; [|done]]; intros [= Hpk].
    - pose proof (unrel_pop _ Hun) as Hpop. rewrite Hpk in Hpop. destruct Hpop as (? & ? & t' & ? & _).
      split_and!; [by left|done|done|by exists t'|intros; lia].
    - pose proof (rel_pop _ Hrel) as Hpop. rewrite Hpk in Hpop. destruct Hpop as (? & ? & t' & ? & _).
      split_and!; [by right|done|done|intros; lia|by exists t']. }
  destruct Hch as (Hch & Hid & Hf & H0 & H1). destruct (datagram_of_ok ch id f Hf Hid) as (d & Hd & Hv & _).
  rewrite Hd in Hr. cbn [mbind outcome_bind] in Hr. apply (datagram_of_item _ _ _ _ Hf) in Hd. subst d.
  apply outcome_bind_Ok in Hr as ([wr1 b] & Hw & Hr).
  pose proof (write_result (A := Datagram) (H1 := datagram_ok) wr bs tail _ wr1 b Hat Hv Hl Hw) as Hb.
  destruct b; [|injection Hr as <- <- <-; subst; by exists ops1].
  apply outcome_bind_Ok in Hr as (pr & _ & Hr). apply outcome_bind_Ok in Hr as (ft1 & Hp & [= <- <- <-]).
  destruct (popped_sends fe pr x ops1 out ch ft1 id f Hch Hq H0 H1 Hp) as (y & ops2 & Hs & Hq2 & Hp2 & Hin).
  destruct Hb as (tail' & Hat' & Hl' & Hz'). exists ops2. split; [congruence|].
  exists (mkItem (ch =? 0) id f), y, tail'. done.
Qed.

Lemma ftx_loop_sends fuel : forall ft wr now tot ft' wr' tot' x ops out bs tail, ftx_inv ft ->
  queued_as ft x ops out ->
  fw_at wr bs tail -> FRAME_CRC_SIZE <= zlen tail -> ftx_flush_loop fuel ft wr now tot = Ok (ft', wr', tot') ->
  exists its y ops' tail', sends x y /\ queued_as ft' y ops' (out ++ unreliable its) /\
    utx_pushed ops' = utx_pushed ops /\
    Forall (item_ok (hf_sent y)) its /\ fw_at wr' (bs ++ encode_all (item_datagram <$> its)) tail' /\
    FRAME_CRC_SIZE <= zlen tail' /\ zlen (encode_all (item_datagram <$> its)) + zlen tail' = zlen tail.
Proof.
  induction fuel as [|fuel IH]; intros ft wr now tot ft' wr' tot' x ops out bs tail Hft Hq Hat Hl;
    cbn [ftx_flush_loop]; [done|].
  intros Hr. apply outcome_bind_Ok in Hr as ([[ft1 wr1] o] & Hs & Hr).
  destruct (ftx_step_sends ft wr now ft1 wr1 o x ops out bs tail Hft Hq Hat Hl Hs) as (ops1 & Hp1 & Ho).
  destruct (ftx_flush_step_ok ft wr now bs tail Hft Hat Hl) as (ft2 & wr2 & o2 & Hs2 & Hft1 & _).
  rewrite Hs in Hs2. injection Hs2 as <- <- <-. destruct o as [n|].
  - apply outcome_bind_Ok in Hr as (tot1 & _ & Hr). destruct Ho as (i & y & tail1 & Hxy & Hq1 & Hi & Hat1 & Hl1 &
      Hz1).
    destruct (IH _ _ _ _ _ _ _ y _ _ _ _ Hft1 Hq1 Hat1 Hl1 Hr)
      as (its & z & ops2 & tail2 & Hyz & Hq2 & Hp2 & Hits & Hat2 & Hl2 & Hz2).
    exists (i :: its), z, ops2, tail2. split; [by eapply sends_trans|]. split; [|split; [congruence|split; [|split]]].
    + rewrite <- app_assoc, <- unreliable_app in Hq2. done.
    + constructor; [|done]. eapply item_ok_mono; [|exact Hi]. apply (half_steps_mono sent acks), Hyz.
    + by rewrite <- app_assoc in Hat2.
    + split; [done|]. change (encode_all (item_datagram <$> i :: its))
        with (datagram_encode (item_datagram i) ++ encode_all (item_datagram <$> its)). rewrite zlen_app. lia.
  - injection Hr as <- <- _. destruct Ho as [Hq1 ->]. exists [], x, ops1, tail.
    change (encode_all (item_datagram <$> [])) with (@nil Z). change (unreliable []) with (@nil (Z * FragmentRc)).
    rewrite !app_nil_r. split; [apply sends_refl|]. split; [done|]. split; [done|]. split; [apply Forall_nil_2|done].
Qed.

(** ** Frames *)

(** The acknowledgement goes out. *)
Lemma emit_moved e h x u (a r : bool) : tracks peer [] e h x u ->
  exists y, rtc (half_step sent acks) x y /\ hf_pushed y = hf_pushed x /\ tracks peer [] e h y u /\
    (a = true -> ack_from (hf_acks y) (outgoing_ack e r)).
Proof.
  intros Ht. destruct (a && r) eqn:E.
  - apply andb_true_iff in E as [-> ->].
    exists (mkHalf (hf_tx x) (hf_rx x) (hf_sent x) (ReliableRxBuffer.next_expected_id (hf_rx x) :: hf_acks x)
      (hf_pushed x) (hf_delivered x)).
    split; [destruct x; apply rtc_once; apply hs_emit|]. split; [done|].
    destruct Ht as [Htx Hrx Hut Hn Hs Hur Hfl Hsg Hf Hp Hd]. split.
    + split; try done. eapply Forall_impl; [exact Hf|]. intros f. apply frame_from_mono; [done|]. cbn. set_solver.
    + intros _. unfold ack_from. cbn [outgoing_ack sa_rel_fragment_id]. rewrite Hrx. by left.
  - exists x. split; [apply rtc_refl|]. split; [done|]. split; [done|]. intros ->. cbn in E. by subst r.
Qed.

(** The flow with one more segment. *)
Definition sends_segment (u : flow) (s : segment) (ops : list utx_op) : flow :=
  mkFlow (fl_segments u ++ [s]) ops (fl_fragments u ++ unreliable (sg_items s)) (fl_reorder u) (fl_got u)
    (fl_arrivals u).

(** A segment has been filled: the flow grows by it. *)
Lemma tracks_segment e h x u y s ops e' h' : tracks peer [] e h x u -> sends x y ->
  segment_from (hf_sent y) s -> queued_as (fragment_tx e') y ops (fl_fragments u ++ unreliable (sg_items s)) ->
  reliable_rx e' = reliable_rx e -> segment_rx e' = segment_rx e -> unreliable_rx e' = unreliable_rx e ->
  SegmentTx.next_id (segment_tx e') = wrapping_add (SegmentTx.next_id (segment_tx e)) 1 ->
  frames (h_log h') = frames (h_log h) -> packets (h_log h') = packets (h_log h) -> h_draws h' = S (h_draws h) ->
  tracks peer [] e' h' y (sends_segment u s ops).
Proof.
  intros [Htx Hrx Hut Hn Hs Hur Hfl Hsg Hf Hp Hd] [Hst Hr Ha Hpu Hde] Hso [Hq1 Hq2] E1 E2 E3 E4 E5 E6 E7.
  destruct (half_steps_mono _ _ _ _ Hst) as [Hms Hma].
  split; cbn [sends_segment fl_segments fl_ops fl_fragments fl_reorder fl_got fl_arrivals]; try done; try congruence.
  - rewrite E4, Hn, zlen_app. exact (wrapping_add_pos 0 (zlen (fl_segments u)) 1).
  - by rewrite E2.
  - destruct Hfl as [Ho ? ? ? ?]. split; try done. cbn. by rewrite unreliable_in_snoc, Ho.
  - apply Forall_app. split; [|by apply Forall_singleton]. eapply Forall_impl; [exact Hsg|]. intros q.
    by apply segment_from_mono.
  - rewrite E5. eapply Forall_impl; [exact Hf|]. intros f. apply frame_from_mono;
      [by apply prefix_app_r|by rewrite Ha].
  - by rewrite E6, Hde.
  - rewrite E7, Hd, length_app. cbn. lia.
Qed.

Lemma nonce_next s b s' : SegmentTx.compute_next_nonce s b = Ok s' -> SegmentTx.next_id s' = SegmentTx.next_id s.
Proof. unfold SegmentTx.compute_next_nonce. intros Hr. by inv_ok. Qed.

Lemma mark_next s n s' : SegmentTx.mark_sent s n = Ok s' -> SegmentTx.next_id s' = wrapping_add (SegmentTx.next_id s)
  1.
Proof. unfold SegmentTx.mark_sent. intros Hr. by inv_ok. Qed.

(** The timers a segment starts leave the streams alone. *)
Lemma segment_timers e h id now e' h' :
  ('(self, ctx) ←
     (match rto_timer_state e with
      | None => t ← add64 now (rto_ms e); Ok (set_rto_timer_state (Some (mkRtoTimerState (rto_ms e) 0)) e,
        set_rto_timer t h)
      | Some _ => Ok (e, h)
      end);
   self ←
     (match rtt_timer_state self with
      | None => t ← add64 now (rto_ms self); Ok (set_rtt_timer_state (Some (mkRttTimerState id now t)) self)
      | Some _ => Ok self
      end);
   Ok (self, ctx)) = Ok (e', h') -> same_stream e e' /\ same_traffic h h'.
Proof.
  intros Hr. apply outcome_bind_Ok in Hr as ([e1 h1] & H1 & Hr). apply outcome_bind_Ok in Hr as (e2 & H2 & [= <- <-]).
  assert (Hs1 : same_stream e e1 /\ same_traffic h h1).
  { destruct (rto_timer_state e); [by injection H1 as <- <-|]. apply outcome_bind_Ok in H1 as (t & _ & [= <- <-]).
    split; [done|]. by apply record_traffic. }
  destruct Hs1 as [Hs1 Ht1]. split; [|done]. eapply same_stream_trans; [exact Hs1|].
  destruct (rtt_timer_state e1); [by injection H2 as <-|]. by apply outcome_bind_Ok in H2 as (t & _ & [= <-]).
Qed.

Lemma write_segment_sends now e h x u wr bs tail e' wr' h' : ep_inv now e -> tracks peer [] e h x u ->
  fw_at wr bs tail ->
  STREAM_SEGMENT_HEADER_SIZE + FRAME_CRC_SIZE <= zlen tail <= FRAME_SIZE_MAX ->
  write_segment e wr now h = Ok (e', wr', h') ->
  exists s y ops tail', sends x y /\ utx_pushed ops = utx_pushed (fl_ops u) /\ segment_from (hf_sent y) s /\
    tracks peer [] e' h' y (sends_segment u s ops) /\
    fw_at wr' (bs ++ block_encode (segment_header (length (fl_segments u)) s) ++ segment_bytes s) tail' /\
      FRAME_CRC_SIZE <= zlen tail'.
Proof.
  intros Hi Ht Hat Hl. unfold write_segment. destruct (rand_random h) as [nonce h1] eqn:Er.
  rewrite (tk_next _ _ _ _ _ _ Ht).
  set (hd := mkStreamSegmentHeader (wrap32 (zlen (fl_segments u))) nonce). intros Hr.
  assert (Hv : block_valid hd) by apply wrap32_range.
  apply outcome_bind_Ok in Hr as (s1 & Hs1 & Hr). apply nonce_next in Hs1.
  destruct (write_block (A := StreamSegmentHeader) wr bs tail hd Hat Hv (proj1 Hl)) as (wr1 & Hw & Hat1 & Hz1).
  rewrite Hw in Hr. cbn [mbind outcome_bind] in Hr. set (tail1 := drop _ tail) in *.
  change (block_size StreamSegmentHeader) with STREAM_SEGMENT_HEADER_SIZE in Hz1.
  apply outcome_bind_Ok in Hr as ([[ft wr2] n] & Hf & Hr). unfold ftx_flush in Hf.
  apply outcome_bind_Ok in Hr as ([] & _ & Hr). apply outcome_bind_Ok in Hr as (s2 & Hs2 & Hr).
  apply mark_next in Hs2.
  destruct (ftx_loop_sends _ _ _ _ _ _ _ _ x (fl_ops u) (fl_fragments u) _ _ (ei_fragment_tx _ _ Hi)
    (conj (tk_tx _ _ _ _ _ _ Ht) (tk_utx _ _ _ _ _ _ Ht)) Hat1 ltac:(lia) Hf)
    as (its & y & ops & tail2 & Hsd & Hq & Hpu & Hits & Hat2 & Hl2 & Hz2).
  assert (wr' = wr2) as -> by (apply outcome_bind_Ok in Hr as ([e3 h3] & _ & Hr);
    by apply outcome_bind_Ok in Hr as (e4 & _ & [= _ <- _])).
  set (s := mkSegment nonce its). exists s, y, ops, tail2.
  assert (Hso : segment_from (hf_sent y) s).
  { split; [done|]. change (segment_bytes s) with (encode_all (item_datagram <$> its)).
    pose proof (zlen_nonneg tail2). frame_sizes. }
  split; [done|]. split; [done|]. split; [done|]. split; [|split; [rewrite app_assoc; exact Hat2|done]].
  set (e2 := set_segment_tx s2 _) in Hr.
  destruct (segment_timers e2 h1 (wrap32 (zlen (fl_segments u))) now e' h') as [(E1 & E2 & E3 & E4 & E5)
    (E6 & E7 & E8)].
  { apply outcome_bind_Ok in Hr as ([e3 h3] & H3 & Hr). rewrite H3. cbn [mbind outcome_bind].
    apply outcome_bind_Ok in Hr as (e4 & H4 & [= <- <-]). by rewrite H4. }
  injection Er as <- <-. cbn [h_log h_draws] in E6, E7, E8.
  rewrite frames_app in E6. rewrite packets_app in E7. change (frames [EvRandom]) with (@nil (list Z)) in E6.
  change (packets [EvRandom]) with (@nil (list Z)) in E7. rewrite app_nil_r in E6, E7.
  apply (tracks_segment e h x u y s ops); try done; [by rewrite E1|]. rewrite E5. subst e2.
  cbn [segment_tx set_segment_tx].
  by rewrite Hs2, Hs1.
Qed.

(** A finished frame is sent. *)
Lemma send_frame_tracks e h x u buf t p : tracks peer [] e h x u -> Forall is_u8 p ->
  content_from (fl_segments u) (hf_acks x) t p ->
  tracks peer [] (set_tx_buffer buf e) (send_frame (seal (frame_type_bits t :: p)) h) x u.
Proof.
  intros [] Hu Hc. split; try done; cbn [send_frame host_context record h_log h_draws].
  - rewrite frames_app. apply Forall_app. split; [done|]. apply Forall_singleton. by exists t, p.
  - by rewrite packets_app, app_nil_r.
Qed.

Lemma expired_tracks now e h x u : tracks peer [] e h x u ->
  exists v, grows u v /\ tracks peer [] (set_fragment_tx (ftx_pop_expired (fragment_tx e) now) e) h x v.
Proof.
  intros Ht. destruct (expired_as (fragment_tx e) x (fl_ops u) (fl_fragments u) now) as [Hr Hu];
    [split; [apply (tk_tx _ _ _ _ _ _ Ht)|apply (tk_utx _ _ _ _ _ _ Ht)]|].
  destruct Ht as [Htx Hrx Hut Hn Hs Hur [? ? ? ? ?] Hsg Hf Hp Hd].
  exists (mkFlow (fl_segments u) (fl_ops u ++ [UExpire now]) (fl_fragments u) (fl_reorder u) (fl_got u)
    (fl_arrivals u)).
  split; [split; [done|]; cbn [fl_ops]; rewrite utx_pushed_app; apply app_nil_r|]. by split.
Qed.

(** The contents of the frame of one turn of the flush loop. *)
Lemma frame_written now e h x u (a b r : bool) t wr pre tail e' wr' h' : ep_inv now e -> tracks peer [] e h x u ->
  (a = true -> ack_from (hf_acks x) (outgoing_ack e r)) -> a || b = true -> stream_frame_type a b = Ok t ->
  fw_at wr (frame_type_bits t :: pre) tail -> zlen (frame_type_bits t :: pre) + zlen tail = FRAME_SIZE_MAX ->
  zlen pre <= STREAM_ACK_SIZE -> Forall is_u8 pre ->
  (if a then block_valid (outgoing_ack e r) /\ pre = block_encode (outgoing_ack e r) else pre = []) ->
  (if b then write_segment e wr now h else Ok (e, wr, h)) = Ok (e', wr', h') ->
  exists y v p tail', rtc (half_step sent acks) x y /\ hf_pushed y = hf_pushed x /\ grows u v /\
    tracks peer [] e' h' y v /\
    content_from (fl_segments v) (hf_acks y) t p /\ Forall is_u8 p /\ fw_at wr' (frame_type_bits t :: p) tail' /\
      FRAME_CRC_SIZE <= zlen tail'.
Proof.
  intros Hi Ht Hack Hab Hty Hat Hz Hpre Hu Hpk Hseg. rewrite zlen_cons in Hz. pose proof (zlen_nonneg pre).
  destruct b.
  - destruct (write_segment_sends now e h x u wr _ tail e' wr' h' Hi Ht Hat ltac:(frame_sizes) Hseg)
      as (s & y & ops & tail' & [Hst _ Ha Hpu _] & Hops & Hs & Hy & Hat2 & Hl2).
    exists y, (sends_segment u s ops), (pre ++ block_encode (segment_header (length (fl_segments u)) s)
      ++ segment_bytes s), tail'.
    split; [done|]. split; [done|]. split; [split; [by apply prefix_app_r|done]|]. split; [done|].
    split; [|split; [|done]].
    + assert (Hlast : fl_segments (sends_segment u s ops) !! length (fl_segments u) = Some s)
        by by apply list_lookup_middle.
      destruct a; injection Hty as <-; [destruct Hpk as [Hva ->]|subst pre]; constructor; try done. rewrite Ha.
      by apply Hack.
    + apply Forall_app. split; [done|]. apply Forall_app. split; [apply block_encode_u8, wrap32_range|].
      apply encode_all_u8, Forall_fmap. eapply Forall_impl; [apply Hs|]. by intros i [Hv _].
  - injection Hseg as <- <- <-. destruct a; [|done]. destruct Hpk as [Hva ->]. injection Hty as <-.
    exists x, u, (block_encode (outgoing_ack e r)), tail. split; [apply rtc_refl|]. split; [done|]. split; [done|].
    split; [done|].
    split; [constructor; [done|by apply Hack]|]. split; [done|]. split; [done|]. frame_sizes.
Qed.

Lemma flush_step_moved now e h x u (a r : bool) e' h' more : ep_inv now e -> tracks peer [] e h x u ->
  flush_step a r e now h = Ok (e', h', more) -> moved sent acks peer x u e' h'.
Proof.
  intros Hi Ht. unfold flush_step. cbn [ftx_data_ready].
  destruct (expired_tracks now e h x u Ht) as (u1 & Hg1 & Ht1).
  pose proof (endpoint_expire_inv now e Hi) as Hi1. set (e1 := set_fragment_tx _ e) in *.
  assert (Hm1 : forall y v, rtc (half_step sent acks) x y -> hf_pushed y = hf_pushed x -> grows u1 v ->
    tracks peer [] e' h' y v -> moved sent acks peer x u e' h').
  { intros y v Hxy Hp Hg Hy. exists y, v. split; [done|]. split; [done|]. split; [by eapply grows_trans|done]. }
  match goal with |- (if a || ?b then _ else _) = _ -> _ => generalize b end.
  clearbody e1. intros b. destruct (a || b) eqn:Eab; [|intros [= <- <- _]; by apply (Hm1 x u1); [apply rtc_refl|..]].
  intros Hr. apply outcome_bind_Ok in Hr as (t & Hty & Hr).
  destruct (flush_prefix now e1 a r t Hi1) as (wr & pre & tail & Hw & Hat & Hz & Hpre & Hu & Hpk).
  rewrite <- outcome_bind_assoc in Hr. rewrite Hw in Hr. cbn [mbind outcome_bind] in Hr.
  destruct (emit_moved e1 h x u1 a r Ht1) as (y & Hxy & Hpu & Hty1 & Hack).
  apply outcome_bind_Ok in Hr as ([[e2 wr2] h2] & Hseg & Hr).
  apply outcome_bind_Ok in Hr as ([f buf] & Hfin & [= <- <- _]).
  destruct (frame_written now e1 h y u1 a b r t wr pre tail e2 wr2 h2 Hi1 Hty1 Hack Eab Hty Hat Hz Hpre Hu Hpk Hseg)
    as (z & v & p & tail' & Hyz & Hpu2 & Hg2 & Ht2 & Hc & Hup & Hat2 & Hl2).
  rewrite (finalize_at wr2 _ _ Hat2 Hl2) in Hfin. injection Hfin as <- <-.
  apply (Hm1 z v); [by etrans|congruence|done|by apply send_frame_tracks].
Qed.

Lemma flush_loop_moved now r fuel : forall e h x u (a : bool) e' h', ep_inv now e -> tracks peer [] e h x u ->
  flush_loop fuel a r e now h = Ok (e', h') -> moved sent acks peer x u e' h'.
Proof.
  induction fuel as [|fuel IH]; intros e h x u a e' h' Hi Ht; cbn [flush_loop]; [done|]. intros Hr.
  apply outcome_bind_Ok in Hr as ([[e1 h1] more] & Hs & Hr).
  pose proof (flush_step_moved now e h x u a r e1 h1 more Hi Ht Hs) as Hm.
  destruct (flush_step_ok now e a r h Hi) as (e1' & evs & more' & Hs' & Hi1 & _). rewrite Hs in Hs'.
  injection Hs' as <- -> <-.
  destruct more; [|by injection Hr as <- <-]. eapply moved_trans; [exact Hm|]. intros y v Hy. by eapply IH.
Qed.

Lemma flush_stream_moved now e h x u (a r : bool) e' h' : ep_inv now e -> tracks peer [] e h x u ->
  flush_stream e a r now h = Ok (e', h') -> moved sent acks peer x u e' h'.
Proof. apply flush_loop_moved. Qed.

(** ** Control frames *)

Lemma control_tracks {A} `{SimpleFrame A} `{BlockSerialOk A} (a : A) now e h x u f buf :
  ep_inv now e -> tracks peer [] e h x u -> block_valid a -> content_from (fl_segments u) (hf_acks x) (FRAME_TYPE A)
    (block_encode a) ->
  block_size A + FRAME_OVERHEAD_SIZE <= FRAME_SIZE_MAX -> FRAME_SIZE A <= FRAME_SIZE_MAX ->
  simple_frame_write a (tx_buffer e) = Ok (f, buf) -> tracks peer [] (set_tx_buffer buf e) (send_frame f h) x u.
Proof.
  intros Hi Ht Hv Hc Hsz Hfs Hw. pose proof (ei_tx_buffer _ _ Hi) as Hz.
  rewrite (simple_write_sealed a (tx_buffer e) Hv) in Hw by lia. injection Hw as <- <-.
  apply send_frame_tracks; [done|by apply block_encode_u8|done].
Qed.

Lemma close_tracks now e h x u e' h' : ep_inv now e -> tracks peer [] e h x u -> send_close_frame e h = Ok (e', h') ->
  tracks peer [] e' h' x u.
Proof.
  intros Hi Ht. unfold send_close_frame. intros Hr. apply outcome_bind_Ok in Hr as ([f buf] & Hw & [= <- <-]).
  assert (Hv : block_valid (mkCloseFrame (remote_nonce e))) by exact (ei_nonce _ _ Hi).
  apply (control_tracks (mkCloseFrame (remote_nonce e)) now e h x u f buf Hi Ht Hv);
    [by apply from_other|by vm_compute|by vm_compute|exact Hw].
Qed.

Lemma close_ack_tracks now e h x u e' h' : ep_inv now e -> tracks peer [] e h x u ->
  send_close_ack_frame e h = Ok (e', h') ->
  tracks peer [] e' h' x u.
Proof.
  intros Hi Ht. unfold send_close_ack_frame. intros Hr. apply outcome_bind_Ok in Hr as ([f buf] & Hw & [= <- <-]).
  assert (Hv : block_valid (mkCloseAckFrame (remote_nonce e))) by exact (ei_nonce _ _ Hi).
  apply (control_tracks (mkCloseAckFrame (remote_nonce e)) now e h x u f buf Hi Ht Hv);
    [by apply from_other|by vm_compute|by vm_compute|exact Hw].
Qed.

Lemma sync_tracks now e h x u e' h' : ep_inv now e -> tracks peer [] e h x u ->
  send_stream_sync_frame e (SegmentTx.next_id (segment_tx e)) h = Ok (e', h') -> tracks peer [] e' h' x u.
Proof.
  intros Hi Ht. unfold send_stream_sync_frame. rewrite (tk_next _ _ _ _ _ _ Ht). intros Hr.
  apply outcome_bind_Ok in Hr as ([f buf] & Hw & [= <- <-]).
  assert (Hv : block_valid (mkStreamSync (wrap32 (zlen (fl_segments u))))) by apply wrap32_range.
  apply (control_tracks (mkStreamSync (wrap32 (zlen (fl_segments u)))) now e h x u f buf Hi Ht Hv);
    [by apply (from_sync _ _ (length (fl_segments u)))|by vm_compute|by vm_compute|exact Hw].
Qed.
End Sending.
