(* ===== verification/StreamCalls.v ===== *)
(** * Every call of an endpoint, as moves of its half of the streams

    Frames of the peer, the application's calls and the timer: each amounts to moves of the
    half and growth of the flow ([call_moved]).  A frame of the peer carries what the peer has
    sent; everything else is arbitrary. *)

From S2P Require Import Prelude Word Fragment Reliable ReliableFacts Unreliable UnreliableChannel.
From S2P Require Import Frame Serial SerialFacts FrameFacts.
From S2P Require Import SegmentTx SegmentTxFacts SegmentRx SegmentRxFacts SegmentRxSafety.
From S2P Require Import SegmentChannel CongestionControl Prio.
From S2P Require Import Endpoint FragmentTxFacts EndpointFacts EndpointSafety EndpointMachine.
From S2P Require Import EndpointSession.
From S2P Require Import StreamHalf StreamReceive StreamSend.

Import Endpoint.

(** The packets a call gives the endpoint to send, and those of each mode. *)
Definition accepted (e : Endpoint) (c : call) : list (SendMode * list Z) :=
  match c with CEnqueue p m => if decide (state_id e = Active) then [(m, p)] else [] | _ => [] end.

Definition reliable_packets (l : list (SendMode * list Z)) : list (list Z) :=
  omap (fun a => match a.1 with SendReliable => Some a.2 | SendUnreliable _ => None end) l.
Definition unreliable_packets (l : list (SendMode * list Z)) : list (list Z) :=
  omap (fun a => match a.1 with SendReliable => None | SendUnreliable _ => Some a.2 end) l.

Section Calls.
Context `{BuildProfile} (sent : list (Z * FragmentRc)) (acks : list Z) (peer : list segment).
Context (Hpeer : Forall (segment_from sent) peer) (Hids : recognised peer).

#[local] Abbreviation moves := (moved sent acks peer).

(** ** Frames from the peer *)

Lemma ack_handled now e a h x u e' h' : ep_inv now e -> tracks peer [] e h x u -> block_valid a -> ack_from acks a ->
  handle_ack e a now h = Ok (e', h') -> ep_inv now e' /\ moves x u e' h'.
Proof.
  intros Hi Ht Hv Ha Hr. split; [|by eapply handle_ack_moved].
  destruct (handle_ack_ok now e a h Hi Hv) as (e1 & evs & Hr1 & Hi1 & _). rewrite Hr in Hr1. by injection Hr1 as <- _.
Qed.

Lemma segment_handled now e h x u k s e' h' a r : ep_inv now e -> tracks peer [] e h x u -> peer !! k = Some s ->
  handle_segment e (segment_header k s) (segment_bytes s) h = Ok (e', h', a, r) -> ep_inv now e' /\ moves x u e' h'.
Proof.
  intros Hi Ht Hs Hr. split; [|by eapply handle_segment_moved].
  assert (Hok : segment_ok FRAME_SIZE_MAX (segment_bytes s)).
  { rewrite Forall_lookup in Hpeer. destruct (Hpeer _ _ Hs) as [Hit Hz]. split; [|done].
    apply encode_all_u8, Forall_fmap. eapply Forall_impl; [exact Hit|]. by intros i [Hv _]. }
  destruct (handle_segment_ok now e (segment_header k s) _ h Hi (segment_header_valid k s) Hok)
    as (e1 & evs & a1 & r1 & Hr1 & Hi1 & _).
  rewrite Hr in Hr1. by injection Hr1 as <- _.
Qed.

Lemma read_encoded {A} `{BlockSerialOk A} rd (a : A) rest : pr_at rd (block_encode a ++ rest) -> block_valid a ->
  exists rd', payload_reader_read rd = Ok (Some a, rd') /\ pr_at rd' rest.
Proof. apply (payload_reader_read_encode (A := A) (H0 := block_serial) (H1 := block_serial_ok)). Qed.

(** The rest of a stream frame, once its acknowledgement is dealt with. *)
Lemma segment_part now e h x u k s rd e' h' : ep_inv now e -> tracks peer [] e h x u -> peer !! k = Some s ->
  pr_at rd (block_encode (segment_header k s) ++ segment_bytes s) ->
  ('(self, ctx, send_ack, ack_rel) ←
     ('(header, reader) ← payload_reader_read rd;
      match header with
      | Some header => segment_bytes ← remaining_bytes reader; handle_segment e header segment_bytes h
      | None => Ok (e, h, false, false)
      end);
   flush_stream self send_ack ack_rel now ctx) = Ok (e', h') -> moves x u e' h'.
Proof.
  intros Hi Ht Hs Hat. destruct (read_encoded rd _ _ Hat (segment_header_valid k s)) as (rd' & -> & Hat').
  cbn [mbind outcome_bind]. rewrite (remaining_at rd' _ Hat'). cbn [mbind outcome_bind]. intros Hr.
  apply outcome_bind_Ok in Hr as ([[[e1 h1] sa] ar] & H1 & Hr).
  destruct (segment_handled now e h x u k s e1 h1 sa ar Hi Ht Hs H1) as [Hi1 Hm].
  eapply moved_trans; [exact Hm|]. intros y v Hy. by eapply flush_stream_moved.
Qed.

Lemma stream_frame_moved now e h x u t p e' h' : ep_inv now e -> tracks peer [] e h x u -> is_stream t = true ->
  content_from peer acks t p -> handle_stream_frame e t p now h = Ok (e', h') -> moves x u e' h'.
Proof.
  intros Hi Ht Hst Hc. unfold handle_stream_frame. pose proof (pr_at_new p) as Hat.
  destruct Hc as [k s Hs|a Hv Ha|a k s Hva Ha Hs|n Hn|t p Hn]; [| | |done|by rewrite Hn in Hst].
  - cbn [read_ack_data mbind outcome_bind]. by apply (segment_part now e h x u k s).
  - cbn [read_ack_data mbind outcome_bind].
    assert (Hat' : pr_at (payload_reader_new (block_encode a)) (block_encode a ++ [])) by by rewrite app_nil_r.
    destruct (read_encoded (payload_reader_new (block_encode a)) a [] Hat' Hv) as (rd & -> & _).
    cbn [mbind outcome_bind]. intros Hr.
    apply outcome_bind_Ok in Hr as (o & Ho & Hr). apply outcome_bind_Ok in Ho as ([e1 h1] & H1 & [= <-]).
    destruct (ack_handled now e a h x u e1 h1 Hi Ht Hv Ha H1) as [Hi1 Hm]. cbn [mbind outcome_bind] in Hr.
    eapply moved_trans; [exact Hm|]. intros y v Hy. by eapply flush_stream_moved.
  - cbn [read_ack_data mbind outcome_bind]. destruct (read_encoded _ a _ Hat Hva) as (rd & -> & Hat').
    cbn [mbind outcome_bind]. intros Hr.
    apply outcome_bind_Ok in Hr as (o & Ho & Hr). apply outcome_bind_Ok in Ho as ([e1 h1] & H1 & [= <-]).
    destruct (ack_handled now e a h x u e1 h1 Hi Ht Hva Ha H1) as [Hi1 Hm]. cbn [mbind outcome_bind] in Hr.
    eapply moved_trans; [exact Hm|]. intros y v Hy. by eapply (segment_part now e1 h1 y v k s rd).
Qed.

(** The unreliable receive buffer starts afresh. *)
Lemma reset_tracks e h x u : tracks peer [] e h x u ->
  exists v, grows u v /\ tracks peer [] (set_unreliable_rx (UnreliableRxBuffer.reset (unreliable_rx e)) e) h x v.
Proof.
  intros [Htx Hrx Hut Hn Hs Hur [? ? ? ? Ha] Hsg Hf Hp Hd].
  exists (mkFlow (fl_segments u) (fl_ops u) (fl_fragments u) (fl_reorder u) (fl_got u) (fl_arrivals u ++ [UReset])).
  split; [done|]. split; try done.
  - cbn [fl_arrivals unreliable_rx set_unreliable_rx]. rewrite urx_run_app. cbn [urx_run fst]. by rewrite Hur.
  - split; try done. cbn [fl_arrivals fl_got]. by rewrite urx_got_app, app_nil_r.
  - unfold fl_delivered. cbn [fl_arrivals]. rewrite urx_run_app. cbn [urx_run snd]. by rewrite app_nil_r.
Qed.

Lemma sync_frame_moved now e h x u n e' h' : ep_inv now e -> tracks peer [] e h x u -> (n <= length peer)%nat ->
  handle_stream_sync_frame e (block_encode (mkStreamSync (wrap32 (Z.of_nat n)))) now h = Ok (e', h') ->
    moves x u e' h'.
Proof.
  intros Hi Ht Hn. unfold handle_stream_sync_frame. set (sy := mkStreamSync _).
  pose proof (wrap32_range (Z.of_nat n)) as Hid.
  assert (Hat : pr_at (payload_reader_new (block_encode sy)) (block_encode sy ++ [])) by (rewrite app_nil_r;
    apply pr_at_new).
  destruct (read_encoded (payload_reader_new (block_encode sy)) sy [] Hat Hid) as (rd & -> & _).
  cbn [mbind outcome_bind sy sy_next_segment_id]. intros Hr.
  apply outcome_bind_Ok in Hr as ([srx out] & Hsy & Hr). apply outcome_bind_Ok in Hr as ([[[e1 h1] sa] ar] & H1 & Hr).
  destruct (sync_wf FRAME_SIZE_MAX (segment_rx e) _ (ei_segment_rx _ _ Hi) Hid) as (srx' & out' & Hsy' & Hw & Hok).
  rewrite Hsy in Hsy'. injection Hsy' as <- <-.
  assert (Hi0 : ep_inv now (set_segment_rx srx e)) by (destruct Hi; by split).
  destruct (receive_segments_ok now out _ h false false Hi0 Hok) as (e1' & evs & a' & r' & H1' & Hi1 & _).
  rewrite H1 in H1'. injection H1' as <- _ _ _.
  destruct (segment_synced sent peer Hpeer Hids (segment_rx e) u n srx out) as (g & -> & Hg & Hfg);
    [apply (tk_srx _ _ _ _ _ _ Ht)|apply (tk_flow _ _ _ _ _ _ Ht)|done|exact Hsy|].
  eapply moved_trans; [by eapply handed_over_moved|]. intros y v Hy.
  destruct (reset_tracks e1 h1 y v Hy) as (w & Hvw & Hy').
  eapply (moved_trans sent acks peer [] []); [exists y, w; split; [apply rtc_refl|]; split; [done|]; by split|].
  intros z w' Hz. eapply (flush_stream_moved sent acks peer now (set_unreliable_rx (UnreliableRxBuffer.reset
    (unreliable_rx e1)) e1));
    [|exact Hz|exact Hr]. destruct Hi1. by split.
Qed.

Lemma closed_tracks e now h x u e' h' : tracks peer [] e h x u -> enter_closed e now h = Ok (e', h') ->
  tracks peer [] e' h' x u.
Proof.
  intros Ht. unfold enter_closed. intros Hr. inv_ok. eapply tracks_same; [exact Ht|done|].
  eapply traffic_trans; by apply record_traffic.
Qed.

Lemma close_request_moved now e p h x u e' h' : ep_inv now e -> tracks peer [] e h x u ->
  (valid ← validate_close_frame e p;
   if valid : bool then '(self, ctx) ← send_close_ack_frame e h;
     enter_closed self now ctx else Ok (e, h)) = Ok (e', h') ->
  moves x u e' h'.
Proof.
  intros Hi Ht Hr. apply outcome_bind_Ok in Hr as (v & _ & Hr).
  destruct v; [|injection Hr as <- <-; by apply moved_refl].
  apply outcome_bind_Ok in Hr as ([e1 h1] & H1 & Hr). apply moved_refl. eapply closed_tracks; [|exact Hr].
  by eapply close_ack_tracks.
Qed.

Lemma handle_frame_moved now e h x u t p e' h' : ep_inv now e -> tracks peer [] e h x u ->
  content_from peer acks t p ->
  handle_frame e t p now h = Ok (e', h') -> moves x u e' h'.
Proof.
  intros Hi Ht Hc. unfold handle_frame.
  assert (Hstay : Ok (e, h) = Ok (e', h') -> moves x u e' h') by (intros [= <- <-]; by apply moved_refl).
  destruct (state_id e); try exact Hstay.
  - destruct t; try exact Hstay; try (by eapply stream_frame_moved); [by eapply close_request_moved|].
    inversion Hc as [| | |n Hn|]; [|done]. by eapply sync_frame_moved.
  - destruct t; try exact Hstay; [by eapply close_request_moved|]. intros Hr.
    apply outcome_bind_Ok in Hr as (v & _ & Hr).
    destruct v; [|by apply Hstay]. apply moved_refl. by eapply closed_tracks.
  - case_decide; [|exact Hstay]. intros Hr. apply outcome_bind_Ok in Hr as (v & _ & Hr).
    destruct v; [|by apply Hstay].
    apply moved_refl. by eapply close_ack_tracks.
Qed.

(** ** The timer *)

Lemma resend_moved e h x u : tracks peer [] e h x u -> moves x u (set_fragment_tx (ftx_handle_timeout (fragment_tx
  e)) e) h.
Proof.
  intros [Htx ? ? ? ? ? ? ? ? ? ?].
  eapply (moved_step _ _ _ _ _ (mkHalf (ReliableTxBuffer.resend_all (hf_tx x)) (hf_rx x) (hf_sent x) (hf_acks x)
    (hf_pushed x) (hf_delivered x)));
    [destruct x; apply hs_timeout|done|]. split; try done. cbn. by rewrite Htx.
Qed.

(** The part of the timer's handler before the one that depends on the state. *)
Lemma timeout_moved (k : Endpoint -> Host -> outcome (Endpoint * Host * TimeoutAction)) now e h x u e' h' act :
  ep_inv now e -> state_id e <> Zombie -> has_timer e = true -> tracks peer [] e h x u ->
  (forall e2 h2, ep_inv now e2 -> tracks peer [] e2 h2 x u -> k e2 h2 = Ok (e', h', act) -> moves x u e' h') ->
  (ts ← advance_rto_sum e;
   let self := set_rto_timer_state (Some ts) e in
   if timeout_time_ms (config self) <=? rts_rto_sum_ms ts then Ok (set_state_id Zombie self, on_timeout h, Terminate)
   else '(self, ctx) ← back_off self ts now h; k self ctx) = Ok (e', h', act) ->
  moves x u e' h'.
Proof.
  intros Hi Hz Hok Ht Hk Hr. apply outcome_bind_Ok in Hr as (ts & Hts & Hr).
  destruct (advance_ok now e Hi Hz Hok) as (ts' & Hts' & _ & Hsum). rewrite Hts in Hts'. injection Hts' as <-.
  cbn [config set_rto_timer_state] in Hr. destruct (timeout_time_ms (config e) <=? rts_rto_sum_ms ts) eqn:Eto.
  { injection Hr as <- <- _. apply moved_refl. eapply tracks_same; [exact Ht|done|by apply record_traffic]. }
  apply Z.leb_gt in Eto. destruct (back_off_ok now e ts h Hi) as (Hb & Hi2 & _); [lia|].
  rewrite Hb in Hr. cbn [mbind outcome_bind] in Hr. apply Hk in Hr; [done|done|].
  eapply tracks_same; [exact Ht|done|by apply record_traffic].
Qed.

(** Everything unacknowledged is to be sent again, and the peer is told where to go on. *)
Lemma resend_all_moved now e h x u e' h' act : ep_inv now e -> tracks peer [] e h x u ->
  (cc ← AimdReno.handle_timeout (cc_state e);
   let self := set_cc_state cc e in
   let self := set_fragment_tx (ftx_handle_timeout (fragment_tx self)) self in
   '(self, ctx) ← send_stream_sync_frame self (SegmentTx.next_id (segment_tx self)) h;
   '(self, ctx) ← flush_stream self false false now ctx;
   Ok (self, ctx, Continue)) = Ok (e', h', act) -> moves x u e' h'.
Proof.
  intros Hi Ht Hr. apply outcome_bind_Ok in Hr as (cc & Hcc & Hr).
  destruct (AimdReno.cc_timeout_inv 1024 cc_range (cc_state e) (ei_cc _ _ Hi)) as (cc' & Hcc' & Hcci).
  rewrite Hcc in Hcc'. injection Hcc' as <-.
  assert (Ht1 : tracks peer [] (set_cc_state cc e) h x u) by by eapply tracks_same.
  apply outcome_bind_Ok in Hr as ([e4 h4] & H4 & Hr). apply outcome_bind_Ok in Hr as ([e5 h5] & H5 & [= <- <- _]).
  set (e3 := set_fragment_tx (ftx_handle_timeout (fragment_tx (set_cc_state cc e))) (set_cc_state cc e)) in *.
  assert (Hi3 : ep_inv now e3).
  { destruct Hi as [? ? ? ? [Hfu Hfr Hfp]]. split; try done. split; try done. by apply rel_resend. }
  pose proof (next_id_u32 _ (ei_segment_tx _ _ Hi3)) as Hid.
  eapply moved_trans; [by apply (resend_moved (set_cc_state cc e))|]. fold e3. clearbody e3. intros y v Hy.
  pose proof (sync_tracks peer now e3 h y v e4 h4 Hi3 Hy H4) as Ht4.
  destruct (send_sync_ok now e3 _ h Hi3 Hid) as (f & buf & Hs & _ & Hi4). rewrite H4 in Hs. injection Hs as -> ->.
  by eapply flush_stream_moved.
Qed.

Lemma timer_moved now e h x u e' h' : ep_inv now e -> timer_ok true e -> tracks peer [] e h x u ->
  ('(e, ctx, _) ← handle_rto_timer e now h; Ok (e, ctx)) = Ok (e', h') -> moves x u e' h'.
Proof.
  intros Hi Hok Ht Hr. apply outcome_bind_Ok in Hr as ([[e1 h1] act] & Hr & [= <- <-]). revert Hr.
  unfold handle_rto_timer.
  assert (Hstay : forall a, Ok (e, h, a) = Ok (e1, h1, act) -> moves x u e1 h1) by (intros a [= <- <- _];
    by apply moved_refl).
  unfold timer_ok in Hok. destruct (state_id e) eqn:Es; try (by apply Hstay).
  - apply timeout_moved; [done|by rewrite Es|done|done|]. intros e2 h2 Hi2 Ht2. by apply resend_all_moved.
  - apply (timeout_moved (fun self ctx => '(self, ctx) ← send_close_frame self ctx; Ok (self, ctx, Continue)));
      [done|by rewrite Es|by destruct Hok|done|].
    intros e2 h2 Hi2 Ht2 Hr. apply outcome_bind_Ok in Hr as ([e4 h4] & H4 & [= <- <- _]). apply moved_refl.
    by eapply close_tracks.
  - intros [= <- <- _]. apply moved_refl. by eapply tracks_same.
Qed.

(** ** Every call *)

(** A frame that a host hands over comes from the peer. *)
Definition call_from (c : call) : Prop := match c with CFrame t p => content_from peer acks t p | _ => True end.

(** A packet is queued in the buffer of its mode. *)
Lemma enqueue_moved e p m now e' h x u : tracks peer [] e h x u -> state_id e = Active -> enqueue e p m now = Ok e' ->
  exists y v, rtc (half_step sent acks) x y /\ hf_pushed y = hf_pushed x ++ reliable_packets [(m, p)] /\
    fl_segments u `prefix_of` fl_segments v /\ utx_pushed (fl_ops v) = utx_pushed (fl_ops u)
      ++ unreliable_packets [(m, p)] /\
    tracks peer [] e' h y v.
Proof.
  intros [Htx Hrx Hut Hn Hs Hur Hfl Hsg Hf Hp Hd] Ha. unfold enqueue. rewrite decide_True by done. intros Hr.
  apply outcome_bind_Ok in Hr as (ft & Hft & [= <-]). destruct m as [|timeout]; cbn [ftx_enqueue] in Hft.
  - apply outcome_bind_Ok in Hft as (tx' & Hpu & [= <-]). rewrite Htx in Hpu.
    exists (mkHalf tx' (hf_rx x) (hf_sent x) (hf_acks x) (hf_pushed x ++ [p]) (hf_delivered x)), u.
    split; [destruct x; by apply rtc_once, hs_push|]. split; [done|]. split; [done|].
    split; [symmetry; apply app_nil_r|]. by split.
  - apply outcome_bind_Ok in Hft as (t & _ & Hft). apply outcome_bind_Ok in Hft as (expire & _ & Hft).
    apply outcome_bind_Ok in Hft as (tx' & Hpu & [= <-]).
    exists x, (mkFlow (fl_segments u) (fl_ops u ++ [UPush p expire]) (fl_fragments u) (fl_reorder u) (fl_got u)
      (fl_arrivals u)).
    split; [apply rtc_refl|]. split; [symmetry; apply app_nil_r|]. split; [done|]. split; [apply utx_pushed_app|].
    destruct Hfl. split; try done. cbn [fl_ops fl_fragments unrel fragment_tx set_fragment_tx].
    rewrite <- (app_nil_r (fl_fragments u)). eapply utx_run_app; [exact Hut|]. cbn [utx_run]. by rewrite Hpu.
Qed.

Lemma call_moved now e h x u c e' h' : ep_inv now e -> timer_ok (armed h) e -> call_ok (armed h) e c -> call_from c ->
  tracks peer [] e h x u -> invoke e c now h = Ok (e', h') ->
  exists y v, rtc (half_step sent acks) x y /\ hf_pushed y = hf_pushed x ++ reliable_packets (accepted e c) /\
    fl_segments u `prefix_of` fl_segments v /\ utx_pushed (fl_ops v) = utx_pushed (fl_ops u)
      ++ unreliable_packets (accepted e c) /\
    tracks peer [] e' h' y v.
Proof.
  intros Hi Htm Hc Hfrom Ht.
  assert (Hm : accepted e c = [] -> moves x u e' h' -> exists y v, rtc (half_step sent acks) x y /\
    hf_pushed y = hf_pushed x ++ reliable_packets (accepted e c) /\ fl_segments u `prefix_of` fl_segments v /\
    utx_pushed (fl_ops v) = utx_pushed (fl_ops u) ++ unreliable_packets (accepted e c) /\ tracks peer [] e' h' y v).
  { intros -> (y & v & Hxy & Hp & [Hg Hpu] & Hy). exists y, v. cbn. by rewrite !app_nil_r. }
  destruct c as [|p m| | |t p|]; cbn [invoke call_ok call_from] in *.
  - unfold init. intros Hr. apply outcome_bind_Ok in Hr as ([] & _ & [= <- <-]). apply Hm; [done|]. apply moved_refl.
    eapply tracks_same; [exact Ht|done|by apply record_traffic].
  - intros Hr. apply outcome_bind_Ok in Hr as (e1 & He & [= <- <-]). unfold accepted in *. case_decide as Ha.
    + by eapply enqueue_moved.
    + apply Hm; [done|]. unfold enqueue in He. rewrite decide_False in He by done. injection He as <-.
      by apply moved_refl.
  - unfold flush. intros Hr. apply Hm; [done|]. revert Hr.
    case_decide; [by apply flush_stream_moved|intros [= <- <-]; by apply moved_refl].
  - unfold disconnect. intros Hr. apply Hm; [done|]. revert Hr. case_decide; [|intros [= <- <-]; by apply moved_refl].
    unfold enter_closing. intros Hr. apply outcome_bind_Ok in Hr as (t & _ & Hr). apply moved_refl.
    eapply (close_tracks _ now); [| |exact Hr].
    + destruct Hi. split; try done. cbn. unfold RTO_MIN_MS, RTO_MAX_MS in *. split_and!; lia.
    + eapply tracks_same; [exact Ht|done|by apply record_traffic].
  - intros Hr. apply Hm; [done|]. by eapply handle_frame_moved.
  - intros Hr. apply Hm; [done|]. rewrite Hc in Htm. by eapply timer_moved.
Qed.
End Calls.
