(* ===== verification/Duplex.v ===== *)
(** * Two endpoints and the network between them

    A connection is two endpoints with their hosts, each with a clock of its own.  A frame
    that one has sent may reach the other at any time, any number of times, in any order or
    never.  [connection_refines]: such a connection is, in each direction, a reliable channel
    and a lossy ordered one, down to the state of the buffers; so what is proved of the
    abstract channels holds of the bytes on the wire ([end_to_end]). *)

From S2P Require Import Prelude Word Fragment Reliable ReliableFacts ReliableChannel.
From S2P Require Import Frame Serial SerialFacts FrameFacts Unreliable UnreliableChannel.
From S2P Require Import SegmentTx SegmentTxFacts SegmentRx SegmentRxFacts SegmentChannel Prio.
From S2P Require Import Endpoint FragmentTxFacts EndpointFacts EndpointSafety EndpointMachine.
From S2P Require Import EndpointSession.
From S2P Require Import StreamHalf StreamReceive StreamSend StreamCalls.

Import Endpoint.

(** ** Connections *)

(** One side: the time, the endpoint, its host, and the packets the endpoint has accepted
    from the application, each with its mode. *)
Record side : Set := mkSide {
  sd_now : Z;
  sd_endpoint : Endpoint;
  sd_host : Host;
  sd_accepted : list (SendMode * list Z);
}.

Section Connections.
Context `{BuildProfile}.

(** A frame that a host hands over is one the peer has sent. *)
Definition arrives (b : side) (c : call) : Prop :=
  match c with
  | CFrame t p => exists f, f ∈ frames (h_log (sd_host b)) /\ read_type f = Ok (Some t) /\ payload f = Ok p
  | _ => True
  end.

(** The host of [a], whose peer is [b], makes a call; or another user of the random number
    generator draws from it. *)
Inductive acts (a b : side) : side -> Prop :=
| acts_call c now' e' h' : sd_now a <= now' <= TIME_MAX -> call_ok (armed (sd_host a)) (sd_endpoint a) c ->
  arrives b c ->
    invoke (sd_endpoint a) c now' (sd_host a) = Ok (e', h') ->
    acts a b (mkSide now' e' h' (sd_accepted a ++ accepted (sd_endpoint a) c))
| acts_reseed coins : acts a b (mkSide (sd_now a) (sd_endpoint a) (reseed coins (sd_host a)) (sd_accepted a)).

Inductive connection (cfg1 cfg2 : Config) : side -> side -> Prop :=
| cn_new coins1 coins2 e1 e2 : new cfg1 = Ok e1 -> new cfg2 = Ok e2 ->
    connection cfg1 cfg2 (mkSide 0 e1 (mkHost [] coins1 0) []) (mkSide 0 e2 (mkHost [] coins2 0) [])
| cn_left a b a' : connection cfg1 cfg2 a b -> acts a b a' -> connection cfg1 cfg2 a' b
| cn_right a b b' : connection cfg1 cfg2 a b -> acts b a b' -> connection cfg1 cfg2 a b'.

Lemma connection_sym cfg1 cfg2 a b : connection cfg1 cfg2 a b -> connection cfg2 cfg1 b a.
Proof.
  induction 1 as [coins1 coins2 e1 e2 Hn1 Hn2|a b a' _ IH Ha|a b b' _ IH Hb].
  - by apply cn_new.
  - by eapply cn_right.
  - by eapply cn_left.
Qed.

Lemma acts_reachable cfg a b a' : reachable cfg (sd_now a) (sd_endpoint a) (sd_host a) -> acts a b a' ->
  reachable cfg (sd_now a') (sd_endpoint a') (sd_host a').
Proof. intros Hr [c now' e' h' Hn Hc _ Hi|coins]; [by eapply reach_call|by apply reach_reseed]. Qed.

Lemma connection_reachable cfg1 cfg2 a b : connection cfg1 cfg2 a b ->
  reachable cfg1 (sd_now a) (sd_endpoint a) (sd_host a) /\ reachable cfg2 (sd_now b) (sd_endpoint b) (sd_host b).
Proof.
  induction 1 as [coins1 coins2 e1 e2 Hn1 Hn2|a b a' _ [IHa IHb] Ha|a b b' _ [IHa IHb] Hb].
  - split; by apply reach_new.
  - split; [by eapply acts_reachable|done].
  - split; [done|by eapply acts_reachable].
Qed.

(** ** Two halves make two channels *)

Definition channel_of (x y : half) : channel :=
  mkChannel (hf_tx x) (hf_rx y) (hf_sent x) (hf_acks y) (hf_pushed x) (hf_delivered y).

Lemma half_step_channels x y x' : half_step (hf_sent y) (hf_acks y) x x' ->
  rtc channel_step (channel_of x y) (channel_of x' y) /\ rtc channel_step (channel_of y x) (channel_of y x').
Proof.
  destruct y as [ty ry sy ay py dy]. unfold channel_of. cbn. destruct 1; cbn; (split; [|]); try apply rtc_refl;
    apply rtc_once.
  - by apply step_push.
  - by apply step_send.
  - by eapply step_deliver.
  - by apply step_emit_ack.
  - by eapply step_ack.
  - by apply step_timeout.
Qed.

Lemma half_steps_channels x y x' : rtc (half_step (hf_sent y) (hf_acks y)) x x' ->
  rtc channel_step (channel_of x y) (channel_of x' y) /\ rtc channel_step (channel_of y x) (channel_of y x').
Proof.
  induction 1 as [x|x x1 x' Hx _ [IH1 IH2]]; [split; apply rtc_refl|].
  destruct (half_step_channels x y x1 Hx). split; by etrans.
Qed.

(** The buffers of every endpoint start from these ids and sizes. *)
Definition stream_channel : channel -> Prop := channel_reachable 0 FRAGMENT_SIZE FRAGMENT_WINDOW_SIZE.

Lemma stream_channel_steps c c' : stream_channel c -> rtc channel_step c c' -> stream_channel c'.
Proof. intros (c0 & Hi & Hs) Hs'. exists c0. split; [done|by etrans]. Qed.

(** ** The bounds of the id spaces *)

(** A nonce is drawn for every segment sent, and for nothing else. *)
Definition segments_sent (s : side) : Z := Z.of_nat (h_draws (sd_host s)).

(** Segment ids do not come round. *)
Definition segments_bounded (s : side) : Prop := segments_sent s + SEGMENT_WINDOW_SIZE < two32.

(** Nor do fragment ids, in either mode. *)
Record ids_bounded (s : side) : Prop := {
  ib_segments : segments_bounded s;
  ib_reliable : zlen (fragment_stream FRAGMENT_SIZE (reliable_packets (sd_accepted s))) < two32;
  ib_unreliable : zlen (fragment_stream FRAGMENT_SIZE (unreliable_packets (sd_accepted s))) < two32;
}.

Lemma performs_draws evs : forall h, (h_draws h <= h_draws (performs h evs))%nat.
Proof.
  induction evs as [|ev evs IH]; intros h; [done|]. change (performs h (ev :: evs)) with (performs (perform h ev)
    evs).
  etrans; [|apply IH]. destruct ev; cbn; lia.
Qed.

(** A side that is within the bounds now was so before. *)
Lemma acts_bounded cfg a b a' : config_ok cfg -> reachable cfg (sd_now a) (sd_endpoint a) (sd_host a) ->
  acts a b a' ->
  segments_bounded a' -> segments_bounded a.
Proof.
  intros Hcfg Hr [c now' e' h' Hn Hc _ Hi|coins]; [|done]. destruct (reachable_facts cfg _ _ _ Hcfg Hr)
    as (Hinv & Htm & _).
  destruct (call_stepped now' _ c (sd_host a) _ (ep_inv_later _ _ _ Hinv Hn) Htm Hc) as (e1 & evs & Hi' & _).
  rewrite Hi in Hi'.
  injection Hi' as _ ->. pose proof (performs_draws evs (sd_host a)). unfold segments_bounded, segments_sent.
  cbn [sd_host]. lia.
Qed.

(** ** The simulation *)

Record linked (a b : side) (x y : half) (u v : flow) : Prop := {
  lk_left : tracks (fl_segments v) [] (sd_endpoint a) (sd_host a) x u;
  lk_right : tracks (fl_segments u) [] (sd_endpoint b) (sd_host b) y v;
  lk_out : stream_channel (channel_of x y);
  lk_in : stream_channel (channel_of y x);
  lk_pushed_left : hf_pushed x = reliable_packets (sd_accepted a);
  lk_pushed_right : hf_pushed y = reliable_packets (sd_accepted b);
  lk_queued_left : utx_pushed (fl_ops u) = unreliable_packets (sd_accepted a);
  lk_queued_right : utx_pushed (fl_ops v) = unreliable_packets (sd_accepted b);
}.

Lemma linked_sym a b x y u v : linked a b x y u v -> linked b a y x v u.
Proof. intros []. by split. Qed.

Lemma new_tracks cfg e coins : new cfg = Ok e ->
  exists tx rx, ReliableTxBuffer.new 0 FRAGMENT_SIZE FRAGMENT_WINDOW_SIZE = Ok tx /\
    ReliableRxBuffer.new 0 FRAGMENT_SIZE = Ok rx /\
    tracks [] [] e (mkHost [] coins 0) (mkHalf tx rx [] [] [] []) first_flow.
Proof.
  intros Hn. unfold new in Hn.
  apply outcome_bind_Ok in Hn as (stx & Hs & Hn). apply outcome_bind_Ok in Hn as (ftx & Hf & Hn).
  apply outcome_bind_Ok in Hn as (cc & _ & Hn). apply outcome_bind_Ok in Hn as (urx & Hu & Hn).
  apply outcome_bind_Ok in Hn as (rrx & Hrx & [= <-]). unfold ftx_new in Hf.
  apply outcome_bind_Ok in Hf as (ut & Hut & Hf). apply outcome_bind_Ok in Hf as (r & Hr & [= <-]).
  exists r, rrx. split; [done|]. split; [done|].
  split; cbn [first_flow fl_segments fl_ops fl_fragments fl_reorder fl_got fl_arrivals]; try done.
  - cbn [fragment_tx unrel]. unfold UnreliableTxBuffer.new in Hut. by inv_ok.
  - cbn [segment_tx]. unfold SegmentTx.new in Hs. by inv_ok.
  - apply new_refines; [by vm_compute|done].
  - cbn [unreliable_rx]. unfold UnreliableRxBuffer.new in Hu. by inv_ok.
  - split; try done. intros k Hk. by apply not_elem_of_nil in Hk.
  - constructor.
Qed.

Lemma arrives_from peer b c y v : tracks peer [] (sd_endpoint b) (sd_host b) y v -> arrives b c ->
  call_from (hf_acks y) (fl_segments v) c.
Proof.
  intros Ht. destruct c as [|p m| | |t p|]; try done. intros (f & Hin & Hty & Hp).
  pose proof (tk_frames _ _ _ _ _ _ Ht) as Hf. rewrite Forall_forall in Hf.
  destruct (Hf f Hin) as (t' & p' & -> & Hu & Hc).
  destruct (seal_checks t' p' Hu) as (_ & _ & Ht' & Hp'). rewrite Hty in Ht'. rewrite Hp in Hp'.
  injection Ht' as <-. injection Hp' as <-. exact Hc.
Qed.

Lemma tracks_reseed peer own e h coins x u : tracks peer own e h x u -> tracks peer own e (reseed coins h) x u.
Proof. intros []. by split. Qed.

Lemma acts_linked cfg a b a' x y u v : config_ok cfg -> reachable cfg (sd_now a) (sd_endpoint a) (sd_host a) ->
  segments_bounded b -> linked a b x y u v -> acts a b a' -> exists x' u', linked a' b x' y u' v.
Proof.
  intros Hcfg Hr Hb [Hl Hrt Ho Hin Hpl Hpr Hql Hqr] [c now' e' h' Hn Hc Harr Hi|coins].
  2: { exists x, u. split; try done. by apply tracks_reseed. }
  destruct (reachable_facts cfg _ _ _ Hcfg Hr) as (Hinv & Htm & _).
  assert (Hids : recognised (fl_segments v)).
  { unfold segments_bounded, segments_sent in Hb. rewrite (tk_draws _ _ _ _ _ _ Hrt) in Hb. exact Hb. }
  destruct (call_moved (hf_sent y) (hf_acks y) (fl_segments v) (tk_segments _ _ _ _ _ _ Hrt) Hids now' _ _ x u c e' h'
    (ep_inv_later _ _ _ Hinv Hn) Htm Hc) as (x' & u' & Hxx & Hp & Hseg & Hq & Ht');
      [by eapply arrives_from|done|done|].
  destruct (half_steps_channels x y x' Hxx) as [Hs1 Hs2].
  exists x', u'. split; try done.
  - by apply (tracks_peer (fl_segments u)).
  - exact (stream_channel_steps _ _ Ho Hs1).
  - exact (stream_channel_steps _ _ Hin Hs2).
  - cbn [sd_accepted]. unfold reliable_packets. by rewrite omap_app, Hp, Hpl.
  - cbn [sd_accepted]. unfold unreliable_packets. by rewrite omap_app, Hq, Hql.
Qed.

Lemma connection_linked cfg1 cfg2 a b : config_ok cfg1 -> config_ok cfg2 -> connection cfg1 cfg2 a b ->
  segments_bounded a -> segments_bounded b -> exists x y u v, linked a b x y u v.
Proof.
  intros H1 H2. induction 1 as [coins1 coins2 e1 e2 Hn1 Hn2|a b a' Hcn IH Ha|a b b' Hcn IH Hb]; intros Hba Hbb.
  - destruct (new_tracks cfg1 e1 coins1 Hn1) as (t1 & r1 & Ht1 & Hr1 & Hk1).
    destruct (new_tracks cfg2 e2 coins2 Hn2) as (t2 & r2 & Ht2 & Hr2 & Hk2).
    exists (mkHalf t1 r1 [] [] [] []), (mkHalf t2 r2 [] [] [] []), first_flow, first_flow. split; try done.
    + eexists. split; [by exists t1, r2|apply rtc_refl].
    + eexists. split; [by exists t2, r1|apply rtc_refl].
  - destruct (connection_reachable _ _ _ _ Hcn) as [Hr _].
    destruct IH as (x & y & u & v & IH); [by apply (acts_bounded cfg1 a b a')|done|].
    destruct (acts_linked cfg1 a b a' x y u v H1 Hr Hbb IH Ha) as (x' & u' & Hx). by exists x', y, u', v.
  - destruct (connection_reachable _ _ _ _ Hcn) as [_ Hr].
    destruct IH as (x & y & u & v & IH); [done|by apply (acts_bounded cfg2 b a b')|].
    destruct (acts_linked cfg2 b a b' y x v u H2 Hr Hba (linked_sym _ _ _ _ _ _ IH) Hb) as (y' & v' & Hy).
    exists x, y', u, v'. by apply linked_sym.
Qed.

(** The fragments that have arrived are some of those sent, in order. *)
Lemma arrivals_sublist a b x y u v : linked a b x y u v -> urx_got (fl_arrivals v) `sublist_of` fl_fragments u.
Proof.
  intros [Hl Hr _ _ _ _ _ _]. destruct (tk_flow _ _ _ _ _ _ Hl) as [Ho _ _ _ _].
  destruct (tk_flow _ _ _ _ _ _ Hr) as [_ Hg _ Hb Ha].
  rewrite app_nil_r in Ha. rewrite Ha, <- Ho. apply (unreliable_at_sublist _ _ 0); [done|].
  by eapply increasing_weaken.
Qed.

(** ** Theorems *)

(** C9: A connection is a reliable and an unreliable channel in each direction.  Whatever the
    network does to the frames and whatever the hosts do, there is a run of the abstract
    reliable channel that ends with the buffers of the two sides and has pushed what the one
    application sent reliably; and a run of the unreliable send buffer and one of the
    unreliable receive buffer that end with the buffers of the two sides, where what arrived
    is a part of what was sent, in order; and the packets the other application was given are
    those of the two runs, interleaved. *)
Theorem connection_refines cfg1 cfg2 a b : config_ok cfg1 -> config_ok cfg2 -> connection cfg1 cfg2 a b ->
  segments_bounded a -> segments_bounded b ->
  exists c ops wire evs,
    stream_channel c /\ ch_tx c = rel (fragment_tx (sd_endpoint a)) /\ ch_rx c = reliable_rx (sd_endpoint b) /\
    ch_pushed c = reliable_packets (sd_accepted a) /\
    utx_run first_utx ops = Ok (unrel (fragment_tx (sd_endpoint a)), wire) /\
      utx_pushed ops = unreliable_packets (sd_accepted a) /\
    urx_got evs `sublist_of` wire /\ (urx_run first_urx evs).1 = unreliable_rx (sd_endpoint b) /\
    interleaves (ch_delivered c) (urx_run first_urx evs).2 (packets (h_log (sd_host b))).
Proof.
  intros H1 H2 Hcn Ha Hb. destruct (connection_linked cfg1 cfg2 a b H1 H2 Hcn Ha Hb) as (x & y & u & v & Hl).
  exists (channel_of x y), (fl_ops u), (fl_fragments u), (fl_arrivals v). split; [apply (lk_out _ _ _ _ _ _ Hl)|].
  pose proof (arrivals_sublist _ _ _ _ _ _ Hl) as Hsub.
  destruct Hl as [[Htx _ Hut _ _ _ _ _ _ _ _] [_ Hrx _ _ _ Hurx _ _ _ Hpk _] _ _ Hp _ Hq _].
  split_and!; try done.
Qed.

(** What one application has been given of what the other has sent. *)
Definition delivered_between (a b : side) : Prop := exists rs us,
  interleaves rs us (packets (h_log (sd_host b))) /\
  rs `prefix_of` reliable_packets (sd_accepted a) /\ us `sublist_of` unreliable_packets (sd_accepted a).

Lemma delivered_one_way cfg1 cfg2 a b : config_ok cfg1 -> config_ok cfg2 -> connection cfg1 cfg2 a b ->
  ids_bounded a -> segments_bounded b -> delivered_between a b.
Proof.
  intros H1 H2 Hcn [Ha Hr Hu] Hb. destruct (connection_linked cfg1 cfg2 a b H1 H2 Hcn Ha Hb) as (x & y & u & v & Hl).
  exists (hf_delivered y), (fl_delivered v). split; [apply (tk_packets _ _ _ _ _ _ (lk_right _ _ _ _ _ _ Hl))|].
  split.
  - destruct (reachable_inv 0 FRAGMENT_SIZE FRAGMENT_WINDOW_SIZE) with (c := channel_of x y) as (w & n & Hinv);
      [done|done|done|apply (lk_out _ _ _ _ _ _ Hl)|unfold channel_stream; cbn;
        by rewrite (lk_pushed_left _ _ _ _ _ _ Hl)|].
    pose proof (ci_delivered _ _ _ _ _ _ Hinv) as Hd. cbn [channel_of ch_delivered] in Hd.
    rewrite Hd, <- (lk_pushed_left _ _ _ _ _ _ Hl). by apply delivered_at_prefix.
  - pose proof (tk_utx _ _ _ _ _ _ (lk_left _ _ _ _ _ _ Hl)) as Hrun.
    destruct (runs_sublist 0 FRAGMENT_SIZE (fl_ops u) (fl_arrivals v)) as (t & wire & Hrun' & Hd); [done|done|].
    change (UnreliableTxBuffer.mkTxBuffer [] 0 FRAGMENT_SIZE) with first_utx in Hrun'. rewrite Hrun in Hrun'.
    injection Hrun' as <- <-.
    rewrite <- (lk_queued_left _ _ _ _ _ _ Hl). apply Hd; [|by eapply arrivals_sublist].
    pose proof (utx_run_count FRAGMENT_SIZE ltac:(done) (fl_ops u) first_utx _ _ eq_refl Hrun) as Hcount.
    rewrite (lk_queued_left _ _ _ _ _ _ Hl) in Hcount. pose proof (zlen_nonneg (UnreliableTxBuffer.fragments (unrel
      (fragment_tx (sd_endpoint a))))).
    change (zlen (UnreliableTxBuffer.fragments first_utx)) with 0 in Hcount. lia.
Qed.

(** C8: Delivery, from application to application.  Whatever the network loses, duplicates,
    delays or reorders among the frames of a connection, what one application has received is
    an interleaving of a prefix of the packets the other sent reliably and a part of those it
    sent unreliably, both in the order of sending and each packet at most once, in both
    directions at once: nothing is corrupted, duplicated, reordered or invented.  The bounds
    are those of the id spaces. *)
Theorem end_to_end cfg1 cfg2 a b : config_ok cfg1 -> config_ok cfg2 -> connection cfg1 cfg2 a b ->
  ids_bounded a -> ids_bounded b -> delivered_between a b /\ delivered_between b a.
Proof.
  intros H1 H2 Hcn Ha Hb. split.
  - apply (delivered_one_way cfg1 cfg2); try done. apply Hb.
  - apply (delivered_one_way cfg2 cfg1); try done; [by apply connection_sym|apply Ha].
Qed.
End Connections.

(** ** Driving a connection *)

(** What a side does: a call, or taking the [n]-th frame the peer has sent. *)
Inductive action : Set :=
| Do (c : call)
| Arrive (n : nat).

Section Driving.
Context `{BuildProfile}.

Definition action_call (b : side) (x : action) : option call :=
  match x with
  | Do (CFrame _ _) => None
  | Do c => Some c
  | Arrive n => f ← frames (h_log (sd_host b)) !! n; head (arrival f)
  end.

Definition act (a b : side) (t : Z) (x : action) : option side :=
  c ← action_call b x;
  if decide (sd_now a <= t <= TIME_MAX /\ call_ok (armed (sd_host a)) (sd_endpoint a) c) then
    match invoke (sd_endpoint a) c t (sd_host a) with
    | Ok (e', h') => Some (mkSide t e' h' (sd_accepted a ++ accepted (sd_endpoint a) c))
    | Fault _ => None
    end
  else None.

Lemma action_arrives b x c : action_call b x = Some c -> arrives b c.
Proof.
  destruct x as [c'|n]; cbn.
  - by destruct c'; try (intros [= <-]).
  - intros (f & Hf & Hc)%bind_Some. unfold arrival in Hc. destruct (read_type f) as [[t|]|] eqn:Et; try done.
    destruct (payload f) as [p|] eqn:Ep; [|done]. injection Hc as <-. exists f.
    split; [by eapply list_elem_of_lookup_2|done].
Qed.

Lemma act_acts a b t x a' : act a b t x = Some a' -> acts a b a'.
Proof.
  unfold act. intros (c & Hc & Ha)%bind_Some. case_decide as Hok; [|done]. destruct Hok as [Ht Hcok].
  destruct (invoke _ _ _ _) as [[e' h']|] eqn:Hi; [|done]. injection Ha as <-.
  by apply acts_call; [..|eapply action_arrives|].
Qed.

(** [true] is the first side. *)
Fixpoint drive_pair (a b : side) (xs : list (bool * Z * action)) : option (side * side) :=
  match xs with
  | [] => Some (a, b)
  | (true, t, x) :: xs => a' ← act a b t x; drive_pair a' b xs
  | (false, t, x) :: xs => b' ← act b a t x; drive_pair a b' xs
  end.

Definition start_pair (cfg : Config) (xs : list (bool * Z * action)) : option (side * side) :=
  match new cfg with
  | Ok e => drive_pair (mkSide 0 e (mkHost [] (fun _ => true) 0) []) (mkSide 0 e (mkHost [] (fun _ => false) 0) []) xs
  | Fault _ => None
  end.

Lemma drive_pair_connection cfg1 cfg2 xs : forall a b r, connection cfg1 cfg2 a b -> drive_pair a b xs = Some r ->
  connection cfg1 cfg2 r.1 r.2.
Proof.
  induction xs as [|[[s t] x] xs IH]; intros a b r Hcn; cbn [drive_pair]; [by intros [= <-]|].
  destruct s; intros (a' & Ha & Hr)%bind_Some; apply act_acts in Ha; (eapply IH; [|exact Hr]).
  - by eapply cn_left.
  - by eapply cn_right.
Qed.

Lemma start_pair_connection cfg xs a b : start_pair cfg xs = Some (a, b) -> connection cfg cfg a b.
Proof.
  unfold start_pair. intros Hs. destruct (new cfg) as [e|] eqn:Hn; [|done].
  by apply (drive_pair_connection cfg cfg xs _ _ (a, b)) in Hs; [|apply cn_new].
Qed.

Lemma observe_pair {A} cfg xs (f : side * side -> A) y :
  f <$> start_pair cfg xs = Some y -> exists a b, connection cfg cfg a b /\ f (a, b) = y.
Proof.
  intros Hx. apply fmap_Some in Hx as ([a b] & Hs & ->). exists a, b. split; [by eapply start_pair_connection|done].
Qed.
End Driving.

(** ** An example: frames lost and repeated, traffic in both directions *)

#[local] Instance duplex_debug_build : BuildProfile := true.

Definition example_run : list (bool * Z * action) :=
  [(true, 0, Do CInit); (false, 0, Do CInit);
   (true, 1, Do (CEnqueue [1; 2; 3] SendReliable)); (true, 1, Do CFlush);
   (true, 2, Do (CEnqueue [6] (SendUnreliable 100))); (true, 2, Do (CEnqueue [4] SendReliable)); (true, 2, Do CFlush);
   (true, 3, Do (CEnqueue [7; 8] (SendUnreliable 100))); (true, 3, Do CFlush);
   (true, 4, Do (CEnqueue [5] SendReliable)); (true, 4, Do CFlush);
   (false, 50, Do (CEnqueue [9] SendReliable)); (false, 50, Arrive 1);
   (false, 51, Arrive 1); (false, 52, Arrive 0);
   (true, 90, Arrive 0); (true, 91, Arrive 1); (true, 92, Arrive 0)].

Definition observe_traffic (r : side * side) :=
  (sd_accepted r.1, packets (h_log (sd_host r.2)), sd_accepted r.2, packets (h_log (sd_host r.1)),
   (h_draws (sd_host r.1), h_draws (sd_host r.2))).

Lemma example_traffic : exists a b, connection example_config example_config a b /\
  sd_accepted a = [(SendReliable, [1; 2; 3]); (SendUnreliable 100, [6]); (SendReliable, [4]);
    (SendUnreliable 100, [7; 8]); (SendReliable, [5])] /\
  packets (h_log (sd_host b)) = [[1; 2; 3]; [6]; [4]] /\
  sd_accepted b = [(SendReliable, [9])] /\ packets (h_log (sd_host a)) = [[9]] /\
  h_draws (sd_host a) = 4%nat /\ h_draws (sd_host b) = 1%nat.
Proof.
  destruct (observe_pair example_config example_run observe_traffic
    ([(SendReliable, [1; 2; 3]); (SendUnreliable 100, [6]); (SendReliable, [4]); (SendUnreliable 100, [7; 8]);
      (SendReliable, [5])],
     [[1; 2; 3]; [6]; [4]], [(SendReliable, [9])], [[9]], (4%nat, 1%nat))) as (a & b & Hcn & Ho); [vm_compute;
       reflexivity|].
  unfold observe_traffic in Ho. cbn [fst snd] in Ho. injection Ho as H1 H2 H3 H4 H5 H6. exists a, b. auto 7.
Qed.

Lemma example_bounded s l n : sd_accepted s = l -> h_draws (sd_host s) = n -> (n < 100)%nat ->
  zlen (fragment_stream FRAGMENT_SIZE (reliable_packets l)) < 100 ->
  zlen (fragment_stream FRAGMENT_SIZE (unreliable_packets l)) < 100 -> ids_bounded s.
Proof.
  intros Hl Hn Hs Hr Hu. split; [unfold segments_bounded, segments_sent|..]; rewrite ?Hl, ?Hn;
    unfold SEGMENT_WINDOW_SIZE, two32; lia.
Qed.

Lemma connection_refines_witness : exists a b c ops wire evs,
  connection example_config example_config a b /\
  stream_channel c /\ ch_tx c = rel (fragment_tx (sd_endpoint a)) /\ ch_rx c = reliable_rx (sd_endpoint b) /\
  ch_pushed c = [[1; 2; 3]; [4]; [5]] /\
  utx_run first_utx ops = Ok (unrel (fragment_tx (sd_endpoint a)), wire) /\ utx_pushed ops = [[6]; [7; 8]] /\
  urx_got evs `sublist_of` wire /\ (urx_run first_urx evs).1 = unreliable_rx (sd_endpoint b) /\
  interleaves (ch_delivered c) (urx_run first_urx evs).2 [[1; 2; 3]; [6]; [4]].
Proof.
  destruct example_traffic as (a & b & Hcn & Ha & Hb & Ha' & _ & Hna & Hnb).
  assert (Hba : segments_bounded a) by (apply (example_bounded a _ _ Ha Hna); [lia|by vm_compute|by vm_compute]).
  assert (Hbb : segments_bounded b) by (apply (example_bounded b _ _ Ha' Hnb); [lia|by vm_compute|by vm_compute]).
  destruct (connection_refines example_config example_config a b example_config_ok example_config_ok Hcn Hba Hbb)
    as (c & ops & wire & evs & Hall). rewrite Ha, Hb in Hall. exists a, b, c, ops, wire, evs.
    split; [exact Hcn|exact Hall].
Defined.

Lemma end_to_end_witness : exists a b, connection example_config example_config a b /\
  sd_accepted b = [(SendReliable, [9])] /\ packets (h_log (sd_host a)) = [[9]] /\
  delivered_between a b /\ delivered_between b a.
Proof.
  destruct example_traffic as (a & b & Hcn & Ha & Hb & Ha' & Hb' & Hna & Hnb). exists a, b.
  split; [exact Hcn|]. split; [exact Ha'|]. split; [exact Hb'|].
  apply (end_to_end example_config example_config a b example_config_ok example_config_ok Hcn).
  - apply (example_bounded a _ _ Ha Hna); [lia|by vm_compute|by vm_compute].
  - apply (example_bounded b _ _ Ha' Hnb); [lia|by vm_compute|by vm_compute].
Defined.

(** ** Packets that never arrive *)

(** What the host of a side does while neither its application nor the network has anything
    for it: it flushes at any time, and handles the timer if it is set. *)
Inductive waits (a : side) : side -> Prop :=
| wt_call c now' e' h' : c = CFlush \/ c = CTimer -> sd_now a <= now' <= TIME_MAX ->
    call_ok (armed (sd_host a)) (sd_endpoint a) c -> invoke (sd_endpoint a) c now' (sd_host a) = Ok (e', h') ->
    waits a (mkSide now' e' h' (sd_accepted a)).

(** Nothing is to be sent and no timer is set. *)
Definition dormant (s : side) : Prop := nothing_to_send (sd_endpoint s) /\ armed (sd_host s) = false.

Lemma dormant_waits a a' : dormant a -> waits a a' -> dormant a' /\ sd_host a' = sd_host a.
Proof.
  intros [Hn Ha] [c now' e' h' [->| ->] _ Hc Hi]; [|by cbn [call_ok] in Hc; congruence].
  cbn [invoke] in Hi. destruct (flush_idle (sd_endpoint a) now' (sd_host a) Hn) as (e1 & Hf & Hn1).
  rewrite Hf in Hi. injection Hi as <- <-. by split.
Qed.

Lemma dormant_for_good a a' : dormant a -> rtc waits a a' -> sd_host a' = sd_host a.
Proof.
  intros Hd Hw. revert Hd. induction Hw as [a|a a1 a' H1 _ IH]; intros Hd; [done|].
  destruct (dormant_waits a a1 Hd H1) as [Hd1 <-]. by apply IH.
Qed.

(** The frames that reach a side in a run, by their places among those its peer sends. *)
Definition arrivals (s : bool) (xs : list (bool * Z * action)) : list nat :=
  omap (fun x => match x with (s', _, Arrive n) => if eqb s s' then Some n else None | _ => None end) xs.

(** Six reliable packets in a segment each; all segments but the third reach the other side, and
    all its acknowledgements come back. *)
Definition stall_run : list (bool * Z * action) :=
  (true, 0, Do CInit) :: (false, 0, Do CInit) ::
  ([1; 2; 3; 4; 5; 6] ≫= fun k => [(true, 0, Do (CEnqueue [k] SendReliable)); (true, 0, Do CFlush)]) ++
  map (fun n => (false, 50, Arrive n)) [0; 1; 3; 4; 5]%nat ++
  map (fun n => (true, 100, Arrive n)) [0; 1; 2]%nat.

Definition observe_side (s : side) :=
  (Endpoint.state_id (sd_endpoint s), UnreliableTxBuffer.fragments (unrel (fragment_tx (sd_endpoint s))),
   ReliableTxBuffer.peek_sendable (rel (fragment_tx (sd_endpoint s))), armed (sd_host s),
   length (frames (h_log (sd_host s))), packets (h_log (sd_host s)), reliable_packets (sd_accepted s)).

Lemma dormant_observed s l k m : observe_side s = (Active, [], None, false, l, k, m) ->
  dormant s /\ length (frames (h_log (sd_host s))) = l /\ packets (h_log (sd_host s)) = k /\
  reliable_packets (sd_accepted s) = m.
Proof. intros [= Hs Hu Hr Ha Hl Hk Hm]. by repeat split. Qed.

(** C39: Reliable delivery can stall for good.  In one run of a connection (a debug build, the
    default priorities) six reliable packets are sent in a segment each; every frame that
    either side sends reaches the other once, except the third segment, which is lost.  The
    receiver has then delivered two packets and misses four, and from there on, however long
    both hosts wait, flushing when they like and handling their timers, nothing happens: no
    frame is ever sent by either side, no packet delivered and no timeout reported, unless an
    application queues more data.  The last acknowledgement named the newest segment, which
    stops the retransmission timer, and the missing fragment was asked for only twice, where
    a resend takes three repetitions. *)
Theorem reliable_delivery_stalls :
  exists a b, start_pair example_config stall_run = Some (a, b) /\ connection example_config example_config a b /\
    length (frames (h_log (sd_host a))) = 6%nat /\ arrivals false stall_run = [0; 1; 3; 4; 5]%nat /\
    arrivals true stall_run = seq 0 (length (frames (h_log (sd_host b)))) /\
    reliable_packets (sd_accepted a) = [[1]; [2]; [3]; [4]; [5]; [6]] /\ packets (h_log (sd_host b)) = [[1]; [2]] /\
    forall a' b', rtc waits a a' -> rtc waits b b' -> sd_host a' = sd_host a /\ sd_host b' = sd_host b.
Proof.
  destruct (start_pair example_config stall_run) as [[a b]|] eqn:Hrun; [|by vm_compute in Hrun].
  assert (Ho : (fun r => (observe_side r.1, observe_side r.2)) <$> start_pair example_config stall_run =
    Some ((Active, [], None, false, 6%nat, [], [[1]; [2]; [3]; [4]; [5]; [6]]),
          (Active, [], None, false, 3%nat, [[1]; [2]], []))) by (vm_compute; reflexivity).
  rewrite Hrun in Ho. cbn [fmap option_fmap option_map fst snd] in Ho.
  apply (inj Some), pair_eq in Ho as [Ha Hb].
  apply dormant_observed in Ha as (Hda & Hla & _ & Hpa), Hb as (Hdb & Hlb & Hkb & _).
  exists a, b. split; [done|]. split; [exact (start_pair_connection _ _ a b Hrun)|]. rewrite Hlb.
  do 5 (split; [done|]).
  intros a' b' Hwa Hwb. split; by apply dormant_for_good.
Qed.
