(* ===== verification/Handshake.v ===== *)
(** * The frames of the handshake

    The four frames that clients and servers exchange before a connection exists, as each
    side writes them and as the other side finds them: the first request is padded to the
    largest frame size, the other three are exact. *)

From S2P Require Import Prelude Word Crc Frame Serial SerialFacts FrameFacts.

(** What a frame is taken for: its type, and the payload behind it. *)
Record carries `{BuildProfile} (f : list Z) (t : FrameType) (p : list Z) : Prop := {
  ca_size : verify_minimum_size f = true;
  ca_type : read_type f = Ok (Some t);
  ca_payload : payload f = Ok p;
  ca_bytes : Forall is_u8 f;
}.

Section Handshake.
Context `{BuildProfile}.

Lemma sealed_carries {A} `{SimpleFrame A} `{BlockSerialOk A} (a : A) : block_valid a ->
  carries (sealed a) (FRAME_TYPE A) (block_encode a) /\ verify_crc (sealed a) = Ok true.
Proof.
  intros Hv. destruct (sealed_checks a Hv) as (Hm & Hc & Ht & Hp). split; [|done].
  split; try done. by apply sealed_u8.
Qed.

(** ** The padded request *)

Definition ALPHA_PAD : Z := HANDSHAKE_ALPHA_FRAME_SIZE_MAX - (HANDSHAKE_ALPHA_SIZE + FRAME_OVERHEAD_SIZE).
Definition padded (a : HandshakeAlphaFrame) : list Z := sealed a ++ replicate (Z.to_nat ALPHA_PAD) 0.

Lemma padded_length a : zlen (padded a) = HANDSHAKE_ALPHA_FRAME_SIZE_MAX.
Proof. unfold padded. rewrite zlen_app, sealed_length. by vm_compute. Qed.

Lemma write_padded a : block_valid a ->
  write_handshake_alpha a HANDSHAKE_ALPHA_FRAME_SIZE_MAX = Ok (padded a).
Proof.
  intros Hv. unfold write_handshake_alpha. rewrite Z.min_id.
  set (buffer := replicate (Z.to_nat HANDSHAKE_ALPHA_FRAME_SIZE_MAX) 0).
  assert (Hb : zlen buffer = HANDSHAKE_ALPHA_FRAME_SIZE_MAX) by by vm_compute.
  destruct (simple_frame_parts a buffer Hv) as (wr1 & wr2 & Hn & Hw & Hf); [by rewrite Hb|].
  change HandshakeAlpha with (FRAME_TYPE HandshakeAlphaFrame). rewrite Hn. cbn [mbind outcome_bind].
  rewrite Hw. cbn [mbind outcome_bind]. rewrite Hf. cbn [mbind outcome_bind].
  unfold padded, sealed. do 2 f_equal.
Qed.

Lemma padded_prefix a : index_range (padded a) 0 (HANDSHAKE_ALPHA_SIZE + FRAME_OVERHEAD_SIZE) = Ok (sealed a).
Proof.
  pose proof (padded_length a) as Hl. pose proof (sealed_length a) as Hs.
  change (block_size HandshakeAlphaFrame) with HANDSHAKE_ALPHA_SIZE in Hs.
  rewrite index_range_ok by (rewrite ?Hl; sizes; lia). rewrite <- Hs.
  unfold slice, padded, zlen. by rewrite Z.sub_0_r, Nat2Z.id, drop_0, take_app_length.
Qed.

(** The server's checks of a padded request. *)
Lemma padded_checks a : block_valid a ->
  (exists r, carries (padded a) HandshakeAlpha (block_encode a ++ r)) /\
  verify_handshake_alpha_size_and_crc (padded a) HANDSHAKE_ALPHA_FRAME_SIZE_MAX = Ok true.
Proof.
  intros Hv. destruct (sealed_checks a Hv) as (Hm & Hc & Ht & Hp).
  assert (Hmin : verify_minimum_size (padded a) = true)
    by (unfold verify_minimum_size; rewrite padded_length; done).
  split; [exists (to_le_bytes (compute (frame_type_bits HandshakeAlpha :: block_encode a)) ++ replicate 1457 0);
    split|].
  - done.
  - unfold read_type. by rewrite (debug_assert_true _ Hmin).
  - rewrite <- (payload_split (frame_type_bits HandshakeAlpha) _ (replicate 4 0)) by done. f_equal.
  - apply Forall_app. split; [by apply sealed_u8|]. by apply Forall_replicate.
  - unfold verify_handshake_alpha_size_and_crc. rewrite padded_length, Z.min_id, Z.eqb_refl, padded_prefix. exact Hc.
Qed.

(** ** The second request *)

Lemma beta_checks (a : HandshakeBetaFrame) : block_valid a ->
  verify_handshake_beta_size_and_crc (sealed a) = Ok true.
Proof.
  intros Hv. destruct (sealed_checks a Hv) as (_ & Hc & _).
  unfold verify_handshake_beta_size_and_crc. rewrite sealed_length.
  by change (block_size HandshakeBetaFrame) with HANDSHAKE_BETA_SIZE; rewrite Z.eqb_refl.
Qed.
End Handshake.
