(* ===== verification/World.v ===== *)
(** * The machine under a client or a server

    The clock, the random number generators and the errors of a connection ([ErrorKind] of
    [lib.rs], [server/epoch.rs]).  The clock and the generators belong to the operating
    system and to the [rand] crate: a world fixes what each future reading and draw will
    give, and counts the ones already made; the theorems hold for every world whose clock
    does not run backwards. *)

From S2P Require Import Prelude Word Endpoint EndpointFacts.

(** [ErrorKind]. *)
Inductive ErrorKind : Set :=
| Timeout
| CapacityError
| ParameterError.

#[export] Instance error_kind_eq_dec : EqDecision ErrorKind.
Proof. solve_decision. Defined.

(** What the [n]-th reading of the monotonic clock gives, in nanoseconds since the time
    base of the client or server; what the [n]-th [rand::random] of a [bool], of a [u32] and
    of a [u8] gives. *)
Record World : Type := mkWorld {
  clock : nat -> Z;
  readings : nat;
  bits : nat -> bool;
  bits_drawn : nat;
  words : nat -> Z;
  words_drawn : nat;
  octets : nat -> Z;
  octets_drawn : nat;
}.

Definition NANOS_PER_MILLI : Z := 1000000.

(** [Instant::now() - time_base] as a [Duration] in nanoseconds. *)
Definition elapsed (w : World) : Z * World :=
  (clock w (readings w), mkWorld (clock w) (S (readings w)) (bits w) (bits_drawn w) (words w) (words_drawn w)
    (octets w) (octets_drawn w)).

(** [elapsed().as_millis() as u64]. *)
Definition time_now_ms (w : World) : Z * World :=
  let '(t, w) := elapsed w in ((t / NANOS_PER_MILLI) mod two64, w).

Definition random_bool (w : World) : bool * World :=
  (bits w (bits_drawn w), mkWorld (clock w) (readings w) (bits w) (S (bits_drawn w)) (words w) (words_drawn w)
    (octets w) (octets_drawn w)).

Definition random_u32 (w : World) : Z * World :=
  (words w (words_drawn w), mkWorld (clock w) (readings w) (bits w) (bits_drawn w) (words w) (S (words_drawn w))
    (octets w) (octets_drawn w)).

Definition random_u8 (w : World) : Z * World :=
  (octets w (octets_drawn w), mkWorld (clock w) (readings w) (bits w) (bits_drawn w) (words w) (words_drawn w)
    (octets w) (S (octets_drawn w))).

(** ** Well-behaved worlds *)

(** The clock does not run backwards and stays far from the end of its range; random words
    are words. *)
Record world_ok (w : World) : Prop := {
  wo_start : 0 <= clock w (readings w);
  wo_clock i j : (i <= j)%nat -> clock w i <= clock w j;
  wo_end i : clock w i <= TIME_MAX * NANOS_PER_MILLI;
  wo_words i : is_u32 (words w i);
  wo_octets i : is_u8 (octets w i);
}.

(** The time the next reading gives. *)
Definition now (w : World) : Z := clock w (readings w) / NANOS_PER_MILLI.

Lemma now_range w : world_ok w -> 0 <= now w <= TIME_MAX.
Proof.
  intros [H0 _ He _ _]. specialize (He (readings w)). unfold now, NANOS_PER_MILLI in *. split.
  - apply Z.div_pos; lia.
  - apply Z.div_le_upper_bound; lia.
Qed.

Lemma time_now_ms_now w : world_ok w ->
  exists w', time_now_ms w = (now w, w') /\ world_ok w' /\ now w <= now w'.
Proof.
  intros Hw. pose proof (now_range w Hw). unfold TIME_MAX in *. eexists.
  unfold time_now_ms, elapsed. fold (now w). rewrite Z.mod_small by (unfold two64; lia).
  split; [reflexivity|]. destruct Hw as [H0 Hc He Hr Ho].
  pose proof (Hc (readings w) (S (readings w)) ltac:(lia)) as Hs.
  split; [split; try done; cbn; lia|]. unfold now. cbn. by apply Z.div_le_mono.
Qed.

Lemma elapsed_ok w : world_ok w -> world_ok (elapsed w).2 /\ now w <= now (elapsed w).2.
Proof.
  intros [H0 Hc He Hr Ho]. pose proof (Hc (readings w) (S (readings w)) ltac:(lia)) as Hs.
  split; [split; try done; cbn; lia|]. unfold now. cbn. by apply Z.div_le_mono.
Qed.

Lemma random_bool_ok w : world_ok w -> world_ok (random_bool w).2 /\ now (random_bool w).2 = now w.
Proof. intros []. by split. Qed.

Lemma random_u32_ok w : world_ok w ->
  is_u32 (random_u32 w).1 /\ world_ok (random_u32 w).2 /\ now (random_u32 w).2 = now w.
Proof. intros [? ? ? Hr ?]. split; [apply Hr|]. by split. Qed.

Lemma random_u8_ok w : world_ok w ->
  is_u8 (random_u8 w).1 /\ world_ok (random_u8 w).2 /\ now (random_u8 w).2 = now w.
Proof. intros [? ? ? ? Ho]. split; [apply Ho|]. by split. Qed.

(** ** A host's timer *)

Definition timer_event (timer : option Z) (ev : event) : option Z :=
  match ev with EvSetTimer t => Some t | EvUnsetTimer => None | _ => timer end.
Definition timer_after (timer : option Z) (evs : list event) : option Z := fold_left timer_event evs timer.

Lemma timer_after_arm timer evs :
  bool_decide (is_Some (timer_after timer evs)) = arm (bool_decide (is_Some timer)) evs.
Proof.
  revert timer. induction evs as [|ev evs IH]; intros timer; [done|].
  cbn [timer_after arm fold_left]. fold (timer_after (timer_event timer ev) evs).
  fold (arm (arm_event (bool_decide (is_Some timer)) ev) evs). rewrite IH. by destruct ev.
Qed.

Definition sent_frames (evs : list event) : list (list Z) :=
  omap (fun ev => match ev with EvSend f => Some f | _ => None end) evs.

(** The world after a host has seen some events. *)
Definition world_event (w : World) (ev : event) : World :=
  match ev with EvRandom => (random_bool w).2 | _ => w end.
Definition world_after (w : World) (evs : list event) : World := fold_left world_event evs w.

Lemma world_after_ok w evs : world_ok w -> world_ok (world_after w evs) /\ now (world_after w evs) = now w.
Proof.
  revert w. induction evs as [|ev evs IH]; intros w Hw; [done|].
  cbn [world_after fold_left]. fold (world_after (world_event w ev) evs).
  assert (Hs : world_ok (world_event w ev) /\ now (world_event w ev) = now w).
  { destruct ev; try done. by apply random_bool_ok. }
  destruct Hs as [Hs Hn]. destruct (IH _ Hs) as [H1 H2]. split; [done|congruence].
Qed.

(** ** An example *)

(** A clock that ticks once a millisecond for an hour. *)
Definition example_world (start : Z) : World :=
  mkWorld (fun n => Z.min (start + Z.of_nat n) 3600000 * NANOS_PER_MILLI) 0 (fun _ => true) 0 (fun _ => 7)
    0 (fun _ => 0) 0.

Lemma example_world_ok start : 0 <= start <= 3600000 -> world_ok (example_world start).
Proof.
  intros Hs. unfold example_world.
  split; intros; cbn [clock readings words octets]; unfold NANOS_PER_MILLI, TIME_MAX, is_u32, two32, is_u8, two8; lia.
Qed.
