(* ===== verification/EndpointTimeout.v ===== *)
(** * A silent peer is given up

    From every state of an open connection in which the timer runs (a segment is in flight, or
    the endpoint is closing), a host that does nothing
    but wait for its timer sees the connection end after a bounded number of calls and a
    bounded time, whatever is queued and whatever the random numbers are. *)

From S2P Require Import Prelude Word SegmentTx CongestionControl Prio Frame Serial SerialFacts.
From S2P Require Import FrameFacts.
From S2P Require Import Endpoint FragmentTxFacts EndpointFacts EndpointSafety EndpointMachine.
From S2P Require Import EndpointTimer EndpointSession World.

Import Endpoint.

(** The time the host's timer is set for. *)
Definition deadline (h : Host) : option Z := timer_after None (h_log h).

Section Silence.
Context `{BuildProfile}.

(** The host waits for its timer [n] times and hears nothing from the peer. *)
Fixpoint silence (n : nat) (now : Z) (e : Endpoint) (h : Host) : option (Z * Endpoint * Host) :=
  match n with
  | O => Some (now, e, h)
  | S n =>
      d ← deadline h;
      match invoke e CTimer (Z.max now d) h with
      | Ok (e', h') => silence n (Z.max now d) e' h'
      | Fault _ => None
      end
  end.

(** ** What leaves a running timer alone *)

Definition untouched_timer (e : Endpoint) (h : Host) (e' : Endpoint) (h' : Host) : Prop :=
  rto_timer_state e' = rto_timer_state e /\ deadline h' = deadline h /\ state_id e' = state_id e /\
    config e' = config e.

Lemma untouched_timer_trans e1 h1 e2 h2 e3 h3 : untouched_timer e1 h1 e2 h2 -> untouched_timer e2 h2 e3 h3 ->
  untouched_timer e1 h1 e3 h3.
Proof. intros (?&?&?&?) (?&?&?&?). split_and!; congruence. Qed.

Lemma deadline_record ev h : match ev with EvSetTimer _ | EvUnsetTimer => False | _ => True end ->
  deadline (record ev h) = deadline h.
Proof. intros Hev. unfold deadline, timer_after, record. cbn [h_log]. rewrite fold_left_app. by destruct ev. Qed.

Lemma deadline_set t h : deadline (record (EvSetTimer t) h) = Some t.
Proof. unfold deadline, timer_after, record. cbn [h_log]. by rewrite fold_left_app. Qed.

Lemma write_segment_timer e wr now h e' wr' h' : is_Some (rto_timer_state e) ->
  write_segment e wr now h = Ok (e', wr', h') -> untouched_timer e h e' h'.
Proof.
  intros [ts Hts]. unfold write_segment. destruct (rand_random h) as [nonce h1] eqn:Er.
  assert (Hd : deadline h1 = deadline h) by (injection Er as <- <-; exact (deadline_record EvRandom h I)).
  intros Hr. apply outcome_bind_Ok in Hr as (s1 & _ & Hr). apply outcome_bind_Ok in Hr as ([wr1 b] & _ & Hr).
  apply outcome_bind_Ok in Hr as ([[ft wr2] n] & _ & Hr). apply outcome_bind_Ok in Hr as ([] & _ & Hr).
  apply outcome_bind_Ok in Hr as (s2 & _ & Hr). cbn [rto_timer_state set_segment_tx set_fragment_tx] in Hr.
  rewrite Hts in Hr.
  cbn [mbind outcome_bind] in Hr. apply outcome_bind_Ok in Hr as (e4 & H4 & [= <- _ <-]).
  destruct (rtt_timer_state _); [by injection H4 as <-|]. by apply outcome_bind_Ok in H4 as (t & _ & [= <-]).
Qed.

Lemma flush_step_timer (a r : bool) e now h e' h' more : is_Some (rto_timer_state e) ->
  flush_step a r e now h = Ok (e', h', more) -> untouched_timer e h e' h'.
Proof.
  intros Hts. unfold flush_step. destruct (ftx_data_ready _ _) as [ft ready]. case_bool; [|by intros [= <- <- _]].
  intros Hr.
  apply outcome_bind_Ok in Hr as (t & _ & Hr). apply outcome_bind_Ok in Hr as (wr & _ & Hr).
  apply outcome_bind_Ok in Hr as (wr1 & _ & Hr). apply outcome_bind_Ok in Hr as ([[e2 wr2] h2] & Hseg & Hr).
  apply outcome_bind_Ok in Hr as ([f buf] & _ & [= <- <- _]).
  assert (Hs : untouched_timer e h e2 h2).
  { revert Hseg. case_bool; [|by intros [= <- _ <-]]. by apply (write_segment_timer (set_fragment_tx ft e)). }
  eapply untouched_timer_trans; [exact Hs|]. split; [done|]. split; [by apply deadline_record|done].
Qed.

Lemma flush_loop_timer r now fuel : forall (a : bool) e h e' h', is_Some (rto_timer_state e) ->
  flush_loop fuel a r e now h = Ok (e', h') -> untouched_timer e h e' h'.
Proof.
  induction fuel as [|fuel IH]; intros a e h e' h' Hts; cbn [flush_loop]; [done|]. intros Hr.
  apply outcome_bind_Ok in Hr as ([[e1 h1] more] & Hs & Hr). pose proof (flush_step_timer _ _ _ _ _ _ _ _ Hts Hs)
    as Hst.
  destruct more; [|by injection Hr as <- <-]. eapply untouched_timer_trans; [exact Hst|]. eapply IH; [|exact Hr].
  destruct Hst as (-> & _). done.
Qed.

Lemma flush_stream_timer (a r : bool) e now h e' h' : is_Some (rto_timer_state e) ->
  flush_stream e a r now h = Ok (e', h') -> untouched_timer e h e' h'.
Proof. apply flush_loop_timer. Qed.

(** ** One timeout *)

Lemma advanced now e ts : ep_inv now e -> state_id e <> Zombie -> rto_timer_state e = Some ts ->
  advance_rto_sum e = Ok (mkRtoTimerState (rts_rto_ms ts) (rts_rto_sum_ms ts + rts_rto_ms ts)) /\
  RTO_MIN_MS <= rts_rto_ms ts <= RTO_MAX_MS /\ 0 <= rts_rto_sum_ms ts <= timeout_time_ms (config e).
Proof.
  intros Hi Hz Hts. pose proof (ei_rto_timer _ _ Hi) as Hr. rewrite Hts in Hr. destruct Hr as (Hr & Hs & Hmax).
  specialize (Hmax Hz).
  pose proof (ei_timeout _ _ Hi). split; [|done]. unfold advance_rto_sum. rewrite Hts.
  unfold TIME_MAX, RTO_MIN_MS, RTO_MAX_MS in *.
  by rewrite add64_ok by (unfold two64; lia).
Qed.

(** What the timer does to an open connection: it ends it, or backs off. *)
Lemma timeout_step now e h ts e' h' : ep_inv now e -> open_state (state_id e) -> rto_timer_state e = Some ts ->
  invoke e CTimer now h = Ok (e', h') ->
  let sum := rts_rto_sum_ms ts + rts_rto_ms ts in
  if timeout_time_ms (config e) <=? sum then state_id e' = Zombie /\ h' = record EvTimeout h
  else rto_timer_state e' = Some (mkRtoTimerState (doubled_rto e) sum) /\ deadline h' = Some (now + doubled_rto e) /\
    state_id e' = state_id e /\ config e' = config e.
Proof.
  intros Hi Ho Hts Hr. cbn [invoke] in Hr. apply outcome_bind_Ok in Hr as ([[e1 h1] act] & Hr & [= <- <-]).
  assert (Hz : state_id e <> Zombie) by (destruct Ho as [-> | ->]; done).
  destruct (advanced now e ts Hi Hz Hts) as (Hadv & Hrto & Hsum). unfold RTO_MIN_MS in Hrto.
  set (ts' := mkRtoTimerState _ _) in Hadv. change (rts_rto_sum_ms ts + rts_rto_ms ts) with (rts_rto_sum_ms ts').
  assert (Hpos : 0 <= rts_rto_sum_ms ts') by (cbn; lia). cbv zeta. unfold handle_rto_timer in Hr. clearbody ts'.
  destruct Ho as [Es|Es]; rewrite Es, Hadv in Hr; cbn [mbind outcome_bind config set_rto_timer_state] in Hr.
  - destruct (timeout_time_ms (config e) <=? rts_rto_sum_ms ts') eqn:Eto; [by injection Hr as <- <- _|].
    apply Z.leb_gt in Eto.
    destruct (back_off_ok now e ts' h Hi) as (Hb & _); [lia|]. rewrite Hb in Hr. cbn [mbind outcome_bind] in Hr.
    apply outcome_bind_Ok in Hr as (cc & _ & Hr). apply outcome_bind_Ok in Hr as ([e4 h4] & H4 & Hr).
    apply outcome_bind_Ok in Hr as ([e5 h5] & H5 & [= <- <- _]). unfold send_stream_sync_frame in H4.
    apply outcome_bind_Ok in H4 as ([f buf] & _ & [= <- <-]).
    apply flush_stream_timer in H5 as (E1 & E2 & E3 & E4); [|by eexists].
    cbn in E1, E3, E4. rewrite E1, E2, E3, E4. split; [done|]. split; [|done].
    cbn [send_frame set_rto_timer host_context]. rewrite deadline_record by done. apply deadline_set.
  - destruct (timeout_time_ms (config e) <=? rts_rto_sum_ms ts') eqn:Eto; [by injection Hr as <- <- _|].
    apply Z.leb_gt in Eto.
    destruct (back_off_ok now e ts' h Hi) as (Hb & _); [lia|]. rewrite Hb in Hr. cbn [mbind outcome_bind] in Hr.
    apply outcome_bind_Ok in Hr as ([e4 h4] & H4 & [= <- <- _]). unfold send_close_frame in H4.
    apply outcome_bind_Ok in H4 as ([f buf] & _ & [= <- <-]). split; [done|]. split; [|done].
    cbn [send_frame set_rto_timer host_context]. rewrite deadline_record by done. apply deadline_set.
Qed.

(** ** Until the end *)

(** What is left of the timeout after the coming call. *)
Definition remaining (e : Endpoint) (ts : RtoTimerState) : Z :=
  timeout_time_ms (config e) - (rts_rto_sum_ms ts + rts_rto_ms ts).

Lemma timeout_once cfg now e h d ts : config_ok cfg -> reachable cfg now e h -> open_state (state_id e) ->
  deadline h = Some d -> rto_timer_state e = Some ts -> Z.max now d <= TIME_MAX ->
  exists e1 h1, invoke e CTimer (Z.max now d) h = Ok (e1, h1) /\ reachable cfg (Z.max now d) e1 h1 /\
    if remaining e ts <=? 0 then state_id e1 = Zombie /\ last (h_log h1) = Some EvTimeout
    else exists ts1 r, rto_timer_state e1 = Some ts1 /\ deadline h1 = Some (Z.max now d + r) /\
      open_state (state_id e1) /\
      RTO_MIN_MS <= r <= RTO_MAX_MS /\ remaining e1 ts1 = remaining e ts - r.
Proof.
  intros Hcfg Hr Ho Hd Hts Hmax. destruct (reachable_facts cfg _ _ _ Hcfg Hr) as (Hi & Htm & _).
  assert (Hle : now <= Z.max now d <= TIME_MAX) by (split; [apply Z.le_max_l|done]).
  pose proof (ep_inv_later now _ e Hi Hle) as Hi1.
  assert (Harm : armed h = true) by (unfold armed; rewrite <- (timer_after_arm None), bool_decide_eq_true;
    by exists d).
  destruct (call_stepped _ e CTimer h (armed h) Hi1 Htm Harm) as (e1 & evs & Hinv & _ & _).
  pose proof (timeout_step _ e h ts e1 _ Hi1 Ho Hts Hinv) as Hstep. cbv zeta in Hstep.
  exists e1, (performs h evs). split; [done|]. split; [exact (reach_call cfg now e h CTimer _ _ _ Hr Hle Harm
    Hinv)|]. unfold remaining.
  destruct (Z.leb_spec (timeout_time_ms (config e)) (rts_rto_sum_ms ts + rts_rto_ms ts)),
    (Z.leb_spec (timeout_time_ms (config e) - (rts_rto_sum_ms ts + rts_rto_ms ts)) 0); try lia.
  - destruct Hstep as [Hz ->]. split; [done|]. cbn [record h_log]. by rewrite last_snoc.
  - destruct Hstep as (Hts1 & Hd1 & Hs1 & Hc1). exists (mkRtoTimerState (doubled_rto e)
      (rts_rto_sum_ms ts + rts_rto_ms ts)), (doubled_rto e).
    rewrite Hs1, Hc1. split; [done|]. split; [done|]. split; [done|]. split; [apply clamp_range|].
    cbn [rts_rto_sum_ms rts_rto_ms]. lia.
Qed.

(** With [k] seconds left after the coming call. *)
Lemma silence_ends cfg : config_ok cfg -> forall k now e h d ts, reachable cfg now e h -> open_state (state_id e) ->
  deadline h = Some d -> rto_timer_state e = Some ts ->
  remaining e ts <= RTO_MIN_MS * Z.of_nat k -> Z.max now d + Z.max 0 (remaining e ts + RTO_MAX_MS) <= TIME_MAX ->
  exists n t e' h', (n <= S k)%nat /\ silence n now e h = Some (t, e', h') /\
    t <= Z.max now d + Z.max 0 (remaining e ts + RTO_MAX_MS) /\ state_id e' = Zombie /\
      last (h_log h') = Some EvTimeout.
Proof.
  intros Hcfg. induction k as [|k IH]; intros now e h d ts Hr Ho Hd Hts Hk Hend;
    (destruct (timeout_once cfg now e h d ts Hcfg Hr Ho Hd Hts ltac:(lia)) as (e1 & h1 & Hinv & Hr1 & Hstep));
    (destruct (Z.leb_spec (remaining e ts) 0) as [Hle|Hgt];
      [destruct Hstep as [Hz Hl]; exists 1%nat, (Z.max now d), e1, h1; split; [lia|];
       split; [cbn [silence]; rewrite Hd; cbn [mbind option_bind]; by rewrite Hinv|split; [lia|done]]|]); [lia|].
  destruct Hstep as (ts1 & r & Hts1 & Hd1 & Ho1 & Hrto & Hrem). unfold RTO_MIN_MS, RTO_MAX_MS in *.
  destruct (IH _ e1 h1 _ ts1 Hr1 Ho1 Hd1 Hts1) as (n & t & e' & h' & Hn & Hsil & Ht & Hdone); [lia|lia|].
  exists (S n), t, e', h'. split; [lia|]. split; [cbn [silence]; rewrite Hd; cbn [mbind option_bind];
    by rewrite Hinv|].
  split; [lia|done].
Qed.

Lemma running_timer_ends cfg now e h d : config_ok cfg -> reachable cfg now e h -> open_state (state_id e) ->
  deadline h = Some d -> Z.max now d + timeout_time_ms (config e) + RTO_MAX_MS <= TIME_MAX ->
  exists n t e' h', Z.of_nat n <= timeout_time_ms (config e) / 1000 + 1 /\ silence n now e h = Some (t, e', h') /\
    t <= Z.max now d + timeout_time_ms (config e) + RTO_MAX_MS /\ state_id e' = Zombie /\
      last (h_log h') = Some EvTimeout.
Proof.
  intros Hcfg Hr Ho Hd Hend. destruct (reachable_facts cfg _ _ _ Hcfg Hr) as (Hi & Htm & _).
  assert (Harm : armed h = true) by (unfold armed; rewrite <- (timer_after_arm None), bool_decide_eq_true;
    by exists d).
  assert (Hts : is_Some (rto_timer_state e)).
  { apply (bool_decide_eq_true (is_Some (rto_timer_state e))). change (has_timer e = true). rewrite Harm in Htm.
    unfold timer_ok in Htm. destruct Ho as [Es|Es]; rewrite Es in Htm; [done|apply Htm]. }
  destruct Hts as [ts Hts]. assert (Hz : state_id e <> Zombie) by (destruct Ho as [-> | ->]; done).
  destruct (advanced now e ts Hi Hz Hts) as (_ & Hrto & Hsum). pose proof (ei_timeout _ _ Hi) as Hto.
  assert (Hq : 0 <= timeout_time_ms (config e) / 1000) by (apply Z.div_pos; lia).
  destruct (silence_ends cfg Hcfg (Z.to_nat (timeout_time_ms (config e) / 1000)) now e h d ts Hr Ho Hd Hts)
    as (n & t & e' & h' & Hn & Hsil & Ht & Hdone); unfold remaining, RTO_MIN_MS, RTO_MAX_MS in *.
  - rewrite Z2Nat.id by done. pose proof (Z.mod_pos_bound (timeout_time_ms (config e)) 1000).
    pose proof (Z.div_mod (timeout_time_ms (config e)) 1000). lia.
  - lia.
  - exists n, t, e', h'. split; [|split; [done|split; [lia|done]]].
    rewrite <- (Z2Nat.id (timeout_time_ms (config e) / 1000)) by done. lia.
Qed.

(** C20: A peer that is silent while something is owed by it is given up.  If a segment is in
    flight, or the endpoint is closing, then the timer runs, and a host that hears nothing
    and only waits for its timer finds the connection ended, with the timeout as the last
    thing the application is told, after at most one call per second of the configured
    timeout and one more, and no later than the timeout and a minute after the call that is
    due.  With no segment in flight an active endpoint has no timer set, so an idle
    connection is not given up. *)
Theorem silent_peer_given_up cfg now e h : config_ok cfg -> reachable cfg now e h ->
  (state_id e = Active -> segments_in_flight e = 0 -> deadline h = None) /\
  (state_id e = Closing \/ state_id e = Active /\ 0 < segments_in_flight e -> exists d, deadline h = Some d /\
     (Z.max now d + timeout_time_ms (config e) + RTO_MAX_MS <= TIME_MAX ->
      exists n t e' h', Z.of_nat n <= timeout_time_ms (config e) / 1000 + 1 /\
        silence n now e h = Some (t, e', h') /\ t <= Z.max now d + timeout_time_ms (config e) + RTO_MAX_MS /\
        state_id e' = Zombie /\ last (h_log h') = Some EvTimeout)).
Proof.
  intros Hcfg Hr. assert (Hdl : armed h = bool_decide (is_Some (deadline h))) by (symmetry;
    apply (timer_after_arm None)).
  split.
  - intros Ha Hf. rewrite (armed_in_flight cfg now e h Hcfg Hr Ha), Hf in Hdl. by destruct (deadline h).
  - intros Hs. assert (Ho : open_state (state_id e)) by (destruct Hs as [->|[-> _]]; [by right|by left]).
    assert (Harm : armed h = true).
    { destruct Hs as [Hs|[Ha Hf]]; [|rewrite (armed_in_flight cfg now e h Hcfg Hr Ha); by apply Z.ltb_lt].
      destruct (reachable_facts cfg now e h Hcfg Hr) as (_ & Ht & _). unfold timer_ok in Ht. rewrite Hs in Ht.
      by destruct Ht. }
    rewrite Harm in Hdl. destruct (deadline h) as [d|] eqn:Hd; [|done]. exists d. split; [done|].
    by apply (running_timer_ends cfg).
Qed.
End Silence.

#[local] Instance timeout_debug_build : BuildProfile := true.

(** The example of [EndpointSession], and what silence does to it. *)
Lemma silent_peer_given_up_witness : exists now e h d,
  reachable example_config now e h /\ state_id e = Active /\ 0 < segments_in_flight e /\ deadline h = Some d /\
  exists n t e' h', Z.of_nat n <= 11 /\ silence n now e h = Some (t, e', h') /\
    t <= Z.max now d + 70000 /\ state_id e' = Zombie /\ last (h_log h') = Some EvTimeout.
Proof.
  destruct (start_observe example_config (fun _ => true) example_calls
    (fun r => (state_id r.1.2, config r.1.2, r.1.1, segments_in_flight r.1.2, deadline r.2))
    (Active, example_config, 7, 1, Some 1007)) as ([[now e] h] & Hr & Ho); [vm_compute; reflexivity|].
  cbn [fst snd] in *. injection Ho as Hs Hc -> Hf Hd. exists 7, e, h, 1007.
  split; [exact Hr|]. split; [exact Hs|]. split; [rewrite Hf; lia|]. split; [exact Hd|].
  destruct (silent_peer_given_up example_config 7 e h example_config_ok Hr) as [_ Hg].
  destruct Hg as (d & Hd' & Hend); [right; split; [exact Hs|rewrite Hf; lia]|].
  rewrite Hd in Hd'. injection Hd' as <-. rewrite Hc in Hend. apply Hend. vm_compute. discriminate.
Defined.
