(* ===== verification/Client.v ===== *)
(** * The client ([client.rs])

    A client is in its handshake, active with an endpoint, or quiescent.  [ClientCore] keeps
    the saved configuration, the state, the one timer and the queue of events; [socket_tx]
    is the list of frames handed to the socket so far and [world] the clock and the random
    numbers.  What the receiving socket yields is an argument: the frames that can be read
    before it would block. *)

From S2P Require Import Prelude Word Frame Serial Prio Endpoint World.

Module Client.
Definition FRAME_SIZE_MAX : Z := 1472.
Definition HANDSHAKE_TIMEOUT_DEFAULT_MS : Z := 10000.
Definition HANDSHAKE_TIMEOUT_MIN_MS : Z := 2000.
Definition HANDSHAKE_RESEND_TIMEOUT_MS : Z := 2000.
Definition CONNECTION_TIMEOUT_DEFAULT_MS : Z := 10000.
Definition CONNECTION_TIMEOUT_MIN_MS : Z := 2000.

Record Config : Set := mkConfig {
  handshake_timeout_ms : Z;
  connection_timeout_ms : Z;
  channel_balance : Endpoint.ChannelBalanceConfig;
}.

Definition config_default : Config :=
  mkConfig HANDSHAKE_TIMEOUT_DEFAULT_MS CONNECTION_TIMEOUT_DEFAULT_MS Endpoint.balance_default.

Inductive HandshakePhase : Set := Alpha | Beta.

Record HandshakeState : Set := mkHandshakeState {
  phase : HandshakePhase;
  timeout_time_ms : Z;
  timeout_ms : Z;
  packet_buffer : list (list Z * SendMode);
  frame : list Z;
  local_nonce : Z;
}.

Inductive State : Set :=
| Handshake (state : HandshakeState)
| Active (endpoint : Endpoint.Endpoint)
| Quiescent.

Inductive Event : Set :=
| Connect
| Disconnect
| Receive (packet : list Z)
| Error (kind : ErrorKind).

Record ClientCore : Type := mkClientCore {
  config : Config;
  socket_tx : list (list Z);
  state : State;
  rto_timer : option Z;
  events : list Event;
  world : World;
}.

(** Field assignments. *)
Definition set_socket_tx (x : list (list Z)) (c : ClientCore) : ClientCore :=
  mkClientCore (config c) x (state c) (rto_timer c) (events c) (world c).
Definition set_state (x : State) (c : ClientCore) : ClientCore :=
  mkClientCore (config c) (socket_tx c) x (rto_timer c) (events c) (world c).
Definition set_timer (x : option Z) (c : ClientCore) : ClientCore :=
  mkClientCore (config c) (socket_tx c) (state c) x (events c) (world c).
Definition set_events (x : list Event) (c : ClientCore) : ClientCore :=
  mkClientCore (config c) (socket_tx c) (state c) (rto_timer c) x (world c).
Definition set_world (x : World) (c : ClientCore) : ClientCore :=
  mkClientCore (config c) (socket_tx c) (state c) (rto_timer c) (events c) x.

(** [socket_tx.send] and [events.push_back]. *)
Definition send_bytes (f : list Z) (c : ClientCore) : ClientCore := set_socket_tx (socket_tx c ++ [f]) c.
Definition push_event (ev : Event) (c : ClientCore) : ClientCore := set_events (events c ++ [ev]) c.

(** [EndpointContext]: the host of the client's endpoint is the client. *)
#[export] Instance client_context : HostContext ClientCore := {|
  send_frame := send_bytes;
  set_rto_timer t := set_timer (Some t);
  unset_rto_timer := set_timer None;
  on_connect := push_event Connect;
  on_disconnect := push_event Disconnect;
  on_receive p := push_event (Receive p);
  on_timeout := push_event (Error Timeout);
|}.

#[export] Instance client_rng : ThreadRng ClientCore := fun c =>
  let '(b, w) := random_bool (world c) in (b, set_world w c).

Definition read_time (c : ClientCore) : Z * ClientCore :=
  let '(t, w) := time_now_ms (world c) in (t, set_world w c).

Definition connection_params_compatible (a b : ConnectionParams) : bool :=
  (packet_size_out_max b <=? packet_size_in_max a) && (packet_size_out_max a <=? packet_size_in_max b).

Section Client.
Context `{BuildProfile}.

Definition validate (self : Config) : outcome () :=
  _ ← assert_ (HANDSHAKE_TIMEOUT_MIN_MS <=? handshake_timeout_ms self);
  _ ← assert_ (CONNECTION_TIMEOUT_MIN_MS <=? connection_timeout_ms self);
  Endpoint.validate (channel_balance self).

(** ** Timers *)

(** The remaining time as a [Duration] in nanoseconds. *)
Definition next_timer_timeout (self : ClientCore) : option Z * ClientCore :=
  let '(now_ms, self) := read_time self in
  match rto_timer self with
  | Some t_ms => (Some (saturating_sub t_ms now_ms * NANOS_PER_MILLI), self)
  | None => (None, self)
  end.

Definition process_timeout (self : ClientCore) (now_ms : Z) : outcome ClientCore :=
  match state self with
  | Handshake st =>
      if timeout_time_ms st <=? now_ms then
        let self := push_event (Error Timeout) self in
        Ok (set_state Quiescent self)
      else
        t ← add64 now_ms HANDSHAKE_RESEND_TIMEOUT_MS;
        let self := set_timer (Some t) self in
        match phase st with
        | Alpha => Ok (send_bytes (frame st) self)
        | Beta => Ok (send_bytes (frame st) self)
        end
  | Active endpoint =>
      '(endpoint, self, action) ← Endpoint.handle_rto_timer endpoint now_ms self;
      let self := set_state (Active endpoint) self in
      match action with
      | Endpoint.Continue => Ok self
      | Endpoint.Terminate => Ok (set_state Quiescent self)
      end
  | Quiescent => Ok self
  end.

Definition process_timeouts (self : ClientCore) : outcome ClientCore :=
  let '(now_ms, self) := read_time self in
  match rto_timer self with
  | Some timeout_ms =>
      if timeout_ms <=? now_ms then process_timeout (set_timer None self) now_ms else Ok self
  | None => Ok self
  end.

(** ** The handshake *)

Definition unlimited_params : ConnectionParams := mkConnectionParams U32_MAX U32_MAX.

Definition handle_handshake_alpha_ack (self : ClientCore) (payload_bytes : list Z) (now_ms : Z)
  : outcome ClientCore :=
  match state self with
  | Handshake (mkHandshakeState Alpha _ timeout_ms packets _ nonce) =>
      ack ← simple_payload_read payload_bytes;
      match ack with
      | Some ack =>
          let client_params := unlimited_params in
          let nonce_valid := haa_client_nonce ack =? nonce in
          let params_compatible := connection_params_compatible client_params (haa_server_params ack) in
          if nonce_valid && params_compatible then
            timeout_time ← add64 now_ms timeout_ms;
            t ← add64 now_ms HANDSHAKE_RESEND_TIMEOUT_MS;
            let self := set_timer (Some t) self in
            frame ← simple_frame_write_boxed
              (mkHandshakeBetaFrame client_params (haa_client_nonce ack) (haa_server_nonce ack)
                 (haa_server_timestamp ack) (haa_server_mac ack));
            let self := set_state (Handshake (mkHandshakeState Beta timeout_time timeout_ms packets frame nonce))
              self in
            Ok (send_bytes frame self)
          else Ok self
      | None => Ok self
      end
  | _ => Ok self
  end.

Definition error_kind (kind : HandshakeErrorKind) : ErrorKind :=
  match kind with
  | Capacity => CapacityError
  | Parameter_ => ParameterError
  end.

(** The packets kept during the handshake, given to the endpoint. *)
Fixpoint enqueue_all (endpoint : Endpoint.Endpoint) (packets : list (list Z * SendMode)) (now_ms : Z)
  : outcome Endpoint.Endpoint :=
  match packets with
  | [] => Ok endpoint
  | (packet, mode) :: packets =>
      endpoint ← Endpoint.enqueue endpoint packet mode now_ms;
      enqueue_all endpoint packets now_ms
  end.

Definition endpoint_config (cfg : Config) : outcome Endpoint.Config :=
  prio ← Endpoint.prio_config_from (channel_balance cfg);
  Ok (Endpoint.mkConfig (connection_timeout_ms cfg) prio).

Definition handle_handshake_beta_ack (self : ClientCore) (payload_bytes : list Z) (now_ms : Z) : outcome ClientCore :=
  match state self with
  | Handshake (mkHandshakeState Beta _ _ packets _ nonce) =>
      ack ← simple_payload_read payload_bytes;
      match ack with
      | Some ack =>
          if hba_client_nonce ack =? nonce then
            match hba_error ack with
            | None =>
                let self := set_timer None self in
                cfg ← endpoint_config (config self);
                endpoint ← Endpoint.new cfg;
                let self := set_state (Active endpoint) self in
                '(endpoint, self) ← Endpoint.init endpoint self;
                endpoint ← enqueue_all endpoint packets now_ms;
                '(endpoint, self) ← Endpoint.flush endpoint now_ms self;
                Ok (set_state (Active endpoint) self)
            | Some kind =>
                let self := push_event (Error (error_kind kind)) self in
                Ok (set_state Quiescent self)
            end
          else Ok self
      | None => Ok self
      end
  | _ => Ok self
  end.

(** ** Incoming frames *)

Definition handle_frame_other (self : ClientCore) (frame_type : FrameType) (payload_bytes : list Z) (now_ms : Z)
  : outcome ClientCore :=
  match state self with
  | Active endpoint =>
      '(endpoint, self) ← Endpoint.handle_frame endpoint frame_type payload_bytes now_ms self;
      Ok (set_state (Active endpoint) self)
  | _ => Ok self
  end.

Definition handle_frame (self : ClientCore) (frame_bytes : list Z) : outcome ClientCore :=
  if negb (verify_minimum_size frame_bytes) then Ok self
  else
    frame_type ← read_type frame_bytes;
    match frame_type with
    | Some frame_type =>
        crc_valid ← verify_crc frame_bytes;
        if negb crc_valid then Ok self
        else
          payload_bytes ← payload frame_bytes;
          let '(now_ms, self) := read_time self in
          match frame_type with
          | HandshakeAlphaAck => handle_handshake_alpha_ack self payload_bytes now_ms
          | HandshakeBetaAck => handle_handshake_beta_ack self payload_bytes now_ms
          | _ => handle_frame_other self frame_type payload_bytes now_ms
          end
    | None => Ok self
    end.

(** [socket_rx] yields these frames and would then block. *)
Fixpoint handle_frames (self : ClientCore) (socket_rx : list (list Z)) : outcome ClientCore :=
  match socket_rx with
  | [] => Ok self
  | frame_bytes :: socket_rx =>
      self ← handle_frame self frame_bytes;
      handle_frames self socket_rx
  end.

(** The poller has woken up; [socket_rx] is empty after a timeout or a spurious wake-up. *)
Definition handle_frames_wait (self : ClientCore) (socket_rx : list (list Z)) : outcome ClientCore :=
  match socket_rx with
  | [] => Ok self
  | frame_bytes :: socket_rx =>
      self ← handle_frame self frame_bytes;
      handle_frames self socket_rx
  end.

(** ** The application's requests *)

Definition send (self : ClientCore) (packet_bytes : list Z) (mode : SendMode) : outcome ClientCore :=
  match state self with
  | Handshake st =>
      Ok (set_state (Handshake (mkHandshakeState (phase st) (timeout_time_ms st) (timeout_ms st)
            (packet_buffer st ++ [(packet_bytes, mode)]) (frame st) (local_nonce st))) self)
  | Active endpoint =>
      let '(now_ms, self) := read_time self in
      endpoint ← Endpoint.enqueue endpoint packet_bytes mode now_ms;
      '(endpoint, self) ← Endpoint.flush endpoint now_ms self;
      Ok (set_state (Active endpoint) self)
  | Quiescent => Ok self
  end.

Definition enqueue (self : ClientCore) (packet_bytes : list Z) (mode : SendMode) : outcome ClientCore :=
  match state self with
  | Handshake st =>
      Ok (set_state (Handshake (mkHandshakeState (phase st) (timeout_time_ms st) (timeout_ms st)
            (packet_buffer st ++ [(packet_bytes, mode)]) (frame st) (local_nonce st))) self)
  | Active endpoint =>
      let '(now_ms, self) := read_time self in
      endpoint ← Endpoint.enqueue endpoint packet_bytes mode now_ms;
      Ok (set_state (Active endpoint) self)
  | Quiescent => Ok self
  end.

Definition flush (self : ClientCore) : outcome ClientCore :=
  match state self with
  | Handshake _ => Ok self
  | Active endpoint =>
      let '(now_ms, self) := read_time self in
      '(endpoint, self) ← Endpoint.flush endpoint now_ms self;
      Ok (set_state (Active endpoint) self)
  | Quiescent => Ok self
  end.

Definition disconnect (self : ClientCore) : outcome ClientCore :=
  match state self with
  | Handshake _ => Ok self
  | Active endpoint =>
      let '(now_ms, self) := read_time self in
      '(endpoint, self) ← Endpoint.disconnect endpoint now_ms self;
      Ok (set_state (Active endpoint) self)
  | Quiescent => Ok self
  end.

(** [connect_with_config], once the socket is bound; [world]'s clock starts with
    [time_ref]. *)
Definition connect_with_config (config : Config) (world : World) : outcome ClientCore :=
  _ ← validate config;
  let '(local_nonce, world) := random_u32 world in
  handshake_frame ← write_handshake_alpha (mkHandshakeAlphaFrame PROTOCOL_ID local_nonce) FRAME_SIZE_MAX;
  let state := Handshake (mkHandshakeState Alpha (handshake_timeout_ms config) (handshake_timeout_ms config)
                            [] handshake_frame local_nonce) in
  Ok (mkClientCore config [handshake_frame] state (Some HANDSHAKE_RESEND_TIMEOUT_MS) [] world).

Definition connect (world : World) : outcome ClientCore := connect_with_config config_default world.

(** ** Waiting for events *)

(** [events.pop_front()]. *)
Definition pop_event (self : ClientCore) : option Event * ClientCore :=
  match events self with
  | [] => (None, self)
  | ev :: evs => (Some ev, set_events evs self)
  end.

Definition poll_event (self : ClientCore) (socket_rx : list (list Z)) : outcome (option Event * ClientCore) :=
  self ← (match events self with
          | [] => self ← handle_frames self socket_rx; process_timeouts self
          | _ => Ok self
          end);
  Ok (pop_event self).

(** A blocking call: it has returned, or it still waits on the poller, for at most
    [timeout] if there is one. *)
Inductive waiting : Type :=
| Returned (ev : option Event) (self : ClientCore)
| Blocked (timeout : option Z) (self : ClientCore).

(** The poller wakes up once for every entry of [wakeups], with these frames to be read. *)
Fixpoint wait_event (self : ClientCore) (wakeups : list (list (list Z))) : outcome waiting :=
  let '(wait_timeout, self) := next_timer_timeout self in
  match wakeups with
  | [] => Ok (Blocked wait_timeout self)
  | socket_rx :: wakeups =>
      self ← handle_frames_wait self socket_rx;
      self ← process_timeouts self;
      match pop_event self with
      | (Some event, self) => Ok (Returned (Some event) self)
      | (None, self) => wait_event self wakeups
      end
  end.

(** [Instant::now()], as the nanoseconds since [time_ref]. *)
Definition instant_now (self : ClientCore) : Z * ClientCore :=
  let '(t, w) := elapsed (world self) in (t, set_world w self).

Fixpoint wait_event_timeout_loop (self : ClientCore) (remaining_timeout wait_begin : Z)
  (wakeups : list (list (list Z)))
  : outcome waiting :=
  let '(timer_timeout, self) := next_timer_timeout self in
  let wait_timeout := match timer_timeout with
                      | Some timer_timeout => Z.min remaining_timeout timer_timeout
                      | None => remaining_timeout
                      end in
  match wakeups with
  | [] => Ok (Blocked (Some wait_timeout) self)
  | socket_rx :: wakeups =>
      self ← handle_frames_wait self socket_rx;
      self ← process_timeouts self;
      match events self with
      | _ :: _ => let '(ev, self) := pop_event self in Ok (Returned ev self)
      | [] =>
          let '(now, self) := instant_now self in
          let elapsed_time := saturating_sub now wait_begin in
          if remaining_timeout <=? elapsed_time then Ok (Returned None self)
          else wait_event_timeout_loop self (remaining_timeout - elapsed_time) now wakeups
      end
  end.

Definition wait_event_timeout (self : ClientCore) (timeout : Z) (wakeups : list (list (list Z))) : outcome waiting :=
  match events self with
  | [] =>
      let '(wait_begin, self) := instant_now self in
      wait_event_timeout_loop self timeout wait_begin wakeups
  | _ :: _ => let '(ev, self) := pop_event self in Ok (Returned ev self)
  end.
End Client.
End Client.
