(* ===== verification/ClientFacts.v ===== *)
(** * The client's invariant

    [client_at now seen c] is what every operation of the client maintains: [seen] are the
    events the application has taken, [now] the last time read.  Each operation is shown to
    return a client that keeps it. *)

From S2P Require Import Prelude Word Frame Serial SerialFacts FrameFacts Prio Endpoint.
From S2P Require Import FragmentTxFacts.
From S2P Require Import EndpointFacts EndpointSafety EndpointMachine EndpointSession Handshake.
From S2P Require Import World Client.

Import Client.

Section ClientFacts.
Context `{BuildProfile}.

(** ** Configurations *)

(** Fields of the source's types, with timeouts in the lower half of their range. *)
Definition balance_typed (b : Endpoint.ChannelBalanceConfig) : Prop :=
  0 <= Endpoint.unreliable_weight b /\ 0 <= Endpoint.reliable_weight b /\ 0 <= Endpoint.burst_size b.

Record valid_config (cfg : Config) : Prop := {
  vc_valid : validate cfg = Ok ();
  vc_balance : balance_typed (channel_balance cfg);
  vc_handshake : handshake_timeout_ms cfg < TIME_MAX;
  vc_connection : connection_timeout_ms cfg <= TIME_MAX;
}.

Lemma prio_config_ok b prio : balance_typed b -> Endpoint.prio_config_from b = Ok prio ->
  exists ws burst, Prio.config_facts ws burst prio.
Proof.
  intros (Hu & Hr & Hb) Hp. exists (Prio.Array4 (Endpoint.unreliable_weight b) (Endpoint.reliable_weight b) 1 1),
    (Endpoint.burst_size b).
  apply Prio.config_new_facts; [|done|exact Hp]. intros i Hi. Prio.channels; cbn; lia.
Qed.

Lemma valid_endpoint cfg : valid_config cfg ->
  exists ecfg, endpoint_config cfg = Ok ecfg /\ config_ok ecfg.
Proof.
  intros [Hv Hb _ Hc]. unfold validate in Hv.
  apply outcome_bind_Ok in Hv as ([] & _ & Hv). apply outcome_bind_Ok in Hv as ([] & Ht & Hv).
  unfold Endpoint.validate in Hv. apply outcome_bind_Ok in Hv as (prio & Hp & _).
  unfold endpoint_config. rewrite Hp. cbn [mbind outcome_bind]. eexists. split; [done|].
  split; [by eapply prio_config_ok|]. cbn.
  apply Prio.assert_inv in Ht. reflect_bool. unfold CONNECTION_TIMEOUT_MIN_MS in Ht. lia.
Qed.

Lemma valid_handshake cfg : valid_config cfg -> HANDSHAKE_TIMEOUT_MIN_MS <= handshake_timeout_ms cfg < TIME_MAX.
Proof.
  intros [Hv _ Hh _]. split; [|done]. unfold validate in Hv.
  apply outcome_bind_Ok in Hv as ([] & Ht & _). apply Prio.assert_inv in Ht. by apply Z.leb_le.
Qed.

(** ** What a client sends *)

(** A first request, a second request, or a frame of an established connection: each
    passes the server's checks. *)
Inductive request_ok (f : list Z) : Prop :=
| rq_alpha nonce : is_u32 nonce -> f = padded (mkHandshakeAlphaFrame PROTOCOL_ID nonce) -> request_ok f
| rq_beta (b : HandshakeBetaFrame) : block_valid b -> hb_client_params b = unlimited_params -> f = sealed b ->
  request_ok f
| rq_stream : frame_ok f -> request_ok f.

(** ** Events *)

Definition event_of (ev : event) : option Event :=
  match ev with
  | EvConnect => Some Connect
  | EvDisconnect => Some Disconnect
  | EvReceive p => Some (Receive p)
  | EvTimeout => Some (Error Timeout)
  | _ => None
  end.

(** What the endpoint's events do to the client. *)
Lemma performs_client (c : ClientCore) evs :
  performs c evs = mkClientCore (config c) (socket_tx c ++ sent_frames evs) (state c)
    (timer_after (rto_timer c) evs) (events c ++ omap event_of evs) (world_after (world c) evs).
Proof.
  revert c. induction evs as [|ev evs IH]; intros c.
  - cbn. rewrite !app_nil_r. by destruct c.
  - change (performs c (ev :: evs)) with (performs (perform c ev) evs). rewrite IH.
    destruct ev; cbn; rewrite <- ?app_assoc; try done.
Qed.

Lemma event_of_callbacks evs : omap event_of (callbacks evs) = omap event_of evs.
Proof.
  induction evs as [|ev evs IH]; [done|]. unfold callbacks in *.
  destruct ev; first [rewrite filter_cons_True by done|rewrite filter_cons_False by done]; cbn; by rewrite IH.
Qed.

Lemma event_of_receives (ps : list (list Z)) : omap event_of (EvReceive <$> ps) = Receive <$> ps.
Proof. induction ps as [|p ps IH]; [done|]. cbn. by f_equal. Qed.

(** The shape of what the application sees: of a connection in state [s], and of a client
    that has come to rest. *)
Definition seen_in (s : Endpoint.StateId) (seen : list Event) : Prop :=
  exists log, session s (callbacks log) /\ seen = omap event_of log.

Definition at_rest (seen : list Event) : Prop :=
  (exists kind, seen = [Error kind]) \/
  exists ps last, seen = Connect :: (Receive <$> ps) ++ [last] /\ (last = Disconnect \/ last = Error Timeout).

Lemma zombie_at_rest seen : seen_in Endpoint.Zombie seen -> at_rest seen.
Proof.
  intros (log & (ps & last & Hc & Hl) & ->). right. rewrite <- event_of_callbacks, Hc.
  cbn. rewrite omap_app, event_of_receives.
  exists ps. destruct Hl as [-> | ->]; [exists Disconnect|exists (Error Timeout)]; auto.
Qed.

Lemma open_seen s seen : s = Endpoint.Active \/ s = Endpoint.Closing -> seen_in s seen ->
  exists ps, seen = Connect :: (Receive <$> ps).
Proof.
  intros Ho (log & Hs & ->). rewrite <- event_of_callbacks.
  assert (Hps : exists ps, callbacks log = EvConnect :: (EvReceive <$> ps)) by (by destruct Ho as [-> | ->]).
  destruct Hps as [ps ->]. exists ps. cbn. by rewrite event_of_receives.
Qed.

Lemma closed_seen seen : seen_in Endpoint.Closed seen -> exists ps,
  seen = Connect :: (Receive <$> ps) ++ [Disconnect].
Proof.
  intros (log & (ps & Hc) & ->). rewrite <- event_of_callbacks, Hc. exists ps. cbn.
  by rewrite omap_app, event_of_receives.
Qed.

Lemma seen_in_step now e e' evs seen : transition now e e' evs ->
  seen_in (Endpoint.state_id e) seen -> seen_in (Endpoint.state_id e') (seen ++ omap event_of evs).
Proof.
  intros Ht (log & Hs & ->). exists (log ++ evs). split; [by eapply session_step|by rewrite omap_app].
Qed.
(** ** The invariant *)

Definition buffered_ok (pm : list Z * SendMode) : Prop := packet_ok pm.1 /\ mode_ok pm.2.

(** The timer runs for the whole handshake, for the retransmissions of an active endpoint
    as [timer_ok] has it, and no longer matters at rest. *)
Definition state_ok (now : Z) (c : ClientCore) : Prop :=
  match state c with
  | Handshake st =>
      (exists t, rto_timer c = Some t /\ t <= now + HANDSHAKE_RESEND_TIMEOUT_MS) /\
      0 <= timeout_ms st < TIME_MAX /\ timeout_time_ms st <= now + timeout_ms st /\
      Forall buffered_ok (packet_buffer st) /\ request_ok (frame st) /\ is_u32 (local_nonce st)
  | Active e =>
      ep_inv now e /\ timer_ok (bool_decide (is_Some (rto_timer c))) e /\
      Endpoint.state_id e <> Endpoint.PreInit /\ Endpoint.state_id e <> Endpoint.Zombie
  | Quiescent => True
  end.

Definition session_ok (s : State) (seen : list Event) : Prop :=
  match s with
  | Handshake _ => seen = []
  | Active e => seen_in (Endpoint.state_id e) seen
  | Quiescent => at_rest seen
  end.

Record client_at (now : Z) (seen : list Event) (c : ClientCore) : Prop := {
  ci_now : 0 <= now <= World.now (world c);
  ci_world : world_ok (world c);
  ci_config : valid_config (config c);
  ci_sent : Forall request_ok (socket_tx c);
  ci_state : state_ok now c;
  ci_session : session_ok (state c) (seen ++ events c);
}.

(** The result of an operation. *)
Definition kept (now : Z) (seen : list Event) (r : outcome ClientCore) : Prop :=
  exists c', r = Ok c' /\ client_at now seen c'.

Lemma kept_refl now seen c : client_at now seen c -> kept now seen (Ok c).
Proof. intros Hc. by exists c. Qed.

Lemma client_now_max now seen c : client_at now seen c -> 0 <= now <= TIME_MAX.
Proof. intros []. pose proof (now_range _ ci_world0). lia. Qed.

Lemma read_time_ok now seen c : client_at now seen c ->
  exists t w, read_time c = (t, set_world w c) /\ now <= t /\ client_at t seen (set_world w c).
Proof.
  intros [Hn Hw Hc Hs Hst Hse]. destruct (time_now_ms_now _ Hw) as (w & Ht & Hw' & Hle).
  pose proof (now_range _ Hw) as Hr. set (t := World.now (world c)) in *.
  exists t, w. unfold read_time. rewrite Ht. split; [done|]. split; [lia|].
  split; try done; [change (world (set_world w c)) with w; lia|].
  unfold state_ok in *. cbn. destruct (state c) as [st|e|]; [|destruct Hst; split; [by apply (ep_inv_later now);
    [|lia]|done]|done].
  destruct Hst as ((t' & Ht' & Hle') & Hto & Htt & Hrest). split; [exists t'; split; [done|lia]|]. split; [done|].
  split; [lia|done].
Qed.

(** Sending a request during the handshake. *)
Lemma handshake_send now seen c st t : client_at now seen c -> state c = Handshake st ->
  now <= t <= now + HANDSHAKE_RESEND_TIMEOUT_MS -> client_at now seen (send_bytes (frame st) (set_timer (Some t) c)).
Proof.
  intros [Hn Hw Hc Hs Hst Hse] Es Ht. unfold state_ok in Hst. rewrite Es in Hst. destruct Hst as (_ & Hrest).
  split; try done.
  - cbn. apply Forall_app. split; [done|]. apply Forall_singleton. tauto.
  - unfold state_ok. cbn. rewrite Es. split; [exists t; split; [done|lia]|done].
Qed.

Lemma set_state_same c s : state c = s -> set_state s c = c.
Proof. intros <-. by destruct c. Qed.

Lemma set_timer_same c : set_timer (rto_timer c) c = c.
Proof. by destruct c. Qed.

Lemma come_to_rest now seen c timer ev : client_at now seen c ->
  at_rest (seen ++ events c ++ [ev]) -> client_at now seen (set_state Quiescent (push_event ev (set_timer timer c))).
Proof. intros [] Hr. by split. Qed.

(** ** The endpoint at work *)

Lemma sent_frames_ok now e e' evs : transition now e e' evs -> Forall request_ok (sent_frames evs).
Proof.
  intros Ht. apply Forall_forall. intros f Hf. apply list_elem_of_omap in Hf as (ev & Hin & Hev).
  pose proof (transition_events _ _ _ _ Ht) as Hok. rewrite Forall_forall in Hok. specialize (Hok ev Hin).
  destruct ev; try done. injection Hev as <-. by apply rq_stream.
Qed.

(** [c] is the client as the endpoint's host, while its state is being replaced. *)
Lemma endpoint_step now seen c e e' evs timer : client_at now seen (set_state (Active e) (set_timer timer c)) ->
  ep_inv now e' -> transition now e e' evs ->
  timer_ok (arm (bool_decide (is_Some (rto_timer c))) evs) e' -> Endpoint.state_id e' <> Endpoint.Zombie ->
  client_at now seen (set_state (Active e') (performs c evs)).
Proof.
  intros [Hn Hw Hc Hs Hst Hse] Hi Ht Htm Hz. rewrite performs_client. cbn in *. unfold state_ok in Hst.
  cbn in Hst. destruct Hst as (_ & _ & Hp & _). destruct (world_after_ok (world c) evs Hw) as [Hw' Hn'].
  split; cbn; try done.
  - by rewrite Hn'.
  - apply Forall_app. split; [done|by eapply sent_frames_ok].
  - unfold state_ok. cbn. rewrite timer_after_arm. split; [done|]. split; [done|]. split; [|done].
    by eapply transition_started.
  - rewrite app_assoc. by eapply seen_in_step.
Qed.

(** The endpoint ends the connection. *)
Lemma endpoint_terminates now seen c e e' evs timer s : client_at now seen (set_state (Active e)
  (set_timer timer c)) ->
  transition now e e' evs -> Endpoint.state_id e' = Endpoint.Zombie ->
  client_at now seen (set_state Quiescent (set_state s (performs c evs))).
Proof.
  intros [Hn Hw Hc Hs Hst Hse] Ht Hz. rewrite performs_client. cbn in *.
  destruct (world_after_ok (world c) evs Hw) as [Hw' Hn']. split; cbn; try done.
  - by rewrite Hn'.
  - apply Forall_app. split; [done|by eapply sent_frames_ok].
  - rewrite app_assoc. apply zombie_at_rest. rewrite <- Hz. by eapply seen_in_step.
Qed.

Lemma endpoint_proceeds now seen c e r : client_at now seen (set_state (Active e) c) ->
  (ep_inv now e -> proceeds now e c r) ->
  exists e' c', r = Ok (e', c') /\ client_at now seen (set_state (Active e') c').
Proof.
  intros Hc Hr. pose proof (ci_state _ _ _ Hc) as Hst. unfold state_ok in Hst.
  destruct Hst as (Hi & Ht & Hp & Hz). destruct (Hr Hi) as (e' & evs & -> & Hi' & Htr & Hz').
  exists e', (performs c evs). split; [done|].
  apply (endpoint_step now seen c e e' evs (rto_timer c)); [by rewrite set_timer_same|done|done|by eapply
    transition_timer|auto].
Qed.

(** The same, when the endpoint goes back to where it was. *)
Lemma endpoint_kept now seen c e r : client_at now seen c -> state c = Active e ->
  (ep_inv now e -> proceeds now e c r) ->
  kept now seen ('(endpoint, self) ← r; Ok (set_state (Active endpoint) self)).
Proof.
  intros Hc Es Hr. destruct (endpoint_proceeds now seen c e r) as (e' & c' & -> & Hc');
    [by rewrite set_state_same|done|].
  by eexists.
Qed.

(** ** Timers *)

Lemma process_timeout_ok now seen c : client_at now seen c -> is_Some (rto_timer c) ->
  kept now seen (process_timeout (set_timer None c) now).
Proof.
  intros Hc Ht. pose proof (ci_state _ _ _ Hc) as Hst. unfold process_timeout, state_ok in *.
  pose proof (client_now_max _ _ _ Hc) as Hmax.
  change (state (set_timer None c)) with (state c). destruct (state c) as [st|e|] eqn:Es.
  - pose proof (ci_session _ _ _ Hc) as Hse. rewrite Es in Hse. apply app_eq_nil in Hse as [Hse He].
    case_bool.
    + eexists. split; [done|]. apply come_to_rest; [done|]. left. exists Timeout. by rewrite Hse, He.
    + unfold HANDSHAKE_RESEND_TIMEOUT_MS, TIME_MAX in *. rewrite add64_ok by (unfold two64; lia).
      cbn [mbind outcome_bind].
      assert (Hk : client_at now seen (send_bytes (frame st) (set_timer (Some (now + 2000)) c)))
        by (apply (handshake_send now seen c st); [done|done|unfold HANDSHAKE_RESEND_TIMEOUT_MS; lia]).
      destruct (phase st); by eexists.
  - destruct Hst as (Hi & Htm & Hp & Hz). rewrite bool_decide_eq_true_2 in Htm by done.
    destruct (timer_full now e (set_timer None c) Hi Htm) as (e' & evs & a & -> & Hi' & Htr & Hre & Ha).
    cbn [mbind outcome_bind].
    assert (Hc' : client_at now seen (set_state (Active e) (set_timer (rto_timer c) (set_timer None c)))).
    { destruct c. cbn in *. by subst. }
    destruct a.
    + eexists. split; [done|]. eapply endpoint_step; [exact Hc'|done|done|exact Hre|by rewrite Ha].
    + destruct Ha as (Hz' & _). eexists. split; [done|]. by eapply endpoint_terminates.
  - eexists. split; [done|]. destruct Hc. split; try done. unfold state_ok. cbn. by rewrite Es.
Qed.

(** Reading the clock moves the invariant to the time read. *)
Lemma process_timeouts_ok now seen c : client_at now seen c ->
  exists now', now <= now' /\ kept now' seen (process_timeouts c).
Proof.
  intros Hc. unfold process_timeouts. destruct (read_time_ok now seen c Hc) as (t & w & -> & Ht & Hc').
  exists t. split; [done|]. change (rto_timer (set_world w c)) with (rto_timer c).
  destruct (rto_timer c) as [timeout|] eqn:Et; [|by apply kept_refl].
  case_bool; [|by apply kept_refl]. apply process_timeout_ok; [done|]. by exists timeout.
Qed.
End ClientFacts.
