(* ===== verification/ClientSession.v ===== *)
(** * A client in use

    Every operation of the client keeps its invariant; the clients an application can have,
    whatever the network delivers; and the theorems about them. *)

From S2P Require Import Prelude Word Frame Serial SerialFacts FrameFacts Prio Endpoint.
From S2P Require Import FragmentTxFacts.
From S2P Require Import EndpointFacts EndpointSafety EndpointMachine EndpointSession Handshake.
From S2P Require Import World Client ClientFacts.

Import Client.

Section Operations.
Context `{BuildProfile}.

(** ** The handshake *)

Lemma unlimited_valid : params_valid unlimited_params.
Proof. split; cbn; unfold is_u32, U32_MAX, two32; lia. Qed.

Lemma alpha_ack_ok now seen c p : client_at now seen c -> Forall is_u8 p ->
  kept now seen (handle_handshake_alpha_ack c p now).
Proof.
  intros Hc Hp. unfold handle_handshake_alpha_ack.
  destruct (state c) as [[[] tt tm ps f n]|e|] eqn:Es; try by apply kept_refl.
  destruct (simple_read_any (A := HandshakeAlphaAckFrame) p Hp) as (o & -> & Ho). cbn [mbind outcome_bind].
  destruct o as [ack|]; [|by apply kept_refl]. case_bool; [|by apply kept_refl].
  pose proof (ci_state _ _ _ Hc) as Hst. unfold state_ok in Hst. rewrite Es in Hst.
  destruct Hst as (_ & Htm & _ & Hps & _ & Hn). cbn in *. pose proof (client_now_max _ _ _ Hc) as Hmax.
  unfold HANDSHAKE_RESEND_TIMEOUT_MS, TIME_MAX in *. rewrite !add64_ok by (unfold two64; lia).
  cbn [mbind outcome_bind].
  set (b := mkHandshakeBetaFrame _ _ _ _ _).
  assert (Hv : block_valid b) by (destruct Ho as (_ & ? & ? & ? & ?); split; [exact unlimited_valid|done]).
  rewrite boxed_sealed by done. cbn [mbind outcome_bind].
  assert (Hrq : request_ok (sealed b)) by by eapply rq_beta.
  generalize dependent (sealed b). intros fr Hrq. eexists. split; [done|].
  destruct Hc as [? ? ? ? ? Hse]. rewrite Es in Hse. split; try done; cbn.
  - apply Forall_app. split; [done|]. by apply Forall_singleton.
  - unfold state_ok. cbn. split; [eexists; split; [done|unfold HANDSHAKE_RESEND_TIMEOUT_MS; lia]|].
    unfold TIME_MAX. split; [lia|]. split; [lia|done].
Qed.

(** The endpoint of a new connection, and the packets kept for it. *)
Lemma connected now c seen cfg : client_at now seen c -> seen ++ events c = [] -> config_ok cfg ->
  exists e, Endpoint.new cfg = Ok e /\
    forall s, exists e' c', Endpoint.init e (set_state s (set_timer None c)) = Ok (e', c') /\
      client_at now seen (set_state (Active e') c').
Proof.
  intros Hc Hse Hcfg. destruct (endpoint_new_ok cfg Hcfg) as (e & He & Hi & Hs & Ht). exists e. split; [done|].
  pose proof (client_now_max _ _ _ Hc) as Hmax. apply (ep_inv_later 0 now) in Hi; [|lia].
  intros s. exists (Endpoint.set_state_id Endpoint.Active e), (push_event Connect (set_state s (set_timer None c))).
  unfold Endpoint.init. rewrite debug_assert_true by by apply bool_decide_eq_true. split; [done|].
  apply app_eq_nil in Hse as [-> Hev]. destruct Hc. split; try done.
  - split; [apply set_state_inv; [done|by rewrite Hs; right]|done].
  - cbn. rewrite Hev. exists [EvConnect]. split; [by exists []|done].
Qed.

Lemma enqueue_all_ok now seen ps : forall c e, client_at now seen (set_state (Active e) c) -> Forall buffered_ok ps ->
  exists e', enqueue_all e ps now = Ok e' /\ client_at now seen (set_state (Active e') c).
Proof.
  induction ps as [|[p m] ps IH]; intros c e Hc Hps; cbn [enqueue_all]; [by eexists|].
  apply Forall_cons in Hps as [[Hp Hm] Hps]. cbn [fst snd] in *.
  destruct (endpoint_proceeds now seen c e (e ← Endpoint.enqueue e p m now; Ok (e, c)) Hc) as (e' & c' & Hr & Hc').
  { intros Hi. by apply enqueue_proceeds. }
  apply outcome_bind_Ok in Hr as (e1 & -> & [= -> ->]). cbn [mbind outcome_bind]. by apply IH.
Qed.

Lemma beta_ack_ok now seen c p : client_at now seen c -> Forall is_u8 p ->
  kept now seen (handle_handshake_beta_ack c p now).
Proof.
  intros Hc Hp. unfold handle_handshake_beta_ack.
  destruct (state c) as [[[] tt tm ps f n]|e|] eqn:Es; try by apply kept_refl.
  destruct (simple_read_any (A := HandshakeBetaAckFrame) p Hp) as (o & -> & Ho). cbn [mbind outcome_bind].
  destruct o as [ack|]; [|by apply kept_refl]. case_bool; [|by apply kept_refl].
  pose proof (ci_state _ _ _ Hc) as Hst. unfold state_ok in Hst. rewrite Es in Hst.
  destruct Hst as (_ & _ & _ & Hps & _). pose proof (ci_session _ _ _ Hc) as Hse. rewrite Es in Hse.
  cbn [packet_buffer session_ok] in Hps, Hse.
  destruct (hba_error ack) as [kind|].
  - pose proof (come_to_rest now seen c (rto_timer c) (Error (error_kind kind)) Hc) as Hk.
    rewrite set_timer_same in Hk.
    eexists. split; [done|]. apply Hk. left. exists (error_kind kind). by rewrite app_assoc, Hse.
  - change (config (set_timer None c)) with (config c).
    destruct (valid_endpoint _ (ci_config _ _ _ Hc)) as (cfg & -> & Hcfg). cbn [mbind outcome_bind].
    destruct (connected now c seen cfg Hc Hse Hcfg) as (e & -> & Hinit). cbn [mbind outcome_bind].
    destruct (Hinit (Active e)) as (e1 & c1 & -> & Hc1). cbn [mbind outcome_bind].
    destruct (enqueue_all_ok now seen ps c1 e1 Hc1 Hps) as (e2 & -> & Hc2). cbn [mbind outcome_bind].
    destruct (endpoint_proceeds now seen c1 e2 (Endpoint.flush e2 now c1) Hc2) as (e3 & c3 & -> & Hc3).
    { intros Hi. by apply flush_proceeds. }
    by eexists.
Qed.

(** ** Incoming frames *)

(** The result of an operation that reads the clock. *)
Definition kept_later (now : Z) (seen : list Event) (r : outcome ClientCore) : Prop :=
  exists now', now <= now' /\ kept now' seen r.

Lemma kept_now now seen r : kept now seen r -> kept_later now seen r.
Proof. intros Hk. exists now. split; [lia|done]. Qed.

Lemma kept_bind now seen r k : kept_later now seen r ->
  (forall now' c, now <= now' -> client_at now' seen c -> kept_later now' seen (k c)) -> kept_later now seen (r ≫= k).
Proof.
  intros (now1 & Hn1 & c & -> & Hc) Hk. destruct (Hk now1 c Hn1 Hc) as (now2 & Hn2 & Hr).
  exists now2. split; [lia|done].
Qed.

(** What the receiving socket may yield: any bytes, no more than the receive buffer holds. *)
Definition arrival_ok (f : list Z) : Prop := Forall is_u8 f /\ zlen f <= FRAME_SIZE_MAX.

Lemma inspect_arrival f : arrival_ok f -> verify_minimum_size f = true ->
  exists ok t p, verify_crc f = Ok ok /\ read_type f = Ok t /\ payload f = Ok p /\ payload_ok p.
Proof.
  intros [Hu Hz] Hm. destruct (inspect_any f Hu Hm) as (ok & t & p & Hc & Ht & Hp & Hl & Hup).
  exists ok, t, p. do 3 (split; [done|]). split; [done|].
  unfold FRAME_OVERHEAD_SIZE, FRAME_HEADER_SIZE, FRAME_CRC_SIZE, Client.FRAME_SIZE_MAX,
    Endpoint.FRAME_SIZE_MAX in *. lia.
Qed.

Lemma client_handle_frame_ok now seen c f : client_at now seen c -> arrival_ok f ->
  kept_later now seen (handle_frame c f).
Proof.
  intros Hc Hf. unfold handle_frame. destruct (verify_minimum_size f) eqn:Em; cbn [negb];
    [|by apply kept_now, kept_refl].
  destruct (inspect_arrival f Hf Em) as (ok & t & p & Hcrc & Ht & Hp & Hpo).
  rewrite Ht, Hcrc, Hp. cbn [mbind outcome_bind]. destruct t as [t|]; [|by apply kept_now, kept_refl].
  destruct ok; cbn [negb]; [|by apply kept_now, kept_refl].
  destruct (read_time_ok now seen c Hc) as (tm & w & -> & Htm & Hc'). exists tm. split; [done|].
  assert (Hother : kept tm seen (handle_frame_other (set_world w c) t p tm)).
  { unfold handle_frame_other. destruct (state (set_world w c)) as [st|e|] eqn:Es; try by apply kept_refl.
    apply (endpoint_kept tm seen (set_world w c) e); [done|done|]. intros Hi. by apply handle_frame_proceeds. }
  destruct Hpo as [Hu _]. destruct t; try exact Hother; [by apply alpha_ack_ok|by apply beta_ack_ok].
Qed.

Lemma client_handle_frames_ok fs : forall now seen c, client_at now seen c -> Forall arrival_ok fs ->
  kept_later now seen (handle_frames c fs).
Proof.
  induction fs as [|f fs IH]; intros now seen c Hc Hfs; cbn [handle_frames]; [by apply kept_now, kept_refl|].
  apply Forall_cons in Hfs as [Hf Hfs]. apply kept_bind; [by apply client_handle_frame_ok|]. intros. by apply IH.
Qed.

Lemma client_handle_frames_wait_same c fs : handle_frames_wait c fs = handle_frames c fs.
Proof. by destruct fs. Qed.

(** ** The application's requests *)

Lemma buffer_packet now seen c st p m : client_at now seen c -> state c = Handshake st -> buffered_ok (p, m) ->
  client_at now seen (set_state (Handshake (mkHandshakeState (phase st) (timeout_time_ms st) (timeout_ms st)
    (packet_buffer st ++ [(p, m)]) (frame st) (local_nonce st))) c).
Proof.
  intros [? ? ? ? Hst Hse] Es Hp. unfold state_ok in Hst. rewrite Es in *. split; try done.
  unfold state_ok. cbn. destruct Hst as (Ht & Htm & Htt & Hps & Hrest). split; [done|]. split; [done|].
  split; [done|].
  split; [|done]. apply Forall_app. split; [done|]. by apply Forall_singleton.
Qed.

Lemma send_ok now seen c p m : client_at now seen c -> buffered_ok (p, m) -> kept_later now seen (send c p m).
Proof.
  intros Hc Hp. unfold send. destruct (state c) as [st|e|] eqn:Es.
  - apply kept_now. eexists. split; [done|]. by apply buffer_packet.
  - destruct (read_time_ok now seen c Hc) as (t & w & -> & Ht & Hc'). exists t. split; [done|].
    destruct (enqueue_all_ok t seen [(p, m)] (set_world w c) e) as (e' & He & Hc2).
    { by rewrite set_state_same. } { by apply Forall_singleton. }
    cbn [enqueue_all] in He. apply outcome_bind_Ok in He as (e1 & He1 & [= ->]). rewrite He1.
    cbn [mbind outcome_bind].
    destruct (endpoint_proceeds t seen _ e' (Endpoint.flush e' t (set_world w c)) Hc2) as (e2 & c2 & -> & Hc3).
    { intros Hi. by apply flush_proceeds. }
    by eexists.
  - by apply kept_now, kept_refl.
Qed.

Lemma enqueue_ok now seen c p m : client_at now seen c -> buffered_ok (p, m) -> kept_later now seen (enqueue c p m).
Proof.
  intros Hc Hp. unfold enqueue. destruct (state c) as [st|e|] eqn:Es.
  - apply kept_now. eexists. split; [done|]. by apply buffer_packet.
  - destruct (read_time_ok now seen c Hc) as (t & w & -> & Ht & Hc'). exists t. split; [done|].
    destruct (enqueue_all_ok t seen [(p, m)] (set_world w c) e) as (e' & He & Hc2).
    { by rewrite set_state_same. } { by apply Forall_singleton. }
    cbn [enqueue_all] in He. apply outcome_bind_Ok in He as (e1 & He1 & [= ->]). rewrite He1. by eexists.
  - by apply kept_now, kept_refl.
Qed.

Lemma flush_ok now seen c : client_at now seen c -> kept_later now seen (flush c).
Proof.
  intros Hc. unfold flush. destruct (state c) as [st|e|] eqn:Es; try by apply kept_now, kept_refl.
  destruct (read_time_ok now seen c Hc) as (t & w & -> & Ht & Hc'). exists t. split; [done|].
  apply (endpoint_kept t seen (set_world w c) e); [done|done|]. intros Hi. by apply flush_proceeds.
Qed.

Lemma disconnect_ok now seen c : client_at now seen c -> kept_later now seen (disconnect c).
Proof.
  intros Hc. unfold disconnect. destruct (state c) as [st|e|] eqn:Es; try by apply kept_now, kept_refl.
  destruct (read_time_ok now seen c Hc) as (t & w & -> & Ht & Hc'). exists t. split; [done|].
  apply (endpoint_kept t seen (set_world w c) e); [done|done|]. intros Hi. by apply disconnect_proceeds.
Qed.

(** ** Taking events *)

Lemma client_pop_event_ok now seen c : client_at now seen c ->
  client_at now (seen ++ option_list (pop_event c).1) (pop_event c).2.
Proof.
  intros [? ? ? ? ? Hse]. unfold pop_event. destruct (events c) as [|ev evs] eqn:Ee; cbn.
  - split; try done. by rewrite app_nil_r, Ee.
  - split; try done. cbn. by rewrite <- app_assoc.
Qed.
(** An operation that hands events to the application. *)
Definition served (now : Z) (seen : list Event) (r : outcome (list Event * ClientCore)) : Prop :=
  exists now' evs c', now <= now' /\ r = Ok (evs, c') /\ client_at now' (seen ++ evs) c'.

Lemma client_kept_served now seen r : kept_later now seen r -> served now seen (c ← r; Ok ([], c)).
Proof. intros (now' & Hn & c' & -> & Hc). exists now', [], c'. by rewrite app_nil_r. Qed.

Lemma client_served_earlier now now' seen r : now <= now' -> served now' seen r -> served now seen r.
Proof. intros Hn (n & evs & c' & Hn' & Hr & Hc). exists n, evs, c'. split; [lia|done]. Qed.

Lemma client_served_bind now seen r k : kept_later now seen r ->
  (forall now' c, client_at now' seen c -> served now' seen (k c)) -> served now seen (r ≫= k).
Proof. intros (now1 & Hn1 & c & -> & Hc) Hk. apply (client_served_earlier now now1); [done|]. by apply Hk. Qed.

Lemma handle_frames_timeouts_ok now seen c fs : client_at now seen c -> Forall arrival_ok fs ->
  kept_later now seen (self ← handle_frames c fs; process_timeouts self).
Proof.
  intros Hc Hfs. apply kept_bind; [by apply client_handle_frames_ok|]. intros n c' _ Hc'.
  destruct (process_timeouts_ok n seen c' Hc') as (n' & Hn' & Hk). by exists n'.
Qed.

Lemma next_timer_ok now seen c : client_at now seen c ->
  exists now' t c', now <= now' /\ next_timer_timeout c = (t, c') /\ client_at now' seen c'.
Proof.
  intros Hc. unfold next_timer_timeout. destruct (read_time_ok now seen c Hc) as (t & w & -> & Ht & Hc').
  change (rto_timer (set_world w c)) with (rto_timer c). exists t. destruct (rto_timer c); by eexists _, _.
Qed.

Lemma client_instant_now_ok now seen c : client_at now seen c ->
  exists t c', instant_now c = (t, c') /\ client_at now seen c' /\ events c' = events c.
Proof.
  intros [Hn Hw ? ? Hst ?]. destruct (elapsed_ok _ Hw) as [Hw' Hle]. unfold instant_now, elapsed in *.
  eexists _, _. split; [done|]. split; [|done]. cbn [snd] in *. split; try done.
  change (world (set_world ?w c)) with w. lia.
Qed.

Definition answer (w : waiting) : list Event * ClientCore :=
  match w with Returned ev c => (option_list ev, c) | Blocked _ c => ([], c) end.

Lemma client_popped now seen c : client_at now seen c ->
  served now seen (Ok (answer (let '(ev, c) := pop_event c in Returned ev c))).
Proof.
  intros Hc. pose proof (client_pop_event_ok now seen c Hc) as Hp. destruct (pop_event c) as [ev c'].
  exists now, (option_list ev), c'. split; [lia|done].
Qed.

Lemma client_wait_event_ok ws : forall now seen c, client_at now seen c -> Forall (Forall arrival_ok) ws ->
  served now seen (answer <$> wait_event c ws).
Proof.
  induction ws as [|fs ws IH]; intros now seen c Hc Hws; cbn [wait_event];
    destruct (next_timer_ok now seen c Hc) as (n1 & t & c1 & Hn1 & -> & Hc1); apply (client_served_earlier now n1);
      try done.
  - exists n1, [], c1. rewrite app_nil_r. split; [lia|done].
  - apply Forall_cons in Hws as [Hfs Hws]. rewrite client_handle_frames_wait_same.
    destruct (handle_frames_timeouts_ok n1 seen c1 fs Hc1 Hfs) as (n2 & Hn2 & c2 & Hr & Hc2).
    apply outcome_bind_Ok in Hr as (c1' & Hf & Ht). rewrite Hf. cbn [mbind outcome_bind]. rewrite Ht.
    cbn [mbind outcome_bind]. apply (client_served_earlier n1 n2); [done|].
    pose proof (client_popped n2 seen c2 Hc2) as Hp. unfold pop_event in *. destruct (events c2) as [|ev evs].
    + by apply IH.
    + exact Hp.
Qed.

Lemma client_wait_timeout_ok ws : forall now seen c rem t0, client_at now seen c -> Forall (Forall arrival_ok) ws ->
  served now seen (answer <$> wait_event_timeout_loop c rem t0 ws).
Proof.
  induction ws as [|fs ws IH]; intros now seen c rem t0 Hc Hws; cbn [wait_event_timeout_loop];
    destruct (next_timer_ok now seen c Hc) as (n1 & t & c1 & Hn1 & -> & Hc1); apply (client_served_earlier now n1);
      try done.
  - exists n1, [], c1. rewrite app_nil_r. split; [lia|done].
  - apply Forall_cons in Hws as [Hfs Hws]. rewrite client_handle_frames_wait_same.
    destruct (handle_frames_timeouts_ok n1 seen c1 fs Hc1 Hfs) as (n2 & Hn2 & c2 & Hr & Hc2).
    apply outcome_bind_Ok in Hr as (c1' & Hf & Ht). rewrite Hf. cbn [mbind outcome_bind]. rewrite Ht.
    cbn [mbind outcome_bind]. apply (client_served_earlier n1 n2); [done|].
    pose proof (client_popped n2 seen c2 Hc2) as Hp. destruct (events c2) as [|ev evs] eqn:Ee.
    + destruct (client_instant_now_ok n2 seen c2 Hc2) as (t1 & c3 & -> & Hc3 & _). case_bool; [|by apply IH].
      exists n2, [], c3. rewrite app_nil_r. split; [lia|done].
    + by destruct (pop_event c2).
Qed.

Lemma connect_ok cfg w c : valid_config cfg -> world_ok w -> connect_with_config cfg w = Ok c ->
  client_at (World.now w) [] c.
Proof.
  intros Hcfg Hw. unfold connect_with_config. rewrite (vc_valid _ Hcfg). cbn [mbind outcome_bind].
  destruct (random_u32_ok w Hw) as (Hn & Hw' & Hnow). destruct (random_u32 w) as [nonce w']. cbn [fst snd] in *.
  assert (Hv : block_valid (mkHandshakeAlphaFrame PROTOCOL_ID nonce)) by (split; [done|exact Hn]).
  change FRAME_SIZE_MAX with HANDSHAKE_ALPHA_FRAME_SIZE_MAX. rewrite (write_padded _ Hv). cbn [mbind outcome_bind].
  assert (Hrq : request_ok (padded (mkHandshakeAlphaFrame PROTOCOL_ID nonce))) by by eapply rq_alpha.
  generalize dependent (padded (mkHandshakeAlphaFrame PROTOCOL_ID nonce)). intros f Hf [= <-].
  pose proof (now_range _ Hw). pose proof (valid_handshake _ Hcfg).
  unfold HANDSHAKE_TIMEOUT_MIN_MS, HANDSHAKE_RESEND_TIMEOUT_MS in *.
  split; try done.
  - change (0 <= World.now w <= World.now w'). lia.
  - by apply Forall_singleton.
  - unfold state_ok. cbn. unfold HANDSHAKE_RESEND_TIMEOUT_MS. split; [eexists; split; [done|lia]|]. split; [lia|].
    split; [lia|].
    split; [apply Forall_nil_2|done].
Qed.

Lemma connect_returns cfg w : valid_config cfg -> world_ok w -> exists c, connect_with_config cfg w = Ok c.
Proof.
  intros Hcfg Hw. unfold connect_with_config. rewrite (vc_valid _ Hcfg). cbn [mbind outcome_bind].
  destruct (random_u32_ok w Hw) as (Hn & _). destruct (random_u32 w) as [nonce w']. cbn [fst] in *.
  assert (Hv : block_valid (mkHandshakeAlphaFrame PROTOCOL_ID nonce)) by (split; [done|exact Hn]).
  change FRAME_SIZE_MAX with HANDSHAKE_ALPHA_FRAME_SIZE_MAX. rewrite (write_padded _ Hv). by eexists.
Qed.
End Operations.

(** ** Use of a client *)

Inductive request : Type :=
| RPoll (socket_rx : list (list Z))
| RWait (wakeups : list (list (list Z)))
| RWaitTimeout (timeout : Z) (wakeups : list (list (list Z)))
| RSend (packet : list Z) (mode : SendMode)
| REnqueue (packet : list Z) (mode : SendMode)
| RFlush
| RDisconnect.

Section Use.
Context `{BuildProfile}.

(** The events handed out, and the client after the call (or while it still waits). *)
Definition serve (c : ClientCore) (r : request) : outcome (list Event * ClientCore) :=
  match r with
  | RPoll rx => '(ev, c) ← poll_event c rx; Ok (option_list ev, c)
  | RWait ws => answer <$> wait_event c ws
  | RWaitTimeout timeout ws => answer <$> wait_event_timeout c timeout ws
  | RSend p m => c ← send c p m; Ok ([], c)
  | REnqueue p m => c ← enqueue c p m; Ok ([], c)
  | RFlush => c ← flush c; Ok ([], c)
  | RDisconnect => c ← disconnect c; Ok ([], c)
  end.

Definition request_typed (r : request) : Prop :=
  match r with
  | RPoll rx => Forall arrival_ok rx
  | RWait ws | RWaitTimeout _ ws => Forall (Forall arrival_ok) ws
  | RSend p m | REnqueue p m => buffered_ok (p, m)
  | _ => True
  end.

(** The clients an application can have, with the events it has taken. *)
Inductive client_reachable (cfg : Config) : list Event -> ClientCore -> Prop :=
| cr_connect w c : world_ok w -> connect_with_config cfg w = Ok c -> client_reachable cfg [] c
| cr_request seen c r evs c' :
    client_reachable cfg seen c -> request_typed r -> serve c r = Ok (evs, c') ->
      client_reachable cfg (seen ++ evs) c'.

Lemma client_poll_event_ok now seen c rx : client_at now seen c -> Forall arrival_ok rx ->
  served now seen ('(ev, c) ← poll_event c rx; Ok (option_list ev, c)).
Proof.
  intros Hc Hrx. unfold poll_event. rewrite outcome_bind_assoc. apply client_served_bind.
  - destruct (events c); [by apply handle_frames_timeouts_ok|by apply kept_now, kept_refl].
  - intros n c' Hc'. cbn [mbind outcome_bind]. pose proof (client_popped n seen c' Hc') as Hp.
    by destruct (pop_event c').
Qed.

Lemma client_serve_ok now seen c r : client_at now seen c -> request_typed r -> served now seen (serve c r).
Proof.
  intros Hc Hr. destruct r as [rx|ws|t ws|p m|p m| |]; cbn [serve request_typed] in *.
  - by apply client_poll_event_ok.
  - by apply client_wait_event_ok.
  - unfold wait_event_timeout. destruct (events c) as [|ev evs] eqn:Ee.
    + destruct (client_instant_now_ok now seen c Hc) as (t0 & c1 & -> & Hc1 & _). by apply client_wait_timeout_ok.
    + pose proof (client_popped now seen c Hc) as Hp. by destruct (pop_event c).
  - by apply client_kept_served, send_ok.
  - by apply client_kept_served, enqueue_ok.
  - by apply client_kept_served, flush_ok.
  - by apply client_kept_served, disconnect_ok.
Qed.

Lemma client_reachable_at cfg seen c : valid_config cfg -> client_reachable cfg seen c ->
  exists now, client_at now seen c.
Proof.
  intros Hcfg. induction 1 as [w c Hw Hc|seen c r evs c' Hr (now & Hc) Ht Hs].
  - eexists. by eapply connect_ok.
  - destruct (client_serve_ok now seen c r Hc Ht) as (n & evs' & c1 & _ & Hs' & Hc1).
    rewrite Hs in Hs'. injection Hs' as <- <-. by exists n.
Qed.

(** ** Driving a client *)

#[export] Instance arrival_ok_dec f : Decision (arrival_ok f).
Proof. unfold arrival_ok. apply _. Defined.
#[export] Instance buffered_ok_dec pm : Decision (buffered_ok pm).
Proof. unfold buffered_ok. apply _. Defined.
#[export] Instance request_typed_dec r : Decision (request_typed r).
Proof. destruct r; cbn [request_typed]; apply _. Defined.

Fixpoint drive_client (seen : list Event) (c : ClientCore) (rs : list request) : option (list Event * ClientCore) :=
  match rs with
  | [] => Some (seen, c)
  | r :: rs =>
      if decide (request_typed r) then
        match serve c r with
        | Ok (evs, c) => drive_client (seen ++ evs) c rs
        | Fault _ => None
        end
      else None
  end.

Definition start_client (cfg : Config) (w : World) (rs : list request) : option (list Event * ClientCore) :=
  match connect_with_config cfg w with
  | Ok c => drive_client [] c rs
  | Fault _ => None
  end.

Lemma drive_client_reachable cfg rs : forall seen c x, client_reachable cfg seen c ->
  drive_client seen c rs = Some x ->
  client_reachable cfg x.1 x.2.
Proof.
  induction rs as [|r rs IH]; intros seen c x Hr Hd; cbn [drive_client] in Hd; [by injection Hd as <-|].
  destruct (decide _) as [Ht|]; [|done]. destruct (serve c r) as [[evs c']|] eqn:Hs; [|done].
  apply (IH _ _ _ (cr_request cfg seen c r evs c' Hr Ht Hs) Hd).
Qed.

(** A computed observation of a driven client is one of a reachable client. *)
Lemma observe_client {A} cfg w rs (f : list Event * ClientCore -> A) x :
  world_ok w -> f <$> start_client cfg w rs = Some x -> exists seen c, client_reachable cfg seen c /\ f (seen, c) = x.
Proof.
  intros Hw Hx. apply fmap_Some in Hx as ([seen c] & Hs & ->). exists seen, c. split; [|done].
  unfold start_client in Hs. destruct (connect_with_config cfg w) as [c0|] eqn:Hc; [|done].
  by apply (drive_client_reachable cfg rs [] c0 (seen, c)); [by eapply cr_connect|].
Qed.
End Use.

(** ** Examples: a debug build, the default configuration *)

Section Examples.
#[local] Instance client_debug_build : BuildProfile := true.

Lemma default_valid : valid_config config_default.
Proof. split; [by vm_compute|by vm_compute|by vm_compute|by vm_compute]. Qed.

(** The server's acknowledgements, and a segment with two packets. *)
Definition example_acks : list (list Z) :=
  [sealed (mkHandshakeAlphaAckFrame unlimited_params 7 9 0 77); sealed (mkHandshakeBetaAckFrame None 7)].
Definition example_segment : list Z :=
  [6; 1; 0; 0; 0; 0; 7; 0; 0; 0; 0; 0; 1; 4; 6; 0; 0; 0; 0; 0; 3; 1; 2; 3; 35; 13; 39; 3].

(** Once connected, sending an empty packet fails an assertion. *)
Lemma client_empty_stops : exists cfg seen c, valid_config cfg /\ client_reachable cfg seen c /\
  serve c (RSend [] SendReliable) = Fault Panicked.
Proof.
  destruct (observe_client config_default (example_world 0) [RPoll example_acks]
    (fun x => serve x.2 (RSend [] SendReliable)) (Fault Panicked)) as (seen & c & Hr & Ho);
    [by apply example_world_ok|vm_compute; reflexivity|].
  exists config_default, seen, c. split; [exact default_valid|by split].
Qed.
End Examples.

(** ** Theorems *)

Section Theorems.
Context `{BuildProfile}.


(** C11: The application of a client sees nothing during the handshake; a single [Error] if
    it fails; and otherwise [Connect], then packets, then one [Disconnect] or timeout
    error, after which nothing follows.  What is queued but not yet taken is part of the
    session, and the client's state says how far the session is. *)
Theorem client_session cfg seen c : valid_config cfg -> client_reachable cfg seen c ->
  let session := seen ++ events c in
  match state c with
  | Handshake _ => session = []
  | Active e =>
      (Endpoint.state_id e = Endpoint.Active \/ Endpoint.state_id e = Endpoint.Closing) /\
        (exists ps, session = Connect :: (Receive <$> ps)) \/
      Endpoint.state_id e = Endpoint.Closed /\ exists ps, session = Connect :: (Receive <$> ps) ++ [Disconnect]
  | Quiescent => at_rest session
  end.
Proof.
  intros Hcfg Hr. destruct (client_reachable_at cfg seen c Hcfg Hr) as [now Hc].
  pose proof (ci_session _ _ _ Hc) as Hse. pose proof (ci_state _ _ _ Hc) as Hst. unfold state_ok in Hst.
  cbn zeta. destruct (state c) as [st|e|]; [done| |done]. destruct Hst as (_ & _ & Hp & Hz). cbn [session_ok] in Hse.
  destruct (Endpoint.state_id e) eqn:Es; try done; [left|left|right].
  - split; [by left|]. apply (open_seen _ _ (or_introl eq_refl) Hse).
  - split; [by right|]. apply (open_seen _ _ (or_intror eq_refl) Hse).
  - split; [done|]. by apply closed_seen.
Qed.

(** C18: Every frame a client sends fits the largest frame size and passes the checks the
    server makes of it: the first request is padded to the full size and names the
    protocol, the second has the exact size and reads back whole, and every other frame is
    a valid stream or close frame. *)
Theorem client_frames_valid cfg seen c f : valid_config cfg -> client_reachable cfg seen c -> f ∈ socket_tx c ->
  zlen f <= FRAME_SIZE_MAX /\ verify_minimum_size f = true /\
  exists t p, read_type f = Ok (Some t) /\ payload f = Ok p /\
    match t with
    | HandshakeAlpha => verify_handshake_alpha_size_and_crc f FRAME_SIZE_MAX = Ok true /\
        exists nonce, simple_payload_read p = Ok (Some (mkHandshakeAlphaFrame PROTOCOL_ID nonce))
    | HandshakeBeta => verify_handshake_beta_size_and_crc f = Ok true /\
        exists b : HandshakeBetaFrame, simple_payload_read p = Ok (Some b) /\ hb_client_params b = unlimited_params
    | _ => verify_crc f = Ok true /\ frame_content t p
    end.
Proof.
  intros Hcfg Hr Hf. destruct (client_reachable_at cfg seen c Hcfg Hr) as [now Hc].
  pose proof (ci_sent _ _ _ Hc) as Hs. rewrite Forall_forall in Hs. specialize (Hs f Hf).
  destruct Hs as [nonce Hn ->|b Hv Hb ->|(t & p & -> & Hfc & Hu & Hz)].
  - assert (Hv : block_valid (mkHandshakeAlphaFrame PROTOCOL_ID nonce)) by (split; [done|exact Hn]).
    destruct (padded_checks _ Hv) as ([r [Hm Ht Hp Hu]] & Hcrc). rewrite padded_length. split; [done|].
    split; [done|].
    exists HandshakeAlpha, (block_encode (mkHandshakeAlphaFrame PROTOCOL_ID nonce) ++ r).
    split; [done|]. split; [done|]. split; [done|]. exists nonce. by apply simple_read_encode.
  - destruct (sealed_carries b Hv) as ([Hm Ht Hp Hu] & _). rewrite (sealed_length b). split; [done|]. split; [done|].
    exists HandshakeBeta, (block_encode b). split; [done|]. split; [done|]. split; [by apply beta_checks|].
    exists b. split; [by apply simple_read_exact|done].
  - destruct (seal_checks t p Hu) as (Hm & Hcrc & Ht & Hp). split; [done|]. split; [done|].
    exists t, p. split; [done|]. split; [done|].
    destruct Hfc; (split; [exact Hcrc|by constructor]).
Qed.

(** C19: A handshake never hangs.  While it lasts the client's timer is set, at most two
    seconds ahead, and its deadline is at most the configured timeout ahead; a poll after
    the timer's time sends the current request again and sets the timer for two seconds
    later, and one after the deadline reports the timeout and leaves the client at rest. *)
Theorem handshake_progress cfg seen c st : valid_config cfg -> client_reachable cfg seen c ->
  state c = Handshake st ->
  let now := World.now (world c) in
  exists t, rto_timer c = Some t /\ t <= now + HANDSHAKE_RESEND_TIMEOUT_MS /\
    timeout_time_ms st <= now + timeout_ms st /\
    (t <= now -> timeout_time_ms st <= now ->
      exists c', poll_event c [] = Ok (Some (Error Timeout), c') /\ state c' = Quiescent /\ events c' = []) /\
    (t <= now -> now < timeout_time_ms st ->
      exists c', poll_event c [] = Ok (None, c') /\ state c' = Handshake st /\
        socket_tx c' = socket_tx c ++ [frame st] /\ rto_timer c' = Some (now + HANDSHAKE_RESEND_TIMEOUT_MS)).
Proof.
  intros Hcfg Hr Es now. destruct (client_reachable_at cfg seen c Hcfg Hr) as [n Hc].
  pose proof (ci_session _ _ _ Hc) as Hse. rewrite Es in Hse. apply app_eq_nil in Hse as [_ He].
  pose proof (ci_state _ _ _ Hc) as Hst. unfold state_ok in Hst. rewrite Es in Hst.
  destruct Hst as ((t & Ht & Hle) & Htm & Htt & _). pose proof (ci_now _ _ _ Hc) as Hn. fold now in Hn.
  destruct (time_now_ms_now _ (ci_world _ _ _ Hc)) as (w & Hw & _ & _). fold now in Hw.
  pose proof (now_range _ (ci_world _ _ _ Hc)) as Hmax. fold now in Hmax.
  exists t. split; [done|]. split; [lia|]. split; [lia|]. clearbody now.
  unfold poll_event, process_timeouts, read_time, process_timeout, pop_event. rewrite He.
  cbn [handle_frames mbind outcome_bind].
  rewrite Hw. change (rto_timer (set_world w c)) with (rto_timer c). rewrite Ht.
  change (state (set_timer None (set_world w c))) with (state c). rewrite Es. split; intros Htn Hd.
  - rewrite (proj2 (Z.leb_le _ _) Htn), (proj2 (Z.leb_le _ _) Hd). cbn [mbind outcome_bind].
    change (events (set_state _ _)) with (events c ++ [Error Timeout]). rewrite He. by eexists.
  - rewrite (proj2 (Z.leb_le _ _) Htn), (proj2 (Z.leb_gt _ _) Hd).
    unfold HANDSHAKE_RESEND_TIMEOUT_MS, TIME_MAX in *. rewrite add64_ok by (unfold two64; lia).
    cbn [mbind outcome_bind].
    destruct (phase st); cbn [mbind outcome_bind]; change (events (send_bytes _ _)) with (events c); rewrite He;
      by eexists.
Qed.
End Theorems.

#[local] Instance client_session_debug : BuildProfile := true.

Lemma example_client {A} rs (f : list Event * ClientCore -> A) x :
  f <$> start_client config_default (example_world 0) rs = Some x ->
  exists seen c, client_reachable config_default seen c /\ f (seen, c) = x.
Proof. apply observe_client. by apply example_world_ok. Qed.

Definition in_handshake (x : list Event * ClientCore) : bool :=
  match state x.2 with Handshake _ => true | _ => false end.
Definition in_session (x : list Event * ClientCore) : bool :=
  match state x.2 with
  | Active e => match Endpoint.state_id e with Endpoint.Active => true | _ => false end
  | _ => false
  end.


Lemma client_session_witness : exists seen c, client_reachable config_default seen c /\
  events c = [Receive [4]; Receive [1; 2; 3]] /\ seen = [Connect] /\
  let session := seen ++ events c in
  match state c with
  | Handshake _ => session = []
  | Active e =>
      (Endpoint.state_id e = Endpoint.Active \/ Endpoint.state_id e = Endpoint.Closing) /\
        (exists ps, session = Connect :: (Receive <$> ps)) \/
      Endpoint.state_id e = Endpoint.Closed /\ exists ps, session = Connect :: (Receive <$> ps) ++ [Disconnect]
  | Quiescent => at_rest session
  end.
Proof.
  destruct (example_client [RPoll (example_acks ++ [example_segment])] (fun x => (events x.2, x.1))
    ([Receive [4]; Receive [1; 2; 3]], [Connect])) as (seen & c & Hr & Ho); [vm_compute; reflexivity|].
  exists seen, c. split; [exact Hr|]. cbn [fst snd] in Ho. injection Ho as H1 H2. split; [exact H1|].
  split; [exact H2|].
  apply (client_session config_default); [exact default_valid|exact Hr].
Defined.

Lemma client_frames_valid_witness : exists f, zlen f <= FRAME_SIZE_MAX /\ verify_minimum_size f = true /\
  exists t p, read_type f = Ok (Some t) /\ payload f = Ok p /\
    match t with
    | HandshakeAlpha => verify_handshake_alpha_size_and_crc f FRAME_SIZE_MAX = Ok true /\
        exists nonce, simple_payload_read p = Ok (Some (mkHandshakeAlphaFrame PROTOCOL_ID nonce))
    | HandshakeBeta => verify_handshake_beta_size_and_crc f = Ok true /\
        exists b : HandshakeBetaFrame, simple_payload_read p = Ok (Some b) /\ hb_client_params b = unlimited_params
    | _ => verify_crc f = Ok true /\ frame_content t p
    end.
Proof.
  destruct (example_client [] (fun x => zlen (socket_tx x.2)) 1) as (seen & c & Hr & Ho); [vm_compute; reflexivity|].
  cbn [snd] in Ho. destruct (socket_tx c) as [|f fs] eqn:E; [discriminate Ho|]. exists f.
  apply (client_frames_valid config_default seen c); [exact default_valid|exact Hr|]. rewrite E. by left.
Defined.

Lemma handshake_progress_witness : exists seen c st, client_reachable config_default seen c /\
  let now := World.now (world c) in
  exists t, rto_timer c = Some t /\ t <= now + HANDSHAKE_RESEND_TIMEOUT_MS /\
    timeout_time_ms st <= now + timeout_ms st /\
    (t <= now -> timeout_time_ms st <= now ->
      exists c', poll_event c [] = Ok (Some (Error Timeout), c') /\ state c' = Quiescent /\ events c' = []) /\
    (t <= now -> now < timeout_time_ms st ->
      exists c', poll_event c [] = Ok (None, c') /\ state c' = Handshake st /\
        socket_tx c' = socket_tx c ++ [frame st] /\ rto_timer c' = Some (now + HANDSHAKE_RESEND_TIMEOUT_MS)).
Proof.
  destruct (example_client [RPoll []] in_handshake true) as (seen & c & Hr & Ho); [vm_compute; reflexivity|].
  unfold in_handshake in Ho. cbn [snd] in Ho. destruct (state c) as [st| |] eqn:Es; try discriminate Ho.
  exists seen, c, st. split; [exact Hr|].
  apply (handshake_progress config_default seen c st); [exact default_valid|exact Hr|exact Es].
Defined.

(** [wait_event] does not return an event that is ready.  The documentation promises the
    next event immediately if any is ready; here two received packets are queued, the
    client is connected and idle, and the call waits on the socket without any timeout. *)
Theorem wait_event_pending : exists seen c c',
  client_reachable config_default seen c /\ events c = [Receive [4]; Receive [1; 2; 3]] /\
  wait_event c [] = Ok (Blocked None c').
Proof.
  destruct (example_client [RPoll (example_acks ++ [example_segment])] (fun x => (events x.2, rto_timer x.2))
    ([Receive [4]; Receive [1; 2; 3]], None)) as (seen & c & Hr & Ho); [vm_compute; reflexivity|].
  cbn [fst snd] in Ho. injection Ho as He Ht. exists seen, c, (set_world (time_now_ms (world c)).2 c).
  split; [exact Hr|]. split; [exact He|]. cbn [wait_event]. unfold next_timer_timeout, read_time.
  destruct (time_now_ms (world c)) as [t w]. assert (Htw : rto_timer (set_world w c) = None) by exact Ht.
  by rewrite Htw.
Qed.

(** A [disconnect] during the handshake is forgotten: the connection is established
    afterwards and the packets queued before are sent, although the documentation says
    that no more packets are sent or received once it has been called. *)
Theorem disconnect_forgotten : exists seen c,
  start_client config_default (example_world 0)
    [REnqueue [1] SendReliable; RDisconnect; RPoll example_acks] = Some (seen, c) /\
  seen = [Connect] /\ in_session (seen, c) = true /\ length (socket_tx c) = 3%nat.
Proof.
  destruct (start_client _ _ _) as [[seen c]|] eqn:E.
  - exists seen, c. split; [done|].
    assert (Ho : (fun x => (x.1, in_session x, length (socket_tx x.2))) <$>
      start_client config_default (example_world 0) [REnqueue [1] SendReliable; RDisconnect; RPoll example_acks]
      = Some ([Connect], true, 3%nat)) by (vm_compute; reflexivity).
    rewrite E in Ho. clear E. by injection Ho as -> -> ->.
  - exfalso. assert (Ho : bool_decide (is_Some (start_client config_default (example_world 0)
      [REnqueue [1] SendReliable; RDisconnect; RPoll example_acks])) = true) by (vm_compute; reflexivity).
    rewrite E in Ho. discriminate Ho.
Qed.
