(* ===== verification/HandshakeMac.v ===== *)
(** * The handshake's authentication code ([server/handshake_mac.rs])

    A server that has acknowledged a first request keeps nothing about the client; it
    recognises its own acknowledgement in the second request by a SipHash code over the
    sender's address, the nonces and the time.  SipHash itself is the [siphasher] crate: an
    interface here, of which only the width of the result is used. *)

From S2P Require Import Prelude Word World.
From stdpp Require Import countable list.

#[local] Open Scope Z_scope.

(** [std::net::SocketAddr]: octets of the address and port; version 6 carries two more
    fields that take part in its equality. *)
Inductive SocketAddr : Set :=
| V4 (ip : list Z) (port : Z)
| V6 (ip : list Z) (port flowinfo scope_id : Z).

#[export] Instance socket_addr_eq_dec : EqDecision SocketAddr.
Proof. solve_decision. Defined.

#[export] Instance socket_addr_countable : Countable SocketAddr.
Proof.
  refine (inj_countable'
    (fun a => match a with V4 ip p => inl (ip, p) | V6 ip p f s => inr (ip, p, f, s) end)
    (fun x => match x with inl (ip, p) => V4 ip p | inr (ip, p, f, s) => V6 ip p f s end) _).
  by intros [].
Defined.

(** [siphasher::sip::SipHasher13] through [core::hash::Hasher]. *)
Class SipHasher (H : Type) := {
  new_with_key : list Z -> H;
  hash_write : list Z -> H -> H;
  hash_write_u16 : Z -> H -> H;
  hash_write_u32 : Z -> H -> H;
  hash_finish : H -> Z;
  hash_finish_u64 h : is_u64 (hash_finish h);
}.

Module HandshakeMac.
Record HandshakeMacHasher : Set := mkHandshakeMacHasher { key : list Z }.

Fixpoint draw_octets (n : nat) (w : World) : list Z * World :=
  match n with
  | O => ([], w)
  | S n =>
      let '(b, w) := random_u8 w in
      let '(bs, w) := draw_octets n w in (b :: bs, w)
  end.

(** [HandshakeMacHasher::default]: a random key. *)
Definition default (w : World) : HandshakeMacHasher * World :=
  let '(key, w) := draw_octets 16 w in (mkHandshakeMacHasher key, w).

Definition compute {H} `{SipHasher H} (self : HandshakeMacHasher) (sender_addr : SocketAddr)
    (client_nonce server_nonce server_timestamp : Z) : Z :=
  let hasher := new_with_key (key self) in
  let hasher :=
    match sender_addr with
    | V4 ip port => hash_write_u16 port (hash_write ip hasher)
    | V6 ip port _ _ => hash_write_u16 port (hash_write ip hasher)
    end in
  let hasher := hash_write_u32 client_nonce hasher in
  let hasher := hash_write_u32 server_nonce hasher in
  let hasher := hash_write_u32 server_timestamp hasher in
  hash_finish hasher.

Lemma compute_u64 {H} `{SipHasher H} self a c s t : is_u64 (compute self a c s t).
Proof. unfold compute. destruct a; apply hash_finish_u64. Qed.

Lemma draw_octets_ok n : forall w, world_ok w ->
  world_ok (draw_octets n w).2 /\ now (draw_octets n w).2 = now w /\ length (draw_octets n w).1 = n.
Proof.
  induction n as [|n IH]; intros w Hw; [done|]. cbn [draw_octets].
  destruct (random_u8_ok w Hw) as (_ & Hw' & Hn). destruct (random_u8 w) as [b w']. cbn [snd] in *.
  destruct (IH w' Hw') as (H1 & H2 & H3). destruct (draw_octets n w') as [bs w'']. cbn [fst snd] in *.
  split; [done|]. split; [congruence|]. cbn. congruence.
Qed.
End HandshakeMac.
