(* ===== verification/Peer.v ===== *)
(** * The server's side of a connection ([server/peer.rs])

    A [PeerRef] is a shared, locked [Peer]; here it is a number, and [store] holds the peers
    behind the numbers, so that every holder of a reference sees the same peer.  [Shared] is
    what peers and server reach through shared pointers: the peers, the event queue, the
    socket and the clock.  Every function locks its peer for its whole duration. *)

From S2P Require Import Prelude Word Frame Endpoint World HandshakeMac.
From stdpp Require Import gmap.

#[local] Open Scope Z_scope.

Definition PeerRef : Set := nat.

(** [server::Event]; a [PeerHandle] is a [PeerRef] to the application. *)
Module ServerEvent.
Inductive Event : Set :=
| Connect (handle : PeerRef)
| Disconnect (handle : PeerRef)
| Receive (handle : PeerRef) (packet : list Z)
| Error (handle : PeerRef) (kind : ErrorKind).

Definition handle (ev : Event) : PeerRef :=
  match ev with Connect h => h | Disconnect h => h | Receive h _ => h | Error h _ => h end.
End ServerEvent.

Module Peer.
(** [data] is whatever object the application attaches, by some number. *)
Record PeerCore : Set := mkPeerCore {
  addr : SocketAddr;
  data : option Z;
  rto_timer : option Z;
}.

Record Peer : Set := mkPeer { core : PeerCore; endpoint : Endpoint.Endpoint }.

Record Shared : Type := mkShared {
  store : gmap nat Peer;
  events : list ServerEvent.Event;
  socket_tx : list (SocketAddr * list Z);
  world : World;
}.

Definition set_store (x : gmap nat Peer) (s : Shared) : Shared := mkShared x (events s) (socket_tx s) (world s).
Definition set_events (x : list ServerEvent.Event) (s : Shared) : Shared := mkShared (store s) x (socket_tx s)
  (world s).
Definition set_socket_tx (x : list (SocketAddr * list Z)) (s : Shared) : Shared := mkShared (store s) (events s)
  x (world s).
Definition set_world (x : World) (s : Shared) : Shared := mkShared (store s) (events s) (socket_tx s) x.

Definition push_event (ev : ServerEvent.Event) (s : Shared) : Shared := set_events (events s ++ [ev]) s.
Definition send_to (f : list Z) (a : SocketAddr) (s : Shared) : Shared := set_socket_tx (socket_tx s ++ [(a, f)]) s.
Definition read_time (s : Shared) : Z * Shared :=
  let '(t, w) := time_now_ms (world s) in (t, set_world w s).

(** [EndpointContext]: the peer's core, its reference, and what both share. *)
Record EndpointContext : Type := mkEndpointContext { peer : PeerCore; peer_ref : PeerRef; shared : Shared }.

Definition on_shared (f : Shared -> Shared) (c : EndpointContext) : EndpointContext :=
  mkEndpointContext (peer c) (peer_ref c) (f (shared c)).
Definition set_timer (t : option Z) (c : EndpointContext) : EndpointContext :=
  mkEndpointContext (mkPeerCore (addr (peer c)) (data (peer c)) t) (peer_ref c) (shared c).

#[global] Instance peer_context : HostContext EndpointContext := {|
  send_frame f c := on_shared (send_to f (addr (peer c))) c;
  set_rto_timer t := set_timer (Some t);
  unset_rto_timer := set_timer None;
  on_connect c := on_shared (push_event (ServerEvent.Connect (peer_ref c))) c;
  on_disconnect c := on_shared (push_event (ServerEvent.Disconnect (peer_ref c))) c;
  on_receive p c := on_shared (push_event (ServerEvent.Receive (peer_ref c) p)) c;
  on_timeout c := on_shared (push_event (ServerEvent.Error (peer_ref c) Timeout)) c;
|}.

#[global] Instance peer_rng : ThreadRng EndpointContext := fun c =>
  let '(b, w) := random_bool (world (shared c)) in (b, on_shared (set_world w) c).

Section Peer.
Context `{BuildProfile}.

Definition new (a : SocketAddr) (endpoint_config : Endpoint.Config) : outcome Peer :=
  endpoint ← Endpoint.new endpoint_config;
  Ok (mkPeer (mkPeerCore a None None) endpoint).

(** [peer_ref.write().unwrap()]: a reference always has a peer behind it. *)
Definition deref (r : PeerRef) (s : Shared) : outcome Peer :=
  match store s !! r with Some p => Ok p | None => Fault Panicked end.

(** The peer and its context go back behind the reference. *)
Definition release (r : PeerRef) (e : Endpoint.Endpoint) (c : EndpointContext) : Shared :=
  set_store (<[r := mkPeer (peer c) e]> (store (shared c))) (shared c).

(** [Timer::test]. *)
Definition test (r : PeerRef) (time_now : Z) (s : Shared) : bool * Shared :=
  match store s !! r with
  | Some p =>
      match rto_timer (core p) with
      | Some t =>
          if t <? time_now then
            (true, set_store (<[r := mkPeer (mkPeerCore (addr (core p)) (data (core p)) None)
              (endpoint p)]> (store s)) s)
          else (false, s)
      | None => (false, s)
      end
  | None => (false, s)
  end.

(** ** Functions of the server *)

Definition init (r : PeerRef) (s : Shared) : outcome Shared :=
  p ← deref r s;
  let '(_, s) := read_time s in
  '(e, c) ← Endpoint.init (endpoint p) (mkEndpointContext (core p) r s);
  Ok (release r e c).

Definition handle_frame (r : PeerRef) (frame_type : FrameType) (payload_bytes : list Z) (s : Shared)
  : outcome Shared :=
  p ← deref r s;
  let '(now_ms, s) := read_time s in
  '(e, c) ← Endpoint.handle_frame (endpoint p) frame_type payload_bytes now_ms (mkEndpointContext (core p) r s);
  Ok (release r e c).

Definition handle_rto_timer (r : PeerRef) (s : Shared) : outcome (Shared * Endpoint.TimeoutAction) :=
  p ← deref r s;
  let '(now_ms, s) := read_time s in
  '(e, c, action) ← Endpoint.handle_rto_timer (endpoint p) now_ms (mkEndpointContext (core p) r s);
  Ok (release r e c, action).

(** ** Methods of [PeerHandle] *)

Definition get_data (r : PeerRef) (s : Shared) : outcome (option Z) :=
  p ← deref r s; Ok (data (core p)).

Definition set_data (r : PeerRef) (d : option Z) (s : Shared) : outcome Shared :=
  p ← deref r s;
  Ok (set_store (<[r := mkPeer (mkPeerCore (addr (core p)) d (rto_timer (core p))) (endpoint p)]> (store s)) s).

Definition send (r : PeerRef) (packet_bytes : list Z) (mode : SendMode) (s : Shared) : outcome Shared :=
  p ← deref r s;
  let '(now_ms, s) := read_time s in
  e ← Endpoint.enqueue (endpoint p) packet_bytes mode now_ms;
  '(e, c) ← Endpoint.flush e now_ms (mkEndpointContext (core p) r s);
  Ok (release r e c).

Definition enqueue (r : PeerRef) (packet_bytes : list Z) (mode : SendMode) (s : Shared) : outcome Shared :=
  p ← deref r s;
  let '(now_ms, s) := read_time s in
  e ← Endpoint.enqueue (endpoint p) packet_bytes mode now_ms;
  Ok (release r e (mkEndpointContext (core p) r s)).

Definition flush (r : PeerRef) (s : Shared) : outcome Shared :=
  p ← deref r s;
  let '(now_ms, s) := read_time s in
  '(e, c) ← Endpoint.flush (endpoint p) now_ms (mkEndpointContext (core p) r s);
  Ok (release r e c).

Definition disconnect (r : PeerRef) (s : Shared) : outcome Shared :=
  p ← deref r s;
  let '(now_ms, s) := read_time s in
  '(e, c) ← Endpoint.disconnect (endpoint p) now_ms (mkEndpointContext (core p) r s);
  Ok (release r e c).
End Peer.
End Peer.
