(* ===== verification/Server.v ===== *)
(** * The server ([server/mod.rs])

    [ServerCore] keeps the table of connected peers, the queue of their timers and what it
    shares with them.  Handshakes are answered without keeping anything until a second
    request proves that its sender received the answer to the first.  [held] are the handles
    that the application holds: with the table and the event queue they decide which peers
    are still alive, which is all the timer queue asks of its weak references. *)

From S2P Require Import Prelude Word Frame Serial Prio TimerQueue Endpoint World HandshakeMac Peer.
From stdpp Require Import gmap.

#[local] Open Scope Z_scope.

Module Server.
Import ServerEvent.

Definition FRAME_SIZE_MAX : Z := 1472.
Definition PEER_COUNT_MAX_DEFAULT : Z := 8.
Definition PEER_COUNT_MAX_MAX : Z := 65536.
Definition HANDSHAKE_TIMEOUT_MS : Z := 10000.
Definition CONNECTION_TIMEOUT_DEFAULT_MS : Z := 10000.
Definition CONNECTION_TIMEOUT_MIN_MS : Z := 2000.
Definition TIMER_TEST_LIMIT : nat := 24.
(** 250 milliseconds, in nanoseconds. *)
Definition TIMER_TEST_INTERVAL : Z := 250 * NANOS_PER_MILLI.

Record Config : Set := mkConfig {
  peer_count_max : Z;
  connection_timeout_ms : Z;
  channel_balance : Endpoint.ChannelBalanceConfig;
}.

Definition config_default : Config :=
  mkConfig PEER_COUNT_MAX_DEFAULT CONNECTION_TIMEOUT_DEFAULT_MS Endpoint.balance_default.

Record ServerCore : Type := mkServerCore {
  config : Config;
  handshake_mac_hasher : HandshakeMac.HandshakeMacHasher;
  peers : gmap SocketAddr PeerRef;
  timer_queue : TimerQueue.TimerQueue (W := PeerRef);
  shared : Peer.Shared;
  held : list PeerRef;
}.

(** Field assignments. *)
Definition set_peers (x : gmap SocketAddr PeerRef) (s : ServerCore) : ServerCore :=
  mkServerCore (config s) (handshake_mac_hasher s) x (timer_queue s) (shared s) (held s).
Definition set_timer_queue (x : TimerQueue.TimerQueue) (s : ServerCore) : ServerCore :=
  mkServerCore (config s) (handshake_mac_hasher s) (peers s) x (shared s) (held s).
Definition set_shared (x : Peer.Shared) (s : ServerCore) : ServerCore :=
  mkServerCore (config s) (handshake_mac_hasher s) (peers s) (timer_queue s) x (held s).
Definition set_held (x : list PeerRef) (s : ServerCore) : ServerCore :=
  mkServerCore (config s) (handshake_mac_hasher s) (peers s) (timer_queue s) (shared s) x.

Definition read_time (s : ServerCore) : Z * ServerCore :=
  let '(t, sh) := Peer.read_time (shared s) in (t, set_shared sh s).
Definition send_to (f : list Z) (a : SocketAddr) (s : ServerCore) : ServerCore :=
  set_shared (Peer.send_to f a (shared s)) s.

Definition connection_params_compatible (a b : ConnectionParams) : bool :=
  (packet_size_out_max b <=? packet_size_in_max a) && (packet_size_out_max a <=? packet_size_in_max b).

(** [Weak::upgrade]: a peer lives while the table, an event or the application refers to it. *)
Definition referenced (s : ServerCore) (r : PeerRef) : bool :=
  bool_decide (r ∈ (map_to_list (peers s)).*2 \/ r ∈ handle <$> Peer.events (shared s) \/ r ∈ held s).
Definition upgrade (s : ServerCore * list PeerRef) (r : PeerRef) : option PeerRef :=
  if referenced s.1 r || bool_decide (r ∈ s.2) then Some r else None.

Definition timer_test (s : ServerCore * list PeerRef) (r : PeerRef) (now_ms : Z)
  : bool * (ServerCore * list PeerRef) :=
  let '(fired, sh) := Peer.test r now_ms (shared s.1) in (fired, (set_shared sh s.1, s.2)).

(** The callback of [step_timer_wheel]. *)
Definition on_fire (r : PeerRef) (s : ServerCore * list PeerRef) : ServerCore * list PeerRef := (s.1, s.2 ++ [r]).

Section Server.
Context `{BuildProfile} {Sip : Type} `{SipHasher Sip}.

Definition validate (self : Config) : outcome () :=
  _ ← assert_ (0 <? peer_count_max self);
  _ ← assert_ (peer_count_max self <=? PEER_COUNT_MAX_MAX);
  _ ← assert_ (CONNECTION_TIMEOUT_MIN_MS <=? connection_timeout_ms self);
  Endpoint.validate (channel_balance self).

(** ** Timers *)

(** The second component of the state is [timer_data_buffer]. *)
Definition step_timer_wheel (self : ServerCore) (timer_data_buffer : list PeerRef)
  : outcome (ServerCore * list PeerRef) :=
  let '(now_ms, self) := read_time self in
  '(queue, (self, buffer)) ←
    TimerQueue.test upgrade timer_test TIMER_TEST_LIMIT on_fire now_ms
      (timer_queue self) (self, timer_data_buffer);
  Ok (set_timer_queue queue self, buffer).

Definition next_timer_timeout (self : ServerCore) : option Z :=
  if (0 <? TimerQueue.len (timer_queue self))%nat then Some TIMER_TEST_INTERVAL else None.

Fixpoint handle_expired (self : ServerCore) (expired : list PeerRef) : outcome ServerCore :=
  match expired with
  | [] => Ok self
  | r :: expired =>
      '(sh, action) ← Peer.handle_rto_timer r (shared self);
      let self := set_shared sh self in
      self ← (match action with
              | Endpoint.Continue => Ok self
              | Endpoint.Terminate =>
                  p ← Peer.deref r (shared self);
                  Ok (set_peers (delete (Peer.addr (Peer.core p)) (peers self)) self)
              end);
      handle_expired self expired
  end.

Definition handle_timeouts (self : ServerCore) : outcome ServerCore :=
  '(self, timer_data_buffer) ← step_timer_wheel self [];
  handle_expired self timer_data_buffer.

(** ** Handshakes *)

Definition unlimited_params : ConnectionParams := mkConnectionParams U32_MAX U32_MAX.

Definition handle_handshake_alpha (self : ServerCore) (frame_bytes : list Z) (sender_addr : SocketAddr) (now_ms : Z)
  : outcome ServerCore :=
  valid ← verify_handshake_alpha_size_and_crc frame_bytes FRAME_SIZE_MAX;
  if negb valid then Ok self
  else
    payload_bytes ← payload frame_bytes;
    frame ← simple_payload_read payload_bytes;
    match frame with
    | Some frame =>
        if ha_protocol_id frame =? PROTOCOL_ID then
          let client_nonce := ha_client_nonce frame in
          let '(server_nonce, w) := random_u32 (Peer.world (shared self)) in
          let self := set_shared (Peer.set_world w (shared self)) self in
          let server_timestamp := wrap32 now_ms in
          let ack_frame := mkHandshakeAlphaAckFrame unlimited_params client_nonce server_nonce server_timestamp
            (HandshakeMac.compute (handshake_mac_hasher self)
              sender_addr client_nonce server_nonce server_timestamp) in
          '(ack_frame_bytes, _) ← simple_frame_write ack_frame (replicate (Z.to_nat (FRAME_SIZE
            HandshakeAlphaAckFrame)) 0);
          Ok (send_to ack_frame_bytes sender_addr self)
        else Ok self
    | None => Ok self
    end.

Definition endpoint_config (cfg : Config) : outcome Endpoint.Config :=
  prio ← Endpoint.prio_config_from (channel_balance cfg);
  Ok (Endpoint.mkConfig (connection_timeout_ms cfg) prio).

(** A new peer behind a new reference, in the table, in the timer queue, and initialised. *)
Definition add_peer (self : ServerCore) (sender_addr : SocketAddr) : outcome ServerCore :=
  cfg ← endpoint_config (config self);
  peer ← Peer.new sender_addr cfg;
  let peer_ref := fresh (dom (Peer.store (shared self))) in
  let self := set_shared (Peer.set_store (<[peer_ref := peer]> (Peer.store (shared self))) (shared self)) self in
  let self := set_peers (<[sender_addr := peer_ref]> (peers self)) self in
  let self := set_timer_queue (TimerQueue.add_timer (timer_queue self) peer_ref) self in
  sh ← Peer.init peer_ref (shared self);
  Ok (set_shared sh self).

Definition handle_handshake_beta (self : ServerCore) (frame_bytes : list Z) (sender_addr : SocketAddr) (now_ms : Z)
  : outcome ServerCore :=
  valid ← verify_handshake_beta_size_and_crc frame_bytes;
  if negb valid then Ok self
  else
    payload_bytes ← payload frame_bytes;
    frame ← simple_payload_read payload_bytes;
    match frame with
    | Some frame =>
        let timestamp_now := wrap32 now_ms in
        let computed_mac := HandshakeMac.compute (handshake_mac_hasher self) sender_addr (hb_client_nonce frame)
          (hb_server_nonce frame) (hb_server_timestamp frame) in
        let mac_valid := hb_server_mac frame =? computed_mac in
        let timestamp_valid := wrapping_sub timestamp_now (hb_server_timestamp frame) <? HANDSHAKE_TIMEOUT_MS in
        if mac_valid && timestamp_valid then
          let params_compatible := connection_params_compatible (hb_client_params frame) unlimited_params in
          '(error, self) ←
            (if bool_decide (is_Some (peers self !! sender_addr)) then Ok (None, self)
             else if peer_count_max (config self) <=? Z.of_nat (size (peers self)) then Ok (Some Capacity, self)
             else if negb params_compatible then Ok (Some Parameter_, self)
             else self ← add_peer self sender_addr; Ok (None, self));
          let ack_frame := mkHandshakeBetaAckFrame error (hb_client_nonce frame) in
          '(ack_frame_bytes, _) ← simple_frame_write ack_frame (replicate (Z.to_nat (FRAME_SIZE
            HandshakeBetaAckFrame)) 0);
          Ok (send_to ack_frame_bytes sender_addr self)
        else Ok self
    | None => Ok self
    end.

(** ** Incoming frames *)

Definition handle_frame_other (self : ServerCore) (frame_type : FrameType) (frame_bytes : list Z)
  (sender_addr : SocketAddr)
  : outcome ServerCore :=
  match peers self !! sender_addr with
  | Some peer_ref =>
      crc_valid ← verify_crc frame_bytes;
      if negb crc_valid then Ok self
      else
        payload_bytes ← payload frame_bytes;
        sh ← Peer.handle_frame peer_ref frame_type payload_bytes (shared self);
        Ok (set_shared sh self)
  | None => Ok self
  end.

Definition handle_frame (self : ServerCore) (frame_bytes : list Z) (sender_addr : SocketAddr) : outcome ServerCore :=
  if negb (verify_minimum_size frame_bytes) then Ok self
  else
    frame_type ← read_type frame_bytes;
    match frame_type with
    | Some frame_type =>
        let '(now_ms, self) := read_time self in
        match frame_type with
        | HandshakeAlpha => handle_handshake_alpha self frame_bytes sender_addr now_ms
        | HandshakeBeta => handle_handshake_beta self frame_bytes sender_addr now_ms
        | _ => handle_frame_other self frame_type frame_bytes sender_addr
        end
    | None => Ok self
    end.

(** [socket_rx] yields these frames and would then block. *)
Fixpoint handle_frames (self : ServerCore) (socket_rx : list (list Z * SocketAddr)) : outcome ServerCore :=
  match socket_rx with
  | [] => Ok self
  | (frame_bytes, sender_addr) :: socket_rx =>
      self ← handle_frame self frame_bytes sender_addr;
      handle_frames self socket_rx
  end.

Definition handle_frames_wait (self : ServerCore) (socket_rx : list (list Z * SocketAddr)) : outcome ServerCore :=
  match socket_rx with
  | [] => Ok self
  | (frame_bytes, sender_addr) :: socket_rx =>
      self ← handle_frame self frame_bytes sender_addr;
      handle_frames self socket_rx
  end.

(** ** The server's interface *)

Definition bind_with_config (config : Config) (world : World) : outcome ServerCore :=
  _ ← validate config;
  let '(hasher, world) := HandshakeMac.default world in
  Ok (mkServerCore config hasher ∅ TimerQueue.default (Peer.mkShared ∅ [] [] world) []).

Definition bind (world : World) : outcome ServerCore := bind_with_config config_default world.

(** [events.pop_front()]; the application now holds the event's handle. *)
Definition pop_event (self : ServerCore) : option Event * ServerCore :=
  match Peer.events (shared self) with
  | [] => (None, self)
  | ev :: evs => (Some ev, set_held (handle ev :: held self) (set_shared (Peer.set_events evs (shared self)) self))
  end.

Definition poll_event (self : ServerCore) (socket_rx : list (list Z * SocketAddr))
  : outcome (option Event * ServerCore) :=
  self ← (match Peer.events (shared self) with
          | [] => self ← handle_frames self socket_rx; handle_timeouts self
          | _ => Ok self
          end);
  Ok (pop_event self).

Inductive waiting : Type :=
| Returned (ev : option Event) (self : ServerCore)
| Blocked (timeout : option Z) (self : ServerCore).

(** The poller wakes up once for every entry of [wakeups], with these frames to be read. *)
Fixpoint wait_event (self : ServerCore) (wakeups : list (list (list Z * SocketAddr))) : outcome waiting :=
  let wait_timeout := next_timer_timeout self in
  match wakeups with
  | [] => Ok (Blocked wait_timeout self)
  | socket_rx :: wakeups =>
      self ← handle_frames_wait self socket_rx;
      self ← handle_timeouts self;
      match pop_event self with
      | (Some event, self) => Ok (Returned (Some event) self)
      | (None, self) => wait_event self wakeups
      end
  end.

Definition instant_now (self : ServerCore) : Z * ServerCore :=
  let '(t, w) := elapsed (Peer.world (shared self)) in (t, set_shared (Peer.set_world w (shared self)) self).

Fixpoint wait_event_timeout_loop (self : ServerCore) (remaining_timeout wait_begin : Z)
    (wakeups : list (list (list Z * SocketAddr))) : outcome waiting :=
  let wait_timeout := match next_timer_timeout self with
                      | Some timer_timeout => Z.min remaining_timeout timer_timeout
                      | None => remaining_timeout
                      end in
  match wakeups with
  | [] => Ok (Blocked (Some wait_timeout) self)
  | socket_rx :: wakeups =>
      self ← handle_frames_wait self socket_rx;
      self ← handle_timeouts self;
      match Peer.events (shared self) with
      | _ :: _ => let '(ev, self) := pop_event self in Ok (Returned ev self)
      | [] =>
          let '(now, self) := instant_now self in
          let elapsed_time := saturating_sub now wait_begin in
          if remaining_timeout <=? elapsed_time then Ok (Returned None self)
          else wait_event_timeout_loop self (remaining_timeout - elapsed_time) now wakeups
      end
  end.

Definition wait_event_timeout (self : ServerCore) (timeout : Z) (wakeups : list (list (list Z * SocketAddr)))
  : outcome waiting :=
  match Peer.events (shared self) with
  | [] =>
      let '(wait_begin, self) := instant_now self in
      wait_event_timeout_loop self timeout wait_begin wakeups
  | _ :: _ => let '(ev, self) := pop_event self in Ok (Returned ev self)
  end.

Definition peer_count (self : ServerCore) : Z := Z.of_nat (size (peers self)).

(** ** The application's handles *)

(** A method of a handle, run on what the peers share. *)
Definition with_handle (self : ServerCore) (f : Peer.Shared -> outcome Peer.Shared) : outcome ServerCore :=
  sh ← f (shared self); Ok (set_shared sh self).

(** [PeerHandle::clone] and [drop]. *)
Definition clone_handle (self : ServerCore) (r : PeerRef) : ServerCore := set_held (r :: held self) self.
Fixpoint remove_one (r : PeerRef) (rs : list PeerRef) : list PeerRef :=
  match rs with [] => [] | x :: rs => if (r =? x)%nat then rs else x :: remove_one r rs end.
Definition drop_handle (self : ServerCore) (r : PeerRef) : ServerCore := set_held (remove_one r (held self)) self.
End Server.
End Server.
