(* ===== verification/ServerFacts.v ===== *)
(** * The server's invariant

    [server_at now seen fired s] is what every operation of the server maintains: [seen] are
    the events the application has taken, [now] the last time read, [fired] the peers whose
    timer has expired and is still to be handled. *)

From S2P Require Import Prelude Word Frame Serial SerialFacts FrameFacts Prio TimerQueue Endpoint.
From S2P Require Import FragmentTxFacts.
From S2P Require Import EndpointFacts EndpointSafety EndpointMachine EndpointSession Handshake.
From S2P Require Import World HandshakeMac Peer Server.
From stdpp Require Import gmap.

#[local] Open Scope Z_scope.

Import ServerEvent Server.

(** ** What the events of an endpoint are to the server *)

Definition event_at (r : PeerRef) (ev : event) : option Event :=
  match ev with
  | EvConnect => Some (Connect r)
  | EvDisconnect => Some (Disconnect r)
  | EvReceive p => Some (Receive r p)
  | EvTimeout => Some (Error r Timeout)
  | _ => None
  end.

(** The events of one peer, as its endpoint made them. *)
Definition view (r : PeerRef) (ev : Event) : option event :=
  if (handle ev =? r)%nat then
    Some match ev with
         | Connect _ => EvConnect
         | Disconnect _ => EvDisconnect
         | Receive _ p => EvReceive p
         | Error _ _ => EvTimeout
         end
  else None.

Lemma callbacks_cons ev evs : callbacks (ev :: evs) = if is_callback ev then ev :: callbacks evs else callbacks evs.
Proof.
  unfold callbacks. destruct (is_callback ev) eqn:E; [by rewrite filter_cons_True|].
  by rewrite filter_cons_False by (by rewrite E).
Qed.

Lemma omap_step {A B} (f : A -> option B) (x : A) l :
  omap f (x :: l) = match f x with Some y => y :: omap f l | None => omap f l end.
Proof. done. Qed.

Lemma view_event_at r ev x : event_at r ev = Some x -> view r x = Some ev /\ handle x = r /\ is_callback ev = true.
Proof. destruct ev; intros [= <-]; unfold view; cbn; by rewrite Nat.eqb_refl. Qed.

Lemma view_own r evs : omap (view r) (omap (event_at r) evs) = callbacks evs.
Proof.
  induction evs as [|ev evs IH]; [done|]. rewrite callbacks_cons, omap_step.
  destruct (event_at r ev) as [x|] eqn:E; [|by destruct ev].
  destruct (view_event_at r ev x E) as (Hv & _ & ->). by rewrite omap_step, Hv, IH.
Qed.

Lemma view_other r r' evs : r' <> r -> omap (view r') (omap (event_at r) evs) = [].
Proof.
  intros Hr. induction evs as [|ev evs IH]; [done|]. rewrite omap_step.
  destruct (event_at r ev) as [x|] eqn:E; [|done]. rewrite omap_step.
  destruct (view_event_at r ev x E) as (_ & Hh & _). unfold view at 1.
  rewrite Hh, (proj2 (Nat.eqb_neq r r')) by done. exact IH.
Qed.

Lemma view_callbacks r l : callbacks (omap (view r) l) = omap (view r) l.
Proof.
  induction l as [|ev l IH]; [done|]. rewrite omap_step.
  destruct (view r ev) as [x|] eqn:E; [|done]. rewrite callbacks_cons, IH.
  unfold view in E. destruct (handle ev =? r)%nat; [|done]. by destruct ev; injection E as <-.
Qed.

Definition handle_of (r : PeerRef) (evs : list event) : list PeerRef := handle <$> omap (event_at r) evs.

Lemma handle_of_own r evs h : h ∈ handle_of r evs -> h = r.
Proof.
  unfold handle_of. intros (ev & -> & Hin)%list_elem_of_fmap.
  apply list_elem_of_omap in Hin as (x & _ & Hx). destruct x; by inversion Hx.
Qed.

(** What they do to the peer's context. *)
Lemma performs_peer (c : Peer.EndpointContext) evs :
  performs c evs = Peer.mkEndpointContext
    (Peer.mkPeerCore (Peer.addr (Peer.peer c)) (Peer.data (Peer.peer c)) (timer_after (Peer.rto_timer (Peer.peer c))
      evs))
    (Peer.peer_ref c)
    (Peer.mkShared (Peer.store (Peer.shared c)) (Peer.events (Peer.shared c) ++ omap (event_at (Peer.peer_ref c)) evs)
      (Peer.socket_tx (Peer.shared c) ++ ((fun f => (Peer.addr (Peer.peer c), f)) <$> sent_frames evs))
      (world_after (Peer.world (Peer.shared c)) evs)).
Proof.
  revert c. induction evs as [|ev evs IH]; intros c.
  - cbn. rewrite !app_nil_r. by destruct c as [[] ? []].
  - change (performs c (ev :: evs)) with (performs (perform c ev) evs). rewrite IH.
    destruct ev; cbn; rewrite <- ?app_assoc; try done.
Qed.

(** ** Configurations and frames *)

Class ServerConfig := server_config : Config.

Section ServerFacts.
Context `{BuildProfile}.

Definition balance_ranges (b : Endpoint.ChannelBalanceConfig) : Prop :=
  0 <= Endpoint.unreliable_weight b /\ 0 <= Endpoint.reliable_weight b /\ 0 <= Endpoint.burst_size b.

Record valid_config (cfg : Config) : Prop := {
  vc_valid : validate cfg = Ok ();
  vc_balance : balance_ranges (channel_balance cfg);
  vc_connection : connection_timeout_ms cfg <= TIME_MAX;
}.

Lemma valid_endpoint_config cfg : valid_config cfg ->
  exists ecfg, endpoint_config cfg = Ok ecfg /\ config_ok ecfg.
Proof.
  intros [Hv (Hu & Hr & Hb) Hc]. unfold validate in Hv. apply outcome_bind_Ok in Hv as ([] & _ & Hv).
  apply outcome_bind_Ok in Hv as ([] & _ & Hv). apply outcome_bind_Ok in Hv as ([] & Ht & Hv).
  unfold Endpoint.validate in Hv. apply outcome_bind_Ok in Hv as (prio & Hp & _).
  unfold endpoint_config. rewrite Hp. cbn [mbind outcome_bind]. eexists. split; [done|].
  apply Prio.assert_inv in Ht. apply Z.leb_le in Ht. unfold CONNECTION_TIMEOUT_MIN_MS in Ht. split; [|cbn; lia].
  exists (Prio.Array4 (Endpoint.unreliable_weight (channel_balance cfg))
    (Endpoint.reliable_weight (channel_balance cfg)) 1 1),
    (Endpoint.burst_size (channel_balance cfg)).
  apply Prio.config_new_facts; [|done|exact Hp]. intros i Hi. Prio.channels; cbn; lia.
Qed.

(** What a server sends: the two acknowledgements of a handshake, and frames of established
    connections. *)
Inductive reply_ok (f : list Z) : Prop :=
| rp_alpha_ack (a : HandshakeAlphaAckFrame) : block_valid a -> f = sealed a -> reply_ok f
| rp_beta_ack (a : HandshakeBetaAckFrame) : block_valid a -> f = sealed a -> reply_ok f
| rp_stream : frame_ok f -> reply_ok f.

Definition sent_ok (x : SocketAddr * list Z) : Prop := reply_ok x.2.

Lemma replies_ok now e e' evs a : transition now e e' evs -> Forall sent_ok ((fun f => (a, f)) <$> sent_frames evs).
Proof.
  intros Ht. apply Forall_fmap, Forall_forall. intros f Hf. apply list_elem_of_omap in Hf as (ev & Hin & Hev).
  pose proof (transition_events _ _ _ _ Ht) as Hok. rewrite Forall_forall in Hok. specialize (Hok ev Hin).
  destruct ev; try done. injection Hev as <-. by apply rp_stream.
Qed.

(** ** The invariant *)

(** The configuration the server was bound with. *)
Context `{ServerConfig}.

Definition connected (p : Peer.Peer) : Prop := Endpoint.state_id (Peer.endpoint p) <> Endpoint.Zombie.

(** A timer that has fired counts as set until it is handled. *)
Definition armed_for (fired : list PeerRef) (r : PeerRef) (p : Peer.Peer) : bool :=
  bool_decide (is_Some (Peer.rto_timer (Peer.core p)) \/ r ∈ fired).

Record peer_ok (now : Z) (fired : list PeerRef) (log : list Event) (r : PeerRef) (p : Peer.Peer) : Prop := {
  po_inv : ep_inv now (Peer.endpoint p);
  po_timer : timer_ok (armed_for fired r p) (Peer.endpoint p);
  po_fired : r ∈ fired -> Peer.rto_timer (Peer.core p) = None;
  po_started : Endpoint.state_id (Peer.endpoint p) <> Endpoint.PreInit;
  po_session : session (Endpoint.state_id (Peer.endpoint p)) (omap (view r) log);
}.

Record server_at (now : Z) (seen : list Event) (fired : list PeerRef) (s : ServerCore) : Prop := {
  si_now : 0 <= now <= World.now (Peer.world (shared s));
  si_world : world_ok (Peer.world (shared s));
  si_config : valid_config (config s);
  si_saved : config s = server_config;
  si_sent : Forall sent_ok (Peer.socket_tx (shared s));
  si_peers r p : Peer.store (shared s) !! r = Some p -> peer_ok now fired (seen ++ Peer.events (shared s)) r p;
  si_connected r p : Peer.store (shared s) !! r = Some p -> connected p ->
    peers s !! Peer.addr (Peer.core p) = Some r /\ r ∈ TimerQueue.queue (timer_queue s);
  si_table a r : peers s !! a = Some r -> exists p, Peer.store (shared s) !! r = Some p /\
    Peer.addr (Peer.core p) = a /\ connected p;
  si_capacity : Z.of_nat (size (peers s)) <= peer_count_max (config s);
  si_queue_nodup : NoDup (TimerQueue.queue (timer_queue s));
  si_queue r : r ∈ TimerQueue.queue (timer_queue s) -> is_Some (Peer.store (shared s) !! r);
  si_handles r : r ∈ handle <$> (seen ++ Peer.events (shared s)) -> is_Some (Peer.store (shared s) !! r);
  si_held r : r ∈ held s -> is_Some (Peer.store (shared s) !! r);
  si_fired_nodup : NoDup fired;
  si_fired r : r ∈ fired -> is_Some (Peer.store (shared s) !! r);
}.

Lemma server_now_max now seen fired s : server_at now seen fired s -> 0 <= now <= TIME_MAX.
Proof. intros []. pose proof (now_range _ si_world0). lia. Qed.

Lemma peer_ok_later now now' fired log r p : peer_ok now fired log r p -> now <= now' <= TIME_MAX ->
  peer_ok now' fired log r p.
Proof. intros [] Hn. split; try done. by apply (ep_inv_later now). Qed.

Lemma server_read_time now seen fired s : server_at now seen fired s ->
  exists t w, Peer.read_time (shared s) = (t, Peer.set_world w (shared s)) /\ now <= t /\
    server_at t seen fired (set_shared (Peer.set_world w (shared s)) s).
Proof.
  intros Hs. pose proof (si_world _ _ _ _ Hs) as Hw. pose proof (si_now _ _ _ _ Hs) as Hn.
  destruct (time_now_ms_now _ Hw) as (w & Ht & Hw' & Hle). pose proof (now_range _ Hw) as Hr.
  unfold Peer.read_time. rewrite Ht. set (t := World.now (Peer.world (shared s))) in *.
  exists t, w. split; [done|]. split; [lia|]. destruct Hs. split; try done.
  - change (Peer.world (shared (set_shared (Peer.set_world w (shared s)) s))) with w. lia.
  - intros r p Hp. apply (peer_ok_later now); [by apply si_peers0|lia].
Qed.

Lemma armed_other fired fired' r p : (r ∈ fired <-> r ∈ fired') -> armed_for fired r p = armed_for fired' r p.
Proof. intros Hr. unfold armed_for. apply bool_decide_ext. by rewrite Hr. Qed.

(** ** A peer at work *)

(** The server after the endpoint of [r] has become [e'] and its host has seen [evs]. *)
Definition worked (s : ServerCore) (r : PeerRef) (p : Peer.Peer) (e' : Endpoint.Endpoint) (evs : list event)
  : ServerCore :=
  set_shared (Peer.release r e' (performs (Peer.mkEndpointContext (Peer.core p) r (shared s)) evs)) s.

Lemma worked_store s r p e' evs : Peer.store (shared (worked s r p e' evs)) =
  <[r := Peer.mkPeer (Peer.mkPeerCore (Peer.addr (Peer.core p)) (Peer.data (Peer.core p))
           (timer_after (Peer.rto_timer (Peer.core p)) evs)) e']> (Peer.store (shared s)).
Proof. unfold worked. by rewrite performs_peer. Qed.

Lemma worked_events s r p e' evs :
  Peer.events (shared (worked s r p e' evs)) = Peer.events (shared s) ++ omap (event_at r) evs.
Proof. unfold worked. by rewrite performs_peer. Qed.

Lemma worked_sent s r p e' evs : Peer.socket_tx (shared (worked s r p e' evs)) =
  Peer.socket_tx (shared s) ++ ((fun f => (Peer.addr (Peer.core p), f)) <$> sent_frames evs).
Proof. unfold worked. by rewrite performs_peer. Qed.

Lemma worked_world s r p e' evs : Peer.world (shared (worked s r p e' evs)) = world_after (Peer.world (shared s)) evs.
Proof. unfold worked. by rewrite performs_peer. Qed.

Section Update.
Context (now : Z) (seen : list Event) (fired fired' : list PeerRef) (s : ServerCore).
Context (r : PeerRef) (p : Peer.Peer) (e' : Endpoint.Endpoint) (evs : list event).
Hypothesis Hs : server_at now seen fired s.
Hypothesis Hp : Peer.store (shared s) !! r = Some p.
Hypothesis Hinv : ep_inv now e'.
Hypothesis Htr : transition now (Peer.endpoint p) e' evs.
Hypothesis Htm : timer_ok (arm (bool_decide (is_Some (Peer.rto_timer (Peer.core p)))) evs) e'.
Hypothesis Hfired : forall r', r' <> r -> r' ∈ fired <-> r' ∈ fired'.
Hypothesis Hr : r ∉ fired'.

Lemma worked_peer : peer_ok now fired' (seen ++ Peer.events (shared (worked s r p e' evs))) r
  (Peer.mkPeer (Peer.mkPeerCore (Peer.addr (Peer.core p)) (Peer.data (Peer.core p))
     (timer_after (Peer.rto_timer (Peer.core p)) evs)) e').
Proof using Hs Hp Hinv Htr Htm Hr.
  destruct (si_peers _ _ _ _ Hs r p Hp) as [_ _ _ Hst Hse]. split; cbn [Peer.endpoint Peer.core Peer.rto_timer];
    try done.
  - unfold armed_for. cbn [Peer.core Peer.rto_timer].
    rewrite (bool_decide_ext _ (is_Some (timer_after (Peer.rto_timer (Peer.core p)) evs))) by tauto.
    by rewrite timer_after_arm.
  - by eapply transition_started.
  - rewrite worked_events, app_assoc, omap_app, view_own. rewrite <- view_callbacks in Hse.
    apply (session_step now _ e' evs) in Hse; [|done]. by rewrite callbacks_app, view_callbacks in Hse.
Qed.

Lemma unworked_peer r' p' : r' <> r -> Peer.store (shared s) !! r' = Some p' ->
  peer_ok now fired' (seen ++ Peer.events (shared (worked s r p e' evs))) r' p'.
Proof using Hs Hfired.
  intros Hne Hp'. destruct (si_peers _ _ _ _ Hs r' p' Hp') as [Hi Ht Hf Hst Hse]. split; try done.
  - by rewrite <- (armed_other fired fired' r' p' (Hfired r' Hne)).
  - intros Hin. apply Hf. by apply Hfired.
  - by rewrite worked_events, app_assoc, omap_app, (view_other r r' evs Hne), app_nil_r.
Qed.

(** The table loses the peer exactly if its connection has ended. *)
Lemma peer_update (pt : gmap SocketAddr PeerRef) :
  NoDup fired' -> (connected p \/ Endpoint.state_id e' = Endpoint.Zombie) ->
  (forall a r', pt !! a = Some r' <-> peers s !! a = Some r' /\ (r' = r ->
    Endpoint.state_id e' <> Endpoint.Zombie)) ->
  server_at now seen fired' (set_peers pt (worked s r p e' evs)).
Proof using Hs Hp Hinv Htr Htm Hfired Hr.
  intros Hnd Hc Hpt. pose proof worked_peer as Hwp. pose proof unworked_peer as Hup.
  pose proof (worked_store s r p e' evs) as Hst. pose proof (worked_events s r p e' evs) as Hev.
  destruct (world_after_ok _ evs (si_world _ _ _ _ Hs)) as [Hw Hwn].
  assert (Hsome : forall r', is_Some (Peer.store (shared s) !! r') ->
    is_Some (Peer.store (shared (worked s r p e' evs)) !! r')).
  { intros r' Hr'. rewrite Hst. apply lookup_insert_is_Some. destruct (decide (r = r')); auto. }
  destruct Hs. split; try done; change (shared (set_peers pt (worked s r p e' evs)))
    with (shared (worked s r p e' evs)).
  - by rewrite worked_world, Hwn.
  - by rewrite worked_world.
  - rewrite worked_sent. apply Forall_app. split; [done|by eapply replies_ok].
  - intros r' p'. rewrite Hst. destruct (decide (r' = r)) as [->|Hne].
    + rewrite lookup_insert_eq. intros [= <-]. exact Hwp.
    + rewrite lookup_insert_ne by done. by apply Hup.
  - intros r' p'. rewrite Hst. destruct (decide (r' = r)) as [->|Hne].
    + rewrite lookup_insert_eq. intros [= <-] Hz. unfold connected in Hz. cbn in Hz.
      destruct (si_connected0 r p Hp) as [Ha Hq]; [by destruct Hc|]. split; [|done]. cbn. by apply Hpt.
    + rewrite lookup_insert_ne by done. intros Hp' Hz. destruct (si_connected0 r' p' Hp' Hz) as [Ha Hq].
      split; [|done]. cbn. by apply Hpt.
  - intros a r' [Ha Hz]%Hpt. destruct (si_table0 a r' Ha) as (p' & Hp' & Hap & Hcp). rewrite Hst.
    destruct (decide (r' = r)) as [->|Hne].
    + rewrite lookup_insert_eq. eexists. split; [done|]. rewrite Hp in Hp'. injection Hp' as <-.
      split; [done|by apply Hz].
    + rewrite lookup_insert_ne by done. by exists p'.
  - etrans; [|exact si_capacity0]. apply Nat2Z.inj_le. apply map_subseteq_size. apply map_subseteq_spec.
    intros a r' Ha. by apply Hpt in Ha as [Ha _].
  - intros r' Hin. apply Hsome. by apply si_queue0.
  - intros r'. rewrite Hev, app_assoc, fmap_app, elem_of_app. intros [Hin|Hin]; [by apply Hsome, si_handles0|].
    apply handle_of_own in Hin as ->. apply Hsome. by exists p.
  - intros r' Hin. by apply Hsome, si_held0.
  - intros r' Hin. apply Hsome, si_fired0. apply Hfired; [|done]. by intros ->.
Qed.
End Update.
End ServerFacts.
