(* ===== verification/ServerTimers.v ===== *)
(** * The server's peers at work

    Every function of a peer, every method of a handle and the whole treatment of the timers
    keep the server's invariant. *)

From S2P Require Import Prelude Word Frame Serial SerialFacts FrameFacts Prio TimerQueue Endpoint.
From S2P Require Import FragmentTxFacts.
From S2P Require Import EndpointFacts EndpointSafety EndpointMachine EndpointSession Handshake.
From S2P Require Import World HandshakeMac Peer Server.
From S2P Require Import ServerFacts.
From stdpp Require Import gmap.

#[local] Open Scope Z_scope.

Import ServerEvent Server.

Section Peers.
Context `{BuildProfile} `{ServerConfig}.

Definition context (s : ServerCore) (r : PeerRef) (p : Peer.Peer) : Peer.EndpointContext :=
  Peer.mkEndpointContext (Peer.core p) r (shared s).

Lemma set_peers_same s : set_peers (peers s) s = s.
Proof. by destruct s. Qed.

Lemma armed_bare r p : armed_for [] r p = bool_decide (is_Some (Peer.rto_timer (Peer.core p))).
Proof. unfold armed_for. apply bool_decide_ext. split; [|by left]. by intros [?|?%elem_of_nil]. Qed.

(** What an operation leaves alone. *)
Definition same_frame (s s' : ServerCore) : Prop :=
  config s' = config s /\ handshake_mac_hasher s' = handshake_mac_hasher s /\ peers s' = peers s /\
  timer_queue s' = timer_queue s /\ held s' = held s.

Lemma same_refl s : same_frame s s.
Proof. by repeat split. Qed.

Lemma same_trans s1 s2 s3 : same_frame s1 s2 -> same_frame s2 s3 -> same_frame s1 s3.
Proof. unfold same_frame. intros (? & ? & ? & ? & ?) (? & ? & ? & ? & ?). split_and!; congruence. Qed.

Lemma peer_proceeds now seen s r p res : server_at now seen [] s -> Peer.store (shared s) !! r = Some p ->
  (ep_inv now (Peer.endpoint p) -> proceeds now (Peer.endpoint p) (context s r p) res) ->
  exists e' c', res = Ok (e', c') /\ server_at now seen [] (set_shared (Peer.release r e' c') s).
Proof.
  intros Hs Hp Hres. pose proof (si_peers _ _ _ _ Hs r p Hp) as [Hi Ht _ _ _].
  destruct (Hres Hi) as (e' & evs & -> & Hi' & Htr & Hz). eexists _, _. split; [done|].
  change (set_shared (Peer.release r e' (performs (context s r p) evs)) s) with (worked s r p e' evs).
  assert (Hc : connected p \/ Endpoint.state_id e' = Endpoint.Zombie).
  { destruct (decide (Endpoint.state_id (Peer.endpoint p) = Endpoint.Zombie)) as [Hpz|]; [right|by left].
    by eapply transition_zombie. }
  rewrite <- (set_peers_same (worked s r p e' evs)). apply (peer_update now seen [] []); try done.
  - rewrite <- (armed_bare r p). by eapply transition_timer.
  - by intros Hin%elem_of_nil.
  - apply NoDup_nil_2.
  - intros a r'. change (peers (worked s r p e' evs)) with (peers s). split; [|by intros []]. intros Ha.
    split; [done|].
    intros ->. apply Hz. destruct (si_table _ _ _ _ Hs a r Ha) as (p' & Hp' & _ & Hcp). rewrite Hp in Hp'.
    by injection Hp' as <-.
Qed.

(** ** Timers that have fired *)

Lemma peer_timer now seen fired s r p : server_at now seen (r :: fired) s -> Peer.store (shared s) !! r = Some p ->
  exists e' c' action, Endpoint.handle_rto_timer (Peer.endpoint p) now (context s r p) = Ok (e', c', action) /\
    let s' := set_shared (Peer.release r e' c') s in
    match action with
    | Endpoint.Continue => server_at now seen fired s'
    | Endpoint.Terminate => peers s !! Peer.addr (Peer.core p) = Some r /\
        Peer.addr (Peer.peer c') = Peer.addr (Peer.core p) /\
        server_at now seen fired (set_peers (delete (Peer.addr (Peer.core p)) (peers s)) s')
    end.
Proof.
  intros Hs Hp. pose proof (si_fired_nodup _ _ _ _ Hs) as Hnd. apply NoDup_cons in Hnd as [Hr Hnd].
  pose proof (si_peers _ _ _ _ Hs r p Hp) as [Hi Ht Hf _ _].
  assert (Hin : r ∈ r :: fired) by by left. specialize (Hf Hin).
  unfold armed_for in Ht. rewrite bool_decide_eq_true_2 in Ht by by right.
  destruct (timer_full now _ (context s r p) Hi Ht) as (e' & evs & action & -> & Hi' & Htr & Hre & Hact).
  eexists _, _, _. split; [done|]. cbv zeta. change (set_shared (Peer.release r e' (performs (context s r p) evs))
    s) with (worked s r p e' evs).
  assert (Hfd : forall r', r' <> r -> r' ∈ r :: fired <-> r' ∈ fired) by (intros r' Hne; rewrite elem_of_cons; tauto).
  assert (Htm : timer_ok (arm (bool_decide (is_Some (Peer.rto_timer (Peer.core p)))) evs) e') by by rewrite Hf.
  destruct action.
  - rewrite <- (set_peers_same (worked s r p e' evs)). apply (peer_update now seen (r :: fired) fired); try done.
    + unfold connected. rewrite <- Hact. destruct (decide (Endpoint.state_id e' = Endpoint.Zombie)); auto.
    + intros a r'. change (peers (worked s r p e' evs)) with (peers s). split; [|by intros []]. intros Ha.
      split; [done|].
      intros ->. destruct (si_table _ _ _ _ Hs a r Ha) as (p' & Hp' & _ & Hcp). rewrite Hp in Hp'.
      injection Hp' as <-. by rewrite Hact.
  - destruct Hact as (Hz & Hnz & _). destruct (si_connected _ _ _ _ Hs r p Hp Hnz) as [Ha _]. split; [done|].
    split; [by rewrite performs_peer|]. apply (peer_update now seen (r :: fired) fired); try done; [by right|].
    intros a r'. rewrite lookup_delete_Some. split.
    + intros [Hne Ha']. split; [done|]. intros ->. destruct (si_table _ _ _ _ Hs a r Ha') as (p' & Hp' & Hap & _).
      rewrite Hp in Hp'. injection Hp' as <-. done.
    + intros [Ha' Hz']. split; [|done]. intros Heq. rewrite <- Heq in Ha'.
      pose proof (eq_trans (eq_sym Ha) Ha') as [= ->]. by apply Hz'.
Qed.

(** ** Functions of a peer and methods of a handle *)

(** The result of an operation of the server. *)
Definition server_kept (now : Z) (seen : list Event) (fired : list PeerRef) (res : outcome ServerCore) : Prop :=
  exists now' s', now <= now' /\ res = Ok s' /\ server_at now' seen fired s'.

(** An operation on what the peers share. *)
Definition shared_kept (now : Z) (seen : list Event) (s : ServerCore) (res : outcome Peer.Shared) : Prop :=
  exists now' sh, now <= now' /\ res = Ok sh /\ server_at now' seen [] (set_shared sh s).

Lemma peer_call now seen s r f : server_at now seen [] s -> is_Some (Peer.store (shared s) !! r) ->
  (forall now' s' p, server_at now' seen [] s' -> ep_inv now' (Peer.endpoint p) ->
     proceeds now' (Peer.endpoint p) (context s' r p) (f p now' (context s' r p))) ->
  shared_kept now seen s (p ← Peer.deref r (shared s);
    let '(now_ms, s) := Peer.read_time (shared s) in
    '(e, c) ← f p now_ms (Peer.mkEndpointContext (Peer.core p) r s); Ok (Peer.release r e c)).
Proof.
  intros Hs [p Hp] Hf. unfold Peer.deref. rewrite Hp. cbn [mbind outcome_bind].
  destruct (server_read_time now seen [] s Hs) as (t & w & -> & Ht & Hs').
  set (s' := set_shared (Peer.set_world w (shared s)) s) in *.
  destruct (peer_proceeds t seen s' r p (f p t (context s' r p)) Hs' Hp) as (e' & c' & Hr & Hs2); [by apply Hf|].
  change (Peer.mkEndpointContext (Peer.core p) r (Peer.set_world w (shared s))) with (context s' r p).
  rewrite Hr. cbn [mbind outcome_bind]. eexists t, _. split; [done|]. split; [done|]. exact Hs2.
Qed.

Lemma peer_handle_frame now seen s r t p : server_at now seen [] s -> is_Some (Peer.store (shared s) !! r) ->
  payload_ok p -> shared_kept now seen s (Peer.handle_frame r t p (shared s)).
Proof.
  intros Hs Hr Hp. unfold Peer.handle_frame. apply (peer_call now seen s r (fun q now c => Endpoint.handle_frame
    (Peer.endpoint q) t p now c) Hs Hr).
  intros. by apply handle_frame_proceeds.
Qed.

Lemma peer_flush now seen s r : server_at now seen [] s -> is_Some (Peer.store (shared s) !! r) ->
  shared_kept now seen s (Peer.flush r (shared s)).
Proof.
  intros Hs Hr. unfold Peer.flush. apply (peer_call now seen s r (fun q now c => Endpoint.flush (Peer.endpoint q)
    now c) Hs Hr).
  intros. by apply flush_proceeds.
Qed.

Lemma peer_disconnect now seen s r : server_at now seen [] s -> is_Some (Peer.store (shared s) !! r) ->
  shared_kept now seen s (Peer.disconnect r (shared s)).
Proof.
  intros Hs Hr. unfold Peer.disconnect. apply (peer_call now seen s r (fun q now c => Endpoint.disconnect
    (Peer.endpoint q) now c) Hs Hr).
  intros. by apply disconnect_proceeds.
Qed.

Lemma release_same s r p e : Peer.release r e (context s r p) =
  Peer.set_store (<[r := Peer.mkPeer (Peer.core p) e]> (Peer.store (shared s))) (shared s).
Proof. done. Qed.

Lemma peer_enqueue now seen s r packet mode : server_at now seen [] s -> is_Some (Peer.store (shared s) !! r) ->
  packet_ok packet -> mode_ok mode -> shared_kept now seen s (Peer.enqueue r packet mode (shared s)).
Proof.
  intros Hs Hr Hp Hm.
  destruct (peer_call now seen s r (fun q now c => e ← Endpoint.enqueue (Peer.endpoint q) packet mode now;
    Ok (e, c)) Hs Hr)
    as (now' & sh & Hn & Hres & Hs'); [intros; by apply enqueue_proceeds|].
  exists now', sh. split; [done|]. split; [|done]. rewrite <- Hres. unfold Peer.enqueue.
  destruct (Peer.deref r (shared s)) as [q|]; [|done]. cbn [mbind outcome_bind].
  destruct (Peer.read_time (shared s)) as [t sh']. by destruct (Endpoint.enqueue _ _ _ _).
Qed.

(** Two calls under one lock: the second sees the endpoint the first has left. *)
Lemma release_twice s r p e1 e2 evs :
  Peer.release r e2 (performs (context s r p) evs) =
  Peer.release r e2 (performs (context (set_shared (Peer.release r e1 (context s r p)) s)
    r (Peer.mkPeer (Peer.core p) e1)) evs).
Proof.
  rewrite !performs_peer. unfold Peer.release, context. cbn. unfold Peer.set_store. cbn. by rewrite insert_insert_eq.
Qed.

Lemma peer_send now seen s r packet mode : server_at now seen [] s -> is_Some (Peer.store (shared s) !! r) ->
  packet_ok packet -> mode_ok mode -> shared_kept now seen s (Peer.send r packet mode (shared s)).
Proof.
  intros Hs [p Hp] Hpk Hm. unfold Peer.send, Peer.deref. rewrite Hp. cbn [mbind outcome_bind].
  destruct (server_read_time now seen [] s Hs) as (t & w & -> & Ht & Hs').
  set (s' := set_shared (Peer.set_world w (shared s)) s) in *.
  change (Peer.mkEndpointContext (Peer.core p) r (Peer.set_world w (shared s))) with (context s' r p).
  destruct (peer_proceeds t seen s' r p (e ← Endpoint.enqueue (Peer.endpoint p) packet mode t;
    Ok (e, context s' r p)) Hs' Hp)
    as (e1 & c1 & Hr & Hs1); [intros; by apply enqueue_proceeds|].
  apply outcome_bind_Ok in Hr as (e0 & -> & [= -> <-]). cbn [mbind outcome_bind].
  set (s1 := set_shared (Peer.release r e1 (context s' r p)) s') in *.
  destruct (flush_proceeds t e1 (context s' r p)) as (e2 & evs & -> & Hi2 & Htr & Hz).
  { apply (po_inv _ _ _ _ _ (si_peers _ _ _ _ Hs1 r (Peer.mkPeer (Peer.core p) e1) (lookup_insert_eq _ _ _))). }
  cbn [mbind outcome_bind]. rewrite (release_twice s' r p e1 e2 evs). fold s1. eexists t, _. split; [done|].
  split; [done|].
  destruct (peer_proceeds t seen s1 r (Peer.mkPeer (Peer.core p) e1)
    (Ok (e2, performs (context s1 r (Peer.mkPeer (Peer.core p) e1)) evs)) Hs1) as (e3 & c3 & [= <- <-] & Hs3).
  - by apply lookup_insert_eq.
  - intros _. by exists e2, evs.
  - exact Hs3.
Qed.

(** ** The timer queue *)

Lemma test_quiet now r sh : (Peer.test r now sh).1 = false -> (Peer.test r now sh).2 = sh.
Proof.
  unfold Peer.test. destruct (Peer.store sh !! r) as [p|]; [|done]. destruct (Peer.rto_timer _); [|done].
  by case_bool.
Qed.

Lemma test_fires now seen fired s r : server_at now seen fired s -> r ∉ fired ->
  (Peer.test r now (shared s)).1 = true ->
  server_at now seen (fired ++ [r]) (set_shared (Peer.test r now (shared s)).2 s).
Proof.
  intros Hs Hr. unfold Peer.test. destruct (Peer.store (shared s) !! r) as [p|] eqn:Hp; [|done].
  destruct (Peer.rto_timer (Peer.core p)) as [t|] eqn:Ht; [|done]. case_bool; [|done]. intros _. cbn [snd].
  assert (Hsome : forall r' q, is_Some (Peer.store (shared s) !! r') ->
    is_Some (<[r := q]> (Peer.store (shared s)) !! r')).
  { intros r' q Hr'. apply lookup_insert_is_Some. destruct (decide (r = r')); auto. }
  destruct Hs. split; try done; cbn.
  - intros r' p'. destruct (decide (r' = r)) as [->|Hne].
    + rewrite lookup_insert_eq. intros [= <-]. destruct (si_peers r p Hp) as [Hi Htm Hf Hst Hse].
      split; cbn; try done. unfold armed_for in *. rewrite bool_decide_eq_true_2 in Htm by (left; by exists t).
      by rewrite bool_decide_eq_true_2 by (right; apply elem_of_app; right; by apply list_elem_of_singleton).
    + rewrite lookup_insert_ne by done. intros Hp'. destruct (si_peers r' p' Hp') as [Hi Htm Hf Hst Hse].
      assert (Hiff : r' ∈ fired <-> r' ∈ fired ++ [r]) by (rewrite elem_of_app, list_elem_of_singleton; tauto).
      split; try done; [by rewrite <- (armed_other fired _ r' p' Hiff)|by rewrite <- Hiff].
  - intros r' p'. destruct (decide (r' = r)) as [->|Hne].
    + rewrite lookup_insert_eq. intros [= <-] Hc. by apply (si_connected r p).
    + rewrite lookup_insert_ne by done. by apply si_connected.
  - intros a r' Ha. destruct (si_table a r' Ha) as (p' & Hp' & Hap & Hc). destruct (decide (r' = r)) as [->|Hne].
    + rewrite lookup_insert_eq. eexists. split; [done|]. rewrite Hp in Hp'. by injection Hp' as <-.
    + rewrite lookup_insert_ne by done. by exists p'.
  - intros r' Hin. by apply Hsome, si_queue.
  - intros r' Hin. by apply Hsome, si_handles.
  - intros r' Hin. by apply Hsome, si_held.
  - apply NoDup_app. split; [done|]. split; [|apply NoDup_singleton]. by intros x Hx ->%list_elem_of_singleton.
  - intros r' [Hin|Hin%list_elem_of_singleton]%elem_of_app; apply Hsome; [by apply si_fired|]. subst. by exists p.
Qed.

(** What a timer's test leaves alone. *)
Definition same_but_timers (s s' : ServerCore) : Prop :=
  same_frame s s' /\ Peer.events (shared s') = Peer.events (shared s) /\
    Peer.world (shared s') = Peer.world (shared s) /\
  Peer.socket_tx (shared s') = Peer.socket_tx (shared s).

Lemma test_same now r s : same_but_timers s (set_shared (Peer.test r now (shared s)).2 s).
Proof.
  split; [by repeat split|]. cbn. unfold Peer.test. destruct (Peer.store (shared s) !! r) as [p|]; [|done].
  destruct (Peer.rto_timer _); [|done]. by case_bool.
Qed.

Lemma same_but_trans s1 s2 s3 : same_but_timers s1 s2 -> same_but_timers s2 s3 -> same_but_timers s1 s3.
Proof.
  intros (H1 & H2 & H3 & H4) (K1 & K2 & K3 & K4). split; [by eapply same_trans|]. split_and!; congruence.
Qed.

Lemma referenced_same s s' r : same_but_timers s s' -> referenced s' r = referenced s r.
Proof.
  intros ((_ & _ & Hp & _ & Hh) & He & _). unfold referenced. apply bool_decide_ext. by rewrite Hp, Hh, He.
Qed.

#[local] Abbreviation wheel := (sweep upgrade timer_test on_fire).

(** The turn of one timer. *)
Definition turned (now : Z) (w : PeerRef) (s : ServerCore) : ServerCore := set_shared (Peer.test w now (shared s)).2
  s.
Definition turned_buffer (now : Z) (w : PeerRef) (s : ServerCore) (buf : list PeerRef) : list PeerRef :=
  if (Peer.test w now (shared s)).1 then buf ++ [w] else buf.

Lemma wheel_turn now w ws s buf : referenced s w = true -> w ∉ buf ->
  wheel now (w :: ws) (s, buf) =
  (w :: (wheel now ws (turned now w s, turned_buffer now w s buf)).1, (wheel now ws (turned now w s,
    turned_buffer now w s buf)).2).
Proof.
  intros Href Hw. cbn [sweep]. unfold upgrade at 1. cbn [fst snd]. rewrite Href. cbn [orb].
  assert (Hstep : turn_of timer_test on_fire now w (s, buf) = (turned now w s, turned_buffer now w s buf)).
  { unfold turn_of, timer_test, turned, turned_buffer. cbn [fst snd].
    by destruct (Peer.test w now (shared s)) as [[] sh]. }
  by rewrite Hstep.
Qed.

Lemma wheel_drop now w ws s buf : referenced s w = false -> w ∉ buf ->
  wheel now (w :: ws) (s, buf) = wheel now ws (s, buf).
Proof.
  intros Href Hw. cbn [sweep]. unfold upgrade at 1. cbn [fst snd]. by rewrite Href, (bool_decide_eq_false_2 _ Hw).
Qed.

Lemma turned_ok now seen w s buf : server_at now seen buf s -> w ∉ buf ->
  server_at now seen (turned_buffer now w s buf) (turned now w s).
Proof.
  intros Hs Hw. unfold turned, turned_buffer. destruct (Peer.test w now (shared s)).1 eqn:E; [by apply test_fires|].
  rewrite (test_quiet _ _ _ E). by destruct s.
Qed.

Lemma sweep_ok now seen ws : forall s buf, server_at now seen buf s -> NoDup (buf ++ ws) ->
  let res := wheel now ws (s, buf) in
  server_at now seen res.2.2 res.2.1 /\ same_but_timers s res.2.1 /\ res.1 `sublist_of` ws /\
  forall r, r ∈ ws -> r ∉ res.1 -> referenced s r = false.
Proof.
  induction ws as [|w ws IH]; intros s buf Hs Hnd.
  { split; [done|]. split; [by repeat split|]. split; [done|]. by intros r ?%elem_of_nil. }
  assert (Hw : w ∉ buf).
  { apply NoDup_app in Hnd as (_ & Hd & _). intros Hin. apply (Hd w Hin). by left. }
  assert (Hnd' : NoDup (buf ++ ws)) by (eapply sublist_NoDup; [exact Hnd|]; apply sublist_app;
    [done|by apply sublist_cons]).
  destruct (referenced s w) eqn:Href.
  - rewrite wheel_turn by done. cbn zeta. cbn [fst snd]. pose proof (test_same now w s) as Hsame.
    assert (Hnd1 : NoDup (turned_buffer now w s buf ++ ws))
      by (unfold turned_buffer; destruct (Peer.test w now (shared s)).1; [by rewrite <- app_assoc|done]).
    destruct (IH _ _ (turned_ok now seen w s buf Hs Hw) Hnd1) as (Hr & Hsm & Hsub & Hrem).
    split; [done|]. split; [by eapply same_but_trans|]. split; [by apply sublist_skip|].
    intros r [->|Hin]%elem_of_cons Hn; [by destruct Hn; left|].
    rewrite <- (referenced_same s (turned now w s) r Hsame). apply Hrem; [done|]. intros Hk. apply Hn. by right.
  - rewrite wheel_drop by done. destruct (IH s buf Hs Hnd') as (Hr & Hsm & Hsub & Hrem). split; [done|].
    split; [done|].
    split; [by apply sublist_cons|]. intros r [->|Hin]%elem_of_cons Hn; [done|by apply Hrem].
Qed.

Lemma table_referenced s a r : peers s !! a = Some r -> referenced s r = true.
Proof.
  intros Ha. apply bool_decide_eq_true_2. left. apply list_elem_of_fmap. exists (a, r). split; [done|].
  by apply elem_of_map_to_list.
Qed.

Lemma step_timer_wheel_ok now seen s : server_at now seen [] s ->
  exists now' s' fired, now <= now' /\ step_timer_wheel s [] = Ok (s', fired) /\ server_at now' seen fired s'.
Proof.
  intros Hs. unfold step_timer_wheel, read_time. destruct (server_read_time now seen [] s Hs) as (t & w & ->
    & Ht & Hs').
  set (s0 := set_shared (Peer.set_world w (shared s)) s) in *. clearbody s0. exists t.
  pose proof (si_queue_nodup _ _ _ _ Hs') as Hnd. destruct (timer_queue s0) as [q] eqn:Eq. cbn [queue] in Hnd.
  rewrite test_sweep. cbn [mbind outcome_bind].
  assert (Hnt : NoDup ([] ++ take TIMER_TEST_LIMIT q)) by (eapply sublist_NoDup; [exact Hnd|]; apply sublist_take).
  destruct (sweep_ok t seen (take TIMER_TEST_LIMIT q) s0 [] Hs' Hnt) as (Hr & Hsm & Hsub & Hrem).
  destruct (wheel t (take TIMER_TEST_LIMIT q) (s0, [])) as [kept [s1 fired]]. cbn [fst snd] in *.
  eexists _, _. split; [done|]. split; [done|].
  assert (Hq : queue (timer_queue s1) = q) by (destruct Hsm as ((_ & _ & _ & -> & _) & _); by rewrite Eq).
  assert (Hin : forall r, r ∈ drop TIMER_TEST_LIMIT q ++ kept -> r ∈ q).
  { intros r [Hin|Hin]%elem_of_app; [by eapply elem_of_sublist, sublist_drop|].
    eapply elem_of_sublist, (sublist_take q TIMER_TEST_LIMIT). by eapply elem_of_sublist. }
  destruct Hr. split; try done; cbn.
  - intros r p Hp Hc. destruct (si_connected r p Hp Hc) as [Ha Hrq]. split; [done|]. rewrite Hq in Hrq.
    rewrite <- (take_drop TIMER_TEST_LIMIT q) in Hrq. apply elem_of_app in Hrq as [Hin'|Hin']; apply elem_of_app;
      [right|by left].
    destruct (decide (r ∈ kept)) as [|Hn]; [done|]. exfalso. pose proof (Hrem r Hin' Hn) as Hf.
    rewrite <- (referenced_same s0 s1 r Hsm), (table_referenced s1 _ r Ha) in Hf. done.
  - rewrite <- (take_drop TIMER_TEST_LIMIT q) in Hnd. apply NoDup_app in Hnd as (Hn1 & Hd & Hn2).
    apply NoDup_app. split; [done|]. split; [|exact (sublist_NoDup _ _ Hn1 Hsub)].
    intros r Hr1 Hr2. apply (Hd r); [exact (elem_of_sublist _ _ _ Hr2 Hsub)|done].
  - intros r Hr1. apply si_queue. rewrite Hq. by apply Hin.
Qed.

Lemma handle_expired_ok seen fired : forall now s, server_at now seen fired s ->
  server_kept now seen [] (handle_expired s fired).
Proof.
  induction fired as [|r fired IH]; intros now s Hs; cbn [handle_expired].
  { exists now, s. split; [lia|done]. }
  destruct (si_fired _ _ _ _ Hs r) as [p Hp]; [by left|].
  unfold Peer.handle_rto_timer, Peer.deref. rewrite Hp. cbn [mbind outcome_bind].
  destruct (server_read_time now seen (r :: fired) s Hs) as (t & w & -> & Ht & Hs').
  set (s0 := set_shared (Peer.set_world w (shared s)) s) in *.
  change (Peer.mkEndpointContext (Peer.core p) r (Peer.set_world w (shared s))) with (context s0 r p).
  destruct (peer_timer t seen fired s0 r p Hs' Hp) as (e' & c' & action & -> & Hres). cbn [mbind outcome_bind].
  change (set_shared (Peer.release r e' c') s) with (set_shared (Peer.release r e' c') s0).
  assert (Hgo : forall s', server_at t seen fired s' -> server_kept now seen [] (handle_expired s' fired)).
  { intros s' Hs2. destruct (IH t s' Hs2) as (n & s3 & Hn & Hr & Hs3). exists n, s3. split; [lia|done]. }
  destruct action; cbv zeta in Hres; [by apply Hgo|].
  destruct Hres as (_ & Ha & Hs2).
  assert (Hl : Peer.store (shared (set_shared (Peer.release r e' c') s0)) !! r = Some (Peer.mkPeer (Peer.peer c') e'))
    by apply lookup_insert_eq.
  rewrite Hl. cbn [mbind outcome_bind]. change (Peer.core (Peer.mkPeer (Peer.peer c') e')) with (Peer.peer c').
  rewrite Ha. by apply Hgo.
Qed.

Lemma handle_timeouts_ok now seen s : server_at now seen [] s -> server_kept now seen [] (handle_timeouts s).
Proof.
  intros Hs. unfold handle_timeouts. destruct (step_timer_wheel_ok now seen s Hs) as (t & s' & fired & Ht & -> & Hs').
  cbn [mbind outcome_bind]. destruct (handle_expired_ok seen fired t s' Hs') as (n & s2 & Hn & Hr & Hs2).
  exists n, s2. split; [lia|done].
Qed.
End Peers.
