(* ===== verification/ServerHandshake.v ===== *)
(** * How the server answers a handshake

    What the server does with the two requests of a handshake, on every branch: the result
    is an unchanged server, or one that has sent an acknowledgement and, after an acceptable
    second request from a new address, admitted a peer. *)

From S2P Require Import Prelude Word Frame Serial SerialFacts FrameFacts Prio TimerQueue Endpoint.
From S2P Require Import FragmentTxFacts.
From S2P Require Import EndpointFacts EndpointSafety EndpointMachine EndpointSession Handshake.
From S2P Require Import World HandshakeMac Peer Server.
From S2P Require Import ServerFacts ServerTimers.
From stdpp Require Import gmap.

#[local] Open Scope Z_scope.

Import ServerEvent Server.

Section Handshakes.
Context `{BuildProfile} `{ServerConfig} {Sip : Type} `{SipHasher Sip}.

(** ** Checks *)

Lemma slice_u8 i j l : Forall is_u8 l -> Forall is_u8 (slice i j l).
Proof. intros Hu. unfold slice. by apply Forall_take, Forall_drop. Qed.

Lemma verify_crc_total f : Forall is_u8 f -> FRAME_OVERHEAD_SIZE <= zlen f -> exists b, verify_crc f = Ok b.
Proof.
  intros Hu Hl. destruct (inspect_any f Hu) as (b & _ & _ & Hc & _); [by apply Z.leb_le|by exists b].
Qed.

Lemma alpha_check_total f : Forall is_u8 f ->
  exists b, verify_handshake_alpha_size_and_crc f FRAME_SIZE_MAX = Ok b /\ (b = true -> zlen f = FRAME_SIZE_MAX).
Proof.
  intros Hu. unfold verify_handshake_alpha_size_and_crc.
  destruct (zlen f =? Z.min FRAME_SIZE_MAX HANDSHAKE_ALPHA_FRAME_SIZE_MAX) eqn:E; [|by exists false].
  apply Z.eqb_eq in E. change (Z.min _ _) with FRAME_SIZE_MAX in E.
  rewrite index_range_ok by (rewrite ?E; by vm_compute). cbn [mbind outcome_bind].
  destruct (verify_crc_total (slice 0 (HANDSHAKE_ALPHA_SIZE + FRAME_OVERHEAD_SIZE) f)) as [b Hb].
  - by apply slice_u8.
  - rewrite slice_length by (rewrite ?E; by vm_compute). by vm_compute.
  - by exists b.
Qed.

Lemma beta_check_total f : Forall is_u8 f ->
  exists b, verify_handshake_beta_size_and_crc f = Ok b /\ (b = true ->
    zlen f = HANDSHAKE_BETA_SIZE + FRAME_OVERHEAD_SIZE).
Proof.
  intros Hu. unfold verify_handshake_beta_size_and_crc.
  destruct (zlen f =? HANDSHAKE_BETA_SIZE + FRAME_OVERHEAD_SIZE) eqn:E; [|by exists false].
  apply Z.eqb_eq in E. destruct (verify_crc_total f Hu) as [b Hb]; [rewrite E; by vm_compute|by exists b].
Qed.

Lemma write_ack_frame {A} `{SimpleFrame A} `{BlockSerialOk A} (a : A) : block_valid a ->
  PAYLOAD_SIZE A = block_size A ->
  exists buf, simple_frame_write a (replicate (Z.to_nat (FRAME_SIZE A)) 0) = Ok (sealed a, buf).
Proof.
  intros Hv Hp. pose proof (block_size_pos (A := A)). eexists. apply simple_write_sealed; [done|..];
    unfold zlen; rewrite length_replicate; unfold FRAME_SIZE; rewrite ?Hp; sizes; lia.
Qed.

Lemma server_params_valid : params_valid unlimited_params.
Proof. split; cbn; unfold is_u32, U32_MAX, two32; lia. Qed.

(** ** The first request *)

(** The answer to a first request. *)
Definition alpha_ack (s : ServerCore) (a : SocketAddr) (client_nonce server_nonce now : Z) : HandshakeAlphaAckFrame :=
  mkHandshakeAlphaAckFrame unlimited_params client_nonce server_nonce (wrap32 now)
    (HandshakeMac.compute (handshake_mac_hasher s) a client_nonce server_nonce (wrap32 now)).

Lemma alpha_ack_valid s a cn sn now : is_u32 cn -> is_u32 sn -> block_valid (alpha_ack s a cn sn now).
Proof.
  intros Hc Hn. split; [exact server_params_valid|]. split; [exact Hc|]. split; [exact Hn|].
  split; [apply wrap32_range|apply HandshakeMac.compute_u64].
Qed.

(** The server after it. *)
Definition alpha_answered (s : ServerCore) (a : SocketAddr) (client_nonce now : Z) : ServerCore :=
  let '(n, w) := random_u32 (Peer.world (shared s)) in
  send_to (sealed (alpha_ack s a client_nonce n now)) a (set_shared (Peer.set_world w (shared s)) s).

(** The handler, with the reading of the frame done. *)
Lemma alpha_result now s f a b o : world_ok (Peer.world (shared s)) ->
  verify_handshake_alpha_size_and_crc f FRAME_SIZE_MAX = Ok b ->
  (payload f ≫= simple_payload_read (A := HandshakeAlphaFrame)) = Ok o ->
  match o with Some fr => block_valid fr | None => True end ->
  handle_handshake_alpha s f a now =
    match b, o with
    | true, Some fr => if ha_protocol_id fr =? PROTOCOL_ID then Ok (alpha_answered s a (ha_client_nonce fr) now)
      else Ok s
    | _, _ => Ok s
    end.
Proof.
  intros Hw Hb Ho Hv. unfold handle_handshake_alpha. rewrite Hb. cbn [mbind outcome_bind].
  destruct b; cbn [negb]; [|done].
  rewrite <- outcome_bind_assoc, Ho. cbn [mbind outcome_bind]. destruct o as [fr|]; [|done].
  destruct (ha_protocol_id fr =? PROTOCOL_ID); [|done]. destruct Hv as [_ Hn].
  unfold alpha_answered. destruct (random_u32_ok _ Hw) as (Hsn & _). destruct (random_u32 _) as [n w].
  cbn [fst] in Hsn.
  destruct (write_ack_frame (alpha_ack s a (ha_client_nonce fr) n now)) as [buf Hbuf];
    [by apply alpha_ack_valid|done|].
  unfold alpha_ack in Hbuf at 1. cbn [handshake_mac_hasher set_shared]. rewrite Hbuf. done.
Qed.

Lemma alpha_read f : Forall is_u8 f -> verify_minimum_size f = true -> exists b o,
  verify_handshake_alpha_size_and_crc f FRAME_SIZE_MAX = Ok b /\ (b = true -> zlen f = FRAME_SIZE_MAX) /\
  (payload f ≫= simple_payload_read (A := HandshakeAlphaFrame)) = Ok o /\
  match o with Some fr => block_valid fr | None => True end.
Proof.
  intros Hu Hm. destruct (alpha_check_total f Hu) as (b & Hb & Hz).
  destruct (inspect_any f Hu Hm) as (_ & _ & p & _ & _ & Hp & _ & Hup).
  destruct (simple_read_any (A := HandshakeAlphaFrame) p Hup) as (o & Ho & Hv).
  exists b, o. split; [done|]. split; [done|]. by rewrite Hp.
Qed.

(** ** The second request *)

(** The request proves that its sender got the answer to the first, at most ten seconds ago. *)
Definition authentic (s : ServerCore) (a : SocketAddr) (fr : HandshakeBetaFrame) (now : Z) : bool :=
  (hb_server_mac fr =? HandshakeMac.compute (handshake_mac_hasher s) a (hb_client_nonce fr) (hb_server_nonce fr)
     (hb_server_timestamp fr)) &&
  (wrapping_sub (wrap32 now) (hb_server_timestamp fr) <? HANDSHAKE_TIMEOUT_MS).

(** What an authentic request is answered. *)
Definition verdict (s : ServerCore) (a : SocketAddr) (fr : HandshakeBetaFrame) : option HandshakeErrorKind :=
  if bool_decide (is_Some (peers s !! a)) then None
  else if peer_count_max (config s) <=? peer_count s then Some Capacity
  else if connection_params_compatible (hb_client_params fr) unlimited_params then None
  else Some Parameter_.

Definition admits (s : ServerCore) (a : SocketAddr) (fr : HandshakeBetaFrame) : bool :=
  negb (bool_decide (is_Some (peers s !! a))) && (peer_count s <? peer_count_max (config s)) &&
  connection_params_compatible (hb_client_params fr) unlimited_params.

Definition beta_ack (s : ServerCore) (a : SocketAddr) (fr : HandshakeBetaFrame) : HandshakeBetaAckFrame :=
  mkHandshakeBetaAckFrame (verdict s a fr) (hb_client_nonce fr).

Lemma beta_read f : Forall is_u8 f -> verify_minimum_size f = true -> exists b o,
  verify_handshake_beta_size_and_crc f = Ok b /\ (b = true -> zlen f = HANDSHAKE_BETA_SIZE + FRAME_OVERHEAD_SIZE) /\
  (payload f ≫= simple_payload_read (A := HandshakeBetaFrame)) = Ok o /\
  match o with Some fr => block_valid fr | None => True end.
Proof.
  intros Hu Hm. destruct (beta_check_total f Hu) as (b & Hb & Hz).
  destruct (inspect_any f Hu Hm) as (_ & _ & p & _ & _ & Hp & _ & Hup).
  destruct (simple_read_any (A := HandshakeBetaFrame) p Hup) as (o & Ho & Hv).
  exists b, o. split; [done|]. split; [done|]. by rewrite Hp.
Qed.

(** The handler, with the reading of the frame done. *)
Lemma beta_result now s f a b o : verify_handshake_beta_size_and_crc f = Ok b ->
  (payload f ≫= simple_payload_read (A := HandshakeBetaFrame)) = Ok o ->
  match o with Some fr => block_valid fr | None => True end ->
  handle_handshake_beta s f a now =
    match b, o with
    | true, Some fr =>
        if authentic s a fr now then
          s' ← (if admits s a fr then add_peer s a else Ok s);
          Ok (send_to (sealed (beta_ack s a fr)) a s')
        else Ok s
    | _, _ => Ok s
    end.
Proof.
  intros Hb Ho Hv. unfold handle_handshake_beta. rewrite Hb. cbn [mbind outcome_bind].
  destruct b; cbn [negb]; [|done].
  rewrite <- outcome_bind_assoc, Ho. cbn [mbind outcome_bind]. destruct o as [fr|]; [|done].
  fold (authentic s a fr now). destruct (authentic s a fr now); [|done]. unfold admits, beta_ack, verdict, peer_count.
  assert (Hack : forall e, exists buf, simple_frame_write (mkHandshakeBetaAckFrame e (hb_client_nonce fr))
    (replicate (Z.to_nat (FRAME_SIZE HandshakeBetaAckFrame)) 0)
      = Ok (sealed (mkHandshakeBetaAckFrame e (hb_client_nonce fr)), buf)).
  { intros e. destruct (write_ack_frame (mkHandshakeBetaAckFrame e (hb_client_nonce fr))) as [buf Hbuf].
    - by destruct Hv as (_ & Hn & _).
    - done.
    - by exists buf. }
  destruct (bool_decide (is_Some (peers s !! a))); cbn [negb andb].
  { cbn [mbind outcome_bind]. by destruct (Hack None) as [buf ->]. }
  rewrite (Z.ltb_antisym (peer_count_max (config s))).
  destruct (peer_count_max (config s) <=? Z.of_nat (size (peers s))); cbn [negb andb].
  { cbn [mbind outcome_bind]. by destruct (Hack (Some Capacity)) as [buf ->]. }
  destruct (connection_params_compatible _ _); cbn [negb].
  - destruct (add_peer s a) as [s'|]; cbn [mbind outcome_bind]; [|done]. by destruct (Hack None) as [buf ->].
  - cbn [mbind outcome_bind]. by destruct (Hack (Some Parameter_)) as [buf ->].
Qed.

(** ** Admission *)

(** The server after a peer has been admitted from [a]. *)
Record admitted (s : ServerCore) (a : SocketAddr) (s' : ServerCore) (r : PeerRef) : Prop := {
  ad_new : Peer.store (shared s) !! r = None;
  ad_peers : peers s' = <[a := r]> (peers s);
  ad_events : Peer.events (shared s') = Peer.events (shared s) ++ [Connect r];
  ad_sent : Peer.socket_tx (shared s') = Peer.socket_tx (shared s);
  ad_config : config s' = config s;
  ad_hasher : handshake_mac_hasher s' = handshake_mac_hasher s;
  ad_store r' : r' <> r -> Peer.store (shared s') !! r' = Peer.store (shared s) !! r';
}.

Lemma no_events now seen fired s r : server_at now seen fired s -> Peer.store (shared s) !! r = None ->
  omap (view r) (seen ++ Peer.events (shared s)) = [].
Proof.
  intros Hs Hr. pose proof (si_handles _ _ _ _ Hs) as Hh. induction (seen ++ Peer.events (shared s)) as [|ev l IH];
    [done|].
  rewrite omap_step. unfold view at 1. destruct (handle ev =? r)%nat eqn:E.
  - apply Nat.eqb_eq in E. destruct (Hh r) as [p Hp]; [apply list_elem_of_fmap; exists ev; split; [done|by left]|].
    by rewrite Hr in Hp.
  - apply IH. intros r' Hin. apply Hh. by right.
Qed.

(** The server with a freshly initialised peer behind the new reference [r]. *)
Definition newcomer (a : SocketAddr) (e : Endpoint.Endpoint) : Peer.Peer :=
  Peer.mkPeer (Peer.mkPeerCore a None None) (Endpoint.set_state_id Endpoint.Active e).
Definition with_newcomer (s : ServerCore) (a : SocketAddr) (r : PeerRef) (e : Endpoint.Endpoint) : ServerCore :=
  mkServerCore (config s) (handshake_mac_hasher s) (<[a := r]> (peers s)) (TimerQueue.add_timer (timer_queue s) r)
    (Peer.mkShared (<[r := newcomer a e]> (Peer.store (shared s))) (Peer.events (shared s) ++ [Connect r])
       (Peer.socket_tx (shared s)) (Peer.world (shared s))) (held s).

Lemma newcomer_ok now seen a e : ep_inv now e -> Endpoint.state_id e = Endpoint.PreInit -> has_timer e = false ->
  forall r, omap (view r) seen = [EvConnect] -> peer_ok now [] seen r (newcomer a e).
Proof.
  intros Hi Hst Hht r Hse. split; try done.
  - apply set_state_inv; [done|]. right. by rewrite Hst.
  - rewrite Hse. by exists [].
Qed.

Lemma with_newcomer_ok now seen s a r e : server_at now seen [] s -> peers s !! a = None ->
  peer_count s < peer_count_max (config s) -> Peer.store (shared s) !! r = None ->
  ep_inv now e -> Endpoint.state_id e = Endpoint.PreInit -> has_timer e = false ->
  server_at now seen [] (with_newcomer s a r e).
Proof.
  intros Hs Ha Hroom Hr Hi Hst Hht. pose proof (no_events now seen [] s r Hs Hr) as Hnone.
  assert (Hne : forall r' p, Peer.store (shared s) !! r' = Some p -> r' <> r) by (intros r' p Hp ->;
    by rewrite Hr in Hp).
  assert (Hsome : forall r', is_Some (Peer.store (shared s) !! r') ->
    is_Some (<[r := newcomer a e]> (Peer.store (shared s)) !! r')).
  { intros r' Hr'. apply lookup_insert_is_Some. destruct (decide (r = r')); auto. }
  assert (Hself : is_Some (<[r := newcomer a e]> (Peer.store (shared s)) !! r)) by (rewrite lookup_insert_eq;
    by eexists).
  destruct Hs. split; try done; cbn.
  - intros r' p'. rewrite app_assoc. destruct (decide (r' = r)) as [->|Hn].
    + rewrite lookup_insert_eq. intros [= <-]. apply newcomer_ok; try done.
      rewrite omap_app, Hnone, omap_step. unfold view. cbn. by rewrite Nat.eqb_refl.
    + rewrite lookup_insert_ne by done. intros Hp'. destruct (si_peers r' p' Hp') as [? ? ? ? Hse]. split; try done.
      rewrite omap_app, omap_step. unfold view at 2. cbn [handle].
      rewrite (proj2 (Nat.eqb_neq r r')) by done. by rewrite app_nil_r.
  - intros r' p'. destruct (decide (r' = r)) as [->|Hn].
    + rewrite lookup_insert_eq. intros [= <-] _. cbn. rewrite lookup_insert_eq. split; [done|].
      apply elem_of_app. right. by apply list_elem_of_singleton.
    + rewrite lookup_insert_ne by done. intros Hp' Hc. destruct (si_connected r' p' Hp' Hc) as [Hpa Hq].
      assert (Hna : a <> Peer.addr (Peer.core p')).
      { intros Heq. rewrite Heq in Ha. pose proof (eq_trans (eq_sym Ha) Hpa). discriminate. }
      rewrite lookup_insert_ne by done. split; [done|]. apply elem_of_app. by left.
  - intros a' r'. destruct (decide (a' = a)) as [->|Hn].
    + rewrite lookup_insert_eq. intros [= <-]. rewrite lookup_insert_eq. by exists (newcomer a e).
    + rewrite lookup_insert_ne by done. intros Ha'. destruct (si_table a' r' Ha') as (p' & Hp' & Hap & Hc).
      rewrite lookup_insert_ne by (symmetry; by eapply Hne). by exists p'.
  - rewrite map_size_insert_None by done. unfold peer_count in Hroom. lia.
  - apply NoDup_app. split; [done|]. split; [|apply NoDup_singleton].
    intros x Hx ->%list_elem_of_singleton. destruct (si_queue r Hx) as [p Hp]. by apply Hne in Hp.
  - intros r' [Hin|Hin%list_elem_of_singleton]%elem_of_app; [by apply Hsome, si_queue|by subst].
  - intros r'. rewrite app_assoc, fmap_app, elem_of_app. intros [Hin|Hin%list_elem_of_singleton];
      [by apply Hsome, si_handles|].
    by subst r'.
  - intros r' Hin. by apply Hsome, si_held.
  - by intros r' ?%elem_of_nil.
Qed.

Lemma add_peer_ok now seen s a : server_at now seen [] s -> peers s !! a = None ->
  peer_count s < peer_count_max (config s) ->
  exists now' s' r, now <= now' /\ add_peer s a = Ok s' /\ server_at now' seen [] s' /\ admitted s a s' r.
Proof.
  intros Hs Ha Hroom. unfold add_peer. destruct (valid_endpoint_config _ (si_config _ _ _ _ Hs)) as (cfg & -> & Hcfg).
  cbn [mbind outcome_bind]. unfold Peer.new. destruct (endpoint_new_ok cfg Hcfg) as (e & -> & Hi & Hst & Hht).
  cbn [mbind outcome_bind].
  set (r := fresh (dom (Peer.store (shared s)))).
  assert (Hr : Peer.store (shared s) !! r = None) by (apply not_elem_of_dom; apply is_fresh). clearbody r.
  unfold Peer.init, Peer.deref, Peer.read_time.
  cbn [shared set_shared set_peers set_timer_queue Peer.store Peer.set_store Peer.world]. rewrite lookup_insert_eq.
  cbn [mbind outcome_bind].
  destruct (server_read_time now seen [] s Hs) as (t & w & Hrt & Ht & Hs'). unfold Peer.read_time in Hrt.
  destruct (time_now_ms (Peer.world (shared s))) as [t0 w0]. injection Hrt as -> ->.
  unfold Endpoint.init. cbn [Peer.endpoint Peer.core]. rewrite debug_assert_true by by apply bool_decide_eq_true.
  cbn [mbind outcome_bind]. set (s0 := set_shared (Peer.set_world w (shared s)) s) in *.
  exists t, (with_newcomer s0 a r e), r. split; [done|]. split.
  { unfold Peer.release. cbn. unfold Peer.set_store. cbn. by rewrite insert_insert_eq. }
  pose proof (server_now_max _ _ _ _ Hs') as Hmax. apply (ep_inv_later 0 t) in Hi; [|lia].
  split; [by apply with_newcomer_ok|]. split; try done. cbn. intros r' Hn. by rewrite lookup_insert_ne.
Qed.

(** ** The handlers keep the invariant *)

Lemma send_to_ok now seen s f a : server_at now seen [] s -> reply_ok f -> server_at now seen [] (send_to f a s).
Proof.
  intros [] Hf. split; try done. cbn. apply Forall_app. split; [done|]. by apply Forall_singleton.
Qed.

Lemma set_world_ok now seen s w : server_at now seen [] s -> world_ok w ->
  World.now w = World.now (Peer.world (shared s)) ->
  server_at now seen [] (set_shared (Peer.set_world w (shared s)) s).
Proof.
  intros [] Hw Hn. split; try done. change (0 <= now <= World.now w). by rewrite Hn.
Qed.

Lemma alpha_answered_ok now seen s a cn t : server_at now seen [] s -> is_u32 cn ->
  server_at now seen [] (alpha_answered s a cn t).
Proof.
  intros Hs Hcn. unfold alpha_answered. destruct (random_u32_ok _ (si_world _ _ _ _ Hs)) as (Hn & Hw & Hnow).
  destruct (random_u32 _) as [n w]. cbn [fst snd] in *. apply send_to_ok; [by apply set_world_ok|].
  eapply rp_alpha_ack; [|done]. by apply alpha_ack_valid.
Qed.

Lemma alpha_ok now seen s f a : server_at now seen [] s -> Forall is_u8 f -> verify_minimum_size f = true ->
  server_kept now seen [] (handle_handshake_alpha s f a now).
Proof.
  intros Hs Hu Hm. destruct (alpha_read f Hu Hm) as (b & o & Hb & _ & Ho & Hv).
  rewrite (alpha_result now s f a b o) by (done || exact (si_world _ _ _ _ Hs)).
  assert (Hsame : server_kept now seen [] (Ok s)) by (exists now, s; split; [lia|done]).
  destruct b; [|exact Hsame]. destruct o as [fr|]; [|exact Hsame]. destruct (_ =? _); [|exact Hsame].
  eexists now, _. split; [lia|]. split; [done|]. apply alpha_answered_ok; [done|]. by destruct Hv.
Qed.

Lemma admits_room s a fr : admits s a fr = true -> peers s !! a = None /\ peer_count s < peer_count_max (config s).
Proof.
  unfold admits. intros Ha. apply andb_true_iff in Ha as [Ha _]. apply andb_true_iff in Ha as [Ha Hr].
  apply negb_true_iff, bool_decide_eq_false in Ha. apply Z.ltb_lt in Hr. split; [by apply eq_None_not_Some|done].
Qed.

Lemma beta_ok now seen s f a : server_at now seen [] s -> Forall is_u8 f -> verify_minimum_size f = true ->
  server_kept now seen [] (handle_handshake_beta s f a now).
Proof.
  intros Hs Hu Hm. destruct (beta_read f Hu Hm) as (b & o & Hb & _ & Ho & Hv).
  rewrite (beta_result now s f a b o) by done.
  assert (Hsame : server_kept now seen [] (Ok s)) by (exists now, s; split; [lia|done]).
  destruct b; [|exact Hsame]. destruct o as [fr|]; [|exact Hsame]. destruct (authentic s a fr now); [|exact Hsame].
  assert (Hrp : reply_ok (sealed (beta_ack s a fr))) by (eapply rp_beta_ack; [|done]; by destruct Hv as (_ & Hn & _)).
  destruct (admits s a fr) eqn:Ead.
  - destruct (admits_room s a fr Ead) as [Ha Hroom]. destruct (add_peer_ok now seen s a Hs Ha Hroom)
      as (n & s' & r & Hn & -> & Hs' & _).
    eexists n, _. split; [done|]. split; [done|]. by apply send_to_ok.
  - eexists now, _. split; [lia|]. split; [done|]. by apply send_to_ok.
Qed.
End Handshakes.
