(* ===== verification/ServerSession.v ===== *)
(** * A server in use

    Every operation of the server keeps its invariant; the servers an application can have,
    whatever the network delivers from whatever addresses; and the theorems about them. *)

From S2P Require Import Prelude Word Frame Serial SerialFacts FrameFacts Prio TimerQueue Endpoint.
From S2P Require Import FragmentTxFacts.
From S2P Require Import EndpointFacts EndpointSafety EndpointMachine EndpointSession Handshake.
From S2P Require Import World HandshakeMac Peer Server.
From S2P Require Import ServerFacts ServerTimers ServerHandshake.
From stdpp Require Import gmap.

#[local] Open Scope Z_scope.

Import ServerEvent Server.

Inductive request : Type :=
| RPoll (socket_rx : list (list Z * SocketAddr))
| RWait (wakeups : list (list (list Z * SocketAddr)))
| RWaitTimeout (timeout : Z) (wakeups : list (list (list Z * SocketAddr)))
| RSend (r : PeerRef) (packet : list Z) (mode : SendMode)
| REnqueue (r : PeerRef) (packet : list Z) (mode : SendMode)
| RFlush (r : PeerRef)
| RDisconnect (r : PeerRef)
| RSetData (r : PeerRef) (data : option Z)
| RClone (r : PeerRef)
| RDrop (r : PeerRef).

Section Operations.
Context `{BuildProfile} `{ServerConfig} {Sip : Type} `{SipHasher Sip}.

(** ** Incoming frames *)

Lemma kept_trans now now' seen res : now <= now' -> server_kept now' seen [] res -> server_kept now seen [] res.
Proof. intros Hn (n & s' & Hn' & Hr & Hs'). exists n, s'. split; [lia|done]. Qed.

Lemma server_refl now seen s : server_at now seen [] s -> server_kept now seen [] (Ok s).
Proof. intros Hs. exists now, s. split; [lia|done]. Qed.

Lemma server_bind now seen res k : server_kept now seen [] res ->
  (forall now' s, server_at now' seen [] s -> server_kept now' seen [] (k s)) -> server_kept now seen [] (res ≫= k).
Proof. intros (n & s & Hn & -> & Hs) Hk. apply (kept_trans now n); [done|]. by apply Hk. Qed.

Lemma shared_server now seen s res : shared_kept now seen s res -> server_kept now seen [] (sh ← res;
  Ok (set_shared sh s)).
Proof. intros (n & sh & Hn & -> & Hs). by eexists n, _. Qed.

(** What the receiving socket may yield: any bytes, no more than the receive buffer holds. *)
Definition arrival_ok (x : list Z * SocketAddr) : Prop := Forall is_u8 x.1 /\ zlen x.1 <= FRAME_SIZE_MAX.

Lemma arrival_payload f a p : arrival_ok (f, a) -> zlen p = zlen f - FRAME_OVERHEAD_SIZE -> Forall is_u8 p ->
  payload_ok p.
Proof.
  intros [_ Hz] Hl Hp. split; [done|]. cbn in Hz.
  unfold FRAME_OVERHEAD_SIZE, FRAME_HEADER_SIZE, FRAME_CRC_SIZE, Server.FRAME_SIZE_MAX,
    Endpoint.FRAME_SIZE_MAX in *. lia.
Qed.

Lemma frame_other_ok now seen s t f a : server_at now seen [] s -> arrival_ok (f, a) ->
  verify_minimum_size f = true ->
  server_kept now seen [] (handle_frame_other s t f a).
Proof.
  intros Hs Hf Hm. unfold handle_frame_other. destruct (peers s !! a) as [r|] eqn:Ha; [|by apply server_refl].
  destruct (inspect_any f (proj1 Hf) Hm) as (ok & _ & p & -> & _ & -> & Hl & Hp). cbn [mbind outcome_bind].
  destruct ok; cbn [negb]; [|by apply server_refl]. apply shared_server, peer_handle_frame;
    [done| |by eapply arrival_payload].
  destruct (si_table _ _ _ _ Hs a r Ha) as (q & Hq & _). by exists q.
Qed.

Lemma server_handle_frame_ok now seen s f a : server_at now seen [] s -> arrival_ok (f, a) ->
  server_kept now seen [] (handle_frame s f a).
Proof.
  intros Hs Hf. unfold handle_frame. destruct (verify_minimum_size f) eqn:Em; cbn [negb]; [|by apply server_refl].
  destruct (inspect_any f (proj1 Hf) Em) as (_ & t & _ & _ & -> & _). cbn [mbind outcome_bind].
  destruct t as [t|]; [|by apply server_refl].
  unfold read_time. destruct (server_read_time now seen [] s Hs) as (tm & w & -> & Ht & Hs').
  apply (kept_trans now tm); [done|].
  assert (Ho : server_kept tm seen [] (handle_frame_other (set_shared (Peer.set_world w (shared s)) s) t f a))
    by by apply frame_other_ok.
  destruct t; try exact Ho; [apply alpha_ok|apply beta_ok]; try done; apply Hf.
Qed.

Lemma server_handle_frames_ok fs : forall now seen s, server_at now seen [] s -> Forall arrival_ok fs ->
  server_kept now seen [] (handle_frames s fs).
Proof.
  induction fs as [|[f a] fs IH]; intros now seen s Hs Hfs; cbn [handle_frames]; [by apply server_refl|].
  apply Forall_cons in Hfs as [Hf Hfs]. apply server_bind; [by apply server_handle_frame_ok|]. intros. by apply IH.
Qed.

Lemma server_handle_frames_wait_same s fs : handle_frames_wait s fs = handle_frames s fs.
Proof. by destruct fs as [|[f a] fs]. Qed.

Lemma frames_timeouts_ok now seen s fs : server_at now seen [] s -> Forall arrival_ok fs ->
  server_kept now seen [] (self ← handle_frames s fs; handle_timeouts self).
Proof. intros Hs Hfs. apply server_bind; [by apply server_handle_frames_ok|]. intros. by apply handle_timeouts_ok.
Qed.

(** ** Events and handles *)

(** An operation that hands events to the application. *)
Definition served (now : Z) (seen : list Event) (res : outcome (list Event * ServerCore)) : Prop :=
  exists now' evs s', now <= now' /\ res = Ok (evs, s') /\ server_at now' (seen ++ evs) [] s'.

Lemma server_kept_served now seen res : server_kept now seen [] res -> served now seen (s ← res; Ok ([], s)).
Proof. intros (n & s & Hn & -> & Hs). exists n, [], s. by rewrite app_nil_r. Qed.

Lemma server_served_earlier now now' seen res : now <= now' -> served now' seen res -> served now seen res.
Proof. intros Hn (n & evs & s & Hn' & Hr & Hs). exists n, evs, s. split; [lia|done]. Qed.

Lemma server_served_bind now seen res k : server_kept now seen [] res ->
  (forall now' s, server_at now' seen [] s -> served now' seen (k s)) -> served now seen (res ≫= k).
Proof. intros (n & s & Hn & -> & Hs) Hk. apply (server_served_earlier now n); [done|]. by apply Hk. Qed.

Lemma set_held_ok now seen s hs : server_at now seen [] s -> (forall r, r ∈ hs ->
  is_Some (Peer.store (shared s) !! r)) ->
  server_at now seen [] (set_held hs s).
Proof. intros [] Hh. by split. Qed.

Lemma server_pop_event_ok now seen s : server_at now seen [] s ->
  server_at now (seen ++ option_list (pop_event s).1) [] (pop_event s).2.
Proof.
  intros Hs. unfold pop_event. destruct (Peer.events (shared s)) as [|ev evs] eqn:Ee;
    cbn [fst snd option_list option_rect].
  - by rewrite app_nil_r.
  - destruct Hs. rewrite Ee in *. split; try done; cbn.
    + intros r p Hp. rewrite <- app_assoc. by apply si_peers.
    + intros r. rewrite <- app_assoc. by apply si_handles.
    + intros r [->|Hin]%elem_of_cons; [|by apply si_held]. apply si_handles. rewrite fmap_app. apply elem_of_app.
      right. by left.
Qed.

Definition answer (w : waiting) : list Event * ServerCore :=
  match w with Returned ev s => (option_list ev, s) | Blocked _ s => ([], s) end.

Lemma server_popped now seen s : server_at now seen [] s -> served now seen (Ok (answer (let '(ev,
  s) := pop_event s in Returned ev s))).
Proof.
  intros Hs. pose proof (server_pop_event_ok now seen s Hs) as Hp. destruct (pop_event s) as [ev s'].
  exists now, (option_list ev), s'. split; [lia|done].
Qed.

Lemma server_instant_now_ok now seen s : server_at now seen [] s ->
  exists t s', instant_now s = (t, s') /\ server_at now seen [] s'.
Proof.
  intros Hs. destruct (elapsed_ok _ (si_world _ _ _ _ Hs)) as [Hw Hle]. unfold instant_now, elapsed in *.
  eexists _, _. split; [done|]. cbn [snd] in *. destruct Hs. split; try done.
  change (Peer.world (shared (set_shared (Peer.set_world ?w ?sh) ?s))) with w. lia.
Qed.

Lemma server_wait_event_ok ws : forall now seen s, server_at now seen [] s -> Forall (Forall arrival_ok) ws ->
  served now seen (answer <$> wait_event s ws).
Proof.
  induction ws as [|fs ws IH]; intros now seen s Hs Hws; cbn [wait_event].
  - exists now, [], s. rewrite app_nil_r. split; [lia|done].
  - apply Forall_cons in Hws as [Hfs Hws]. rewrite server_handle_frames_wait_same.
    destruct (frames_timeouts_ok now seen s fs Hs Hfs) as (n & s2 & Hn & Hr & Hs2).
    apply outcome_bind_Ok in Hr as (s1 & Hf & Ht). rewrite Hf. cbn [mbind outcome_bind]. rewrite Ht.
    cbn [mbind outcome_bind].
    apply (server_served_earlier now n); [done|]. pose proof (server_popped n seen s2 Hs2) as Hp.
    unfold pop_event in *.
    destruct (Peer.events (shared s2)) as [|ev evs]; [by apply IH|exact Hp].
Qed.

Lemma server_wait_timeout_ok ws : forall now seen s rem t0, server_at now seen [] s ->
  Forall (Forall arrival_ok) ws ->
  served now seen (answer <$> wait_event_timeout_loop s rem t0 ws).
Proof.
  induction ws as [|fs ws IH]; intros now seen s rem t0 Hs Hws; cbn [wait_event_timeout_loop].
  - exists now, [], s. rewrite app_nil_r. split; [lia|done].
  - apply Forall_cons in Hws as [Hfs Hws]. rewrite server_handle_frames_wait_same.
    destruct (frames_timeouts_ok now seen s fs Hs Hfs) as (n & s2 & Hn & Hr & Hs2).
    apply outcome_bind_Ok in Hr as (s1 & Hf & Ht). rewrite Hf. cbn [mbind outcome_bind]. rewrite Ht.
    cbn [mbind outcome_bind].
    apply (server_served_earlier now n); [done|]. pose proof (server_popped n seen s2 Hs2) as Hp.
    destruct (Peer.events (shared s2)) as [|ev evs] eqn:Ee.
    + destruct (server_instant_now_ok n seen s2 Hs2) as (t1 & s3 & -> & Hs3). case_bool; [|by apply IH].
      exists n, [], s3. rewrite app_nil_r. split; [lia|done].
    + by destruct (pop_event s2).
Qed.

Lemma set_data_ok now seen s r d : server_at now seen [] s -> is_Some (Peer.store (shared s) !! r) ->
  server_kept now seen [] (with_handle s (Peer.set_data r d)).
Proof.
  intros Hs [p Hp]. unfold with_handle, Peer.set_data, Peer.deref. rewrite Hp. cbn [mbind outcome_bind].
  eexists now, _. split; [lia|]. split; [done|].
  assert (Hsome : forall r' q, is_Some (Peer.store (shared s) !! r') ->
    is_Some (<[r := q]> (Peer.store (shared s)) !! r')).
  { intros r' q Hr'. apply lookup_insert_is_Some. destruct (decide (r = r')); auto. }
  destruct Hs. split; try done; cbn.
  - intros r' p'. destruct (decide (r' = r)) as [->|Hne].
    + rewrite lookup_insert_eq. intros [= <-]. by destruct (si_peers r p Hp).
    + rewrite lookup_insert_ne by done. by apply si_peers.
  - intros r' p'. destruct (decide (r' = r)) as [->|Hne].
    + rewrite lookup_insert_eq. intros [= <-]. by apply (si_connected r p).
    + rewrite lookup_insert_ne by done. by apply si_connected.
  - intros a r' Ha. destruct (si_table a r' Ha) as (p' & Hp' & Hap & Hc). destruct (decide (r' = r)) as [->|Hne].
    + rewrite lookup_insert_eq. eexists. split; [done|]. rewrite Hp in Hp'. by injection Hp' as <-.
    + rewrite lookup_insert_ne by done. by exists p'.
  - intros r' Hin. by apply Hsome, si_queue.
  - intros r' Hin. by apply Hsome, si_handles.
  - intros r' Hin. by apply Hsome, si_held.
  - by intros r' ?%elem_of_nil.
Qed.

Lemma remove_one_in r x rs : x ∈ remove_one r rs -> x ∈ rs.
Proof.
  induction rs as [|y rs IH]; [done|]. cbn. destruct (r =? y)%nat; [by right|].
  intros [->|Hin]%elem_of_cons; [by left|right; by apply IH].
Qed.

(** ** Requests *)

Definition serve (s : ServerCore) (q : request) : outcome (list Event * ServerCore) :=
  match q with
  | RPoll rx => '(ev, s) ← poll_event s rx; Ok (option_list ev, s)
  | RWait ws => answer <$> wait_event s ws
  | RWaitTimeout timeout ws => answer <$> wait_event_timeout s timeout ws
  | RSend r p m => s ← with_handle s (Peer.send r p m); Ok ([], s)
  | REnqueue r p m => s ← with_handle s (Peer.enqueue r p m); Ok ([], s)
  | RFlush r => s ← with_handle s (Peer.flush r); Ok ([], s)
  | RDisconnect r => s ← with_handle s (Peer.disconnect r); Ok ([], s)
  | RSetData r d => s ← with_handle s (Peer.set_data r d); Ok ([], s)
  | RClone r => Ok ([], clone_handle s r)
  | RDrop r => Ok ([], drop_handle s r)
  end.

(** Methods are called through a handle the application holds. *)
Definition request_allowed (s : ServerCore) (q : request) : Prop :=
  match q with
  | RPoll rx => Forall arrival_ok rx
  | RWait ws | RWaitTimeout _ ws => Forall (Forall arrival_ok) ws
  | RSend r p m | REnqueue r p m => r ∈ held s /\ packet_ok p /\ mode_ok m
  | RFlush r | RDisconnect r | RSetData r _ | RClone r | RDrop r => r ∈ held s
  end.

Lemma server_poll_event_ok now seen s rx : server_at now seen [] s -> Forall arrival_ok rx ->
  served now seen ('(ev, s) ← poll_event s rx; Ok (option_list ev, s)).
Proof.
  intros Hs Hrx. unfold poll_event. rewrite outcome_bind_assoc. apply server_served_bind.
  - destruct (Peer.events (shared s)); [by apply frames_timeouts_ok|by apply server_refl].
  - intros n s' Hs'. cbn [mbind outcome_bind]. pose proof (server_popped n seen s' Hs') as Hp.
    by destruct (pop_event s').
Qed.

Lemma handle_served now seen s f : shared_kept now seen s (f (shared s)) ->
  served now seen (s ← with_handle s f; Ok ([], s)).
Proof. intros Hk. by apply server_kept_served, shared_server. Qed.

Lemma server_serve_ok now seen s q : server_at now seen [] s -> request_allowed s q -> served now seen (serve s q).
Proof.
  intros Hs Hq. pose proof (si_held _ _ _ _ Hs) as Hh.
  destruct q as [rx|ws|t ws|r p m|r p m|r|r|r d|r|r]; cbn [serve request_allowed] in *.
  - by apply server_poll_event_ok.
  - by apply server_wait_event_ok.
  - unfold wait_event_timeout. destruct (Peer.events (shared s)) as [|ev evs] eqn:Ee.
    + destruct (server_instant_now_ok now seen s Hs) as (t0 & s1 & -> & Hs1). by apply server_wait_timeout_ok.
    + pose proof (server_popped now seen s Hs) as Hp. by destruct (pop_event s).
  - destruct Hq as (Hr & Hp & Hm). apply handle_served, peer_send; auto.
  - destruct Hq as (Hr & Hp & Hm). apply handle_served, peer_enqueue; auto.
  - apply handle_served, peer_flush; auto.
  - apply handle_served, peer_disconnect; auto.
  - apply server_kept_served, set_data_ok; auto.
  - exists now, [], (clone_handle s r). rewrite app_nil_r. split; [lia|]. split; [done|]. apply set_held_ok; [done|].
    intros x [->|Hin]%elem_of_cons; by apply Hh.
  - exists now, [], (drop_handle s r). rewrite app_nil_r. split; [lia|]. split; [done|]. apply set_held_ok; [done|].
    intros x Hin. by apply Hh, (remove_one_in r).
Qed.

End Operations.

Section Reachable.
Context `{BuildProfile} {Sip : Type} `{SipHasher Sip}.

(** The servers an application can have, with the events it has taken. *)
Inductive server_reachable (cfg : Config) : list Event -> ServerCore -> Prop :=
| sr_bind w s : world_ok w -> bind_with_config cfg w = Ok s -> server_reachable cfg [] s
| sr_request seen s q evs s' :
    server_reachable cfg seen s -> request_allowed s q -> serve s q = Ok (evs, s') ->
      server_reachable cfg (seen ++ evs) s'.

Lemma bind_ok cfg w : valid_config cfg -> world_ok w ->
  exists s, bind_with_config cfg w = Ok s /\ server_at (H0 := cfg) (World.now w) [] [] s.
Proof.
  intros Hcfg Hw. unfold bind_with_config. rewrite (vc_valid _ Hcfg). cbn [mbind outcome_bind].
  unfold HandshakeMac.default.
  destruct (HandshakeMac.draw_octets_ok 16 w Hw) as (Hw' & Hn & _).
  destruct (HandshakeMac.draw_octets 16 w) as [key w']. cbn [fst snd] in *. eexists. split; [done|].
  pose proof (now_range _ Hw). pose proof (vc_valid _ Hcfg) as Hv. unfold validate in Hv.
  apply outcome_bind_Ok in Hv as ([] & Hpos%Prio.assert_inv & _). apply Z.ltb_lt in Hpos.
  split; try done; try (by intros ? ?%elem_of_nil); try by apply NoDup_nil_2.
  - change (0 <= World.now w <= World.now w'). lia.
  - cbn [peers config]. rewrite map_size_empty. lia.
Qed.

Lemma server_reachable_at cfg seen s : valid_config cfg -> server_reachable cfg seen s ->
  exists now, server_at (H0 := cfg) now seen [] s.
Proof.
  intros Hcfg. induction 1 as [w s Hw Hb|seen s q evs s' Hr (now & Hs) Hq Hserve].
  - destruct (bind_ok cfg w Hcfg Hw) as (s0 & Hb' & Hs). rewrite Hb in Hb'. injection Hb' as <-. by eexists.
  - destruct (server_serve_ok now seen s q Hs Hq) as (n & evs' & s1 & _ & Hs' & Hs1).
    rewrite Hserve in Hs'. injection Hs' as <- <-. by exists n.
Qed.
End Reachable.
