(* ===== verification/ServerClaims.v ===== *)
(** * What a server promises

    Theorems about every server an application can have: no input stops it, each peer's
    events form a session, the peer table is exact and bounded, a peer is admitted only from
    an authentic request, and a stranger gets no more than it sent. *)

From S2P Require Import Prelude Word Frame Serial SerialFacts FrameFacts Prio TimerQueue Endpoint.
From S2P Require Import FragmentTxFacts.
From S2P Require Import EndpointFacts EndpointSafety EndpointMachine EndpointSession Handshake.
From S2P Require Import World HandshakeMac Peer Server.
From S2P Require Import ServerFacts ServerTimers ServerHandshake ServerSession.
From stdpp Require Import gmap.

#[local] Open Scope Z_scope.

Import ServerEvent Server.

(** ** Driving a server *)

#[export] Instance server_arrival_dec x : Decision (arrival_ok x).
Proof. unfold arrival_ok. apply _. Defined.
Section Driving.
Context `{BuildProfile} {Sip : Type} `{SipHasher Sip}.

#[export] Instance server_request_dec s q : Decision (request_allowed s q).
Proof. destruct q; cbn [request_allowed]; apply _. Defined.

Fixpoint drive_server (seen : list Event) (s : ServerCore) (qs : list request) : option (list Event * ServerCore) :=
  match qs with
  | [] => Some (seen, s)
  | q :: qs =>
      if decide (request_allowed s q) then
        match serve s q with
        | Ok (evs, s) => drive_server (seen ++ evs) s qs
        | Fault _ => None
        end
      else None
  end.

Definition start_server (cfg : Config) (w : World) (qs : list request) : option (list Event * ServerCore) :=
  match bind_with_config cfg w with
  | Ok s => drive_server [] s qs
  | Fault _ => None
  end.

Lemma drive_server_reachable cfg qs : forall seen s x, server_reachable cfg seen s ->
  drive_server seen s qs = Some x ->
  server_reachable cfg x.1 x.2.
Proof.
  induction qs as [|q qs IH]; intros seen s x Hr Hd; cbn [drive_server] in Hd; [by injection Hd as <-|].
  destruct (decide _) as [Hq|]; [|done]. destruct (serve s q) as [[evs s']|] eqn:Hs; [|done].
  apply (IH _ _ _ (sr_request cfg seen s q evs s' Hr Hq Hs) Hd).
Qed.

(** A computed observation of a driven server is one of a reachable server. *)
Lemma observe_server {A} cfg w qs (f : list Event * ServerCore -> A) x :
  world_ok w -> f <$> start_server cfg w qs = Some x -> exists seen s, server_reachable cfg seen s /\ f (seen, s) = x.
Proof.
  intros Hw Hx. apply fmap_Some in Hx as ([seen s] & Hs & ->). exists seen, s. split; [|done].
  unfold start_server in Hs. destruct (bind_with_config cfg w) as [s0|] eqn:Hb; [|done].
  by apply (drive_server_reachable cfg qs [] s0 (seen, s)); [by eapply sr_bind|].
Qed.
End Driving.

(** A simple multiplicative hash in the place of SipHash. *)
Definition toy_write (bytes : list Z) (h : Z) : Z := fold_left (fun h b => (h * 1099511628211 + b) mod two64) bytes h.
Definition toy_hash : SipHasher Z.
Proof.
  refine {|
    new_with_key key := toy_write key 14695981039346656037;
    hash_write := toy_write;
    hash_write_u16 x := toy_write [x mod 256; x / 256];
    hash_write_u32 x := toy_write [x mod 65536; x / 65536];
    hash_finish h := h mod two64;
  |}.
  intros h. unfold is_u64. apply Z.mod_pos_bound. by vm_compute.
Defined.

Definition stranger_addr : SocketAddr := V4 [127; 0; 0; 1] 8888.

(** The two requests of a client at [a] whose nonce is 5, when the server's nonces are 7
    and it answered the first at time [t]. *)
Definition first_request : list Z := padded (mkHandshakeAlphaFrame PROTOCOL_ID 5).
Definition request_echo `{SipHasher Sip} (hasher : HandshakeMac.HandshakeMacHasher) (a : SocketAddr) (t : Z)
  : HandshakeBetaFrame :=
  mkHandshakeBetaFrame unlimited_params 5 7 t (HandshakeMac.compute hasher a 5 7 t).

(** ** An example: a debug build, the default configuration *)

Section Example.
#[local] Instance server_example_debug : BuildProfile := true.
#[local] Existing Instance toy_hash.

Definition example_key : HandshakeMac.HandshakeMacHasher := HandshakeMac.mkHandshakeMacHasher (replicate 16 0).
Definition second_frame : list Z := sealed (request_echo example_key stranger_addr 0).
Definition to_admit : list request := [RPoll [(first_request, stranger_addr)]; RPoll [(second_frame, stranger_addr)]].

Lemma server_default_valid : valid_config config_default.
Proof. split; by vm_compute. Qed.

(** Sending a peer an empty packet fails an assertion. *)
Lemma server_empty_stops : exists cfg seen s r, valid_config cfg /\ server_reachable cfg seen s /\ r ∈ held s /\
  serve s (RSend r [] SendReliable) = Fault Panicked.
Proof.
  destruct (observe_server config_default (example_world 0) to_admit
    (fun x => (held x.2, serve x.2 (RSend 0%nat [] SendReliable))) ([0%nat], Fault Panicked)) as (seen & s & Hr & Ho);
    [by apply example_world_ok|vm_compute; reflexivity|].
  cbn [snd] in Ho. injection Ho as Hh Hf. exists config_default, seen, s, 0%nat. split; [exact server_default_valid|].
  split; [exact Hr|]. split; [rewrite Hh; by left|exact Hf].
Qed.
End Example.

Section Claims.
Context `{BuildProfile} {Sip : Type} `{SipHasher Sip}.

(** ** One frame from one address *)

Lemma alpha_answered_effect s a cn t : exists n w,
  alpha_answered s a cn t = send_to (sealed (alpha_ack s a cn n t)) a (set_shared (Peer.set_world w (shared s)) s).
Proof. unfold alpha_answered. destruct (random_u32 (Peer.world (shared s))) as [n w]. by exists n, w. Qed.

(** How a server takes one frame: it reads the clock once; a frame of an established
    connection goes to the peer of its address; an authentic second request may admit a
    peer; and everything else is at most answered. *)
Inductive frame_effect (s : ServerCore) (f : list Z) (a : SocketAddr) : ServerCore -> Prop :=
| fe_ignored w : frame_effect s f a (set_shared (Peer.set_world w (shared s)) s)
| fe_peer sh r : peers s !! a = Some r -> frame_effect s f a (set_shared sh s)
| fe_alpha w cn now s0 : s0 = set_shared (Peer.set_world w (shared s)) s -> zlen f = FRAME_SIZE_MAX ->
    frame_effect s f a (alpha_answered s0 a cn now)
| fe_beta w fr s0 now s1 : s0 = set_shared (Peer.set_world w (shared s)) s ->
  now = World.now (Peer.world (shared s)) ->
    verify_handshake_beta_size_and_crc f = Ok true -> zlen f = HANDSHAKE_BETA_SIZE + FRAME_OVERHEAD_SIZE ->
    (payload f ≫= simple_payload_read) = Ok (Some fr) -> authentic s a fr now = true ->
    (if admits s a fr then exists r, admitted s0 a s1 r else s1 = s0) ->
    frame_effect s f a (send_to (sealed (beta_ack s0 a fr)) a s1).

Lemma handle_frame_effect `{ServerConfig} now seen s f a s' : server_at now seen [] s -> arrival_ok (f, a) ->
  handle_frame s f a = Ok s' -> s' = s \/ frame_effect s f a s'.
Proof.
  intros Hs Hf. unfold handle_frame. destruct (verify_minimum_size f) eqn:Em; cbn [negb]; [|by intros [= <-]; left].
  destruct (inspect_any f (proj1 Hf) Em) as (_ & t & _ & _ & -> & _). cbn [mbind outcome_bind].
  destruct t as [t|]; [|by intros [= <-]; left]. unfold read_time, Peer.read_time.
  destruct (time_now_ms_now _ (si_world _ _ _ _ Hs)) as (w & Htn & Hw & _).
  destruct (server_read_time now seen [] s Hs) as (tm & w' & Hrt & _ & Hs0). unfold Peer.read_time in Hrt.
  rewrite Htn in Hrt |- *. injection Hrt as <- <-. set (now' := World.now (Peer.world (shared s))) in *.
  set (s0 := set_shared (Peer.set_world w (shared s)) s) in *.
  assert (Hign : frame_effect s f a s0) by apply fe_ignored.
  assert (Hoth : handle_frame_other s0 t f a = Ok s' -> frame_effect s f a s').
  { unfold handle_frame_other. change (peers s0) with (peers s).
    destruct (peers s !! a) as [r|] eqn:Ha; [|by intros [= <-]].
    intros (ok & _ & Hk)%outcome_bind_Ok. destruct ok; cbn [negb] in Hk; [|by injection Hk as <-].
    apply outcome_bind_Ok in Hk as (p & _ & Hk). apply outcome_bind_Ok in Hk as (sh & _ & [= <-]).
    by apply (fe_peer s f a sh r). }
  intros Hr. right. destruct t; try exact (Hoth Hr); clear Hoth.
  - destruct (alpha_read f (proj1 Hf) Em) as (b & o & Hb & Hz & Ho & Hv).
    rewrite (alpha_result now' s0 f a b o) in Hr by (done || exact (si_world _ _ _ _ Hs0)).
    destruct b; [|by injection Hr as <-]. destruct o as [fr|]; [|by injection Hr as <-].
    destruct (_ =? _); injection Hr as <-; [|done]. apply (fe_alpha s f a w); [done|by apply Hz].
  - destruct (beta_read f (proj1 Hf) Em) as (b & o & Hb & Hz & Ho & Hv).
    rewrite (beta_result now' s0 f a b o) in Hr by done.
    destruct b; [|by injection Hr as <-]. destruct o as [fr|]; [|by injection Hr as <-].
    change (authentic s0 a fr now') with (authentic s a fr now') in Hr.
    change (admits s0 a fr) with (admits s a fr) in Hr.
    destruct (authentic s a fr now') eqn:Eau; [|by injection Hr as <-].
    apply outcome_bind_Ok in Hr as (s1 & Hs1 & [= <-]). apply (fe_beta s f a w fr s0 now'); try done; [by apply Hz|].
    destruct (admits s a fr) eqn:Ead; [|by injection Hs1 as <-].
  destruct (admits_room s a fr Ead) as [Ha Hroom]. destruct (add_peer_ok now' seen s0 a Hs0 Ha Hroom)
    as (n & s2 & r & _ & Hadd & _ & Had).
    rewrite Hadd in Hs1. injection Hs1 as <-. by exists r.
Qed.

(** ** Theorems *)

(** C2: While the application sends no empty packet in a debug build, and every reading of the
    socket finds finitely many frames, no use of a server makes it panic, overflow, index
    outside a buffer or loop forever: binding returns a server, and from every server an
    application can have every request made through a handle it holds returns (or still
    waits on the poller), whatever frames arrive from whatever addresses, however many peers
    there are and whatever timers fire.  Both conditions are needed: in a debug build sending
    a peer an empty packet panics, and the reading loops have no bound of their own (as
    [flood_starves] shows of the client's).  A release build has no condition on packets but
    that they are octets. *)
Theorem server_total :
  (forall cfg, valid_config cfg ->
     (forall w, world_ok w -> exists s, bind_with_config cfg w = Ok s) /\
     (forall seen s q, server_reachable cfg seen s -> request_allowed s q ->
       exists evs s', serve s q = Ok (evs, s'))) /\
  (debug_assertions = true -> exists (S : Type) (hash : SipHasher S) cfg seen s r, valid_config cfg /\
     server_reachable (Sip := S) cfg seen s /\ r ∈ held s /\ serve (Sip := S) s (RSend r [] SendReliable)
       = Fault Panicked).
Proof.
  split; [intros cfg Hcfg; split|].
  - intros w Hw. destruct (bind_ok cfg w Hcfg Hw) as (s & Hb & _). by exists s.
  - intros seen s q Hr Hq. destruct (server_reachable_at cfg seen s Hcfg Hr) as [now Hs].
    destruct (server_serve_ok now seen s q Hs Hq) as (_ & evs & s' & _ & Hsv & _). by exists evs, s'.
  - match goal with profile : BuildProfile |- _ => destruct profile end; [intros _|done].
    exists Z, toy_hash. exact server_empty_stops.
Qed.

(** C12: The application of a server sees a well-formed session of every peer: no event of a
    peer that does not exist; [Connect] first and once; then packets; and one [Disconnect]
    or timeout error at the end.  Events still queued are part of the session. *)
Theorem server_sessions cfg seen s r : valid_config cfg -> server_reachable cfg seen s ->
  let log := omap (view r) (seen ++ Peer.events (shared s)) in
  match Peer.store (shared s) !! r with
  | Some p => Endpoint.state_id (Peer.endpoint p) <> Endpoint.PreInit /\
    session (Endpoint.state_id (Peer.endpoint p)) log
  | None => log = []
  end.
Proof.
  intros Hcfg Hr. destruct (server_reachable_at cfg seen s Hcfg Hr) as [now Hs]. cbv zeta.
  destruct (Peer.store (shared s) !! r) as [p|] eqn:Hp; [|by eapply no_events].
  destruct (si_peers _ _ _ _ Hs r p Hp) as [_ _ _ Hst Hse]. by split.
Qed.

(** C13: The peer table is exact: it holds a reference under an address if and only if that is
    the address of a peer whose endpoint is not finished ([Zombie]; a closed peer, whose
    [Disconnect] has been reported, stays until its last timer).  So an address has one peer at
    most, a peer that ends its connection is removed, and no other is.  The table never
    exceeds its configured size, and the timer of every peer in it is queued, once. *)
Theorem peer_table_exact cfg seen s : valid_config cfg -> server_reachable cfg seen s ->
  (forall a r, peers s !! a = Some r <-> exists p, Peer.store (shared s) !! r = Some p /\
     Peer.addr (Peer.core p) = a /\ Endpoint.state_id (Peer.endpoint p) <> Endpoint.Zombie) /\
  peer_count s <= peer_count_max cfg /\
  NoDup (TimerQueue.queue (timer_queue s)) /\
  (forall a r, peers s !! a = Some r -> r ∈ TimerQueue.queue (timer_queue s)).
Proof.
  intros Hcfg Hr. destruct (server_reachable_at cfg seen s Hcfg Hr) as [now Hs].
  assert (Hc : config s = cfg) by exact (si_saved _ _ _ _ Hs). split; [|split; [|split]].
  - intros a r. split; [by apply (si_table _ _ _ _ Hs)|]. intros (p & Hp & <- & Hz).
    by apply (si_connected _ _ _ _ Hs r p Hp Hz).
  - rewrite <- Hc. by apply (si_capacity _ _ _ _ Hs).
  - by apply (si_queue_nodup _ _ _ _ Hs).
  - intros a r Ha. destruct (si_table _ _ _ _ Hs a r Ha) as (p & Hp & _ & Hz).
    by apply (si_connected _ _ _ _ Hs r p Hp Hz).
Qed.

(** C14: A frame changes the peer table only by admitting its sender, and it is admitted only
    if the frame is a whole second request whose code is the server's own over that address,
    the echoed nonces and a time less than ten seconds ago, if its parameters are
    compatible, if the address has no peer yet and if there is room; the new peer is a fresh
    one, and the application is told of it by [Connect]. *)
Theorem admission cfg seen s f a s' : valid_config cfg -> server_reachable cfg seen s -> arrival_ok (f, a) ->
  handle_frame s f a = Ok s' ->
  peers s' = peers s \/
  exists fr r now, now = World.now (Peer.world (shared s)) /\
    verify_handshake_beta_size_and_crc f = Ok true /\ (payload f ≫= simple_payload_read) = Ok (Some fr) /\
    hb_server_mac fr = HandshakeMac.compute (handshake_mac_hasher s) a (hb_client_nonce fr) (hb_server_nonce fr)
                         (hb_server_timestamp fr) /\
    wrapping_sub (wrap32 now) (hb_server_timestamp fr) < HANDSHAKE_TIMEOUT_MS /\
    connection_params_compatible (hb_client_params fr) unlimited_params = true /\
    peers s !! a = None /\ peer_count s < peer_count_max (config s) /\
    Peer.store (shared s) !! r = None /\ peers s' = <[a := r]> (peers s) /\
    Peer.events (shared s') = Peer.events (shared s) ++ [Connect r].
Proof.
  intros Hcfg Hr Hf Hh. destruct (server_reachable_at cfg seen s Hcfg Hr) as [n Hs].
  destruct (handle_frame_effect n seen s f a s' Hs Hf Hh) as [->|He]; [by left|].
  destruct He as [w|sh r Ha|w cn now s0 -> Hz|w fr s0 now s1 -> Hnow Hb _ Hrd Hau Had]; try by left.
  destruct (admits s a fr) eqn:Ead; [right|left; by subst s1]. destruct Had as (r & [Hnew Hpe Hev _ _ _ _]).
    destruct (admits_room s a fr Ead) as [Ha Hroom]. unfold admits in Ead. apply andb_true_iff in Ead as [_ Hcp].
    unfold authentic in Hau. apply andb_true_iff in Hau as [Hmac%Z.eqb_eq Hts%Z.ltb_lt].
    exists fr, r, now. split_and!; done.
Qed.

(** C22: A stranger costs the server nothing.  A frame from an address that has no peer leaves
    the peer table, the peers, their timers and the events as they are, unless it admits its
    sender; and what it provokes is at most one frame, sent back to that address and no
    larger than the frame received. *)
Theorem stranger_costs_nothing cfg seen s f a s' : valid_config cfg -> server_reachable cfg seen s ->
  arrival_ok (f, a) ->
  peers s !! a = None -> handle_frame s f a = Ok s' ->
  (is_Some (peers s' !! a) \/
   peers s' = peers s /\ Peer.store (shared s') = Peer.store (shared s) /\
   Peer.events (shared s') = Peer.events (shared s) /\ timer_queue s' = timer_queue s) /\
  (Peer.socket_tx (shared s') = Peer.socket_tx (shared s) \/
   exists g, Peer.socket_tx (shared s') = Peer.socket_tx (shared s) ++ [(a, g)] /\ zlen g <= zlen f).
Proof.
  intros Hcfg Hr Hf Ha Hh. destruct (server_reachable_at cfg seen s Hcfg Hr) as [n Hs].
  destruct (handle_frame_effect n seen s f a s' Hs Hf Hh) as [->|He]; [by split; [right|left]|].
  destruct He as [w|sh r Ha'|w cn now s0 -> Hz|w fr s0 now s1 -> Hnow Hb Hz Hrd Hau Had].
  - by split; [right|left].
  - pose proof (eq_trans (eq_sym Ha) Ha'). discriminate.
  - destruct (alpha_answered_effect (set_shared (Peer.set_world w (shared s)) s) a cn now) as (n' & w' & ->).
    split; [by right|]. right. eexists. split; [done|]. rewrite (sealed_length (alpha_ack _ _ _ _ _)), Hz.
    by vm_compute.
  - assert (Hack : zlen (sealed (beta_ack (set_shared (Peer.set_world w (shared s)) s) a fr)) <= zlen f).
    { rewrite (sealed_length (beta_ack _ a fr)), Hz. by vm_compute. }
    destruct (admits s a fr); [|subst s1; split; [by right|right; by eexists]].
    destruct Had as (r & [_ Hpe _ Hsent _ _ _]). split.
    + left. change (peers (send_to _ _ s1)) with (peers s1). rewrite Hpe. exists r. apply lookup_insert_eq.
    + right. eexists. split; [|exact Hack]. change (Peer.socket_tx (shared (send_to ?g a s1)))
        with (Peer.socket_tx (shared s1) ++ [(a, g)]).
      by rewrite Hsent.
Qed.
End Claims.

(** ** The theorems at work: a debug build, the default configuration *)

#[local] Instance server_claims_debug : BuildProfile := true.
#[local] Existing Instance toy_hash.

Lemma example_server {A} qs (f : list Event * ServerCore -> A) x :
  f <$> start_server config_default (example_world 0) qs = Some x ->
  exists seen s, server_reachable config_default seen s /\ f (seen, s) = x.
Proof. apply observe_server. by apply example_world_ok. Qed.

Lemma first_arrival : arrival_ok (first_request, stranger_addr).
Proof. apply (bool_decide_eq_true_1 (arrival_ok _)). by vm_compute. Qed.
Lemma second_arrival : arrival_ok (second_frame, stranger_addr).
Proof. apply (bool_decide_eq_true_1 (arrival_ok _)). by vm_compute. Qed.

Lemma server_total_witness : exists seen s evs s', server_reachable config_default seen s /\
  held s = [0%nat] /\ serve s (RSend 0%nat [1; 2; 3] SendReliable) = Ok (evs, s').
Proof.
  destruct (example_server to_admit (fun x => held x.2) [0%nat]) as (seen & s & Hr & Ho); [vm_compute; reflexivity|].
  cbn [snd] in Ho. destruct (proj1 server_total config_default server_default_valid) as [_ Ht].
  destruct (Ht seen s (RSend 0%nat [1; 2; 3] SendReliable) Hr) as (evs & s' & Hs).
  - cbn [request_allowed]. rewrite Ho. split; [by left|]. split; [|done].
    apply (bool_decide_eq_true_1 (packet_ok _)). by vm_compute.
  - by exists seen, s, evs, s'.
Defined.

Definition has_peer (r : PeerRef) (s : ServerCore) : bool := bool_decide (is_Some (Peer.store (shared s) !! r)).

Lemma server_sessions_witness : exists seen s p, server_reachable config_default seen s /\
  Peer.store (shared s) !! 0%nat = Some p /\ Endpoint.state_id (Peer.endpoint p) <> Endpoint.PreInit /\
  session (Endpoint.state_id (Peer.endpoint p)) [EvConnect].
Proof.
  destruct (example_server to_admit (fun x => (has_peer 0%nat x.2,
    omap (view 0%nat) (x.1 ++ Peer.events (shared x.2))))
    (true, [EvConnect])) as (seen & s & Hr & Ho); [vm_compute; reflexivity|].
  cbn [fst snd] in Ho. injection Ho as Hp Hl. apply bool_decide_eq_true_1 in Hp as [p Hp]. exists seen, s, p.
  split; [exact Hr|]. split; [exact Hp|].
  pose proof (server_sessions config_default seen s 0%nat server_default_valid Hr) as Hs. cbv zeta in Hs.
  rewrite Hp, Hl in Hs. exact Hs.
Defined.

Lemma peer_table_exact_witness : exists seen s, server_reachable config_default seen s /\ peer_count s = 1 /\
  ((forall a r, peers s !! a = Some r <-> exists p, Peer.store (shared s) !! r = Some p /\
     Peer.addr (Peer.core p) = a /\ Endpoint.state_id (Peer.endpoint p) <> Endpoint.Zombie) /\
  peer_count s <= peer_count_max config_default /\
  NoDup (TimerQueue.queue (timer_queue s)) /\
  (forall a r, peers s !! a = Some r -> r ∈ TimerQueue.queue (timer_queue s))).
Proof.
  destruct (example_server to_admit (fun x => peer_count x.2) 1) as (seen & s & Hr & Ho); [vm_compute; reflexivity|].
  exists seen, s. split; [exact Hr|]. split; [exact Ho|]. apply (peer_table_exact config_default seen s
    server_default_valid Hr).
Defined.

(** Sizes of the table before and after a frame. *)
Definition table_sizes (f : list Z) (s : ServerCore) : option (Z * Z) :=
  match handle_frame s f stranger_addr with Ok s' => Some (peer_count s, peer_count s') | Fault _ => None end.

Lemma table_sizes_inv f s n m : table_sizes f s = Some (n, m) ->
  exists s', handle_frame s f stranger_addr = Ok s' /\ peer_count s = n /\ peer_count s' = m.
Proof. unfold table_sizes. destruct (handle_frame _ _ _) as [s'|]; [|done]. intros [= <- <-]. by exists s'. Qed.

Lemma admission_witness : exists seen s s' fr r now, server_reachable config_default seen s /\
  handle_frame s second_frame stranger_addr = Ok s' /\ peer_count s = 0 /\ peer_count s' = 1 /\
  hb_server_mac fr = HandshakeMac.compute (handshake_mac_hasher s) stranger_addr (hb_client_nonce fr)
    (hb_server_nonce fr)
                       (hb_server_timestamp fr) /\
  wrapping_sub (wrap32 now) (hb_server_timestamp fr) < HANDSHAKE_TIMEOUT_MS /\
  peers s !! stranger_addr = None /\ peers s' = <[stranger_addr := r]> (peers s) /\
  Peer.events (shared s') = Peer.events (shared s) ++ [Connect r].
Proof.
  destruct (example_server [RPoll [(first_request, stranger_addr)]] (fun x => table_sizes second_frame x.2)
    (Some (0, 1)))
    as (seen & s & Hr & Ho); [vm_compute; reflexivity|].
  destruct (table_sizes_inv _ _ _ _ Ho) as (s' & Hh & H0 & H1). exists seen, s, s'.
  destruct (admission config_default seen s second_frame stranger_addr s' server_default_valid Hr second_arrival Hh)
    as [He|(fr & r & now & _ & _ & _ & Hm & Ht & _ & Ha & _ & _ & Hp & Hev)].
  - exfalso. cbn [snd] in *. unfold peer_count in *. rewrite He, H0 in H1. discriminate H1.
  - exists fr, r, now. split_and!; assumption.
Defined.

Lemma stranger_costs_nothing_witness : exists seen s s' g, server_reachable config_default seen s /\
  peers s !! stranger_addr = None /\ handle_frame s first_request stranger_addr = Ok s' /\
  Peer.socket_tx (shared s') = Peer.socket_tx (shared s) ++ [(stranger_addr, g)] /\ zlen g <= zlen first_request /\
  peers s' = peers s /\ timer_queue s' = timer_queue s.
Proof.
  destruct (example_server [] (fun x => match handle_frame x.2 first_request stranger_addr with
      | Ok s' => Some (bool_decide (peers x.2 !! stranger_addr = None),
        bool_decide (peers s' !! stranger_addr = None),
                   (zlen (Peer.socket_tx (shared s')) - zlen (Peer.socket_tx (shared x.2))))
      | Fault _ => None end)
    (Some (true, true, 1))) as (seen & s & Hr & Ho); [vm_compute; reflexivity|].
  cbn [snd] in Ho. destruct (handle_frame s first_request stranger_addr) as [s'|] eqn:Hh; [|discriminate Ho].
  injection Ho as Ha%bool_decide_eq_true Ha'%bool_decide_eq_true Hz.
  destruct (stranger_costs_nothing config_default seen s first_request stranger_addr s' server_default_valid Hr
    first_arrival Ha Hh)
    as [[Hs|(Hp & _ & _ & Ht)] [Hn|(g & Hg & Hle)]]; try (rewrite Ha' in Hs; destruct Hs; discriminate).
  - exfalso. rewrite Hn, Z.sub_diag in Hz. discriminate Hz.
  - exists seen, s, s', g. split_and!; assumption.
Defined.
