(* ===== verification/Sides.v ===== *)
(** * A side of a connection and its host

    What clients and servers share as hosts of an endpoint that is one side of a
    [connection]: the frames that are not the endpoint's, runs of calls, the bounds of the
    id spaces and what is promised of the packets. *)

From S2P Require Import Prelude Word Fragment Frame Serial ReliableFacts Endpoint EndpointFacts EndpointMachine.
From S2P Require Import EndpointSession StreamReceive StreamCalls Duplex.

Import Endpoint.

Definition handshake_type (t : FrameType) : bool :=
  match t with
  | HandshakeAlpha | HandshakeAlphaAck | HandshakeBeta | HandshakeBetaAck => true
  | _ => false
  end.

Lemma armed_record ev h : armed (record ev h) = arm_event (armed h) ev.
Proof. unfold armed, record. cbn [h_log]. by rewrite arm_app. Qed.

Section Sides.
Context `{BuildProfile}.

Definition handshake_frame (f : list Z) : Prop := exists t, read_type f = Ok (Some t) /\ handshake_type t = true.

(** What a side has sent. *)
Definition sent_by (b : side) (f : list Z) : Prop := f ∈ frames (h_log (sd_host b)).

(** What the checks of a frame refuse. *)
Definition refused (f : list Z) : Prop := verify_minimum_size f = false \/ verify_crc f = Ok false.

(** What the network may hand over from where [sent] says what has been sent: that, or a
    handshake frame of anybody, or something that does not pass the checks. *)
Definition network (sent : list Z -> Prop) (f : list Z) : Prop := sent f \/ handshake_frame f \/ refused f.

Lemma network_mono (sent sent' : list Z -> Prop) f : (forall g, sent g -> handshake_frame g \/ sent' g) ->
  network sent f -> network sent' f.
Proof. intros Hs [Hf|Hf]; [destruct (Hs f Hf); [right|]; by left|by right]. Qed.

(** What the peer has sent does not change while a side is at work. *)
Definition moves (b : side) : side -> side -> Prop := rtc (fun a a' => acts a b a').

Lemma connection_moves cfg1 cfg2 a b a' : connection cfg1 cfg2 a b -> moves b a a' -> connection cfg1 cfg2 a' b.
Proof. intros Hcn Hm. revert Hcn. induction Hm as [|a a1 a2 Ha _ IH]; [done|]. intros Hcn. apply IH.
by eapply cn_left. Qed.

Lemma fragments_prefix l k : l `prefix_of` k ->
  zlen (fragment_stream FRAGMENT_SIZE (reliable_packets l)) <=
    zlen (fragment_stream FRAGMENT_SIZE (reliable_packets k)) /\
  zlen (fragment_stream FRAGMENT_SIZE (unreliable_packets l)) <=
    zlen (fragment_stream FRAGMENT_SIZE (unreliable_packets k)).
Proof.
  intros [m ->]. unfold reliable_packets, unreliable_packets.
  rewrite !omap_app, !fragment_stream_app, !zlen_app by done.
  split; apply Z.le_sub_le_add_l; rewrite Z.sub_diag; apply zlen_nonneg.
Qed.

(** The id spaces are not exhausted: the bits drawn bound the segments sent. *)
Record traffic_bounded (drawn : nat) (given : list (SendMode * list Z)) : Prop := {
  tb_segments : Z.of_nat drawn + SEGMENT_WINDOW_SIZE < two32;
  tb_reliable : zlen (fragment_stream FRAGMENT_SIZE (reliable_packets given)) < two32;
  tb_unreliable : zlen (fragment_stream FRAGMENT_SIZE (unreliable_packets given)) < two32;
}.

Lemma side_bounded a drawn given : (h_draws (sd_host a) <= drawn)%nat -> sd_accepted a `prefix_of` given ->
  traffic_bounded drawn given -> ids_bounded a.
Proof.
  intros Hd Ha [Hs Hr Hu]. destruct (fragments_prefix _ _ Ha) as [Hfr Hfu].
  split; [unfold segments_bounded, segments_sent|..]; lia.
Qed.

(** What has come out of a connection of what went in. *)
Definition conveyed (given : list (SendMode * list Z)) (out : list (list Z)) : Prop := exists rs us,
  interleaves rs us out /\ rs `prefix_of` reliable_packets given /\ us `sublist_of` unreliable_packets given.

Lemma conveyed_more given given' out : given `prefix_of` given' -> conveyed given out -> conveyed given' out.
Proof.
  intros [k ->] (rs & us & Hi & Hr & Hu). exists rs, us. split; [done|].
  unfold reliable_packets, unreliable_packets in *. rewrite !omap_app. split.
  - by apply prefix_app_r.
  - by apply sublist_inserts_r.
Qed.

#[export] Instance handshake_frame_dec f : Decision (handshake_frame f).
Proof.
  unfold handshake_frame. destruct (read_type f) as [[t|]|].
  - destruct (handshake_type t) eqn:E; [left; by exists t|right; intros (t' & [= <-] & Ht); congruence].
  - right. by intros (t' & Ht & _).
  - right. by intros (t' & Ht & _).
Defined.

#[export] Instance crc_refused_dec f : Decision (verify_crc f = Ok false).
Proof. destruct (verify_crc f) as [[]|]; [by right|by left|by right]. Defined.

#[export] Instance network_dec sent f : Decision (sent f) -> Decision (network sent f).
Proof. unfold network, refused. apply _. Defined.
End Sides.
