(* ===== verification/ClientSide.v ===== *)
(** * A client is one side of a connection

    The endpoint inside a client makes the calls of a [side]: while the application uses the
    client and frames arrive, there is a recording host in the same position, whose log has
    the frames the client sent and the packets it delivered.  So what [Duplex] proves of
    recording hosts holds of clients. *)

From S2P Require Import Prelude Word Fragment Frame Serial SerialFacts FrameFacts Prio ReliableFacts.
From S2P Require Import Endpoint FragmentTxFacts EndpointFacts EndpointSafety EndpointMachine EndpointSession Handshake.
From S2P Require Import World Client ClientFacts ClientSession HostIndependence StreamReceive StreamCalls Duplex Sides.

Import Client.

(** The packets among the events of an application. *)
Definition received (evs : list Event) : list (list Z) :=
  omap (fun ev => match ev with Receive p => Some p | _ => None end) evs.

Lemma received_app l k : received (l ++ k) = received l ++ received k.
Proof. apply omap_app. Qed.

Section Simulation.
Context `{BuildProfile} (cfg : Config) (ecfg : Endpoint.Config).
Context (Hvalid : valid_config cfg) (Hecfg : endpoint_config cfg = Ok ecfg).

(** ** The client and the recording host *)

(** The client has sent nothing but requests and what the host has sent, has delivered what
    the host has delivered, and will draw the bits that the host will draw. *)
Record mirrors (seen : list Event) (n : Z) (h : Host) (c : ClientCore) : Prop := {
  mi_config : config c = cfg;
  mi_world : world_ok (world c);
  mi_now : n <= World.now (world c);
  mi_sent f : f ∈ socket_tx c -> handshake_frame f \/ f ∈ frames (h_log h);
  mi_packets : received (seen ++ events c) = packets (h_log h);
  mi_coins i : h_coins h (h_draws h + i) = bits (world c) (bits_drawn (world c) + i);
  mi_draws : (h_draws h <= bits_drawn (world c))%nat;
}.

(** The same of a client whose endpoint is in use: the endpoint's timer is the client's. *)
Definition in_use (seen : list Event) (n : Z) (h : Host) (c : ClientCore) : Prop :=
  mirrors seen n h c /\ (is_Some (rto_timer c) -> armed h = true).

Lemma mirrors_record seen n h c ev : mirrors seen n h c ->
  frames [ev] = [] -> packets [ev] = [] -> mirrors seen n (record ev h) c.
Proof.
  intros [] Hf Hp. split; cbn; rewrite ?frames_app, ?packets_app, ?Hf, ?Hp, ?app_nil_r; auto.
Qed.

Lemma mirrors_event seen n h c ev e : mirrors seen n h c -> frames [ev] = [] -> packets [ev] = received [e] ->
  mirrors seen n (record ev h) (push_event e c).
Proof.
  intros [? ? ? ? Hpk ? ?] Hf Hp. split; cbn; rewrite ?frames_app, ?packets_app, ?Hf, ?Hp, ?app_nil_r; auto.
  by rewrite app_assoc, received_app, Hpk.
Qed.

Lemma in_use_event seen n h c ev e : in_use seen n h c -> frames [ev] = [] -> packets [ev] = received [e] ->
  (forall a, arm_event a ev = a) -> in_use seen n (record ev h) (push_event e c).
Proof.
  intros [Hm Ht] Hf Hp Ha. split; [by apply mirrors_event|]. intros Hs.
  rewrite armed_record, Ha. by apply Ht.
Qed.

#[export] Instance client_mirrors seen n : HostRelation (in_use seen n).
Proof.
  split.
  - intros f h c [[] Ht]. split.
    + split; cbn; rewrite ?frames_app, ?packets_app, ?app_nil_r; auto.
      intros f' [Hf| ->%list_elem_of_singleton]%elem_of_app; [|right; apply elem_of_app; right; by left].
      destruct (mi_sent0 f' Hf); [by left|]. right. apply elem_of_app. by left.
    + intros Hs. change (armed (record (EvSend f) h) = true). rewrite armed_record. by apply Ht.
  - intros t h c [Hm Ht]. split; [|intros _; exact (armed_record _ h)].
    by destruct (mirrors_record seen n h c (EvSetTimer t) Hm).
  - intros h c [Hm Ht]. split; [by destruct (mirrors_record seen n h c EvUnsetTimer Hm)|]. by intros [].
  - intros h c Hi. by apply in_use_event.
  - intros h c Hi. by apply in_use_event.
  - intros p h c Hi. by apply in_use_event.
  - intros h c Hi. by apply in_use_event.
  - intros h c [[] Ht]. split; [specialize (mi_coins0 0%nat); by rewrite !Nat.add_0_r in mi_coins0|].
    destruct (random_bool_ok _ mi_world0) as [Hw Hn].
    split; [split; cbn|]; rewrite ?frames_app, ?packets_app, ?app_nil_r; auto.
    + intros i. specialize (mi_coins0 (S i)). by rewrite !Nat.add_succ_r in mi_coins0.
    + lia.
    + intros Hs. change (armed (record EvRandom h) = true). rewrite armed_record. by apply Ht.
Qed.

(** [a] is the side that the client plays in the connection: a new one until the handshake
    is over, with the packets it will be given; the endpoint in use; and what is left of it
    when the connection has ended. *)
Record client_side (seen : list Event) (acc : list (SendMode * list Z)) (a : side) (c : ClientCore) : Prop := {
  cs_mirrors : mirrors seen (sd_now a) (sd_host a) c;
  cs_accepted : sd_accepted a `prefix_of` acc;
  cs_state :
    match state c with
    | Handshake st =>
        Endpoint.new ecfg = Ok (sd_endpoint a) /\ sd_accepted a = [] /\
        acc = (fun pm => (pm.2, pm.1)) <$> packet_buffer st /\
        Forall buffered_ok (packet_buffer st) /\ handshake_frame (frame st)
    | Active e =>
        sd_endpoint a = e /\ sd_accepted a = acc /\ (is_Some (rto_timer c) -> armed (sd_host a) = true)
    | Quiescent => True
    end;
}.

(** In the middle of an operation that has read the time [now]. *)
Record playing (seen : list Event) (now : Z) (acc : list (SendMode * list Z)) (a : side) (e : Endpoint.Endpoint)
  (c : ClientCore) : Prop := {
  py_endpoint : sd_endpoint a = e;
  py_accepted : sd_accepted a = acc;
  py_now : sd_now a <= now <= TIME_MAX;
  py_in_use : in_use seen now (sd_host a) c;
}.

(** What the peer has sent does not change while the client is at work. *)
Context (b : side).
#[local] Abbreviation moves := (moves b).

Lemma mirrors_earlier seen n m h c : m <= n -> mirrors seen n h c -> mirrors seen m h c.
Proof. intros Hn []. split; try done. lia. Qed.

(** The fields a mirror does not look at. *)
Lemma mirrors_set_state seen n h c s : mirrors seen n h c -> mirrors seen n h (set_state s c).
Proof. by intros []. Qed.
Lemma mirrors_set_timer seen n h c t : mirrors seen n h c -> mirrors seen n h (set_timer t c).
Proof. by intros []. Qed.

Lemma mirrors_send seen n h c f : handshake_frame f -> mirrors seen n h c -> mirrors seen n h (send_bytes f c).
Proof.
  intros Hf []. split; try done. cbn. intros f' [Hin| ->%list_elem_of_singleton]%elem_of_app; auto.
Qed.

Lemma mirrors_error seen n h c kind : mirrors seen n h c -> mirrors seen n h (push_event (Error kind) c).
Proof. intros []. split; try done. cbn. by rewrite app_assoc, received_app, app_nil_r. Qed.

(** Reading the clock. *)
Lemma mirrors_read seen n h c : mirrors seen n h c -> exists t c1, read_time c = (t, c1) /\ n <= t <= TIME_MAX /\
  mirrors seen t h c1 /\ state c1 = state c /\ rto_timer c1 = rto_timer c /\ events c1 = events c.
Proof.
  intros []. destruct (time_now_ms_now _ mi_world0) as (w & Ht & Hw & Hn). pose proof (now_range _ mi_world0).
  eexists _, (set_world w c). unfold read_time. rewrite Ht. split; [reflexivity|]. split; [lia|].
  assert (Hb : bits w = bits (world c) /\ bits_drawn w = bits_drawn (world c)).
  { unfold time_now_ms, elapsed in Ht. injection Ht as _ <-. done. }
  destruct Hb as [Hb Hd]. split; [|done]. split; try done; cbn; rewrite ?Hb, ?Hd; done.
Qed.

Lemma playing_side seen now acc a e c : playing seen now acc a e c -> client_side seen acc a (set_state (Active e) c).
Proof.
  intros [He Ha Hn [Hm Ht]]. split.
  - apply mirrors_set_state. apply (mirrors_earlier _ now); [lia|done].
  - by rewrite Ha.
  - by split_and!.
Qed.

(** The time [now] has just been read. *)
Definition at_time (seen : list Event) (now : Z) (a : side) (c : ClientCore) : Prop :=
  sd_now a <= now <= TIME_MAX /\ mirrors seen now (sd_host a) c.

Lemma active_playing seen now acc a e c : client_side seen acc a c -> at_time seen now a c -> state c = Active e ->
  playing seen now acc a e c.
Proof. intros [_ _ Hs] [Hn Hm] Es. rewrite Es in Hs. destruct Hs as (He & Ha & Ht). by split. Qed.

Lemma side_read seen acc a c : client_side seen acc a c -> exists t c1, read_time c = (t, c1) /\
  client_side seen acc a c1 /\ at_time seen t a c1 /\ state c1 = state c /\ rto_timer c1 = rto_timer c /\
  events c1 = events c.
Proof.
  intros [Hm Hp Hs]. destruct (mirrors_read _ _ _ _ Hm) as (t & c1 & Hr & Hn & Hm1 & Hs1 & Ht1 & He1). exists t, c1.
  split; [done|]. split; [|by split_and!].
  split; [by apply (mirrors_earlier _ t); [lia|]|done|]. by rewrite Hs1, Ht1.
Qed.

(** A call of the endpoint is a call of the recording host. *)
Lemma plays seen now acc a e c k e' c' : playing seen now acc a e c -> call_ok (armed (sd_host a)) e k ->
  arrives b k ->
  invoke e k now c = Ok (e', c') -> exists a', acts a b a' /\ playing seen now (acc ++ accepted e k) a' e' c'.
Proof.
  intros [He Ha Hn Hu] Hk Harr Hi.
  pose proof (invoke_same (in_use seen now) e k now (sd_host a) c Hu) as Hsame. rewrite Hi in Hsame.
  destruct (invoke e k now (sd_host a)) as [[e1 h1]|] eqn:Hi1; [|done]. destruct Hsame as [He1 Hu1]. cbn in He1, Hu1.
  subst e1. exists (mkSide now e' h1 (sd_accepted a ++ accepted (sd_endpoint a) k)). split.
  - apply acts_call; [done|by rewrite He|done|by rewrite He].
  - split; cbn; [done|by rewrite Ha, He|lia|done].
Qed.

(** ** Operations *)

Definition goes (seen : list Event) (acc : list (SendMode * list Z)) (a : side) (r : outcome ClientCore) : Prop :=
  forall c', r = Ok c' -> exists a', moves a a' /\ client_side seen acc a' c'.

Lemma goes_refl seen acc a c : client_side seen acc a c -> goes seen acc a (Ok c).
Proof. intros Hc c' [= <-]. exists a. split; [apply rtc_refl|done]. Qed.

Lemma goes_bind seen acc a r k : goes seen acc a r -> (forall a' c, client_side seen acc a' c ->
  goes seen acc a' (k c)) ->
  goes seen acc a (r ≫= k).
Proof.
  intros Hr Hk c' (c1 & -> & Hc')%outcome_bind_Ok. destruct (Hr c1 eq_refl) as (a1 & Hm1 & Hc1).
  destruct (Hk a1 c1 Hc1 c' Hc') as (a2 & Hm2 & Hc2). exists a2. split; [|done]. unfold moves in *. by etrans.
Qed.

(** The endpoint makes one call and goes back to where it was. *)
Lemma goes_call seen now acc a e c k : playing seen now acc a e c -> call_ok (armed (sd_host a)) e k -> arrives b k ->
  goes seen (acc ++ accepted e k) a ('(e', c') ← invoke e k now c; Ok (set_state (Active e') c')).
Proof.
  intros Hp Hk Ha c2 ([e' c'] & Hi & [= <-])%outcome_bind_Ok.
  destruct (plays _ _ _ _ _ _ _ _ _ Hp Hk Ha Hi) as (a' & Hm & Hp'). exists a'. split; [by apply rtc_once|].
  by eapply playing_side.
Qed.

(** Back in the handshake, after the buffer, the request or the timer have changed. *)
Lemma handshake_side seen acc a c st c' st' : client_side seen acc a c -> state c = Handshake st ->
  mirrors seen (sd_now a) (sd_host a) c' -> state c' = Handshake st' -> packet_buffer st' = packet_buffer st ->
  handshake_frame (frame st') -> client_side seen acc a c'.
Proof.
  intros [_ Ha Hs] Es Hm Es' Hp Hf. rewrite Es in Hs. destruct Hs as (? & ? & ? & ? & _). split; [done|done|].
  rewrite Es'. by rewrite Hp.
Qed.

Lemma side_at_rest seen acc a c : mirrors seen (sd_now a) (sd_host a) c -> sd_accepted a `prefix_of` acc ->
  state c = Quiescent -> client_side seen acc a c.
Proof. intros Hm Ha Hs. split; [done|done|]. by rewrite Hs. Qed.

(** ** Timers *)

Lemma process_timeout_goes seen acc a c now : client_side seen acc a c -> is_Some (rto_timer c) ->
  at_time seen now a c -> goes seen acc a (process_timeout (set_timer None c) now).
Proof.
  intros Hc Ht Hp. pose proof (cs_mirrors _ _ _ _ Hc) as Hm. pose proof (cs_state _ _ _ _ Hc) as Hs.
  unfold process_timeout. change (state (set_timer None c)) with (state c).
  destruct (state c) as [st|e|] eqn:Es.
  - destruct Hs as (_ & _ & _ & _ & Hf). case_bool.
    + apply goes_refl, side_at_rest; [|apply Hc|done]. by apply mirrors_set_state, mirrors_error, mirrors_set_timer.
    + intros c' (t & _ & Hr)%outcome_bind_Ok. exists a. split; [apply rtc_refl|].
      assert (Hc' : c' = send_bytes (frame st) (set_timer (Some t) c)) by (by destruct (phase st);
        injection Hr as <-).
      subst c'. apply (handshake_side _ _ _ c st _ st); try done. by apply mirrors_send, mirrors_set_timer.
  - destruct Hs as (He & Ha & Hsync). intros c' ([[e' c1] act] & Hi & Hr)%outcome_bind_Ok.
    assert (Hpl : playing seen now acc a e (set_timer None c)).
    { destruct Hp as [Hn Hm']. split; try done. split; [by apply mirrors_set_timer|]. by intros []. }
    destruct (plays _ _ _ _ _ _ CTimer e' c1 Hpl) as (a' & Hacts & Hpl'); [by apply Hsync|done|cbn [invoke];
      by rewrite Hi|].
    cbn [accepted] in Hpl'. rewrite app_nil_r in Hpl'. apply playing_side in Hpl'.
    exists a'. split; [by apply rtc_once|]. destruct act; injection Hr as <-; [done|].
    apply side_at_rest; [|apply Hpl'|done]. exact (mirrors_set_state _ _ _ _ Quiescent (cs_mirrors _ _ _ _ Hpl')).
  - intros c' [= <-]. exists a. split; [apply rtc_refl|]. apply side_at_rest;
      [by apply mirrors_set_timer|apply Hc|done].
Qed.

Lemma process_timeouts_goes seen acc a c : client_side seen acc a c -> goes seen acc a (process_timeouts c).
Proof.
  intros Hc. unfold process_timeouts. destruct (side_read _ _ _ _ Hc) as (t & c1 & -> & Hc1 & Hp & _).
  destruct (rto_timer c1) as [timeout|] eqn:Et; [|by apply goes_refl]. case_bool; [|by apply goes_refl].
  apply process_timeout_goes; [done|by exists timeout|done].
Qed.

(** ** The handshake *)

Lemma beta_frame_type b0 f : block_valid b0 -> simple_frame_write_boxed (A := HandshakeBetaFrame) b0 = Ok f ->
  handshake_frame f.
Proof.
  intros Hv Hw. rewrite boxed_sealed in Hw by done. injection Hw as <-.
  destruct (sealed_carries b0 Hv) as ([_ Ht _ _] & _). by exists HandshakeBeta.
Qed.

Lemma alpha_ack_goes seen acc a c p now : client_side seen acc a c -> Forall is_u8 p ->
  goes seen acc a (handle_handshake_alpha_ack c p now).
Proof.
  intros Hc Hp. unfold handle_handshake_alpha_ack. pose proof (cs_mirrors _ _ _ _ Hc) as Hm.
  pose proof (cs_state _ _ _ _ Hc) as Hs.
  destruct (state c) as [[[] tt tm ps f n]|e|] eqn:Es; try by apply goes_refl.
  destruct (simple_read_any (A := HandshakeAlphaAckFrame) p Hp) as (o & -> & Ho). cbn [mbind outcome_bind].
  destruct o as [ack|]; [|by apply goes_refl]. case_bool; [|by apply goes_refl].
  intros c' (t1 & _ & (t2 & _ & (fr & Hf & [= <-])%outcome_bind_Ok)%outcome_bind_Ok)%outcome_bind_Ok.
  apply beta_frame_type in Hf; [|destruct Ho as (_ & ? & ? & ? & ?); split; [exact unlimited_valid|done]].
  exists a. split; [apply rtc_refl|]. eapply handshake_side; [exact Hc|exact Es| |reflexivity|done|exact Hf].
  by apply mirrors_send, mirrors_set_state, mirrors_set_timer.
Qed.

(** The buffered packets are the first the endpoint is given. *)
Lemma enqueue_all_plays seen now a ps : forall acc e e' c, playing seen now acc a e c ->
  Endpoint.state_id e = Endpoint.Active -> Forall buffered_ok ps -> enqueue_all e ps now = Ok e' ->
  exists a', moves a a' /\ playing seen now (acc ++ ((fun pm => (pm.2, pm.1)) <$> ps)) a' e' c /\
    Endpoint.state_id e' = Endpoint.Active.
Proof.
  revert a. induction ps as [|[p m] ps IH]; intros a acc e e' c Hp Hs Hps; cbn [enqueue_all].
  - intros [= <-]. exists a. cbn. rewrite app_nil_r. split; [apply rtc_refl|done].
  - apply Forall_cons in Hps as [Hpm Hps]. intros (e1 & He1 & He')%outcome_bind_Ok.
    destruct (plays _ _ _ _ _ _ (CEnqueue p m) e1 c Hp) as (a1 & Hacts & Hp1); [exact Hpm|done|
      cbn [invoke]; by rewrite He1|].
    cbn [accepted] in Hp1. rewrite decide_True in Hp1 by done.
    assert (Hs1 : Endpoint.state_id e1 = Endpoint.Active).
    { unfold Endpoint.enqueue in He1. rewrite decide_True in He1 by done. by inv_ok. }
    destruct (IH a1 _ _ _ _ Hp1 Hs1 Hps He') as (a2 & Hm2 & Hp2 & Hs2). exists a2.
    split; [by eapply rtc_l|]. cbn [fmap list_fmap]. by rewrite <- app_assoc in Hp2.
Qed.

Lemma beta_ack_goes seen acc a c p now : client_side seen acc a c -> at_time seen now a c -> Forall is_u8 p ->
  goes seen acc a (handle_handshake_beta_ack c p now).
Proof.
  intros Hc [Hn Hm] Hp. unfold handle_handshake_beta_ack. pose proof (cs_state _ _ _ _ Hc) as Hs.
  destruct (state c) as [[[] tt tm ps f n]|e|] eqn:Es; try by apply goes_refl.
  destruct (simple_read_any (A := HandshakeBetaAckFrame) p Hp) as (o & -> & Ho). cbn [mbind outcome_bind].
  destruct o as [ack|]; [|by apply goes_refl]. case_bool; [|by apply goes_refl].
  destruct (hba_error ack) as [kind|].
  - apply goes_refl, side_at_rest; [|apply Hc|done].
    apply mirrors_set_state, mirrors_error. by apply (mirrors_earlier _ now); [lia|].
  - destruct Hs as (He0 & Ha0 & -> & Hps & _). change (config (set_timer None c)) with (config c).
    rewrite (mi_config _ _ _ _ Hm), Hecfg. cbn [mbind outcome_bind]. rewrite He0. cbn [mbind outcome_bind].
    destruct (valid_endpoint _ Hvalid) as (ecfg' & He' & Hok). rewrite Hecfg in He'. injection He' as <-.
    destruct (endpoint_new_ok ecfg Hok) as (e0 & He0' & _ & Hpre & _). rewrite He0 in He0'. injection He0' as <-.
    intros c4 ([e1 c1] & Hi & (e2 & Hq & ([e3 c3] & Hf & [= <-])%outcome_bind_Ok)%outcome_bind_Ok)%outcome_bind_Ok.
    set (c0 := set_state _ _) in Hi.
    assert (Hp0 : playing seen now [] a (sd_endpoint a) c0).
    { split; try done. split; [by apply mirrors_set_state, mirrors_set_timer|]. by intros []. }
    destruct (plays _ _ _ _ _ _ CInit e1 c1 Hp0) as (a1 & Hm1 & Hp1); [done|done|done|].
    assert (Hs1 : Endpoint.state_id e1 = Endpoint.Active).
    { unfold Endpoint.init in Hi. rewrite debug_assert_true in Hi by (by apply bool_decide_eq_true). by inv_ok. }
    destruct (enqueue_all_plays _ _ a1 ps _ _ _ _ Hp1 Hs1 Hps Hq) as (a2 & Hm2 & Hp2 & _).
    destruct (plays _ _ _ _ _ _ CFlush e3 c3 Hp2) as (a3 & Hm3 & Hp3); [done|done|done|].
    exists a3. split; [eapply rtc_l; [exact Hm1|eapply rtc_r; [exact Hm2|exact Hm3]]|].
    cbn [accepted app] in Hp3. rewrite app_nil_r in Hp3. by eapply playing_side.
Qed.

(** ** Incoming frames *)

(** What the network hands a client. *)
Definition client_arrival (sent : list Z -> Prop) (f : list Z) : Prop := arrival_ok f /\ network sent f.
#[local] Abbreviation from_peer := (client_arrival (sent_by b)).

Lemma handshake_ignored t e p now c : handshake_type t = true -> Endpoint.handle_frame e t p now c = Ok (e, c).
Proof. intros Ht. unfold Endpoint.handle_frame. by destruct (Endpoint.state_id e), t. Qed.

Lemma frame_other_goes seen acc a c t p now f : client_side seen acc a c -> at_time seen now a c -> payload_ok p ->
  read_type f = Ok (Some t) -> payload f = Ok p -> f ∈ frames (h_log (sd_host b)) \/ handshake_type t = true ->
  goes seen acc a (handle_frame_other c t p now).
Proof.
  intros Hc Hn Hp Ht Hpf Hf. unfold handle_frame_other. destruct (state c) as [st|e|] eqn:Es; try by apply goes_refl.
  destruct (handshake_type t) eqn:Eh.
  - rewrite handshake_ignored by done. cbn [mbind outcome_bind]. rewrite set_state_same by done. by apply goes_refl.
  - destruct Hf as [Hf|]; [|done]. rewrite <- (app_nil_r acc). change [] with (accepted e (CFrame t p)).
    change (Endpoint.handle_frame e t p now c) with (invoke e (CFrame t p) now c).
    apply (goes_call seen now acc a e c (CFrame t p)); [by apply active_playing|done|by exists f].
Qed.

Lemma handle_frame_goes seen acc a c f : client_side seen acc a c -> from_peer f ->
  goes seen acc a (handle_frame c f).
Proof.
  intros Hc [Hf Hfrom]. unfold handle_frame. destruct (verify_minimum_size f) eqn:Em; cbn [negb];
    [|by apply goes_refl].
  destruct (inspect_arrival f Hf Em) as (ok & t & p & Hcrc & Ht & Hp & Hpo).
  rewrite Ht, Hcrc, Hp. cbn [mbind outcome_bind]. destruct t as [t|]; [|by apply goes_refl].
  destruct ok; cbn [negb]; [|by apply goes_refl].
  destruct (side_read _ _ _ _ Hc) as (tm & c1 & -> & Hc1 & Hn & _).
  assert (Hother : goes seen acc a (handle_frame_other c1 t p tm)).
  { apply (frame_other_goes _ _ _ _ _ _ _ f); try done. destruct Hfrom as [Hin|[(t' & Ht' & Hh)|[Hm|Hm]]];
      [by left| |congruence..].
    right. rewrite Ht in Ht'. by injection Ht' as ->. }
  destruct Hpo as [Hu _]. destruct t; try exact Hother; [by apply alpha_ack_goes|by apply beta_ack_goes].
Qed.

Lemma handle_frames_goes fs : forall seen acc a c, client_side seen acc a c -> Forall from_peer fs ->
  goes seen acc a (handle_frames c fs).
Proof.
  induction fs as [|f fs IH]; intros seen acc a c Hc Hfs; cbn [handle_frames]; [by apply goes_refl|].
  apply Forall_cons in Hfs as [Hf Hfs]. apply goes_bind; [by apply handle_frame_goes|]. intros. by apply IH.
Qed.

(** ** The application's requests *)

(** What the client takes on when a packet is given to it. *)
Definition client_accepted (c : ClientCore) (p : list Z) (m : SendMode) : list (SendMode * list Z) :=
  match state c with
  | Handshake _ => [(m, p)]
  | Active e => accepted e (CEnqueue p m)
  | Quiescent => []
  end.

Lemma buffer_goes seen acc a c st p m : client_side seen acc a c -> state c = Handshake st -> buffered_ok (p, m) ->
  goes seen (acc ++ [(m, p)]) a (Ok (set_state (Handshake (mkHandshakeState (phase st) (timeout_time_ms st)
    (timeout_ms st) (packet_buffer st ++ [(p, m)]) (frame st) (local_nonce st))) c)).
Proof.
  intros [Hm Ha Hs] Es Hp. rewrite Es in Hs. destruct Hs as (He & Ha0 & -> & Hps & Hf). apply goes_refl. split.
  - by apply mirrors_set_state.
  - rewrite Ha0. apply prefix_nil.
  - cbn [state set_state]. split; [done|]. split; [done|]. cbn [packet_buffer frame]. rewrite fmap_app.
    split; [done|]. split; [|done]. apply Forall_app. split; [done|by apply Forall_singleton].
Qed.

Lemma send_goes seen acc a c p m : client_side seen acc a c -> buffered_ok (p, m) ->
  goes seen (acc ++ client_accepted c p m) a (send c p m).
Proof.
  intros Hc Hp. unfold send, client_accepted. destruct (state c) as [st|e|] eqn:Es.
  - by apply buffer_goes.
  - destruct (side_read _ _ _ _ Hc) as (t & c1 & -> & Hc1 & Hn & Es1 & _). rewrite Es in Es1.
    intros c2 (e1 & He1 & ([e2 c3] & Hf & [= <-])%outcome_bind_Ok)%outcome_bind_Ok.
    destruct (plays _ _ _ _ _ _ (CEnqueue p m) e1 c1 (active_playing _ _ _ _ _ _ Hc1 Hn Es1)) as (a1 & Hm1 & Hp1);
      [exact Hp|done|cbn [invoke]; by rewrite He1|].
    destruct (plays _ _ _ _ _ _ CFlush e2 c3 Hp1) as (a2 & Hm2 & Hp2); [done|done|done|].
    cbn [accepted] in Hp2. rewrite app_nil_r in Hp2. exists a2.
    split; [eapply rtc_l; [exact Hm1|by apply rtc_once]|by eapply playing_side].
  - rewrite app_nil_r. by apply goes_refl.
Qed.

Lemma enqueue_goes seen acc a c p m : client_side seen acc a c -> buffered_ok (p, m) ->
  goes seen (acc ++ client_accepted c p m) a (enqueue c p m).
Proof.
  intros Hc Hp. unfold enqueue, client_accepted. destruct (state c) as [st|e|] eqn:Es.
  - by apply buffer_goes.
  - destruct (side_read _ _ _ _ Hc) as (t & c1 & -> & Hc1 & Hn & Es1 & _). rewrite Es in Es1.
    intros c2 (e1 & He1 & [= <-])%outcome_bind_Ok.
    destruct (plays _ _ _ _ _ _ (CEnqueue p m) e1 c1 (active_playing _ _ _ _ _ _ Hc1 Hn Es1)) as (a1 & Hm1 & Hp1);
      [exact Hp|done|cbn [invoke]; by rewrite He1|].
    exists a1. split; [by apply rtc_once|by eapply playing_side].
  - rewrite app_nil_r. by apply goes_refl.
Qed.

(** Flushing and disconnecting: one call of an endpoint in use. *)
Lemma request_goes seen acc a c k : client_side seen acc a c -> (forall e, accepted e k = []) ->
  (forall m e, call_ok m e k) -> arrives b k ->
  goes seen acc a
    (match state c with
     | Active e => let '(now_ms, c) := read_time c in '(e, c) ← invoke e k now_ms c; Ok (set_state (Active e) c)
     | _ => Ok c
     end).
Proof.
  intros Hc Hk Hok Ha. destruct (state c) as [st|e|] eqn:Es; try by apply goes_refl.
  destruct (side_read _ _ _ _ Hc) as (t & c1 & -> & Hc1 & Hn & Es1 & _). rewrite Es in Es1.
  rewrite <- (app_nil_r acc), <- (Hk e). apply (goes_call seen t acc a e c1 k); [by apply active_playing|done|done].
Qed.

Lemma flush_goes seen acc a c : client_side seen acc a c -> goes seen acc a (flush c).
Proof. intros Hc. by apply (request_goes seen acc a c CFlush). Qed.

Lemma disconnect_goes seen acc a c : client_side seen acc a c -> goes seen acc a (disconnect c).
Proof. intros Hc. by apply (request_goes seen acc a c CDisconnect). Qed.

(** ** Taking events *)

(** The result of a request: events handed out, and the client after it. *)
Definition hands (seen : list Event) (acc : list (SendMode * list Z)) (a : side)
  (r : outcome (list Event * ClientCore)) : Prop :=
  forall evs c', r = Ok (evs, c') -> exists a', moves a a' /\ client_side (seen ++ evs) acc a' c'.

Lemma goes_hands seen acc a r : goes seen acc a r -> hands seen acc a (c ← r; Ok ([], c)).
Proof. intros Hr evs c' (c1 & -> & [= <- <-])%outcome_bind_Ok. rewrite app_nil_r. by apply Hr. Qed.

Lemma hands_nothing seen acc a c : client_side seen acc a c -> hands seen acc a (Ok ([], c)).
Proof. intros Hc evs c' [= <- <-]. rewrite app_nil_r. exists a. split; [apply rtc_refl|done]. Qed.

Lemma hands_bind seen acc a r k : goes seen acc a r ->
  (forall a' c, client_side seen acc a' c -> hands seen acc a' (k c)) -> hands seen acc a (r ≫= k).
Proof.
  intros Hr Hk evs c' (c1 & -> & Hc')%outcome_bind_Ok. destruct (Hr c1 eq_refl) as (a1 & Hm1 & Hc1).
  destruct (Hk a1 c1 Hc1 evs c' Hc') as (a2 & Hm2 & Hc2). exists a2. split; [|done]. unfold moves in *. by etrans.
Qed.

Lemma popped_side seen acc a c : client_side seen acc a c ->
  client_side (seen ++ option_list (pop_event c).1) acc a (pop_event c).2.
Proof.
  intros [[] Ha Hs]. unfold pop_event. destruct (events c) as [|ev evs] eqn:Ee; cbn.
  - rewrite app_nil_r. split; try done. split; try done. by rewrite Ee.
  - split; try done. split; try done. cbn [events set_events]. by rewrite <- app_assoc.
Qed.

Lemma hands_popped seen acc a c : client_side seen acc a c ->
  hands seen acc a (Ok (option_list (pop_event c).1, (pop_event c).2)).
Proof. intros Hc evs c' [= <- <-]. exists a. split; [apply rtc_refl|by apply popped_side]. Qed.

Lemma frames_timeouts_goes seen acc a c fs : client_side seen acc a c -> Forall from_peer fs ->
  goes seen acc a (c ← handle_frames c fs; process_timeouts c).
Proof. intros Hc Hfs. apply goes_bind; [by apply handle_frames_goes|]. intros. by apply process_timeouts_goes. Qed.

Lemma next_timer_side seen acc a c t c1 : client_side seen acc a c -> next_timer_timeout c = (t, c1) ->
  client_side seen acc a c1.
Proof.
  intros Hc. unfold next_timer_timeout. destruct (side_read _ _ _ _ Hc) as (t1 & c2 & -> & Hc2 & _).
  destruct (rto_timer c2); by intros [= _ <-].
Qed.

Lemma instant_side seen acc a c t c1 : client_side seen acc a c -> instant_now c = (t, c1) ->
  client_side seen acc a c1.
Proof.
  intros [[] Ha Hs]. unfold instant_now, elapsed. intros [= _ <-].
  destruct (elapsed_ok _ mi_world0) as [Hw Hn]. split; [|done|done].
  split; try done. unfold elapsed in Hn. cbn [snd] in Hn. cbn [world set_world]. lia.
Qed.

Lemma wait_event_hands ws : forall seen acc a c, client_side seen acc a c -> Forall (Forall from_peer) ws ->
  hands seen acc a (answer <$> wait_event c ws).
Proof.
  induction ws as [|fs ws IH]; intros seen acc a c Hc Hws; cbn [wait_event];
    destruct (next_timer_timeout c) as [t c1] eqn:Et; pose proof (next_timer_side _ _ _ _ _ _ Hc Et) as Hc1.
  - by apply hands_nothing.
  - apply Forall_cons in Hws as [Hfs Hws]. rewrite client_handle_frames_wait_same.
    rewrite <- outcome_bind_assoc, outcome_fmap_bind. apply hands_bind; [by apply frames_timeouts_goes|].
    intros a2 c2 Hc2. pose proof (hands_popped _ _ _ _ Hc2) as Hp. unfold pop_event in *.
    destruct (events c2); [by apply IH|exact Hp].
Qed.

Lemma wait_timeout_hands ws : forall seen acc a c rem t0, client_side seen acc a c ->
  Forall (Forall from_peer) ws -> hands seen acc a (answer <$> wait_event_timeout_loop c rem t0 ws).
Proof.
  induction ws as [|fs ws IH]; intros seen acc a c rem t0 Hc Hws; cbn [wait_event_timeout_loop];
    destruct (next_timer_timeout c) as [t c1] eqn:Et; pose proof (next_timer_side _ _ _ _ _ _ Hc Et) as Hc1.
  - by apply hands_nothing.
  - apply Forall_cons in Hws as [Hfs Hws]. rewrite client_handle_frames_wait_same.
    rewrite <- outcome_bind_assoc, outcome_fmap_bind. apply hands_bind; [by apply frames_timeouts_goes|].
    intros a2 c2 Hc2. pose proof (hands_popped _ _ _ _ Hc2) as Hp. unfold pop_event in *.
    destruct (events c2); [|exact Hp]. destruct (instant_now c2) as [t1 c3] eqn:Ei.
    pose proof (instant_side _ _ _ _ _ _ Hc2 Ei) as Hc3. case_bool; [by apply hands_nothing|by apply IH].
Qed.

(** ** Every request *)

Definition request_arrivals (sent : list Z -> Prop) (r : request) : Prop :=
  match r with
  | RPoll rx => Forall (client_arrival sent) rx
  | RWait ws | RWaitTimeout _ ws => Forall (Forall (client_arrival sent)) ws
  | RSend p m | REnqueue p m => buffered_ok (p, m)
  | _ => True
  end.

Definition request_accepted (c : ClientCore) (r : request) : list (SendMode * list Z) :=
  match r with RSend p m | REnqueue p m => client_accepted c p m | _ => [] end.

Lemma serve_hands seen acc a c r : client_side seen acc a c -> request_arrivals (sent_by b) r ->
  hands seen (acc ++ request_accepted c r) a (serve c r).
Proof.
  intros Hc Hr. destruct r as [rx|ws|t ws|p m|p m| |]; cbn [serve request_arrivals request_accepted] in *;
    rewrite ?app_nil_r.
  - unfold poll_event. rewrite outcome_bind_assoc. apply hands_bind.
    + destruct (events c); [by apply frames_timeouts_goes|by apply goes_refl].
    + intros a1 c1 Hc1. cbn [mbind outcome_bind]. pose proof (hands_popped _ _ _ _ Hc1) as Hp.
      by destruct (pop_event c1).
  - by apply wait_event_hands.
  - unfold wait_event_timeout. destruct (events c) as [|ev evs] eqn:Ee.
    + destruct (instant_now c) as [t0 c1] eqn:Ei. pose proof (instant_side _ _ _ _ _ _ Hc Ei).
      by apply wait_timeout_hands.
    + pose proof (hands_popped _ _ _ _ Hc) as Hp. by destruct (pop_event c).
  - by apply goes_hands, send_goes.
  - by apply goes_hands, enqueue_goes.
  - by apply goes_hands, flush_goes.
  - by apply goes_hands, disconnect_goes.
Qed.
End Simulation.

(** ** The first state, and the bounds *)

Section Side.
Context `{BuildProfile}.

Lemma connect_side cfg ecfg w c e : valid_config cfg -> world_ok w -> connect_with_config cfg w = Ok c ->
  Endpoint.new ecfg = Ok e -> exists coins, client_side cfg ecfg [] [] (mkSide 0 e (mkHost [] coins 0) []) c.
Proof.
  intros Hcfg Hw. unfold connect_with_config. rewrite (vc_valid _ Hcfg). cbn [mbind outcome_bind].
  destruct (random_u32_ok w Hw) as (Hn & Hw' & Hnow). destruct (random_u32 w) as [nonce w']. cbn [fst snd] in *.
  assert (Hv : block_valid (mkHandshakeAlphaFrame PROTOCOL_ID nonce)) by (split; [done|exact Hn]).
  change FRAME_SIZE_MAX with HANDSHAKE_ALPHA_FRAME_SIZE_MAX. rewrite (write_padded _ Hv). cbn [mbind outcome_bind].
  assert (Ht : handshake_frame (padded (mkHandshakeAlphaFrame PROTOCOL_ID nonce))).
  { destruct (padded_checks _ Hv) as ([r [_ Ht _ _]] & _). by exists HandshakeAlpha. }
  generalize dependent (padded (mkHandshakeAlphaFrame PROTOCOL_ID nonce)). intros f Hf [= <-] He.
  exists (fun i => bits w' (bits_drawn w' + i)). split; try done. split; try done.
  - by apply (now_range w').
  - intros f' [-> |Hin]%elem_of_cons; [by left|by apply not_elem_of_nil in Hin].
  - cbn. lia.
Qed.

Lemma arrivals_mono (sent sent' : list Z -> Prop) r : (forall f, sent f -> handshake_frame f \/ sent' f) ->
  request_arrivals sent r -> request_arrivals sent' r.
Proof.
  intros Hs. assert (Hf : forall fs, Forall (client_arrival sent) fs -> Forall (client_arrival sent') fs).
  { intros fs Hfs. eapply Forall_impl; [exact Hfs|]. intros f [Hok Hn]. split; [done|by eapply network_mono]. }
  destruct r; cbn; try done; [apply Hf|..]; intros Hws; (eapply Forall_impl; [exact Hws|exact Hf]).
Qed.

#[global] Instance request_arrivals_dec sent r : (forall f, Decision (sent f)) -> Decision (request_arrivals sent r).
Proof. intros Hd. destruct r; cbn [request_arrivals]; unfold client_arrival; apply _. Defined.
End Side.
