(* ===== verification/ServerSide.v ===== *)
(** * A peer of a server is the other side of a connection

    The endpoint behind one reference of a server makes the calls of a [side], as long as it
    is the only one the server has ever admitted from its address: the frames that go to
    that address are then its own, apart from handshakes, and so are those that come from
    there. *)

From S2P Require Import Prelude Word Fragment Frame Serial SerialFacts FrameFacts Prio TimerQueue ReliableFacts.
From S2P Require Import Endpoint FragmentTxFacts EndpointFacts EndpointSafety EndpointMachine EndpointSession Handshake.
From S2P Require Import World HandshakeMac Peer Server ServerFacts ServerTimers ServerHandshake ServerSession.
From S2P Require Import HostIndependence StreamReceive StreamCalls Duplex Sides.
From stdpp Require Import gmap.

#[local] Open Scope Z_scope.

Import ServerEvent Server.

(** The packets among the events of one peer. *)
Definition received_from (r : PeerRef) (evs : list Event) : list (list Z) :=
  omap (fun ev => match ev with Receive h p => if (h =? r)%nat then Some p else None | _ => None end) evs.

Lemma received_from_app r l k : received_from r (l ++ k) = received_from r l ++ received_from r k.
Proof. apply omap_app. Qed.

Section Simulation.
Context `{BuildProfile} `{ServerConfig} {Sip : Type} `{SipHasher Sip} (ecfg : Endpoint.Config).
Context (Hvalid : valid_config server_config) (Hecfg : endpoint_config server_config = Ok ecfg).

(** The reference, its address, and the side of its peer. *)
Context (a : SocketAddr) (r : PeerRef) (x : side).

(** ** What the peers share, and the recording host *)

(** As far as [a] and [r] are concerned, nothing has been sent but handshakes and what the
    host has sent, and what the host has delivered has been delivered. *)
Record follows (seen : list Event) (n : Z) (h : Host) (sh : Peer.Shared) : Prop := {
  fo_world : world_ok (Peer.world sh);
  fo_now : n <= World.now (Peer.world sh);
  fo_sent f : (a, f) ∈ Peer.socket_tx sh -> handshake_frame f \/ f ∈ frames (h_log h);
  fo_packets : received_from r (seen ++ Peer.events sh) = packets (h_log h);
  fo_draws : (h_draws h <= bits_drawn (Peer.world sh))%nat;
}.

(** The bits the server will draw next. *)
Definition aligned (h : Host) (sh : Peer.Shared) : Prop :=
  forall i, h_coins h (h_draws h + i) = bits (Peer.world sh) (bits_drawn (Peer.world sh) + i).

Lemma follows_send_other seen n h sh f a' : a' <> a -> follows seen n h sh -> follows seen n h (Peer.send_to f a' sh).
Proof.
  intros Ha []. split; try done. cbn. intros g [Hg|[= ->]%list_elem_of_singleton]%elem_of_app; [auto|done].
Qed.

Lemma follows_send_handshake seen n h sh f a' : handshake_frame f -> follows seen n h sh ->
  follows seen n h (Peer.send_to f a' sh).
Proof.
  intros Hf []. split; try done. cbn. intros g [Hg|[= _ ->]%list_elem_of_singleton]%elem_of_app; auto.
Qed.

Lemma follows_event_other seen n h sh ev : received_from r [ev] = [] -> follows seen n h sh ->
  follows seen n h (Peer.push_event ev sh).
Proof. intros He []. split; try done. cbn. by rewrite app_assoc, received_from_app, He, app_nil_r. Qed.

Lemma follows_bit seen n h sh : follows seen n h sh ->
  follows seen n h (Peer.set_world (random_bool (Peer.world sh)).2 sh).
Proof. intros []. destruct (random_bool_ok _ fo_world0) as [Hw Hn]. split; try done. cbn. lia. Qed.

(** The context of [r] and its recording host. *)
Record serves (st : gmap nat Peer.Peer) (seen : list Event) (n : Z) (h : Host) (c : Peer.EndpointContext) : Prop := {
  sv_ref : Peer.peer_ref c = r;
  sv_addr : Peer.addr (Peer.peer c) = a;
  sv_store : Peer.store (Peer.shared c) = st;
  sv_follows : follows seen n h (Peer.shared c);
  sv_aligned : aligned h (Peer.shared c);
  sv_timer : is_Some (Peer.rto_timer (Peer.peer c)) -> armed h = true;
}.

Lemma serves_event st seen n h c ev e : serves st seen n h c -> frames [ev] = [] ->
  packets [ev] = received_from r [e] -> (forall b, arm_event b ev = b) ->
  serves st seen n (record ev h) (Peer.on_shared (Peer.push_event e) c).
Proof.
  intros [? ? ? [] ? Ht] Hf Hp Ha. split; try done.
  - split; cbn; rewrite ?frames_app, ?packets_app, ?Hf, ?Hp, ?app_nil_r; auto.
    by rewrite app_assoc, received_from_app, fo_packets0.
  - intros Hs. rewrite armed_record, Ha. by apply Ht.
Qed.

#[export] Instance peer_serves st seen n : HostRelation (serves st seen n).
Proof.
  assert (Hnone : forall h c ev, serves st seen n h c -> frames [ev] = [] -> packets [ev] = [] ->
    follows seen n (record ev h) (Peer.shared c)).
  { intros h c ev [? ? ? [] ? ?] Hf Hp. split; cbn; rewrite ?frames_app, ?packets_app, ?Hf, ?Hp, ?app_nil_r; auto. }
  assert (Hself : (r =? r)%nat = true) by apply Nat.eqb_refl.
  split.
  - intros f h c [? ? ? [] ? Ht]. split; try done.
    + split; cbn; rewrite ?frames_app, ?packets_app, ?app_nil_r; auto.
      intros g [Hg|[= _ ->]%list_elem_of_singleton]%elem_of_app; [|right; apply elem_of_app; right; by left].
      destruct (fo_sent0 g Hg); [by left|]. right. apply elem_of_app. by left.
    + intros Hs. exact (eq_trans (armed_record (EvSend f) h) (Ht Hs)).
  - intros t h c Hc. pose proof (Hnone h c (EvSetTimer t) Hc eq_refl eq_refl). destruct Hc. split; try done.
    intros _. exact (armed_record _ h).
  - intros h c Hc. pose proof (Hnone h c EvUnsetTimer Hc eq_refl eq_refl). destruct Hc. split; try done. by intros [].
  - intros h c Hc. by apply serves_event.
  - intros h c Hc. by apply serves_event.
  - intros p h c Hc. pose proof (sv_ref _ _ _ _ _ Hc) as Hr. apply serves_event; try done. cbn. by rewrite Hr, Hself.
  - intros h c Hc. by apply serves_event.
  - intros h c [? ? ? [] Hal Ht]. split; [pose proof (Hal 0%nat) as Hb; by rewrite !Nat.add_0_r in Hb|].
    destruct (random_bool_ok _ fo_world0) as [Hw Hn]. split; try done.
    + split; cbn; rewrite ?frames_app, ?packets_app, ?app_nil_r; auto. lia.
    + intros i. specialize (Hal (S i)). cbn. by rewrite !Nat.add_succ_r in Hal.
    + intros Hs. exact (eq_trans (armed_record EvRandom h) (Ht Hs)).
Qed.

(** The context of another peer. *)
Record bystands (st : gmap nat Peer.Peer) (seen : list Event) (n : Z) (h : Host) (c : Peer.EndpointContext)
  : Prop := {
  by_ref : Peer.peer_ref c <> r;
  by_addr : Peer.addr (Peer.peer c) <> a;
  by_store : Peer.store (Peer.shared c) = st;
  by_follows : follows seen n h (Peer.shared c);
}.

#[export] Instance peer_bystands st seen n h : HostProperty (bystands st seen n h).
Proof.
  split; try (by intros ? []; split; try done; apply follows_event_other).
  - intros f c []. split; try done. by apply follows_send_other.
  - intros t c []. by split.
  - intros p c []. split; try done. apply follows_event_other; [|done]. cbn.
    by rewrite (proj2 (Nat.eqb_neq _ _) by_ref0).
  - intros c []. split; try done. by apply follows_bit.
Qed.

(** What every context keeps. *)
Record keeps (q : PeerRef) (a' : SocketAddr) (st : gmap nat Peer.Peer) (c : Peer.EndpointContext) : Prop := {
  kp_ref : Peer.peer_ref c = q;
  kp_addr : Peer.addr (Peer.peer c) = a';
  kp_store : Peer.store (Peer.shared c) = st;
}.

#[export] Instance peer_keeps q a' st : HostProperty (keeps q a' st).
Proof. by split; intros; match goal with Hk : keeps _ _ _ _ |- _ => destruct Hk end; split. Qed.

(** ** The side *)

(** Before the admission the side is new; then it is in the position of the peer. *)
Record server_side (seen : list Event) (n : Z) (acc : list (SendMode * list Z)) (fired : list PeerRef) (y : side)
  (s : ServerCore) : Prop := {
  ve_now : sd_now y <= n <= TIME_MAX;
  ve_follows : follows seen n (sd_host y) (shared s);
  ve_accepted : sd_accepted y = acc;
  ve_peer :
    match Peer.store (shared s) !! r with
    | None => Endpoint.new ecfg = Ok (sd_endpoint y) /\ acc = []
    | Some p => sd_endpoint y = Peer.endpoint p /\
        (is_Some (Peer.rto_timer (Peer.core p)) \/ r ∈ fired -> armed (sd_host y) = true)
    end;
}.

(** [r] is the only peer ever admitted from [a]. *)
Definition alone (s : ServerCore) : Prop :=
  forall (q : PeerRef) p, Peer.store (shared s) !! q = Some p -> Peer.addr (Peer.core p) = a <-> q = r.

Definition grows (s s' : ServerCore) : Prop :=
  forall (q : PeerRef) p, Peer.store (shared s) !! q = Some p ->
    exists p', Peer.store (shared s') !! q = Some p' /\ Peer.addr (Peer.core p') = Peer.addr (Peer.core p).

Lemma store_grows_refl s s' : Peer.store (shared s') = Peer.store (shared s) -> grows s s'.
Proof. intros Hs q p Hp. rewrite Hs. by exists p. Qed.

Lemma store_grows_trans s1 s2 s3 : grows s1 s2 -> grows s2 s3 -> grows s1 s3.
Proof.
  intros H12 H23 q p Hp. destruct (H12 q p Hp) as (p2 & Hp2 & Ha2). destruct (H23 q p2 Hp2) as (p3 & Hp3 & Ha3).
  exists p3. split; [done|congruence].
Qed.

Lemma alone_before s s' : grows s s' -> alone s' -> alone s.
Proof. intros Hg Ha q p Hp. destruct (Hg q p Hp) as (p' & Hp' & <-). by apply Ha. Qed.

(** An operation at the time [t]: what the side does meanwhile. *)
Definition goes_at (t : Z) (seen : list Event) (acc acc' : list (SendMode * list Z)) (fired fired' : list PeerRef)
  (s s' : ServerCore) : Prop :=
  grows s s' /\ (alone s' -> forall y, server_side seen t acc fired y s ->
    exists y', moves x y y' /\ server_side seen t acc' fired' y' s').

(** What the application has given the connection when it gives [q] a packet. *)
Definition own (q : PeerRef) (e : Endpoint.Endpoint) (k : call) : list (SendMode * list Z) :=
  if (q =? r)%nat then accepted e k else [].

(** The lock of [r] is held, and its endpoint is in use at the time [t]. *)
Record locked (seen : list Event) (t : Z) (acc : list (SendMode * list Z)) (st : gmap nat Peer.Peer) (y : side)
  (e : Endpoint.Endpoint) (c : Peer.EndpointContext) : Prop := {
  lo_endpoint : sd_endpoint y = e;
  lo_accepted : sd_accepted y = acc;
  lo_now : sd_now y <= t <= TIME_MAX;
  lo_serves : serves st seen t (sd_host y) c;
}.

(** The host's next bits are those of the server. *)
Definition next_bits (y : side) (s : ServerCore) (i : nat) : bool :=
  bits (Peer.world (shared s)) (bits_drawn (Peer.world (shared s)) + (i - h_draws (sd_host y))).

Lemma lock_side seen t acc fired y s p : server_side seen t acc fired y s -> alone s ->
  Peer.store (shared s) !! r = Some p ->
  exists y', acts y x y' /\ armed (sd_host y') = armed (sd_host y) /\
    locked seen t acc (Peer.store (shared s)) y' (Peer.endpoint p) (context s r p).
Proof.
  intros [Hn Hfo Hac Hpeer] Hal Hp. rewrite Hp in Hpeer. destruct Hpeer as [Hye Hyt].
  eexists. split; [exact (acts_reseed y x (next_bits y s))|]. split; [done|]. split; try done. split; try done.
  - by apply (Hal r p Hp).
  - by destruct Hfo.
  - intros i. cbn. unfold next_bits. do 2 f_equal. lia.
  - intros Hs. apply Hyt. by left.
Qed.

Lemma locked_plays seen t acc st y e c k e' c' : locked seen t acc st y e c -> call_ok (armed (sd_host y)) e k ->
  arrives x k -> invoke e k t c = Ok (e', c') ->
  exists y', acts y x y' /\ locked seen t (acc ++ accepted e k) st y' e' c'.
Proof.
  intros [He Ha Hn Hs] Hk Harr Hi. pose proof (invoke_same (serves st seen t) e k t (sd_host y) c Hs) as Hsame.
  rewrite Hi in Hsame. destruct (invoke e k t (sd_host y)) as [[e1 h1]|] eqn:Hi1; [|done].
  destruct Hsame as [He1 Hs1]. cbn in He1, Hs1. subst e1.
  exists (mkSide t e' h1 (sd_accepted y ++ accepted (sd_endpoint y) k)). split.
  - apply acts_call; [done|by rewrite He|done|by rewrite He].
  - split; cbn; [done|by rewrite Ha, He|lia|done].
Qed.

Lemma unlock_side seen t acc st y e c s : locked seen t acc st y e c ->
  server_side seen t acc [] y (set_shared (Peer.release r e c) s).
Proof.
  intros [He Ha Hn []]. split; cbn; [done|by destruct sv_follows0|done|]. rewrite lookup_insert_eq.
  split; [done|]. cbn. by intros [Hs|?%elem_of_nil]; [apply sv_timer0|].
Qed.

(** A call, which may be followed by [flush]. *)
Definition invoke_flush (fl : bool) (e : Endpoint.Endpoint) (k : call) (t : Z) (c : Peer.EndpointContext) :
  outcome (Endpoint.Endpoint * Peer.EndpointContext) :=
  '(e, c) ← invoke e k t c; if fl then invoke e CFlush t c else Ok (e, c).

Lemma invoke_flush_keeps P `{!HostProperty P} fl e k t c e' c' : P c -> invoke_flush fl e k t c = Ok (e', c') -> P c'.
Proof.
  intros Hc ([e1 c1] & Hi1 & Hi2)%outcome_bind_Ok. pose proof (invoke_keeps P _ _ _ _ _ _ Hc Hi1) as Hc1.
  destruct fl; [by eapply invoke_keeps|by injection Hi2 as _ <-].
Qed.

Lemma locked_plays_flush fl seen t acc st y e c k e' c' : locked seen t acc st y e c ->
  call_ok (armed (sd_host y)) e k -> arrives x k -> invoke_flush fl e k t c = Ok (e', c') ->
  exists y', moves x y y' /\ locked seen t (acc ++ accepted e k) st y' e' c'.
Proof.
  intros Hl Hk Ha ([e1 c1] & Hi1 & Hi2)%outcome_bind_Ok.
  destruct (locked_plays _ _ _ _ _ _ _ _ _ _ Hl Hk Ha Hi1) as (y1 & Hm1 & Hl1). destruct fl.
  - destruct (locked_plays _ _ _ _ _ _ _ CFlush _ _ Hl1 I I Hi2) as (y2 & Hm2 & Hl2). exists y2.
    split; [eapply rtc_l; [exact Hm1|by apply rtc_once]|]. by rewrite app_nil_r in Hl2.
  - injection Hi2 as <- <-. exists y1. split; [by apply rtc_once|done].
Qed.

Lemma side_fired seen t acc fired y s : server_side seen t acc [] y s -> r ∉ fired ->
  server_side seen t acc fired y s.
Proof.
  intros [? ? ? Hp] Hr. split; try done. destruct (Peer.store (shared s) !! r); [|done]. destruct Hp as [? Ht].
  split; [done|]. intros [Hs|Hs]; [by apply Ht; left|done].
Qed.

(** The work of one peer under its lock. *)
Lemma call_goes fl t seen acc fired fired' s (q : PeerRef) p k e c : Peer.store (shared s) !! q = Some p ->
  (q = r -> alone s -> arrives x k /\ forall y, server_side seen t acc fired y s ->
    call_ok (armed (sd_host y)) (Peer.endpoint p) k) ->
  (r ∈ fired' -> r ∈ fired /\ q <> r) ->
  invoke_flush fl (Peer.endpoint p) k t (context s q p) = Ok (e, c) ->
  goes_at t seen acc (acc ++ own q (Peer.endpoint p) k) fired fired' s (set_shared (Peer.release q e c) s).
Proof.
  intros Hp Hk Hf Hi.
  destruct (invoke_flush_keeps (keeps q (Peer.addr (Peer.core p)) (Peer.store (shared s))) _ _ _ _ _ _ _
    (Build_keeps _ _ _ (context s q p) eq_refl eq_refl eq_refl) Hi) as [_ Hca Hcs].
  assert (Hg : grows s (set_shared (Peer.release q e c) s)).
  { intros q' p' Hp'. cbn [shared set_shared Peer.release]. cbn. rewrite Hcs. destruct (decide (q' = q)) as [->|Hne].
    - rewrite lookup_insert_eq. eexists. split; [done|]. cbn. rewrite Hp in Hp'. by injection Hp' as <-.
    - rewrite lookup_insert_ne by done. by exists p'. }
  split; [done|]. intros Hal%(alone_before _ _ Hg) y Hy. unfold own. destruct (decide (q = r)) as [->|Hne].
  - rewrite Nat.eqb_refl. destruct (Hk eq_refl Hal) as [Harr Hok].
    destruct (lock_side _ _ _ _ _ _ _ Hy Hal Hp) as (y1 & Hm1 & Ha1 & Hl1).
    assert (Hok1 : call_ok (armed (sd_host y1)) (Peer.endpoint p) k) by (rewrite Ha1; by apply Hok).
    destruct (locked_plays_flush _ _ _ _ _ _ _ _ _ _ _ Hl1 Hok1 Harr Hi) as (y2 & Hm2 & Hl2).
    exists y2. split; [by eapply rtc_l|]. apply side_fired; [by eapply unlock_side|]. by intros [_ ?]%Hf.
  - destruct Hy as [Hn Hfo Hac Hpeer]. rewrite (proj2 (Nat.eqb_neq q r)), app_nil_r by done.
    destruct (invoke_flush_keeps (bystands (Peer.store (shared s)) seen t (sd_host y)) _ _ _ _ _ _ _
      (Build_bystands _ _ _ _ (context s q p) Hne (fun Ha => Hne (proj1 (Hal q p Hp) Ha)) eq_refl Hfo) Hi)
        as [_ _ _ Hfo1].
    exists y. split; [apply rtc_refl|]. split; cbn; [done|by destruct Hfo1|done|].
    rewrite Hcs, lookup_insert_ne by done. destruct (Peer.store (shared s) !! r); [|done].
    destruct Hpeer as [Hye Hyt]. split; [done|]. intros [Hs|Hs]; apply Hyt; [by left|right]. by destruct (Hf Hs).
Qed.

(** ** Operations *)

Definition steps (seen : list Event) (acc acc' : list (SendMode * list Z)) (fired fired' : list PeerRef)
  (s s' : ServerCore) : Prop :=
  grows s s' /\ (alone s' -> forall y n, server_side seen n acc fired y s ->
    exists y' n', moves x y y' /\ server_side seen n' acc' fired' y' s').

Definition goes (seen : list Event) (acc acc' : list (SendMode * list Z)) (fired fired' : list PeerRef)
  (s : ServerCore) (res : outcome ServerCore) : Prop :=
  forall s', res = Ok s' -> steps seen acc acc' fired fired' s s'.

Lemma steps_trans seen acc1 acc2 acc3 f1 f2 f3 s1 s2 s3 : steps seen acc1 acc2 f1 f2 s1 s2 ->
  steps seen acc2 acc3 f2 f3 s2 s3 -> steps seen acc1 acc3 f1 f3 s1 s3.
Proof.
  intros [H12 Hs12] [H23 Hs23]. split; [by eapply store_grows_trans|]. intros Ha y n Hy.
  destruct (Hs12 (alone_before _ _ H23 Ha) y n Hy) as (y2 & n2 & Hm2 & Hy2).
  destruct (Hs23 Ha y2 n2 Hy2) as (y3 & n3 & Hm3 & Hy3). exists y3, n3. split; [|done]. unfold moves in *. by etrans.
Qed.

Lemma goes_at_trans t seen acc1 acc2 acc3 f1 f2 f3 s1 s2 s3 : goes_at t seen acc1 acc2 f1 f2 s1 s2 ->
  goes_at t seen acc2 acc3 f2 f3 s2 s3 -> goes_at t seen acc1 acc3 f1 f3 s1 s3.
Proof.
  intros [H12 Hs12] [H23 Hs23]. split; [by eapply store_grows_trans|]. intros Ha y Hy.
  destruct (Hs12 (alone_before _ _ H23 Ha) y Hy) as (y2 & Hm2 & Hy2).
  destruct (Hs23 Ha y2 Hy2) as (y3 & Hm3 & Hy3). exists y3. split; [|done]. unfold moves in *. by etrans.
Qed.

(** Operations that the side does not take part in. *)
Lemma steps_still seen acc fired s s' : Peer.store (shared s') = Peer.store (shared s) ->
  (forall n h, follows seen n h (shared s) -> follows seen n h (shared s')) -> steps seen acc acc fired fired s s'.
Proof.
  intros Hs Hf. split; [by apply store_grows_refl|]. intros _ y n []. exists y, n. split; [apply rtc_refl|].
  split; [done|by apply Hf|done|]. by rewrite Hs.
Qed.

Lemma server_goes_refl seen acc s : goes seen acc acc [] [] s (Ok s).
Proof. intros s' [= <-]. by apply steps_still. Qed.

Lemma server_goes_bind seen acc1 acc2 acc3 f1 f2 f3 s res k : goes seen acc1 acc2 f1 f2 s res ->
  (forall s1, res = Ok s1 -> goes seen acc2 acc3 f2 f3 s1 (k s1)) -> goes seen acc1 acc3 f1 f3 s (res ≫= k).
Proof.
  intros Hr Hk s' (s1 & Hs1 & Hs')%outcome_bind_Ok. eapply steps_trans; [by apply Hr|by apply (Hk s1)].
Qed.

Lemma goes_after seen acc1 acc2 acc3 f1 f2 f3 s s1 res : steps seen acc1 acc2 f1 f2 s s1 ->
  goes seen acc2 acc3 f2 f3 s1 res -> goes seen acc1 acc3 f1 f3 s res.
Proof. intros Hs Hg s' Hr. eapply steps_trans; [exact Hs|by apply Hg]. Qed.

(** Reading the clock. *)
Lemma follows_read seen n h sh t sh' : follows seen n h sh -> Peer.read_time sh = (t, sh') ->
  n <= t <= TIME_MAX /\ follows seen t h sh'.
Proof.
  intros []. destruct (time_now_ms_now _ fo_world0) as (w & Ht & Hw & Hn). pose proof (now_range _ fo_world0).
  unfold Peer.read_time. rewrite Ht. intros [= <- <-]. split; [lia|]. split; try done.
  unfold time_now_ms, elapsed in Ht. injection Ht as _ <-. done.
Qed.

Lemma timed t sh seen acc acc' fired fired' s s' : Peer.read_time (shared s) = (t, sh) ->
  goes_at t seen acc acc' fired fired' (set_shared sh s) s' -> steps seen acc acc' fired fired' s s'.
Proof.
  intros Ht [Hg Hs].
  assert (Hst : Peer.store sh = Peer.store (shared s)).
  { unfold Peer.read_time in Ht. destruct (time_now_ms _). by injection Ht as _ <-. }
  split; [eapply store_grows_trans; [|exact Hg]; by apply store_grows_refl|].
  intros Ha y n [Hn Hf Hac Hp]. destruct (follows_read _ _ _ _ _ _ Hf Ht) as [Hnt Hf'].
  destruct (Hs Ha y) as (y' & Hm & Hy'); [|by exists y', t].
  split; [lia|exact Hf'|done|]. change (shared (set_shared sh s)) with sh. by rewrite Hst.
Qed.

Lemma read_time_deref t sh sh0 q : Peer.read_time sh0 = (t, sh) ->
  Peer.store sh !! (q : PeerRef) = Peer.store sh0 !! q.
Proof. unfold Peer.read_time. destruct (time_now_ms _). by intros [= _ <-]. Qed.

(** What a packet given to [q] adds to the connection. *)
Definition own_of (s : ServerCore) (q : PeerRef) (k : call) : list (SendMode * list Z) :=
  match Peer.store (shared s) !! q with Some p => own q (Peer.endpoint p) k | None => [] end.

(** A call of a peer, under its lock. *)
Lemma peer_call_goes fl seen acc s (q : PeerRef) k :
  (q = r -> alone s -> arrives x k /\ forall m p, Peer.store (shared s) !! q = Some p ->
    call_ok m (Peer.endpoint p) k) ->
  goes seen acc (acc ++ own_of s q k) [] [] s
    (with_handle s (fun sh => p ← Peer.deref q sh;
      let '(now_ms, sh) := Peer.read_time sh in
      '(e, c) ← invoke_flush fl (Peer.endpoint p) k now_ms (Peer.mkEndpointContext (Peer.core p) q sh);
      Ok (Peer.release q e c))).
Proof.
  intros Hk s' (sh' & (p & Hp & Hr)%outcome_bind_Ok & [= <-])%outcome_bind_Ok. unfold Peer.deref, own_of in *.
  destruct (Peer.store (shared s) !! q) as [p'|] eqn:Hq; [|done]. injection Hp as ->.
  destruct (Peer.read_time (shared s)) as [t sh] eqn:Ht. apply outcome_bind_Ok in Hr as ([e c] & Hi & [= <-]).
  apply (timed t sh); [done|]. change (set_shared (Peer.release q e c) s) with
    (set_shared (Peer.release q e c) (set_shared sh s)).
  apply (call_goes fl); [by rewrite <- Hq; apply (read_time_deref t)| |by intros ?%elem_of_nil|exact Hi].
  intros Heq Ha. destruct (Hk Heq) as [Harr Hok]; [|split; [done|intros y _; by apply Hok]].
  intros q' p1 Hp1. apply Ha. rewrite <- Hp1. by apply (read_time_deref t).
Qed.

(** ** The methods of a handle *)

Lemma invoke_once e k t c : invoke_flush false e k t c = invoke e k t c.
Proof. unfold invoke_flush. by destruct (invoke e k t c) as [[]|]. Qed.

Lemma method_goes fl seen acc s (q : PeerRef) k f :
  (q = r -> alone s -> arrives x k /\ forall m p, Peer.store (shared s) !! q = Some p ->
    call_ok m (Peer.endpoint p) k) ->
  (forall sh, f sh = (p ← Peer.deref q sh;
      let '(now_ms, sh) := Peer.read_time sh in
      '(e, c) ← invoke_flush fl (Peer.endpoint p) k now_ms (Peer.mkEndpointContext (Peer.core p) q sh);
      Ok (Peer.release q e c))) ->
  goes seen acc (acc ++ own_of s q k) [] [] s (with_handle s f).
Proof. intros Hk Hf s' Hr. apply (peer_call_goes fl seen acc s q k Hk). unfold with_handle in *. by rewrite <- Hf.
Qed.

Ltac one_call := intros sh; cbv beta delta [Peer.handle_frame Peer.flush Peer.disconnect Peer.deref];
  destruct (Peer.store sh !! _); [|done]; cbn [mbind outcome_bind];
  destruct (Peer.read_time sh); by rewrite invoke_once.

Lemma server_handle_frame_goes seen acc s q t p : payload_ok p -> (q = r -> alone s -> arrives x (CFrame t p)) ->
  goes seen acc (acc ++ own_of s q (CFrame t p)) [] [] s (with_handle s (Peer.handle_frame q t p)).
Proof. intros Hp Ha. apply (method_goes false); [by intros; split; auto|]. one_call. Qed.

Lemma server_flush_goes seen acc s q : goes seen acc (acc ++ own_of s q CFlush)
  [] [] s (with_handle s (Peer.flush q)).
Proof. apply (method_goes false); [done|]. one_call. Qed.

Lemma server_disconnect_goes seen acc s q : goes seen acc (acc ++ own_of s q CDisconnect) [] [] s
  (with_handle s (Peer.disconnect q)).
Proof. apply (method_goes false); [done|]. one_call. Qed.

Lemma server_enqueue_goes seen acc s q p m : packet_ok p -> mode_ok m ->
  goes seen acc (acc ++ own_of s q (CEnqueue p m)) [] [] s (with_handle s (Peer.enqueue q p m)).
Proof.
  intros Hp Hm. apply (method_goes false); [done|]. intros sh. unfold Peer.enqueue, Peer.deref.
  destruct (Peer.store sh !! q); [|done]. cbn [mbind outcome_bind]. destruct (Peer.read_time sh). rewrite invoke_once.
  cbn [invoke]. by destruct (Endpoint.enqueue _ _ _ _).
Qed.

Lemma server_send_goes seen acc s q p m : packet_ok p -> mode_ok m ->
  goes seen acc (acc ++ own_of s q (CEnqueue p m)) [] [] s (with_handle s (Peer.send q p m)).
Proof.
  intros Hp Hm. apply (method_goes true); [done|]. intros sh. unfold Peer.send, Peer.deref.
  destruct (Peer.store sh !! q); [|done]. cbn [mbind outcome_bind]. destruct (Peer.read_time sh). unfold invoke_flush.
  cbn [invoke]. by destruct (Endpoint.enqueue _ _ _ _).
Qed.

(** Only packets given to [r] count. *)
Lemma own_of_nil s q k : (forall e, accepted e k = []) -> own_of s q k = [].
Proof. intros Hk. unfold own_of, own. destruct (_ !! q); [|done]. by case_bool. Qed.

(** ** Handshakes *)

Lemma follows_earlier seen n m h sh : m <= n -> follows seen n h sh -> follows seen m h sh.
Proof. intros Hn []. split; try done. lia. Qed.

Lemma read_steps seen acc fired s t sh : Peer.read_time (shared s) = (t, sh) ->
  steps seen acc acc fired fired s (set_shared sh s).
Proof.
  intros Ht. apply steps_still.
  - unfold Peer.read_time in Ht. destruct (time_now_ms _). by injection Ht as _ <-.
  - intros n h Hf. destruct (follows_read _ _ _ _ _ _ Hf Ht) as [Hn Hf']. apply (follows_earlier _ t); [lia|done].
Qed.

Lemma sealed_handshake {A} `{SimpleFrame A} `{BlockSerialOk A} (b : A) : block_valid b ->
  handshake_type (FRAME_TYPE A) = true -> handshake_frame (sealed b).
Proof. intros Hv Ht. destruct (sealed_carries b Hv) as ([_ Hty _ _] & _). by exists (FRAME_TYPE A). Qed.

Lemma send_steps seen acc fired s f a' : handshake_frame f -> steps seen acc acc fired fired s (send_to f a' s).
Proof. intros Hf. apply steps_still; [done|]. intros n h. by apply follows_send_handshake. Qed.

Lemma alpha_goes now seen acc s f a' : server_at now seen [] s -> Forall is_u8 f -> verify_minimum_size f = true ->
  goes seen acc acc [] [] s (handle_handshake_alpha s f a' now).
Proof.
  intros Hs Hu Hm. destruct (alpha_read f Hu Hm) as (b & o & Hb & _ & Ho & Hv).
  rewrite (alpha_result now s f a' b o) by (done || exact (si_world _ _ _ _ Hs)).
  destruct b; [|apply server_goes_refl]. destruct o as [fr|]; [|apply server_goes_refl].
  destruct (_ =? _); [|apply server_goes_refl].
  intros s' [= <-]. unfold alpha_answered. destruct (random_u32_ok _ (si_world _ _ _ _ Hs)) as (Hn & Hw & Hnow).
  destruct (random_u32 _) as [n w] eqn:Er. cbn [fst snd] in *. eapply steps_trans.
  - apply (steps_still _ _ _ _ (set_shared (Peer.set_world w (shared s)) s)); [done|]. intros m h []. split; try done.
    + change (Peer.world _) with w. lia.
    + unfold random_u32 in Er. by injection Er as _ <-.
  - apply send_steps, sealed_handshake; [|done]. apply alpha_ack_valid; [by destruct Hv|done].
Qed.

(** ** Admission *)

Lemma add_peer_goes now seen acc s a' : server_at now seen [] s -> goes seen acc acc [] [] s (add_peer s a').
Proof.
  intros Hs s' (cfg & Hcfg & (p & Hp & Hi)%outcome_bind_Ok)%outcome_bind_Ok.
  rewrite (si_saved _ _ _ _ Hs), Hecfg in Hcfg. injection Hcfg as <-.
  apply outcome_bind_Ok in Hp as (e & He & [= <-]).
  destruct (valid_endpoint_config _ Hvalid) as (ecfg' & He' & Hok). rewrite Hecfg in He'. injection He' as <-.
  destruct (endpoint_new_ok ecfg Hok) as (e' & He' & _ & Hpre & _). rewrite He in He'. injection He' as <-.
  cbv zeta in Hi. set (q := fresh (dom (Peer.store (shared s)))) in *.
  assert (Hq : Peer.store (shared s) !! q = None) by (apply not_elem_of_dom; apply is_fresh). clearbody q.
  set (s1 := set_timer_queue _ _) in Hi.
  assert (Hlook : Peer.store (shared s1) !! q = Some (Peer.mkPeer (Peer.mkPeerCore a' None None) e))
    by apply lookup_insert_eq.
  assert (H01 : steps seen acc acc [] [] s s1).
  { split.
    - intros q' p' Hp'. exists p'. split; [|done]. cbn. rewrite lookup_insert_ne; [done|]. intros <-.
      by rewrite Hq in Hp'.
    - intros _ y n [Hn Hf Ha Hpe]. exists y, n. split; [apply rtc_refl|]. split; [done|by destruct Hf|done|].
      cbn. destruct (decide (q = r)) as [->|Hne]; [|by rewrite lookup_insert_ne].
      rewrite lookup_insert_eq. rewrite Hq in Hpe. destruct Hpe as [Hye _]. rewrite He in Hye. injection Hye as ->.
      split; [done|]. by intros [[]|?%elem_of_nil]. }
  eapply steps_trans; [exact H01|]. rewrite <- (app_nil_r acc) at 2. rewrite <- (own_of_nil s1 q CInit) by done.
  apply (method_goes false seen acc s1 q CInit (Peer.init q)); [| |exact Hi].
  - intros _ _. split; [done|]. intros m p1. rewrite Hlook. by intros [= <-].
  - intros sh. unfold Peer.init, Peer.deref. destruct (Peer.store sh !! q); [|done]. cbn [mbind outcome_bind].
    destruct (Peer.read_time sh). by rewrite invoke_once.
Qed.

Lemma beta_goes now seen acc s f a' : server_at now seen [] s -> Forall is_u8 f -> verify_minimum_size f = true ->
  goes seen acc acc [] [] s (handle_handshake_beta s f a' now).
Proof.
  intros Hs Hu Hm. destruct (beta_read f Hu Hm) as (b & o & Hb & _ & Ho & Hv).
  rewrite (beta_result now s f a' b o) by done.
  destruct b; [|apply server_goes_refl]. destruct o as [fr|]; [|apply server_goes_refl].
  destruct (authentic s a' fr now); [|apply server_goes_refl]. eapply server_goes_bind.
  - destruct (admits s a' fr); [by eapply add_peer_goes|apply server_goes_refl].
  - intros s1 _ s' [= <-]. apply send_steps, sealed_handshake; [by destruct Hv as (_ & Hn & _)|done].
Qed.

(** ** Incoming frames *)

(** What the network hands the server: from elsewhere, anything. *)
Definition server_arrival (sent : list Z -> Prop) (fa : list Z * SocketAddr) : Prop :=
  arrival_ok fa /\ (fa.2 = a -> network sent fa.1).
#[local] Abbreviation from_peer := (server_arrival (sent_by x)).

(** An endpoint ignores handshakes. *)
Lemma handshake_frame_steps seen acc s q t p : handshake_type t = true ->
  goes seen acc acc [] [] s (with_handle s (Peer.handle_frame q t p)).
Proof.
  intros Ht s' (sh & (p0 & Hp0 & Hr)%outcome_bind_Ok & [= <-])%outcome_bind_Ok. unfold Peer.deref in Hp0.
  destruct (Peer.store (shared s) !! q) as [p1|] eqn:Hq; [|done]. injection Hp0 as ->.
  destruct (Peer.read_time (shared s)) as [tm sh0] eqn:Hrt.
  assert (Hig : forall (c : Peer.EndpointContext),
    Endpoint.handle_frame (Peer.endpoint p0) t p tm c = Ok (Peer.endpoint p0, c)).
  { intros c. unfold Endpoint.handle_frame. by destruct (Endpoint.state_id (Peer.endpoint p0)), t. }
  rewrite Hig in Hr. injection Hr as <-.
  replace (Peer.release q (Peer.endpoint p0) _) with sh0; [by eapply read_steps|].
  unfold Peer.release, Peer.set_store. cbn. rewrite insert_id; [by destruct sh0|].
  rewrite (read_time_deref _ _ _ _ Hrt), Hq. by destruct p0.
Qed.

Lemma server_frame_other_goes now seen acc s t f a' : server_at now seen [] s -> from_peer (f, a') ->
  verify_minimum_size f = true -> read_type f = Ok (Some t) ->
  goes seen acc acc [] [] s (handle_frame_other s t f a').
Proof.
  intros Hs [Hf Hfrom] Hm Ht. unfold handle_frame_other. destruct (peers s !! a') as [q|] eqn:Ha;
    [|apply server_goes_refl].
  destruct (inspect_any f (proj1 Hf) Hm) as (ok & _ & p & Hcrc & _ & Hp & Hl & Hup). rewrite Hcrc, Hp.
  cbn [mbind outcome_bind]. destruct ok; cbn [negb]; [|apply server_goes_refl].
  change (goes seen acc acc [] [] s (with_handle s (Peer.handle_frame q t p))).
  destruct (handshake_type t) eqn:Eh; [by apply handshake_frame_steps|].
  rewrite <- (app_nil_r acc) at 2. rewrite <- (own_of_nil s q (CFrame t p)) by done.
  apply server_handle_frame_goes; [by eapply arrival_payload|]. intros -> Hal.
  destruct (si_table _ _ _ _ Hs a' r Ha) as (p' & Hp' & Haddr & _).
  assert (Heq : a' = a) by (rewrite <- Haddr; by apply (Hal r p' Hp')). exists f. split; [|done].
  destruct (Hfrom Heq) as [Hin|[(t' & Ht' & Hh)|[Hx|Hx]]]; cbn [fst] in *; [done|congruence..].
Qed.

Lemma frame_goes now seen acc s f a' : server_at now seen [] s -> from_peer (f, a') ->
  goes seen acc acc [] [] s (handle_frame s f a').
Proof.
  intros Hs Hf. unfold handle_frame. destruct (verify_minimum_size f) eqn:Em; cbn [negb]; [|apply server_goes_refl].
  pose proof (proj1 Hf) as Hu.
  destruct (inspect_any f (proj1 Hu) Em) as (_ & t & _ & _ & Ht & _). rewrite Ht. cbn [mbind outcome_bind].
  destruct t as [t|]; [|apply server_goes_refl]. unfold read_time.
  destruct (server_read_time now seen [] s Hs) as (tm & w & Hrt & Hn & Hs'). rewrite Hrt.
  eapply goes_after; [by eapply read_steps|]. set (s0 := set_shared (Peer.set_world w (shared s)) s) in *.
  assert (Ho : goes seen acc acc [] [] s0 (handle_frame_other s0 t f a')) by by eapply server_frame_other_goes.
  destruct t; try exact Ho; [eapply alpha_goes|eapply beta_goes]; try done; apply Hu.
Qed.

(** An operation that is known to keep the invariant of the server. *)
Lemma kept_at now seen fired res s' : server_kept now seen fired res -> res = Ok s' ->
  exists n, server_at n seen fired s'.
Proof. intros (n & s1 & _ & -> & Hs) [= <-]. by exists n. Qed.

Lemma frames_goes fs : forall now seen acc s, server_at now seen [] s -> Forall from_peer fs ->
  goes seen acc acc [] [] s (handle_frames s fs).
Proof.
  induction fs as [|[f a'] fs IH]; intros now seen acc s Hs Hfs; cbn [handle_frames]; [apply server_goes_refl|].
  apply Forall_cons in Hfs as [Hf Hfs]. eapply server_goes_bind; [by eapply frame_goes|]. intros s1 Hr.
  destruct (kept_at _ _ _ _ _ (server_handle_frame_ok now seen s f a' Hs (proj1 Hf)) Hr) as [n Hs1]. by eapply IH.
Qed.

(** ** Timers *)

Lemma turned_steps seen acc t q s buf : steps seen acc acc buf (turned_buffer t q s buf) s (turned t q s).
Proof.
  unfold turned, turned_buffer. destruct (Peer.test q t (shared s)).1 eqn:E.
  2: { rewrite (test_quiet _ _ _ E). by apply steps_still. }
  unfold Peer.test in *. destruct (Peer.store (shared s) !! q) as [p|] eqn:Hp; [|done].
  destruct (Peer.rto_timer (Peer.core p)) as [d|] eqn:Hd; [|done]. destruct (d <? t); [|done]. cbn [snd]. split.
  - intros q' p' Hp'. cbn. destruct (decide (q' = q)) as [->|Hne].
    + rewrite lookup_insert_eq. eexists. split; [done|]. rewrite Hp in Hp'. by injection Hp' as <-.
    + rewrite lookup_insert_ne by done. by exists p'.
  - intros _ y n [Hn Hf Ha Hpe]. exists y, n. split; [apply rtc_refl|]. split; [done|by destruct Hf|done|]. cbn.
    destruct (decide (q = r)) as [->|Hne].
    + rewrite lookup_insert_eq. rewrite Hp in Hpe. destruct Hpe as [Hye Hyt]. split; [done|]. intros _.
      apply Hyt. left. by exists d.
    + rewrite lookup_insert_ne by done. destruct (Peer.store (shared s) !! r); [|done]. destruct Hpe as [Hye Hyt].
      split; [done|]. intros [Hs|[Hs|Hs%list_elem_of_singleton]%elem_of_app]; [by apply Hyt; left|by apply Hyt;
        right|].
      by subst.
Qed.

Lemma sweep_steps seen acc t ws : forall s buf, let res := sweep upgrade timer_test on_fire t ws (s, buf) in
  steps seen acc acc buf res.2.2 s res.2.1.
Proof.
  induction ws as [|w ws IH]; intros s buf; cbn zeta; cbn [sweep]; [by apply steps_still|].
  destruct (upgrade (s, buf) w) as [w'|] eqn:Eu; [|apply IH].
  assert (w' = w) as -> by (unfold upgrade in Eu; destruct (_ || _); [by injection Eu as <-|done]).
  assert (Hstep : turn_of timer_test on_fire t w (s, buf) = (turned t w s, turned_buffer t w s buf)).
  { unfold turn_of, timer_test, turned, turned_buffer. cbn [fst snd].
    by destruct (Peer.test w t (shared s)) as [[] sh]. }
  rewrite Hstep. cbn [snd]. eapply steps_trans; [apply turned_steps|apply IH].
Qed.

Lemma step_timer_wheel_steps seen acc s s' fired : step_timer_wheel s [] = Ok (s', fired) ->
  steps seen acc acc [] fired s s'.
Proof.
  unfold step_timer_wheel, read_time. destruct (Peer.read_time (shared s)) as [t sh] eqn:Ht.
  change (timer_queue (set_shared sh s)) with (timer_queue s). destruct (timer_queue s) as [q].
  rewrite test_sweep. cbn [mbind outcome_bind]. intros Hr.
  pose proof (sweep_steps seen acc t (take TIMER_TEST_LIMIT q) (set_shared sh s) []) as Hsw. cbn zeta in Hsw.
  destruct (sweep _ _ _ _ _ _) as [kept [s1 f1]]. cbn [fst snd] in *. injection Hr as <- <-.
  eapply steps_trans; [by eapply read_steps|]. eapply steps_trans; [exact Hsw|]. by apply steps_still.
Qed.

Lemma handle_expired_goes seen acc fired : forall s, NoDup fired ->
  goes seen acc acc fired [] s (handle_expired s fired).
Proof.
  induction fired as [|q fired IH]; intros s Hnd; cbn [handle_expired]; [apply server_goes_refl|].
  apply NoDup_cons in Hnd as [Hq Hnd].
  intros s' ([sh act] & (p & Hp & Hr)%outcome_bind_Ok & (s2 & Hs2 & Hs')%outcome_bind_Ok)%outcome_bind_Ok.
  unfold Peer.deref in Hp. destruct (Peer.store (shared s) !! q) as [p1|] eqn:Hpq; [|done]. injection Hp as ->.
  destruct (Peer.read_time (shared s)) as [t sh0] eqn:Hrt.
  apply outcome_bind_Ok in Hr as ([[e c] act'] & Hi & [= <- <-]).
  assert (Hst1 : steps seen acc acc (q :: fired) fired s (set_shared (Peer.release q e c) s)).
  { apply (timed t sh0); [done|]. change (set_shared (Peer.release q e c) s) with
      (set_shared (Peer.release q e c) (set_shared sh0 s)).
    assert (Hpq0 : Peer.store (shared (set_shared sh0 s)) !! q = Some p)
      by (rewrite <- Hpq; by apply (read_time_deref t)).
    pose proof (call_goes false t seen acc (q :: fired) fired (set_shared sh0 s) q p CTimer e c Hpq0) as Hcg.
    assert (Hown : own q (Peer.endpoint p) CTimer = []) by (unfold own; by case_bool).
    rewrite Hown, app_nil_r in Hcg. apply Hcg.
    - intros -> _. split; [done|]. intros y [_ _ _ Hy]. rewrite Hpq0 in Hy. apply (proj2 Hy). right. by left.
    - intros Hin. split; [by right|]. by intros ->.
    - rewrite invoke_once. cbn [invoke]. change (context (set_shared sh0 s) q p) with
        (Peer.mkEndpointContext (Peer.core p) q sh0). by rewrite Hi. }
  eapply steps_trans; [exact Hst1|]. assert (Hst2 : steps seen acc acc fired fired (set_shared (Peer.release q e c)
    s) s2).
  { destruct act'; [injection Hs2 as <-; by apply steps_still|].
    apply outcome_bind_Ok in Hs2 as (p2 & _ & [= <-]). by apply steps_still. }
  eapply steps_trans; [exact Hst2|]. by apply IH.
Qed.

Lemma handle_timeouts_goes now seen acc s : server_at now seen [] s -> goes seen acc acc [] [] s (handle_timeouts s).
Proof.
  intros Hs s' ([s1 fired] & Hw & Hr)%outcome_bind_Ok.
  destruct (step_timer_wheel_ok now seen s Hs) as (n & s1' & fired' & _ & Hw' & Hs1). rewrite Hw in Hw'.
  injection Hw' as <- <-. eapply steps_trans; [by eapply step_timer_wheel_steps|].
  apply handle_expired_goes; [by destruct Hs1|done].
Qed.

Lemma server_frames_timeouts_goes now seen acc s fs : server_at now seen [] s -> Forall from_peer fs ->
  goes seen acc acc [] [] s (s ← handle_frames s fs; handle_timeouts s).
Proof.
  intros Hs Hfs. eapply server_goes_bind; [by eapply frames_goes|]. intros s1 Hr.
  assert (Hok : Forall arrival_ok fs) by (eapply Forall_impl; [exact Hfs|]; by intros ? []).
  destruct (kept_at _ _ _ _ _ (server_handle_frames_ok fs now seen s Hs Hok) Hr) as [n Hs1].
  by eapply handle_timeouts_goes.
Qed.

(** ** Taking events *)

(** The result of a request: events handed out, and the server after it. *)
Definition hands (seen : list Event) (acc acc' : list (SendMode * list Z)) (s : ServerCore)
  (res : outcome (list Event * ServerCore)) : Prop :=
  forall evs s', res = Ok (evs, s') -> grows s s' /\ (alone s' -> forall y n, server_side seen n acc [] y s ->
    exists y' n', moves x y y' /\ server_side (seen ++ evs) n' acc' [] y' s').

Lemma server_goes_hands seen acc acc' s res : goes seen acc acc' [] [] s res -> hands seen acc acc' s (s ← res;
  Ok ([], s)).
Proof.
  intros Hr evs s' (s1 & -> & [= <- <-])%outcome_bind_Ok. destruct (Hr s1 eq_refl) as [Hg Hs]. split; [done|].
  by rewrite app_nil_r.
Qed.

Lemma steps_hands seen acc acc' s s' : steps seen acc acc' [] [] s s' -> hands seen acc acc' s (Ok ([], s')).
Proof. intros [Hg Hs] evs s1 [= <- <-]. rewrite app_nil_r. by split. Qed.

Lemma hands_after seen acc1 acc2 acc3 s s1 res : steps seen acc1 acc2 [] [] s s1 -> hands seen acc2 acc3 s1 res ->
  hands seen acc1 acc3 s res.
Proof.
  intros [Hg1 Hs1] Hr evs s' He. destruct (Hr evs s' He) as [Hg Hs2]. split; [by eapply store_grows_trans|].
  intros Ha y n Hy. destruct (Hs1 (alone_before _ _ Hg Ha) y n Hy) as (y1 & n1 & Hm1 & Hy1).
  destruct (Hs2 Ha y1 n1 Hy1) as (y2 & n2 & Hm2 & Hy2). exists y2, n2. split; [|done]. unfold moves in *. by etrans.
Qed.

Lemma server_hands_bind seen acc1 acc2 acc3 s res k : goes seen acc1 acc2 [] [] s res ->
  (forall s1, res = Ok s1 -> hands seen acc2 acc3 s1 (k s1)) -> hands seen acc1 acc3 s (res ≫= k).
Proof.
  intros Hr Hk evs s' (s1 & Hs1 & He)%outcome_bind_Ok. by apply (hands_after _ _ _ _ _ _ _ (Hr s1 Hs1) (Hk s1 Hs1)).
Qed.

Lemma server_hands_popped seen acc s : hands seen acc acc s (Ok (option_list (pop_event s).1, (pop_event s).2)).
Proof.
  intros evs s' [= <- <-]. unfold pop_event. destruct (Peer.events (shared s)) as [|ev l] eqn:Ee; cbn.
  - split; [by apply store_grows_refl|]. intros _ y n Hy. exists y, n. rewrite app_nil_r.
    split; [apply rtc_refl|done].
  - split; [by apply store_grows_refl|]. intros _ y n [Hn [] Ha Hp]. exists y, n. split; [apply rtc_refl|].
    split; [done| |done|done]. split; try done. cbn. rewrite <- app_assoc. by rewrite Ee in fo_packets0.
Qed.

Lemma instant_steps seen acc s t s1 : instant_now s = (t, s1) -> world_ok (Peer.world (shared s)) ->
  steps seen acc acc [] [] s s1.
Proof.
  intros Hi Hw. unfold instant_now, elapsed in Hi. injection Hi as _ <-. apply steps_still; [done|].
  intros n h []. destruct (elapsed_ok _ fo_world0) as [Hw' Hn]. unfold elapsed in *. cbn [snd] in *.
  split; try done. cbn. lia.
Qed.

Lemma server_wait_event_hands ws : forall now seen acc s, server_at now seen [] s -> Forall (Forall from_peer) ws ->
  hands seen acc acc s (answer <$> wait_event s ws).
Proof.
  induction ws as [|fs ws IH]; intros now seen acc s Hs Hws; cbn [wait_event].
  - apply steps_hands. by apply steps_still.
  - apply Forall_cons in Hws as [Hfs Hws]. rewrite server_handle_frames_wait_same.
    rewrite <- outcome_bind_assoc, outcome_fmap_bind. eapply server_hands_bind;
      [by eapply server_frames_timeouts_goes|].
    intros s2 Hr. assert (Hok : Forall arrival_ok fs) by (eapply Forall_impl; [exact Hfs|]; by intros ? []).
    destruct (kept_at _ _ _ _ _ (frames_timeouts_ok now seen s fs Hs Hok) Hr) as [n Hs2].
    pose proof (server_hands_popped seen acc s2) as Hp. unfold pop_event in *.
    destruct (Peer.events (shared s2)); [by eapply IH|exact Hp].
Qed.

Lemma server_wait_timeout_hands ws : forall now seen acc s rem t0, server_at now seen [] s ->
  Forall (Forall from_peer) ws -> hands seen acc acc s (answer <$> wait_event_timeout_loop s rem t0 ws).
Proof.
  induction ws as [|fs ws IH]; intros now seen acc s rem t0 Hs Hws; cbn [wait_event_timeout_loop].
  - apply steps_hands. by apply steps_still.
  - apply Forall_cons in Hws as [Hfs Hws]. rewrite server_handle_frames_wait_same.
    rewrite <- outcome_bind_assoc, outcome_fmap_bind. eapply server_hands_bind;
      [by eapply server_frames_timeouts_goes|].
    intros s2 Hr. assert (Hok : Forall arrival_ok fs) by (eapply Forall_impl; [exact Hfs|]; by intros ? []).
    destruct (kept_at _ _ _ _ _ (frames_timeouts_ok now seen s fs Hs Hok) Hr) as [n Hs2].
    pose proof (server_hands_popped seen acc s2) as Hp. unfold pop_event in *.
    destruct (Peer.events (shared s2)); [|exact Hp].
    destruct (server_instant_now_ok n seen s2 Hs2) as (t1 & s3 & Hi & Hs3). rewrite Hi.
    pose proof (instant_steps seen acc s2 t1 s3 Hi (si_world _ _ _ _ Hs2)) as Hst.
    case_bool; [by apply steps_hands|]. eapply hands_after; [exact Hst|by eapply IH].
Qed.

(** ** Every request *)

Definition request_arrivals (sent : list Z -> Prop) (s : ServerCore) (q : request) : Prop :=
  match q with
  | RPoll rx => Forall (server_arrival sent) rx
  | RWait ws | RWaitTimeout _ ws => Forall (Forall (server_arrival sent)) ws
  | _ => request_allowed s q
  end.

(** What the application gives the connection with a request. *)
Definition request_accepted (s : ServerCore) (q : request) : list (SendMode * list Z) :=
  match q with RSend h p m | REnqueue h p m => own_of s h (CEnqueue p m) | _ => [] end.

Lemma arrivals_allowed sent s q : request_arrivals sent s q -> request_allowed s q.
Proof.
  assert (Hf : forall fs, Forall (server_arrival sent) fs -> Forall arrival_ok fs)
    by (intros fs Hfs; eapply Forall_impl; [exact Hfs|]; by intros ? []).
  destruct q; cbn; try done; [apply Hf|..]; intros Hws; (eapply Forall_impl; [exact Hws|exact Hf]).
Qed.

Lemma server_arrivals_mono (sent sent' : list Z -> Prop) s q : (forall f, sent f -> handshake_frame f \/ sent' f) ->
  request_arrivals sent s q -> request_arrivals sent' s q.
Proof.
  intros Hs. assert (Hf : forall fs, Forall (server_arrival sent) fs -> Forall (server_arrival sent') fs).
  { intros fs Hfs. eapply Forall_impl; [exact Hfs|]. intros f [Hok Hn]. split; [done|]. intros Ha.
    by eapply network_mono, Hn. }
  destruct q; cbn; try done; [apply Hf|..]; intros Hws; (eapply Forall_impl; [exact Hws|exact Hf]).
Qed.

Lemma set_data_goes seen acc s q d : goes seen acc acc [] [] s (with_handle s (Peer.set_data q d)).
Proof.
  intros s' (sh & (p & Hp & [= <-])%outcome_bind_Ok & [= <-])%outcome_bind_Ok. unfold Peer.deref in Hp.
  destruct (Peer.store (shared s) !! q) as [p1|] eqn:Hq; [|done]. injection Hp as ->. split.
  - intros q' p' Hp'. cbn. destruct (decide (q' = q)) as [->|Hne].
    + rewrite lookup_insert_eq. eexists. split; [done|]. rewrite Hq in Hp'. by injection Hp' as <-.
    + rewrite lookup_insert_ne by done. by exists p'.
  - intros _ y n [Hn Hf Ha Hpe]. exists y, n. split; [apply rtc_refl|]. split; [done|by destruct Hf|done|]. cbn.
    destruct (decide (q = r)) as [->|Hne]; [|by rewrite lookup_insert_ne].
    rewrite lookup_insert_eq. by rewrite Hq in Hpe.
Qed.

Lemma server_serve_hands now seen acc s q : server_at now seen [] s -> request_arrivals (sent_by x) s q ->
  hands seen acc (acc ++ request_accepted s q) s (serve s q).
Proof.
  intros Hs Hq. destruct q as [rx|ws|t ws|h p m|h p m|h|h|h d|h|h];
    cbn [serve request_arrivals request_accepted] in *;
    rewrite ?app_nil_r.
  - unfold poll_event. rewrite outcome_bind_assoc. eapply server_hands_bind.
    + destruct (Peer.events (shared s)); [by eapply server_frames_timeouts_goes|apply server_goes_refl].
    + intros s1 _. cbn [mbind outcome_bind]. pose proof (server_hands_popped seen acc s1) as Hp.
      by destruct (pop_event s1).
  - by eapply server_wait_event_hands.
  - unfold wait_event_timeout. destruct (Peer.events (shared s)) as [|ev evs] eqn:Ee.
    + destruct (server_instant_now_ok now seen s Hs) as (t0 & s1 & Hi & Hs1). rewrite Hi.
      eapply hands_after; [by eapply instant_steps; [exact Hi|destruct Hs]|by eapply server_wait_timeout_hands].
    + pose proof (server_hands_popped seen acc s) as Hp. by destruct (pop_event s).
  - destruct Hq as (_ & Hp & Hm). by apply server_goes_hands, server_send_goes.
  - destruct Hq as (_ & Hp & Hm). by apply server_goes_hands, server_enqueue_goes.
  - apply server_goes_hands. rewrite <- (app_nil_r acc) at 2. rewrite <- (own_of_nil s h CFlush) by done.
    apply server_flush_goes.
  - apply server_goes_hands. rewrite <- (app_nil_r acc) at 2. rewrite <- (own_of_nil s h CDisconnect) by done.
    apply server_disconnect_goes.
  - apply server_goes_hands, set_data_goes.
  - apply steps_hands. by apply steps_still.
  - apply steps_hands. by apply steps_still.
Qed.
End Simulation.
