(* ===== verification/System.v ===== *)
(** * A client and a server

    The whole program: an application with a client, an application with a server, and a
    network between them.  Whatever the network does, whatever the other clients of the
    server do, and however the two applications use the library, packets arrive as
    [system_end_to_end] says. *)

From S2P Require Import Prelude Word Fragment Frame Serial Prio TimerQueue Endpoint EndpointFacts EndpointMachine.
From S2P Require Import EndpointSession World HandshakeMac Peer Server ServerFacts ServerTimers ServerSession.
From S2P Require Import StreamCalls Duplex Sides ServerSide ServerClaims.
From S2P Require Client ClientFacts ClientSession ClientSide.
From stdpp Require Import gmap.

#[local] Open Scope Z_scope.

Import Server.

(** The client and the server, with the events their applications have taken and the packets
    they have given the connection. *)
Record system : Type := mkSystem {
  sy_client_seen : list Client.Client.Event;
  sy_client : Client.Client.ClientCore;
  sy_client_given : list (SendMode * list Z);
  sy_server_seen : list ServerEvent.Event;
  sy_server : ServerCore;
  sy_server_given : list (SendMode * list Z);
}.

Section System.
Context `{BuildProfile} {Sip : Type} `{SipHasher Sip}.

(** What each has sent the other: the client's socket is connected to the server, and the
    server knows the client by its address. *)
Definition sent_by_client (z : system) (f : list Z) : Prop := f ∈ Client.Client.socket_tx (sy_client z).
Definition sent_by_server (a : SocketAddr) (z : system) (f : list Z) : Prop :=
  (a, f) ∈ Peer.socket_tx (shared (sy_server z)).

(** The client is at the address [a]; [r] is the reference under which the server will have
    admitted it.  Every step is a request of one application, with the frames that arrive
    meanwhile. *)
Inductive system_reachable (ccfg : Client.Client.Config) (scfg : Config) (a : SocketAddr) (r : PeerRef) :
  system -> Prop :=
| sy_start wc ws c s : world_ok wc -> world_ok ws -> Client.Client.connect_with_config ccfg wc = Ok c ->
    bind_with_config scfg ws = Ok s -> system_reachable ccfg scfg a r (mkSystem [] c [] [] s [])
| sy_client_step z q evs c' : system_reachable ccfg scfg a r z ->
    ClientSide.request_arrivals (sent_by_server a z) q ->
    ClientSession.serve (sy_client z) q = Ok (evs, c') ->
    system_reachable ccfg scfg a r
      (mkSystem (sy_client_seen z ++ evs) c' (sy_client_given z ++ ClientSide.request_accepted (sy_client z) q)
         (sy_server_seen z) (sy_server z) (sy_server_given z))
| sy_server_step z q evs s' : system_reachable ccfg scfg a r z ->
    request_arrivals a (sent_by_client z) (sy_server z) q ->
    serve (sy_server z) q = Ok (evs, s') ->
    system_reachable ccfg scfg a r
      (mkSystem (sy_client_seen z) (sy_client z) (sy_client_given z)
         (sy_server_seen z ++ evs) s' (sy_server_given z ++ request_accepted r (sy_server z) q)).

(** The packets the two applications have received or are about to. *)
Definition client_received (z : system) : list (list Z) :=
  ClientSide.received (sy_client_seen z ++ Client.Client.events (sy_client z)).
Definition server_received (r : PeerRef) (z : system) : list (list Z) :=
  received_from r (sy_server_seen z ++ Peer.events (shared (sy_server z))).

(** ** The two sides *)

Record joined (ccfg : Client.Client.Config) (cecfg secfg : Endpoint.Config) (a : SocketAddr) (r : PeerRef)
  (z : system) (x y : side) (n : Z) : Prop := {
  jo_connection : connection cecfg secfg x y;
  jo_client : ClientSide.client_side ccfg cecfg (sy_client_seen z) (sy_client_given z) x (sy_client z);
  jo_server : server_side secfg a r (sy_server_seen z) n (sy_server_given z) [] y (sy_server z);
}.

Lemma bound_fields scfg w s : bind_with_config scfg w = Ok s -> world_ok w ->
  Peer.store (shared s) = ∅ /\ Peer.events (shared s) = [] /\ Peer.socket_tx (shared s) = [] /\
    world_ok (Peer.world (shared s)).
Proof.
  intros Hb Hw. revert Hb. unfold bind_with_config. destruct (validate scfg); cbn [mbind outcome_bind]; [|done].
  unfold HandshakeMac.default. destruct (HandshakeMac.draw_octets_ok 16 w Hw) as (Hw' & _).
  destruct (HandshakeMac.draw_octets 16 w) as [key w']. cbn [fst snd] in Hw'. by intros [= <-].
Qed.

Lemma bound_side secfg a r scfg w s e coins : bind_with_config scfg w = Ok s -> world_ok w ->
  Endpoint.new secfg = Ok e -> server_side secfg a r [] 0 [] [] (mkSide 0 e (mkHost [] coins 0) []) s.
Proof.
  intros Hb Hw He. destruct (bound_fields scfg w s Hb Hw) as (Hs & Hev & Htx & Hw'). split.
  - cbn. unfold TIME_MAX. lia.
  - split; [done|by apply now_range| | |cbn; lia].
    + rewrite Htx. intros f Hf. by apply not_elem_of_nil in Hf.
    + by rewrite Hev.
  - done.
  - rewrite Hs, lookup_empty. by split.
Qed.

(** A side that has sent the given frames. *)
Definition reporting (e : Endpoint.Endpoint) (fs : list (list Z)) : side :=
  mkSide 0 e (mkHost (EvSend <$> fs) (fun _ => false) 0) [].

Lemma sent_by_reporting e fs f : f ∈ fs -> sent_by (reporting e fs) f.
Proof.
  intros Hf. unfold sent_by, frames. apply list_elem_of_omap. exists (EvSend f). split; [|done].
  apply list_elem_of_fmap. by exists f.
Qed.

Lemma server_moves scfg secfg a r z q evs s' now : valid_config scfg -> endpoint_config scfg = Ok secfg ->
  server_at (H0 := scfg) now (sy_server_seen z) [] (sy_server z) ->
  request_arrivals a (sent_by_client z) (sy_server z) q -> serve (sy_server z) q = Ok (evs, s') ->
  forall x, (forall f, sent_by_client z f -> handshake_frame f \/ sent_by x f) ->
  grows (sy_server z) s' /\ (alone a r s' -> forall y n,
    server_side secfg a r (sy_server_seen z) n (sy_server_given z) [] y (sy_server z) ->
    exists y' n', moves x y y' /\ server_side secfg a r (sy_server_seen z ++ evs) n'
      (sy_server_given z ++ request_accepted r (sy_server z) q) [] y' s').
Proof.
  intros Hsc Hse Hat Hq Hr x Hx.
  exact (server_serve_hands (H0 := scfg) secfg Hsc Hse a r x now (sy_server_seen z) (sy_server_given z)
    (sy_server z) q Hat
    (server_arrivals_mono _ _ _ _ _ Hx Hq) _ _ Hr).
Qed.

Lemma system_joined ccfg scfg cecfg secfg a r z : ClientFacts.valid_config ccfg -> valid_config scfg ->
  Client.Client.endpoint_config ccfg = Ok cecfg -> endpoint_config scfg = Ok secfg ->
  system_reachable ccfg scfg a r z ->
  (exists now, server_at (H0 := scfg) now (sy_server_seen z) [] (sy_server z)) /\
  (alone a r (sy_server z) -> exists x y n, joined ccfg cecfg secfg a r z x y n).
Proof.
  intros Hcc Hsc Hce Hse.
  induction 1 as [wc ws c s Hwc Hws Hc Hs|z q evs c' _ [Hat IH] Hq Hr|z q evs s' _ [[now Hat] IH] Hq Hr].
  - destruct (bind_ok scfg ws Hsc Hws) as (s1 & Hs1 & Hat). rewrite Hs in Hs1. injection Hs1 as <-.
    split; [by eexists|]. intros _.
    destruct (ClientFacts.valid_endpoint ccfg Hcc) as (e1 & He1 & Hok1). rewrite Hce in He1. injection He1 as <-.
    destruct (valid_endpoint_config scfg Hsc) as (e2 & He2 & Hok2). rewrite Hse in He2. injection He2 as <-.
    destruct (endpoint_new_ok cecfg Hok1) as (ce & Hnc & _). destruct (endpoint_new_ok secfg Hok2) as (se & Hns & _).
    destruct (ClientSide.connect_side ccfg cecfg wc c ce Hcc Hwc Hc Hnc) as [coins Hcs].
    exists (mkSide 0 ce (mkHost [] coins 0) []), (mkSide 0 se (mkHost [] (fun _ => false) 0) []), 0.
    split; [by apply cn_new|exact Hcs|by eapply bound_side].
  - split; [exact Hat|]. intros Ha. destruct (IH Ha) as (x & y & n & [Hcn Hcs Hss]).
    assert (Hq' : ClientSide.request_arrivals (sent_by y) q).
    { eapply ClientSide.arrivals_mono; [|exact Hq]. intros f Hf.
      by apply (fo_sent _ _ _ _ _ _ (ve_follows _ _ _ _ _ _ _ _ _ Hss)). }
    destruct (ClientSide.serve_hands ccfg cecfg Hcc Hce y _ _ _ _ _ Hcs Hq' _ _ Hr) as (x' & Hm & Hcs').
    exists x', y, n. split; [by eapply connection_moves|exact Hcs'|exact Hss].
  - split.
    + destruct (server_serve_ok (H0 := scfg) now _ _ q Hat (arrivals_allowed _ _ _ _ Hq))
        as (m & evs' & s1 & _ & Hr' & Hs1).
      rewrite Hr in Hr'. injection Hr' as <- <-. by exists m.
    + pose proof (server_moves scfg secfg a r z q evs s' now Hsc Hse Hat Hq Hr) as Hx. intros Ha.
      destruct (ClientFacts.valid_endpoint ccfg Hcc) as (e1 & He1 & Hok1).
      destruct (endpoint_new_ok e1 Hok1) as (e & _).
      destruct (Hx (reporting e (Client.Client.socket_tx (sy_client z)))) as [Hg _].
      { intros f Hf. right. by apply sent_by_reporting. }
      destruct (IH (alone_before _ _ _ _ Hg Ha)) as (x & y & n & [Hcn Hcs Hss]). destruct (Hx x) as [_ Hs].
      { intros f Hf. apply (ClientSide.mi_sent _ _ _ _ _ (ClientSide.cs_mirrors _ _ _ _ _ _ Hcs) f Hf). }
      destruct (Hs Ha y n Hss) as (y' & n' & Hm & Hss'). exists x, y', n'. split; [|exact Hcs|exact Hss'].
      apply connection_sym. eapply connection_moves; [|exact Hm]. by apply connection_sym.
Qed.

(** ** Theorem *)

(** C4: Delivery, from application to application, through the whole library.  However the
    two applications use client and server, whatever the network loses, repeats, delays,
    reorders or makes up without forging a frame of the connection, and whatever other
    clients do: if the client is the only one the server admits from its address, then the
    packets received from the server are an interleaving of a prefix of those given to the
    peer's handle for reliable delivery and of a part of those given for unreliable
    delivery, in order and at most once; and those the server receives from the client are
    so of what was given to the client, the packets given during its handshake first.  The
    bounds are those of the id spaces. *)
Theorem system_end_to_end ccfg scfg a r z : ClientFacts.valid_config ccfg -> valid_config scfg ->
  system_reachable ccfg scfg a r z -> alone a r (sy_server z) ->
  traffic_bounded (bits_drawn (Client.Client.world (sy_client z))) (sy_client_given z) ->
  traffic_bounded (bits_drawn (Peer.world (shared (sy_server z)))) (sy_server_given z) ->
  conveyed (sy_server_given z) (client_received z) /\ conveyed (sy_client_given z) (server_received r z).
Proof.
  intros Hcc Hsc Hz Ha Hbc Hbs. destruct (ClientFacts.valid_endpoint ccfg Hcc) as (cecfg & Hce & Hcok).
  destruct (valid_endpoint_config scfg Hsc) as (secfg & Hse & Hsok).
  destruct (system_joined ccfg scfg cecfg secfg a r z Hcc Hsc Hce Hse Hz) as [_ Hj].
  destruct (Hj Ha) as (x & y & n & [Hcn Hcs [_ Hf Hacc _]]). destruct Hcs as [Hm Hp _].
  pose proof (side_bounded x _ _ (ClientSide.mi_draws _ _ _ _ _ Hm) Hp Hbc) as Hbx.
  assert (Hby : ids_bounded y) by (apply (side_bounded y _ _ (fo_draws _ _ _ _ _ _ Hf)) in Hbs;
    [done|by rewrite Hacc]).
  unfold client_received, server_received. rewrite (ClientSide.mi_packets _ _ _ _ _ Hm), (fo_packets _ _ _ _ _ _ Hf).
  split.
  - rewrite <- Hacc. apply (delivered_one_way secfg cecfg y x); try done; [by apply connection_sym|apply Hbx].
  - apply (conveyed_more _ _ _ Hp). apply (delivered_one_way cecfg secfg x y); try done. apply Hby.
Qed.
End System.

(** ** Driving the system *)

Section Driving.
Context `{BuildProfile} {Sip : Type} `{SipHasher Sip}.

#[export] Instance server_arrivals_dec a sent s q : (forall f, Decision (sent f)) ->
  Decision (request_arrivals a sent s q).
Proof. intros Hd. destruct q; cbn [request_arrivals]; unfold server_arrival; apply _. Defined.

#[export] Instance sent_by_client_dec z f : Decision (sent_by_client z f).
Proof. unfold sent_by_client. apply _. Defined.
#[export] Instance sent_by_server_dec a z f : Decision (sent_by_server a z f).
Proof. unfold sent_by_server. apply _. Defined.

(** A request of one of the two, made from the frames the other has sent so far. *)
Inductive turn : Type :=
| ByClient (q : list (list Z) -> ClientSession.request)
| ByServer (q : list (list Z) -> request).

Definition frames_to (a : SocketAddr) (z : system) : list (list Z) :=
  omap (fun x => if decide (x.1 = a) then Some x.2 else None) (Peer.socket_tx (shared (sy_server z))).

Definition take_turn (a : SocketAddr) (r : PeerRef) (z : system) (t : turn) : option system :=
  match t with
  | ByClient mk =>
      let q := mk (frames_to a z) in
      if decide (ClientSide.request_arrivals (sent_by_server a z) q) then
        match ClientSession.serve (sy_client z) q with
        | Ok (evs, c') => Some (mkSystem (sy_client_seen z ++ evs) c'
            (sy_client_given z ++ ClientSide.request_accepted (sy_client z) q)
            (sy_server_seen z) (sy_server z) (sy_server_given z))
        | Fault _ => None
        end
      else None
  | ByServer mk =>
      let q := mk (Client.Client.socket_tx (sy_client z)) in
      if decide (request_arrivals a (sent_by_client z) (sy_server z) q) then
        match serve (sy_server z) q with
        | Ok (evs, s') => Some (mkSystem (sy_client_seen z) (sy_client z) (sy_client_given z)
            (sy_server_seen z ++ evs) s' (sy_server_given z ++ request_accepted r (sy_server z) q))
        | Fault _ => None
        end
      else None
  end.

Fixpoint drive_system (a : SocketAddr) (r : PeerRef) (z : system) (ts : list turn) : option system :=
  match ts with
  | [] => Some z
  | t :: ts => z ← take_turn a r z t; drive_system a r z ts
  end.

Definition start_system (ccfg : Client.Client.Config) (scfg : Config) (a : SocketAddr) (r : PeerRef) (wc ws : World)
  (ts : list turn) : option system :=
  match Client.Client.connect_with_config ccfg wc, bind_with_config scfg ws with
  | Ok c, Ok s => drive_system a r (mkSystem [] c [] [] s []) ts
  | _, _ => None
  end.

Lemma take_turn_reachable ccfg scfg a r z t z' : system_reachable ccfg scfg a r z -> take_turn a r z t = Some z' ->
  system_reachable ccfg scfg a r z'.
Proof.
  intros Hz. destruct t as [mk|mk]; cbn [take_turn]; (case_decide as Hq; [|done]);
    destruct (_ : outcome _) as [[evs c']|] eqn:Hs; try done; intros [= <-].
  - by apply sy_client_step.
  - by apply sy_server_step.
Qed.

Lemma drive_system_reachable ccfg scfg a r ts : forall z z', system_reachable ccfg scfg a r z ->
  drive_system a r z ts = Some z' -> system_reachable ccfg scfg a r z'.
Proof.
  induction ts as [|t ts IH]; intros z z' Hz; cbn [drive_system]; [by intros [= <-]|].
  intros (z1 & Ht & Hd)%bind_Some. by eapply IH; [eapply take_turn_reachable|].
Qed.

Lemma observe_system {A} ccfg scfg a r wc ws ts (f : system -> A) v : world_ok wc -> world_ok ws ->
  f <$> start_system ccfg scfg a r wc ws ts = Some v -> exists z, system_reachable ccfg scfg a r z /\ f z = v.
Proof.
  intros Hwc Hws Hx. apply fmap_Some in Hx as (z & Hs & ->). exists z. split; [|done]. unfold start_system in Hs.
  destruct (Client.Client.connect_with_config ccfg wc) as [c|] eqn:Hc; [|done].
  destruct (bind_with_config scfg ws) as [s|] eqn:Hb; [|done].
  by apply (drive_system_reachable _ _ _ _ _ _ _ (sy_start ccfg scfg a r wc ws c s Hwc Hws Hc Hb) Hs).
Qed.
End Driving.

(** ** An example: a session with losses and repetitions *)

#[local] Instance system_debug : BuildProfile := true.
#[local] Existing Instance toy_hash.

Definition from_client (fs : list (list Z)) : request := RPoll ((fun f => (f, stranger_addr)) <$> fs).

(** A packet during the handshake, two after it of which one is lost; the server's answer,
    repeated, with garbage. *)
Definition example_session : list turn :=
  [ByClient (fun _ => ClientSession.RSend [1; 2; 3] SendReliable); ByServer from_client; ByClient ClientSession.RPoll;
   ByServer from_client; ByClient ClientSession.RPoll; ByServer from_client;
   ByClient (fun _ => ClientSession.RSend [4] (SendUnreliable 100)); ByServer from_client;
   ByServer (fun _ => RSend 0%nat [5; 6] SendReliable); ByServer (fun _ => RPoll []);
   ByClient (fun fs => ClientSession.RPoll ([[9; 9]] ++ fs ++ fs));
   ByClient (fun _ => ClientSession.RSend [7] SendReliable)].

Definition observe_session (z : system) :=
  (client_received z, server_received 0%nat z, sy_client_given z, sy_server_given z,
   ((fun x => (x.1, Peer.addr (Peer.core x.2))) <$> map_to_list (Peer.store (shared (sy_server z))),
    (bits_drawn (Client.Client.world (sy_client z)), bits_drawn (Peer.world (shared (sy_server z)))))).

Lemma alone_only a r s : (fun x => (x.1, Peer.addr (Peer.core x.2))) <$> map_to_list (Peer.store (shared s)) = [(r,
  a)] ->
  alone a r s.
Proof.
  intros Hl q p Hp. assert (Hin : (q, Peer.addr (Peer.core p)) ∈ [(r, a)]).
  { rewrite <- Hl. apply list_elem_of_fmap. exists (q, p). split; [done|]. by apply elem_of_map_to_list. }
  apply list_elem_of_singleton in Hin as [= -> ->]. done.
Qed.

Lemma system_end_to_end_witness : exists z,
  system_reachable Client.Client.config_default config_default stranger_addr 0%nat z /\
  client_received z = [[5; 6]] /\ server_received 0%nat z = [[1; 2; 3]; [4]] /\
  sy_client_given z = [(SendReliable, [1; 2; 3]); (SendUnreliable 100, [4]); (SendReliable, [7])] /\
  conveyed (sy_server_given z) (client_received z) /\ conveyed (sy_client_given z) (server_received 0%nat z).
Proof.
  assert (Hw : world_ok (example_world 0)) by by apply example_world_ok.
  destruct (observe_system Client.Client.config_default config_default stranger_addr 0%nat (example_world 0)
    (example_world 0) example_session observe_session
    ([[5; 6]], [[1; 2; 3]; [4]], [(SendReliable, [1; 2; 3]); (SendUnreliable 100, [4]); (SendReliable, [7])],
     [(SendReliable, [5; 6])], ([(0%nat, stranger_addr)], (3%nat, 1%nat))) Hw Hw) as (z & Hz & Ho).
  { vm_compute. reflexivity. }
  unfold observe_session in Ho. injection Ho as Hrc Hrs Hgc Hgs Hal Hdc Hds. exists z.
  split; [exact Hz|]. split; [exact Hrc|]. split; [exact Hrs|]. split; [exact Hgc|].
  apply (system_end_to_end Client.Client.config_default config_default stranger_addr 0%nat z).
  - exact ClientSession.default_valid.
  - exact server_default_valid.
  - exact Hz.
  - by apply alone_only.
  - rewrite Hgc, Hdc. split; by vm_compute.
  - rewrite Hgs, Hds. split; by vm_compute.
Defined.
