(* ===== verification/Connection.v ===== *)
(** * A client meets a server

    The two sides of the handshake put together: the frames of one are the input of the
    other.  For every hash function, every clock and every choice of nonces, a client that
    connects to a server with room is admitted, and both applications see [Connect]. *)

From S2P Require Import Prelude Word Frame Serial SerialFacts FrameFacts Prio TimerQueue Reliable.
From S2P Require Import Unreliable Endpoint.
From S2P Require Import FragmentTxFacts EndpointFacts EndpointSafety EndpointMachine.
From S2P Require Import EndpointSession Handshake World.
From S2P Require Import HandshakeMac Peer Server ServerFacts ServerTimers ServerHandshake.
From S2P Require Import ServerSession ServerClaims.
From S2P Require Import Client.
From S2P Require ClientFacts ClientSession.
From stdpp Require Import gmap.

#[local] Open Scope Z_scope.

Import ServerEvent Server.

(** ** The client's half *)

Section ClientHalf.
Context `{BuildProfile}.

Lemma client_params_ok : Client.connection_params_compatible Client.unlimited_params unlimited_params = true.
Proof. reflexivity. Qed.

(** A sealed frame of the server's handshake reaches its handler. *)
Lemma client_receives {A} `{SimpleFrame A} `{BlockSerialOk A} now seen c (x : A) : block_valid x ->
  ClientFacts.client_at now seen c -> exists t c0, now <= t /\ ClientFacts.client_at t seen c0 /\
    Client.state c0 = Client.state c /\ Client.socket_tx c0 = Client.socket_tx c /\
      Client.events c0 = Client.events c /\
    Client.handle_frame c (sealed x) = match FRAME_TYPE A with
      | HandshakeAlphaAck => Client.handle_handshake_alpha_ack c0 (block_encode x) t
      | HandshakeBetaAck => Client.handle_handshake_beta_ack c0 (block_encode x) t
      | ty => Client.handle_frame_other c0 ty (block_encode x) t
      end.
Proof.
  intros Hv Hc. destruct (ClientFacts.read_time_ok now seen c Hc) as (t & w & Hrt & Ht & Hc0).
  destruct (sealed_checks x Hv) as (Hm & Hcrc & Hty & Hp). exists t, (Client.set_world w c). split; [done|].
  split; [done|].
  split; [done|]. split; [done|]. split; [done|]. unfold Client.handle_frame. rewrite Hm, Hty, Hcrc, Hp.
  cbn [negb mbind outcome_bind]. rewrite Hrt. by destruct (FRAME_TYPE A).
Qed.

(** The second request. *)
Definition second_request (ack : HandshakeAlphaAckFrame) : HandshakeBetaFrame :=
  mkHandshakeBetaFrame Client.unlimited_params (haa_client_nonce ack) (haa_server_nonce ack)
    (haa_server_timestamp ack)
    (haa_server_mac ack).

Lemma second_request_valid ack : block_valid ack -> block_valid (second_request ack).
Proof. intros (_ & ? & ? & ? & ?). split; [exact ClientSession.unlimited_valid|done]. Qed.

Lemma client_alpha_ack now seen c tt tm f n ack : ClientFacts.client_at now seen c ->
  Client.state c = Client.Handshake (Client.mkHandshakeState Client.Alpha tt tm [] f n) ->
  block_valid ack -> haa_client_nonce ack = n -> haa_server_params ack = unlimited_params ->
  exists now' c' tt' f', Client.handle_frame c (sealed ack) = Ok c' /\ ClientFacts.client_at now' seen c' /\
    Client.state c' = Client.Handshake (Client.mkHandshakeState Client.Beta tt' tm [] f' n) /\
    Client.socket_tx c' = Client.socket_tx c ++ [sealed (second_request ack)] /\ Client.events c' = Client.events c.
Proof.
  intros Hc Es Hv Hn Hpar. destruct (client_receives now seen c ack Hv Hc)
    as (t & c0 & _ & Hc0 & Hst & Hsent & Hev & Hrd).
  cbn [FRAME_TYPE handshake_alpha_ack_frame] in Hrd. rewrite Hrd. rewrite Es in Hst.
  destruct (ClientSession.alpha_ack_ok t seen c0 (block_encode ack) Hc0 (block_encode_u8 ack Hv)) as (c' & Hr & Hc').
  exists t, c'. rewrite Hr. pose proof (ClientFacts.client_now_max _ _ _ Hc0) as Hmax.
  pose proof (ClientFacts.ci_state _ _ _ Hc0) as Hso. unfold ClientFacts.state_ok in Hso. rewrite Hst in Hso.
  destruct Hso as (_ & Htm & _). cbn in Htm. unfold Client.handle_handshake_alpha_ack in Hr. rewrite Hst in Hr.
  rewrite simple_read_exact in Hr by done. cbn [mbind outcome_bind] in Hr.
  rewrite Hn, Z.eqb_refl, Hpar, client_params_ok in Hr. cbn [andb] in Hr. rewrite <- Hn in Hr.
  unfold Client.HANDSHAKE_RESEND_TIMEOUT_MS, TIME_MAX in *. rewrite !add64_ok in Hr by (unfold two64; lia).
  cbn [mbind outcome_bind] in Hr. fold (second_request ack) in Hr.
  rewrite boxed_sealed in Hr by (done || by apply second_request_valid).
  cbn [mbind outcome_bind] in Hr. generalize dependent (sealed (second_request ack)). intros g Hr.
  injection Hr as <-. subst n. rewrite <- Hsent, <- Hev. exists (t + tm), g.
  split; [done|]. split; [exact Hc'|]. by split.
Qed.

(** A fresh endpoint has nothing to send. *)
Lemma fresh_endpoint_idle cfg e : Endpoint.new cfg = Ok e ->
  UnreliableTxBuffer.fragments (Endpoint.unrel (Endpoint.fragment_tx e)) = [] /\
  ReliableTxBuffer.peek_sendable (Endpoint.rel (Endpoint.fragment_tx e)) = None.
Proof.
  unfold Endpoint.new. intros Hn.
  apply outcome_bind_Ok in Hn as (stx & _ & Hn). apply outcome_bind_Ok in Hn as (ftx & Hf & Hn).
  apply outcome_bind_Ok in Hn as (cc & _ & Hn). apply outcome_bind_Ok in Hn as (urx & _ & Hn).
  apply outcome_bind_Ok in Hn as (rrx & _ & [= <-]). cbn [Endpoint.fragment_tx].
  unfold Endpoint.ftx_new in Hf. apply outcome_bind_Ok in Hf as (u & Hu & Hf).
  apply outcome_bind_Ok in Hf as (r & Hr & [= <-]).
  cbn [Endpoint.unrel Endpoint.rel]. unfold UnreliableTxBuffer.new in Hu.
  apply outcome_bind_Ok in Hu as ([] & _ & [= <-]).
  split; [done|]. unfold ReliableTxBuffer.new in Hr. inv_ok. done.
Qed.

Lemma client_beta_ack now c tt tm f n : ClientFacts.client_at now [] c -> Client.events c = [] ->
  Client.state c = Client.Handshake (Client.mkHandshakeState Client.Beta tt tm [] f n) -> is_u32 n ->
  exists c' e, Client.handle_frame c (sealed (mkHandshakeBetaAckFrame None n)) = Ok c' /\
    Client.state c' = Client.Active e /\ Endpoint.state_id e = Endpoint.Active /\ Client.events c' = [Client.Connect].
Proof.
  intros Hc He Es Hn. set (ack := mkHandshakeBetaAckFrame None n). assert (Hv : block_valid ack) by exact Hn.
  destruct (client_receives now [] c ack Hv Hc) as (t & c0 & _ & Hc0 & Hst & _ & Hev & Hrd).
  cbn [FRAME_TYPE handshake_beta_ack_frame] in Hrd. rewrite Hrd. rewrite Es in Hst. rewrite He in Hev.
  unfold Client.handle_handshake_beta_ack. rewrite Hst, simple_read_exact by done.
  cbn [mbind outcome_bind hba_client_nonce ack].
  rewrite Z.eqb_refl. cbn [hba_error ack]. change (Client.config (Client.set_timer None c0)) with (Client.config c0).
  destruct (ClientFacts.valid_endpoint _ (ClientFacts.ci_config _ _ _ Hc0)) as (cfg & -> & Hcfg).
  cbn [mbind outcome_bind].
  destruct (endpoint_new_ok cfg Hcfg) as (e & He' & _ & Hs & _). rewrite He'. cbn [mbind outcome_bind].
  unfold Endpoint.init. rewrite debug_assert_true by by apply bool_decide_eq_true.
  cbn [mbind outcome_bind Client.enqueue_all].
  destruct (fresh_endpoint_idle cfg e He') as [Hu Hr].
  match goal with |- context [@Endpoint.flush _ ?C ?h ?g ?x ?y ?z] =>
    destruct (flush_idle (H0 := h) (H1 := g) x y z) as (e2 & Hf & [Ha _ _]); [by split|]; rewrite Hf end.
  cbn [mbind outcome_bind]. eexists _, e2. split; [done|]. split; [done|]. split; [done|]. cbn. by rewrite Hev.
Qed.
End ClientHalf.

(** ** The server's half *)

Section ServerHalf.
Context `{BuildProfile} {Sip : Type} `{SipHasher Sip}.

(** The time a server reads next. *)
Definition server_now (s : ServerCore) : Z := World.now (Peer.world (shared s)).

(** A frame of the handshake reaches its handler, after one reading of the clock. *)
Lemma server_receives `{ServerConfig} now seen s f a t p : server_at now seen [] s -> carries f t p ->
  exists w s0, s0 = set_shared (Peer.set_world w (shared s)) s /\ server_at (server_now s) seen [] s0 /\
    handle_frame s f a = match t with
      | HandshakeAlpha => handle_handshake_alpha s0 f a (server_now s)
      | HandshakeBeta => handle_handshake_beta s0 f a (server_now s)
      | _ => handle_frame_other s0 t f a
      end.
Proof.
  intros Hs [Hm Ht Hp _]. destruct (server_read_time now seen [] s Hs) as (t' & w & Hrt & _ & Hs0).
  exists w, (set_shared (Peer.set_world w (shared s)) s). split; [done|].
  assert (Et : t' = server_now s).
  { destruct (time_now_ms_now _ (si_world _ _ _ _ Hs)) as (w' & Hw & _). unfold Peer.read_time in Hrt.
    rewrite Hw in Hrt. by injection Hrt as <- _. }
  rewrite <- Et. split; [done|]. unfold handle_frame. rewrite Hm, Ht. cbn [negb mbind outcome_bind].
  unfold read_time. rewrite Hrt. by destruct t.
Qed.

Lemma server_alpha `{ServerConfig} now seen s a nonce : server_at now seen [] s -> is_u32 nonce ->
  exists s' n, is_u32 n /\ handle_frame s (padded (mkHandshakeAlphaFrame PROTOCOL_ID nonce)) a = Ok s' /\
    Peer.socket_tx (shared s') = Peer.socket_tx (shared s) ++ [(a, sealed (alpha_ack s a nonce n (server_now s)))].
Proof.
  intros Hs Hn. set (fr := mkHandshakeAlphaFrame PROTOCOL_ID nonce).
  assert (Hv : block_valid fr) by (split; [by vm_compute|done]).
  destruct (padded_checks fr Hv) as ([r Hc] & Hb). destruct (server_receives now seen s _ a _ _ Hs Hc)
    as (w & s0 & E0 & Hs0 & Hh).
  rewrite Hh. destruct (random_u32_ok _ (si_world _ _ _ _ Hs0)) as (Hsn & _).
  exists (alpha_answered s0 a nonce (server_now s)), (random_u32 (Peer.world (shared s0))).1. split; [done|].
  destruct Hc as [_ _ Hp _]. split.
  - rewrite (alpha_result (server_now s) s0 _ a true (Some fr)); [done|exact (si_world _ _ _ _ Hs0)|exact Hb| |done].
    rewrite Hp. by apply simple_read_encode.
  - unfold alpha_answered. destruct (random_u32 _) as [n w']. cbn [fst]. by subst s0.
Qed.

(** The answer is accepted while the server keeps its key and ten seconds have not passed. *)
Lemma echo_authentic s s0 a ack t t' cn n : handshake_mac_hasher s0 = handshake_mac_hasher s ->
  ack = alpha_ack s a cn n t -> 0 <= t <= t' -> t' < t + HANDSHAKE_TIMEOUT_MS ->
  authentic s0 a (second_request ack) t' = true.
Proof.
  intros Hk -> Ht Hd. unfold authentic, second_request, alpha_ack.
  cbn [hb_server_mac hb_client_nonce hb_server_nonce hb_server_timestamp haa_client_nonce haa_server_nonce
       haa_server_timestamp haa_server_mac]. rewrite Hk, Z.eqb_refl. apply Z.ltb_lt.
  unfold HANDSHAKE_TIMEOUT_MS, wrapping_sub, wrap32, two32 in *. rewrite <- Zminus_mod.
  rewrite Z.mod_small; lia.
Qed.

Lemma server_beta `{ServerConfig} now seen s s1 a ack t cn n : server_at now seen [] s -> block_valid ack ->
  handshake_mac_hasher s = handshake_mac_hasher s1 -> ack = alpha_ack s1 a cn n t ->
  0 <= t <= server_now s -> server_now s < t + HANDSHAKE_TIMEOUT_MS ->
  peers s !! a = None -> peer_count s < peer_count_max (config s) ->
  exists s' r, handle_frame s (sealed (second_request ack)) a = Ok s' /\ peers s' !! a = Some r /\
    Peer.events (shared s') = Peer.events (shared s) ++ [Connect r] /\
    Peer.socket_tx (shared s') = Peer.socket_tx (shared s) ++ [(a, sealed (mkHandshakeBetaAckFrame None cn))].
Proof.
  intros Hs Hv Hk Hack Ht Hd Ha Hroom. pose proof (second_request_valid ack Hv) as Hv2.
  destruct (sealed_carries _ Hv2) as [Hc _]. destruct (server_receives now seen s _ a _ _ Hs Hc)
    as (w & s0 & E0 & Hs0 & Hh).
  rewrite Hh. cbn [FRAME_TYPE handshake_beta_frame].
  rewrite (beta_result (server_now s) s0 _ a true (Some (second_request ack)));
    [|by apply beta_checks| |exact Hv2].
  2:{ destruct Hc as [_ _ -> _]. by apply simple_read_exact. }
  rewrite (echo_authentic s1 s0 a ack t (server_now s) cn n) by (done || by rewrite E0).
  assert (Hp0 : peers s0 = peers s) by by subst s0. assert (Hc0 : config s0 = config s) by by subst s0.
  assert (Had : admits s0 a (second_request ack) = true).
  { unfold admits, peer_count. rewrite Hp0, Hc0, Ha. apply andb_true_iff. split; [|done].
    rewrite bool_decide_eq_false_2 by by intros []. by apply Z.ltb_lt. }
  rewrite Had. destruct (add_peer_ok _ _ s0 a Hs0) as (n' & s' & r & _ & -> & _ & Hadm); [by rewrite Hp0| |].
  { unfold peer_count. by rewrite Hp0, Hc0. }
  cbn [mbind outcome_bind]. destruct Hadm as [_ Hpe Hev Hse _ _ _].
  exists (send_to (sealed (beta_ack s0 a (second_request ack))) a s'), r. split; [done|].
  split; [change (peers (send_to ?f a s')) with (peers s'); rewrite Hpe; apply lookup_insert_eq|].
  split; [by change (Peer.events (shared (send_to ?f a s'))) with (Peer.events (shared s')); rewrite Hev; subst s0|].
  assert (Hba : beta_ack s0 a (second_request ack) = mkHandshakeBetaAckFrame None cn).
  { unfold beta_ack, verdict, peer_count. rewrite Hp0, Hc0, Ha. rewrite bool_decide_eq_false_2 by by intros [].
    unfold peer_count in Hroom. rewrite (proj2 (Z.leb_gt _ _)) by done. by subst ack. }
  rewrite Hba. generalize (sealed (mkHandshakeBetaAckFrame None cn)). intros g.
  change (Peer.socket_tx (shared (send_to g a s'))) with (Peer.socket_tx (shared s') ++ [(a, g)]). by rewrite Hse, E0.
Qed.
End ServerHalf.

(** ** The whole handshake *)

Lemma connect_fresh `{BuildProfile} cfg w c : ClientFacts.valid_config cfg -> world_ok w ->
  Client.connect_with_config cfg w = Ok c ->
  exists tt tm f n, is_u32 n /\ f = padded (mkHandshakeAlphaFrame PROTOCOL_ID n) /\
    Client.socket_tx c = [f] /\ Client.events c = [] /\
    Client.state c = Client.Handshake (Client.mkHandshakeState Client.Alpha tt tm [] f n).
Proof.
  intros Hcfg Hw. unfold Client.connect_with_config. rewrite (ClientFacts.vc_valid _ Hcfg). cbn [mbind outcome_bind].
  destruct (random_u32_ok w Hw) as (Hn & _). destruct (random_u32 w) as [nonce w']. cbn [fst] in Hn.
  assert (Hv : block_valid (mkHandshakeAlphaFrame PROTOCOL_ID nonce)) by (split; [by vm_compute|exact Hn]).
  change Client.FRAME_SIZE_MAX with HANDSHAKE_ALPHA_FRAME_SIZE_MAX. rewrite (write_padded _ Hv).
  cbn [mbind outcome_bind].
  intros Hr. exists (Client.handshake_timeout_ms cfg), (Client.handshake_timeout_ms cfg),
    (padded (mkHandshakeAlphaFrame PROTOCOL_ID nonce)), nonce.
  generalize dependent (padded (mkHandshakeAlphaFrame PROTOCOL_ID nonce)). intros f [= <-]. split; [exact Hn|].
  by repeat split.
Qed.

(** C7: A client that connects to a server with room is admitted, and both applications see
    [Connect].  The frames are the ones the two programs produce for each other: the request,
    the server's answer to it, the second request and its acknowledgement.  Between the two
    requests the server may do anything and serve anyone; it is enough that it still has its
    key, has room and no peer at that address, and that its clock has advanced by less than
    ten seconds. *)
Theorem connection_established `{BuildProfile} {Sip : Type} `{SipHasher Sip} ccfg w c scfg seen s a :
  ClientFacts.valid_config ccfg -> world_ok w -> Client.connect_with_config ccfg w = Ok c ->
  valid_config scfg -> server_reachable scfg seen s ->
  exists hello s' ack c',
    Client.socket_tx c = [hello] /\
    handle_frame s hello a = Ok s' /\ Peer.socket_tx (shared s') = Peer.socket_tx (shared s) ++ [(a, ack)] /\
    Client.handle_frame c ack = Ok c' /\
    exists hello2, Client.socket_tx c' = [hello; hello2] /\
    forall seen2 s2, server_reachable scfg seen2 s2 -> handshake_mac_hasher s2 = handshake_mac_hasher s ->
      server_now s <= server_now s2 < server_now s + HANDSHAKE_TIMEOUT_MS ->
      peers s2 !! a = None -> peer_count s2 < peer_count_max scfg ->
      exists s2' r ack2 c'' e,
        handle_frame s2 hello2 a = Ok s2' /\ peers s2' !! a = Some r /\
        Peer.events (shared s2') = Peer.events (shared s2) ++ [Connect r] /\
        Peer.socket_tx (shared s2') = Peer.socket_tx (shared s2) ++ [(a, ack2)] /\
        Client.handle_frame c' ack2 = Ok c'' /\ Client.state c'' = Client.Active e /\
        Endpoint.state_id e = Endpoint.Active /\ Client.events c'' = [Client.Connect].
Proof.
  intros Hccfg Hw Hc Hscfg Hr. pose proof (ClientSession.connect_ok ccfg w c Hccfg Hw Hc) as Hat.
  destruct (connect_fresh ccfg w c Hccfg Hw Hc) as (tt & tm & f & n & Hn & Hf & Htx & Hev & Hst).
  destruct (server_reachable_at scfg seen s Hscfg Hr) as [now Hs].
  destruct (server_alpha (H1 := scfg) now seen s a n Hs Hn) as (s' & m & Hm & Hh & Hse). rewrite <- Hf in Hh.
  pose proof (alpha_ack_valid s a n m (server_now s) Hn Hm) as Hva.
  destruct (client_alpha_ack _ [] c tt tm f n (alpha_ack s a n m (server_now s)) Hat Hst Hva)
    as (now' & c' & tt' & f' & Hc' & Hat' & Hst' & Htx' & Hev'); [done|done|].
  exists f, s', (sealed (alpha_ack s a n m (server_now s))), c'. split; [done|]. split; [done|]. split; [done|].
  split; [done|].
  eexists. split; [by rewrite Htx', Htx|]. intros seen2 s2 Hr2 Hk Hd Ha Hroom.
  destruct (server_reachable_at scfg seen2 s2 Hscfg Hr2) as [now2 Hs2].
  pose proof (si_now _ _ _ _ Hs) as Hnow. pose proof (now_range _ (si_world _ _ _ _ Hs)).
  rewrite <- (si_saved _ _ _ _ Hs2 : config s2 = scfg) in Hroom. unfold server_now in Hd |- *.
  destruct (server_beta (H1 := scfg) now2 seen2 s2 s a _ _ n m Hs2 Hva Hk eq_refl) as (s2' & r & Hh2 & Hp & He & Hx);
    [unfold server_now; lia|unfold server_now; lia|done|done|].
  rewrite Hev in Hev'. destruct (client_beta_ack now' c' tt' tm f' n Hat' Hev' Hst' Hn)
    as (c'' & e & Hc'' & Hst'' & Hse'' & He'').
  by exists s2', r, (sealed (mkHandshakeBetaAckFrame None n)), c'', e.
Qed.

#[local] Instance connection_debug : BuildProfile := true.
#[local] Existing Instance toy_hash.

Lemma connection_established_witness : exists c seen s s' hello hello2 c' r ack2 c'' e,
  Client.connect_with_config Client.config_default (example_world 0) = Ok c /\
  server_reachable config_default seen s /\
  Client.handle_frame c' ack2 = Ok c'' /\ handle_frame s hello2 stranger_addr = Ok s' /\
  Client.socket_tx c' = [hello; hello2] /\ peers s' !! stranger_addr = Some r /\
  Client.state c'' = Client.Active e /\ Endpoint.state_id e = Endpoint.Active /\ Client.events c'' = [Client.Connect].
Proof.
  assert (Hw : world_ok (example_world 0)) by by apply example_world_ok.
  destruct (ClientSession.connect_returns Client.config_default (example_world 0) ClientSession.default_valid Hw)
    as [c Hc].
  destruct (example_server [] (fun x => (bool_decide (peers x.2 !! stranger_addr = None), peer_count x.2)) (true, 0))
    as (seen & s & Hr & Ho); [vm_compute; reflexivity|].
  cbn [snd] in Ho. injection Ho as Ha%bool_decide_eq_true Hn.
  destruct (connection_established Client.config_default (example_world 0) c config_default seen s stranger_addr
    ClientSession.default_valid Hw Hc server_default_valid Hr)
      as (hello & _ & ack & c' & _ & _ & _ & _ & hello2 & Hx & Hk).
  destruct (Hk seen s Hr eq_refl) as (s2 & r & ack2 & c'' & e & Hh & Hp & _ & _ & Hc'' & Hst & Hse & Hev);
    [unfold HANDSHAKE_TIMEOUT_MS; lia|exact Ha|rewrite Hn; reflexivity|].
  exists c, seen, s, s2, hello, hello2, c', r, ack2, c'', e. split_and!; assumption.
Defined.
