(* ===== verification/Testing.v ===== *)
(** * The vocabulary of the unit tests

    The [#[test]] functions of the crate are modelled like the code they call: a test is a
    computation that returns, or panics at an assertion that does not hold.  This file has
    what they are written with: [assert_eq!], [Option::unwrap], [for] loops over ranges and
    slices, and the random numbers they draw. *)

From S2P Require Import Prelude Word.

Definition assert_eq {A} `{EqDecision A} (x y : A) : outcome () := assert_ (bool_decide (x = y)).

Lemma assert_eq_refl {A} `{EqDecision A} (x : A) : assert_eq x x = Ok ().
Proof. unfold assert_eq. by rewrite bool_decide_eq_true_2. Qed.

Definition unwrap {A} (x : option A) : outcome A := match x with Some a => Ok a | None => Fault Panicked end.

(** [for x in l { s = body(x, s) }]. *)
Fixpoint for_each {A S} (l : list A) (s : S) (body : A -> S -> outcome S) : outcome S :=
  match l with
  | [] => Ok s
  | x :: l => s ← body x s; for_each l s body
  end.

(** [a..b] and [a..=b]. *)
Definition range (a b : Z) : list Z := seqZ a (b - a).
Definition range_incl (a b : Z) : list Z := seqZ a (b - a + 1).

(** [iter().enumerate()]. *)
Definition enumerate {A} (l : list A) : list (Z * A) := zip (seqZ 0 (zlen l)) l.

Definition returns (m : outcome ()) : bool := match m with Ok _ => true | Fault _ => false end.

Lemma returns_ok m : returns m = true -> m = Ok ().
Proof. by destruct m as [[]|]. Qed.

(** ** Loops *)

Lemma for_each_app {A S} (l k : list A) (s : S) body :
  for_each (l ++ k) s body = (s ← for_each l s body; for_each k s body).
Proof.
  revert s. induction l as [|x l IH]; intros s; [done|]. cbn [for_each app].
  rewrite outcome_bind_assoc. destruct (body x s); cbn [mbind outcome_bind]; [apply IH|done].
Qed.

(** The rule of a [for] loop over a range: [I i] holds before turn [i]. *)
Lemma for_range_inv {S} (I : Z -> S -> Prop) a b s body :
  I a s -> a <= b -> (forall i t, a <= i < b -> I i t -> exists t', body i t = Ok t' /\ I (i + 1) t') ->
  exists s', for_each (range a b) s body = Ok s' /\ I b s'.
Proof.
  intros Hs Hab Hb. unfold range. assert (Hn : exists n, b = a + Z.of_nat n) by (exists (Z.to_nat (b - a)); lia).
  destruct Hn as [n ->]. rewrite Z.add_simpl_l. clear Hab. revert a s Hs Hb. induction n as [|n IH]; intros a s Hs Hb.
  - exists s. by rewrite Z.add_0_r.
  - rewrite seqZ_cons by lia. cbn [for_each]. destruct (Hb a s ltac:(lia) Hs) as (t & -> & Ht).
    cbn [mbind outcome_bind]. replace (Z.pred (Z.of_nat (Datatypes.S n))) with (Z.of_nat n) by lia.
    replace (a + Z.of_nat (Datatypes.S n)) with (Z.succ a + Z.of_nat n) by lia.
    apply IH; [done|]. intros i u Hi. apply Hb. lia.
Qed.

(** The same when the states are known: [f i] is the one before turn [i]. *)
Lemma for_range {S} (f : Z -> S) a b s body :
  s = f a -> a <= b -> (forall i, a <= i < b -> body i (f i) = Ok (f (i + 1))) ->
  for_each (range a b) s body = Ok (f b).
Proof.
  intros Hs Hab Hb. destruct (for_range_inv (fun i t => t = f i) a b s body Hs Hab) as (s' & Hr & ->); [|done].
  intros i t Hi ->. exists (f (i + 1)). split; [by apply Hb|done].
Qed.

(** Loops with the same bodies are the same. *)
Lemma for_each_ext {A S} (l : list A) (s : S) body body' :
  (forall x t, x ∈ l -> body x t = body' x t) -> for_each l s body = for_each l s body'.
Proof.
  revert s. induction l as [|x l IH]; intros s Hb; [done|]. cbn [for_each].
  rewrite Hb by apply list_elem_of_here. destruct (body' x s); cbn [mbind outcome_bind]; [|done].
  apply IH. intros y t Hy. apply Hb. by apply list_elem_of_further.
Qed.

(** A closed test is run in both build profiles. *)
Ltac run_test :=
  match goal with H : BuildProfile |- _ => unfold BuildProfile in H; destruct H; vm_compute; reflexivity end.
