(* ===== verification/BufferTests.v ===== *)
(** * The unit tests of the buffers ([buffer/reliable.rs], [buffer/unreliable.rs])

    Every test of the two [mod tests], loop by loop.  A test returns in both build
    profiles: the buffers of this library do what the authors of the code expect of
    theirs, over whole sweeps of ids across the wrap-around. *)

From S2P Require Import Prelude Word Fragment Reliable ReliableFacts Unreliable Testing.

(** A packet and the ranges of its fragments. *)
Record Trial : Set := mkTrial { packet_data : list Z; ranges : list (Z * Z) }.

Definition fragmentation_trials : list Trial := [
  mkTrial [] [(0, 0)];
  mkTrial [0] [(0, 1)];
  mkTrial [0; 1] [(0, 2)];
  mkTrial [0; 1; 2] [(0, 3)];
  mkTrial [0; 1; 2; 3] [(0, 4)];
  mkTrial [0; 1; 2; 3; 4] [(0, 4); (4, 5)];
  mkTrial [0; 1; 2; 3; 4; 5] [(0, 4); (4, 6)];
  mkTrial [0; 1; 2; 3; 4; 5; 6] [(0, 4); (4, 7)];
  mkTrial [0; 1; 2; 3; 4; 5; 6; 7] [(0, 4); (4, 8)];
  mkTrial [0; 1; 2; 3; 4; 5; 6; 7; 8] [(0, 4); (4, 8); (8, 9)]].

Module ReliableTests.
Import ReliableTxBuffer.

Definition peek_and_pop_sendable (send_buf : TxBuffer) : outcome (TxBuffer * option (Z * FragmentRc)) :=
  let peek_result := peek_sendable send_buf in
  let '(send_buf, pop_result) := pop_sendable send_buf in
  _ ← assert_eq peek_result pop_result;
  Ok (send_buf, pop_result).

(** The bytes of an id, most significant first. *)
Definition id_bytes (id : Z) : list Z :=
  [Z.shiftr id 24 mod two8; Z.shiftr id 16 mod two8; Z.shiftr id 8 mod two8; id mod two8].

Definition push_basic (send_buf : TxBuffer) (id : Z) : outcome TxBuffer := push send_buf (id_bytes id).

Definition expect_pop_basic (send_buf : TxBuffer) (id : Z) : outcome TxBuffer :=
  '(send_buf, popped) ← peek_and_pop_sendable send_buf;
  '(fragment_id, fragment) ← unwrap popped;
  _ ← assert_eq fragment_id id;
  _ ← assert_eq fragment (mkFragmentRc true true (id_bytes id) (0, 4));
  Ok send_buf.

Definition expect_pop_fail (send_buf : TxBuffer) : outcome TxBuffer :=
  '(send_buf, popped) ← peek_and_pop_sendable send_buf;
  _ ← assert_eq popped None;
  Ok send_buf.

Section Tests.
Context `{BuildProfile}.

Definition expect_ack (send_buf : TxBuffer) (new_base_id : Z) : outcome TxBuffer :=
  '(send_buf, accepted) ← acknowledge send_buf new_base_id;
  _ ← assert_eq accepted true;
  Ok send_buf.

Definition expect_ack_fail (send_buf : TxBuffer) (new_base_id : Z) : outcome TxBuffer :=
  '(send_buf, accepted) ← acknowledge send_buf new_base_id;
  _ ← assert_eq accepted false;
  Ok send_buf.

Definition fragmentation_trial (initial_base_id window_size fragment_size : Z) (trial : Trial) : outcome () :=
  _ ← assert_ (zlen (ranges trial) <=? window_size);
  send_buf ← new initial_base_id fragment_size window_size;
  send_buf ← push send_buf (packet_data trial);
  send_buf ← for_each (enumerate (ranges trial)) send_buf (fun '(idx, range) send_buf =>
    '(send_buf, popped) ← peek_and_pop_sendable send_buf;
    '(fragment_id, fragment) ← unwrap popped;
    _ ← assert_eq fragment_id (wrapping_add initial_base_id idx);
    _ ← assert_eq fragment (mkFragmentRc (idx =? 0) (idx =? zlen (ranges trial) - 1) (packet_data trial) range);
    Ok send_buf);
  _ ← expect_pop_fail send_buf;
  Ok ().

(** A trial for every id from [-count] to 0, with wrap-around. *)
Definition id_sweep (count : Z) (trial : Z -> outcome ()) : outcome () :=
  _ ← for_each (range_incl 0 count) (wrapping_sub 0 count) (fun _ initial_base_id =>
    _ ← trial initial_base_id; Ok (wrapping_add initial_base_id 1));
  Ok ().

Definition send_fragmentation : outcome () :=
  let FRAGMENT_SIZE := 4 in
  let WINDOW_SIZE := 16 in
  let ID_SWEEP_SIZE := 4 in
  id_sweep ID_SWEEP_SIZE (fun initial_base_id =>
    for_each fragmentation_trials () (fun trial _ =>
      fragmentation_trial initial_base_id WINDOW_SIZE FRAGMENT_SIZE trial)).

(** Pops [count] fragments from id [next_pop_id] on, and counts them off [queue_size]. *)
Definition pop_block (count : Z) (st : TxBuffer * Z * Z) : outcome (TxBuffer * Z * Z) :=
  for_each (range 0 count) st (fun _ '(send_buf, next_pop_id, queue_size) =>
    send_buf ← expect_pop_basic send_buf next_pop_id;
    queue_size ← sub32 queue_size 1;
    Ok (send_buf, wrapping_add next_pop_id 1, queue_size)).

(** The [loop] of [ack_advancement_trial]: every turn takes something off the queue. *)
Fixpoint ack_blocks (fuel : nat) (block_size next_ack_id : Z) (st : TxBuffer * Z * Z) : outcome () :=
  match fuel with
  | O => Fault OutOfFuel
  | S fuel =>
      let '(send_buf, next_pop_id, queue_size) := st in
      send_buf ← expect_ack send_buf next_ack_id;
      let next_ack_id := wrapping_add next_ack_id block_size in
      '(send_buf, next_pop_id, queue_size) ← pop_block (Z.min block_size queue_size)
        (send_buf, next_pop_id, queue_size);
      send_buf ← expect_pop_fail send_buf;
      if queue_size =? 0 then Ok () else ack_blocks fuel block_size next_ack_id (send_buf, next_pop_id, queue_size)
  end.

Definition ack_advancement_trial (initial_base_id block_size window_size : Z) : outcome () :=
  let FRAGMENT_SIZE := 8 in
  _ ← assert_ (0 <? block_size);
  _ ← assert_ (block_size <=? window_size);
  send_buf ← new initial_base_id FRAGMENT_SIZE window_size;
  send_buf ← for_each (range 0 (3 * window_size)) send_buf (fun i send_buf =>
    push_basic send_buf (wrapping_add initial_base_id i));
  '(send_buf, next_pop_id, queue_size) ← pop_block window_size (send_buf, initial_base_id, 3 * window_size);
  send_buf ← expect_pop_fail send_buf;
  ack_blocks (Z.to_nat (3 * window_size)) block_size (wrapping_add initial_base_id block_size)
    (send_buf, next_pop_id, queue_size).

Definition ack_advancement : outcome () :=
  let WINDOW_SIZE := 16 in
  let ID_SWEEP_SIZE := 3 * WINDOW_SIZE in
  id_sweep ID_SWEEP_SIZE (fun initial_base_id =>
    for_each (range_incl 1 WINDOW_SIZE) () (fun block_size _ =>
      ack_advancement_trial initial_base_id block_size WINDOW_SIZE)).

(** A buffer with a full window of basic packets, the first [send_count] of them sent. *)
Definition partly_sent (initial_base_id window_size send_count : Z) : outcome TxBuffer :=
  let FRAGMENT_SIZE := 8 in
  send_buf ← new initial_base_id FRAGMENT_SIZE window_size;
  send_buf ← for_each (range 0 window_size) send_buf (fun i send_buf =>
    push_basic send_buf (wrapping_add initial_base_id i));
  for_each (range 0 send_count) send_buf (fun i send_buf =>
    expect_pop_basic send_buf (wrapping_add initial_base_id i)).

Definition invalid_acks_trial (initial_base_id window_size : Z) : outcome () :=
  let test_margin_size := window_size in
  for_each (range 0 window_size) () (fun send_count _ =>
    send_buf ← partly_sent initial_base_id window_size send_count;
    send_buf ← for_each (range 1 test_margin_size) send_buf (fun i send_buf =>
      send_buf ← expect_ack_fail send_buf (wrapping_sub initial_base_id i);
      expect_ack_fail send_buf (wrapping_add (wrapping_add initial_base_id send_count) i));
    send_buf ← for_each (range_incl 0 send_count) send_buf (fun i send_buf =>
      expect_ack send_buf (wrapping_add initial_base_id i));
    send_buf ← expect_ack send_buf (wrapping_add initial_base_id send_count);
    send_buf ← expect_ack_fail send_buf (wrapping_sub (wrapping_add initial_base_id send_count) 1);
    _ ← expect_ack_fail send_buf (wrapping_add (wrapping_add initial_base_id send_count) 1);
    Ok ()).

Definition invalid_acks : outcome () :=
  let WINDOW_SIZE := 16 in
  let ID_SWEEP_SIZE := 2 * WINDOW_SIZE in
  id_sweep ID_SWEEP_SIZE (fun initial_base_id => invalid_acks_trial initial_base_id WINDOW_SIZE).

(** Three duplicate acknowledgements, which trigger a resend. *)
Definition acknowledge_thrice (send_buf : TxBuffer) (base_id : Z) : outcome TxBuffer :=
  '(send_buf, _) ← acknowledge send_buf base_id;
  '(send_buf, _) ← acknowledge send_buf base_id;
  '(send_buf, _) ← acknowledge send_buf base_id;
  Ok send_buf.

Definition resend_trial (initial_base_id window_size : Z) : outcome () :=
  for_each (range_incl 1 window_size) () (fun send_count _ =>
    send_buf ← partly_sent initial_base_id window_size send_count;
    send_buf ← acknowledge_thrice send_buf initial_base_id;
    send_buf ← for_each (range 0 send_count) send_buf (fun i send_buf =>
      expect_pop_basic send_buf (wrapping_add initial_base_id i));
    let send_buf := resend_all send_buf in
    _ ← for_each (range 0 send_count) send_buf (fun i send_buf =>
      expect_pop_basic send_buf (wrapping_add initial_base_id i));
    Ok ()).

Definition resend : outcome () :=
  let WINDOW_SIZE := 16 in
  let ID_SWEEP_SIZE := WINDOW_SIZE in
  id_sweep ID_SWEEP_SIZE (fun initial_base_id => resend_trial initial_base_id WINDOW_SIZE).

Definition resend_resync_trial (initial_base_id window_size : Z) : outcome () :=
  for_each (range_incl 1 window_size) () (fun send_count _ =>
    send_buf ← partly_sent initial_base_id window_size send_count;
    send_buf ← acknowledge_thrice send_buf initial_base_id;
    _ ← for_each (range 1 send_count) send_buf (fun i send_buf =>
      '(send_buf, _) ← acknowledge send_buf (wrapping_add initial_base_id i);
      expect_pop_basic send_buf (wrapping_add initial_base_id i));
    Ok ()).

Definition resend_resync : outcome () :=
  let WINDOW_SIZE := 16 in
  let ID_SWEEP_SIZE := WINDOW_SIZE in
  id_sweep ID_SWEEP_SIZE (fun initial_base_id => resend_resync_trial initial_base_id WINDOW_SIZE).

End Tests.

Lemma send_fragmentation_passes `{BuildProfile} : send_fragmentation = Ok ().
Proof. vm_compute. reflexivity. Qed.

(** ** Every trial returns

    The sweeps of the tests try some ids and block sizes.  The trials return for all of
    them: a buffer in a test represents an abstract send window ([represents]), whose
    state a trial knows at every point. *)
Section Trials.
Context `{BuildProfile} (start w : Z) (Hstart : is_u32 start) (Hw : 0 < w <= 1073741824).

#[local] Abbreviation id_of := (ReliableFacts.id_of start).
Definition basic (k : Z) : FragmentRc := mkFragmentRc true true (id_bytes (wrap32 (start + k))) (0, 4).

(** [n] basic packets pushed, [a] acknowledged, the one at [p] next, [m] sent at most. *)
Definition window (n a p m d : Z) : SendWindow.t := SendWindow.mk (basic <$> seqZ 0 n) a p m d.
Definition buffer (n a p m d : Z) : TxBuffer := represents start 8 w (window n a p m d).
Definition ok (n a p m d : Z) : Prop := 0 <= a <= p /\ p <= m <= n /\ m <= a + w /\ 0 <= d < 3.

Lemma window_valid n a p m d : ok n a p m d -> window_ok w (window n a p m d).
Proof.
  intros (? & ? & ? & ?). split; unfold window; cbn; try lia.
  unfold zlen. rewrite length_fmap, length_seqZ. lia.
Qed.

Lemma basic_lookup n k : 0 <= k < n -> (basic <$> seqZ 0 n) !! Z.to_nat k = Some (basic k).
Proof.
  intros Hk. rewrite list_lookup_fmap, (proj2 (lookup_seqZ _ _ _ k)); [done|]. lia.
Qed.

Lemma push_step n a p m d : ok n a p m d ->
  push_basic (buffer n a p m d) (id_of n) = Ok (buffer (n + 1) a p m d).
Proof.
  intros Hok. unfold push_basic, buffer. rewrite push_represents by (lia || (by apply window_valid)).
  unfold SendWindow.push, window. cbn [SendWindow.stream SendWindow.base SendWindow.next SendWindow.limit
    SendWindow.dups]. do 3 f_equal. rewrite seqZ_app by (unfold ok in Hok; lia).
  by rewrite fmap_app, Z.add_0_l.
Qed.

Lemma pop_step n a p m d : ok n a p m d -> p < n -> p < a + w ->
  expect_pop_basic (buffer n a p m d) (id_of p) = Ok (buffer n a (p + 1) (Z.max m (p + 1)) d).
Proof.
  intros Hok Hn Ha. unfold expect_pop_basic, peek_and_pop_sendable, buffer.
  destruct (pop_represents start 8 w ltac:(unfold two32; lia) _ (window_valid _ _ _ _ _ Hok)) as [-> ->].
  unfold SendWindow.pop, window. cbn [SendWindow.stream SendWindow.base SendWindow.next SendWindow.limit
    SendWindow.dups]. rewrite (proj2 (Z.ltb_lt p (a + w)) Ha), basic_lookup by (unfold ok in Hok; lia).
  cbn [fst snd number fmap option_fmap option_map]. rewrite assert_eq_refl.
  cbn [mbind outcome_bind unwrap]. rewrite !assert_eq_refl. done.
Qed.

Lemma pop_stop n a p m d : ok n a p m d -> n <= p \/ a + w <= p ->
  expect_pop_fail (buffer n a p m d) = Ok (buffer n a p m d).
Proof.
  intros Hok Hn. unfold expect_pop_fail, peek_and_pop_sendable, buffer.
  destruct (pop_represents start 8 w ltac:(unfold two32; lia) _ (window_valid _ _ _ _ _ Hok)) as [-> ->].
  assert (Hp : SendWindow.pop w (window n a p m d) = (window n a p m d, None)).
  { unfold SendWindow.pop, window. cbn [SendWindow.stream SendWindow.base SendWindow.next].
    case_bool; [|done]. rewrite lookup_ge_None_2; [done|]. rewrite length_fmap, length_seqZ.
    unfold ok in Hok. lia. }
  rewrite Hp. cbn [fst snd number fmap option_fmap option_map]. rewrite assert_eq_refl.
  cbn [mbind outcome_bind]. by rewrite assert_eq_refl.
Qed.

(** What [acknowledge] does with the id of position [k]. *)
Lemma ack_any n a p m d k : ok n a p m d -> a <= k < a + two32 ->
  acknowledge (buffer n a p m d) (id_of k) =
  Ok (represents start 8 w (SendWindow.ack (window n a p m d) k).1, (SendWindow.ack (window n a p m d) k).2).
Proof.
  intros Hok Hk. unfold buffer. rewrite ack_represents; [|unfold two32; lia|by apply window_valid|apply wrap32_range].
  replace (ack_position start (window n a p m d) (id_of k)) with k; [done|].
  unfold ack_position, ReliableFacts.id_of, window. cbn [SendWindow.base].
  rewrite wrapping_sub_pos by lia. lia.
Qed.

Lemma ack_step n a p m d k : ok n a p m d -> a < k <= m ->
  acknowledge (buffer n a p m d) (id_of k) = Ok (buffer n k (Z.max p k) m 0, true).
Proof.
  intros Hok Hk. rewrite ack_any by (done || (unfold ok, two32 in *; lia)).
  unfold SendWindow.ack, window. cbn [SendWindow.stream SendWindow.base SendWindow.next SendWindow.limit].
  rewrite (proj2 (Z.eqb_neq k a)), (proj2 (Z.leb_le k m)) by lia. done.
Qed.

Lemma ack_again n a p m d : ok n a p m d ->
  acknowledge (buffer n a p m d) (id_of a)
  = Ok (if d =? 2 then buffer n a a m 0 else buffer n a p m (d + 1), true).
Proof.
  intros Hok. rewrite ack_any by (done || (unfold two32; lia)).
  unfold SendWindow.ack, window. cbn [SendWindow.stream SendWindow.base SendWindow.next SendWindow.limit
    SendWindow.dups]. rewrite Z.eqb_refl. replace (d + 1 =? 3) with (d =? 2); [by case_bool|].
  destruct (Z.eqb_spec d 2), (Z.eqb_spec (d + 1) 3); lia || done.
Qed.

Lemma ack_refused n a p m d k : ok n a p m d -> m < k < a + two32 ->
  expect_ack_fail (buffer n a p m d) (id_of k) = Ok (buffer n a p m d).
Proof.
  intros Hok Hk. unfold expect_ack_fail. rewrite ack_any by (done || (unfold ok in *; lia)).
  unfold SendWindow.ack, window. cbn [SendWindow.stream SendWindow.base SendWindow.next SendWindow.limit].
  rewrite (proj2 (Z.eqb_neq k a)), (proj2 (Z.leb_gt k m)) by (unfold ok in Hok; lia). done.
Qed.

Lemma ack_accepted b id b' : acknowledge b id = Ok (b', true) -> expect_ack b id = Ok b'.
Proof. intros Ha. unfold expect_ack. by rewrite Ha. Qed.

Lemma id_next k : wrapping_add (id_of k) 1 = id_of (k + 1).
Proof. apply wrapping_add_pos. Qed.
Lemma id_zero : id_of 0 = start.
Proof. unfold ReliableFacts.id_of. rewrite Z.add_0_r. by apply wrap32_small. Qed.
Lemma id_before k : wrapping_sub start k = id_of (two32 - k).
Proof. unfold ReliableFacts.id_of. clear. word. Qed.

(** *** Common beginnings *)

Lemma new_buffer : new start 8 w = Ok (buffer 0 0 0 0 0).
Proof. by rewrite new_represents by (done || lia). Qed.

Lemma push_window n : 0 <= n ->
  for_each (range 0 n) (buffer 0 0 0 0 0) (fun i b => push_basic b (wrapping_add start i)) = Ok (buffer n 0 0 0 0).
Proof.
  intros Hn. apply (for_range (fun i => buffer i 0 0 0 0)); [done..|]. intros i Hi.
  apply push_step. unfold ok. lia.
Qed.

(** Popping [count] packets, where [f] is the state when [i] are popped. *)
Lemma pop_window n m count : 0 <= m -> count <= n -> count <= w -> m <= n -> m <= w -> 0 <= count ->
  for_each (range 0 count) (buffer n 0 0 m 0) (fun i b => expect_pop_basic b (wrapping_add start i))
  = Ok (buffer n 0 count (Z.max m count) 0).
Proof.
  intros. replace (buffer n 0 0 m 0) with (buffer n 0 0 (Z.max m 0) 0) by by rewrite Z.max_l.
  apply (for_range (fun i => buffer n 0 i (Z.max m i) 0)); [done..|]. intros i Hi.
  change (wrapping_add start i) with (id_of i).
  rewrite pop_step by (unfold ok; lia). do 2 f_equal. lia.
Qed.

Lemma partly_sent_ok send_count : 0 <= send_count <= w ->
  partly_sent start w send_count = Ok (buffer w 0 send_count send_count 0).
Proof.
  intros Hs. unfold partly_sent. rewrite new_buffer. cbn [mbind outcome_bind].
  rewrite push_window by lia. cbn [mbind outcome_bind]. rewrite pop_window by lia.
  by rewrite Z.max_r by lia.
Qed.

Lemma thrice_ok send_count : 0 <= send_count <= w ->
  acknowledge_thrice (buffer w 0 send_count send_count 0) start = Ok (buffer w 0 0 send_count 0).
Proof.
  intros Hs. unfold acknowledge_thrice.
  rewrite <- id_zero.
  do 2 (rewrite ack_again by (unfold ok; lia); cbn [mbind outcome_bind]; case_bool; [lia|]).
  rewrite ack_again by (unfold ok; lia). cbn [mbind outcome_bind]. case_bool; [done|lia].
Qed.

(** *** The trials *)

Lemma pop_block_ok n a p count : 0 <= count -> ok n a p p 0 -> p + count <= n -> p + count <= a + w ->
  n < two32 ->
  pop_block count (buffer n a p p 0, id_of p, n - p)
  = Ok (buffer n a (p + count) (p + count) 0, id_of (p + count), n - (p + count)).
Proof.
  intros Hc Hok Hn Ha H32. unfold pop_block.
  apply (for_range (fun i => (buffer n a (p + i) (p + i) 0, id_of (p + i), n - (p + i)))).
  - by rewrite Z.add_0_r.
  - done.
  - intros i Hi. rewrite pop_step by (unfold ok in *; lia). cbn [mbind outcome_bind].
    rewrite sub32_ok by lia. cbn [mbind outcome_bind]. rewrite id_next, Z.max_r by lia.
    rewrite (Z.add_assoc p i 1). do 2 f_equal. lia.
Qed.

Lemma ack_blocks_ok fuel : forall block_size a, 0 < block_size <= w -> 0 <= a ->
  3 * w < two32 -> let p := Z.min (3 * w) (a + w) in
  p < 3 * w -> 3 * w - p < Z.of_nat fuel ->
  ack_blocks fuel block_size (id_of (a + block_size)) (buffer (3 * w) a p p 0, id_of p, 3 * w - p) = Ok ().
Proof.
  induction fuel as [|fuel IH]; intros block_size a Hb Ha H32 p Hp Hf; [lia|]. cbn [ack_blocks].
  rewrite (ack_accepted _ _ (buffer (3 * w) (a + block_size) p p 0)).
  2: { rewrite ack_step by (unfold ok; lia). do 3 f_equal. lia. }
  cbn [mbind outcome_bind].
  set (count := Z.min block_size (3 * w - p)).
  rewrite pop_block_ok by (unfold ok; lia). cbn [mbind outcome_bind].
  rewrite pop_stop by (unfold ok; lia). cbn [mbind outcome_bind].
  destruct (Z.eqb_spec (3 * w - (p + count)) 0) as [|Hne]; [done|].
  replace (p + count) with (Z.min (3 * w) (a + block_size + w)) in * by lia.
  replace (wrapping_add (id_of (a + block_size)) block_size) with (id_of (a + block_size + block_size))
    by (symmetry; apply wrapping_add_pos).
  apply IH; lia.
Qed.

Lemma ack_advancement_trial_ok block_size : 0 < block_size <= w -> ack_advancement_trial start block_size w = Ok ().
Proof.
  intros Hb. unfold ack_advancement_trial.
  rewrite !assert_true by (apply Z.ltb_lt || apply Z.leb_le; lia). cbn [mbind outcome_bind].
  rewrite new_buffer. cbn [mbind outcome_bind]. rewrite push_window by lia. cbn [mbind outcome_bind].
  pose proof (pop_block_ok (3 * w) 0 0 w) as Hpop. rewrite Z.sub_0_r, id_zero in Hpop.
  rewrite Hpop by (unfold ok, two32; lia). cbn [mbind outcome_bind].
  rewrite pop_stop by (unfold ok; lia). cbn [mbind outcome_bind].
  pose proof (ack_blocks_ok (Z.to_nat (3 * w)) block_size 0 Hb) as Hblocks.
  rewrite Z.min_r in Hblocks by lia. rewrite !Z.add_0_l in Hblocks.
  apply Hblocks; unfold two32; lia.
Qed.

Lemma invalid_acks_trial_ok : invalid_acks_trial start w = Ok ().
Proof.
  unfold invalid_acks_trial. apply (for_range (fun _ => ())); [done|lia|]. intros s Hs.
  rewrite partly_sent_ok by lia. cbn [mbind outcome_bind].
  rewrite (for_range (fun _ => buffer w 0 s s 0)); [|done|lia|].
  2: { intros i Hi. rewrite id_before, ack_refused by (unfold ok, two32; lia). cbn [mbind outcome_bind].
       replace (wrapping_add (wrapping_add start s) i) with (id_of (s + i)) by (symmetry; apply wrapping_add_pos).
       apply ack_refused; unfold ok, two32; lia. }
  cbn [mbind outcome_bind]. unfold range_incl. replace (s - 0 + 1) with (s + 1 - 0) by lia. fold (range 0 (s + 1)).
  rewrite (for_range (fun i => buffer w (Z.max 0 (i - 1)) s s (if i =? 1 then 1 else 0))); [|done|lia|].
  2: { intros i Hi. change (wrapping_add start i) with (id_of i). apply ack_accepted.
       destruct (Z.eq_dec i 0) as [->|Hi0]; [by apply (ack_again w 0 s s 0); unfold ok; lia|].
       rewrite ack_step by (unfold ok; try case_bool; lia).
       replace (i + 1 =? 1) with false by (symmetry; apply Z.eqb_neq; lia). do 3 f_equal; lia. }
  cbn [mbind outcome_bind]. replace (Z.max 0 (s + 1 - 1)) with s by lia.
  change (wrapping_add start s) with (id_of s).
  set (d := if s + 1 =? 1 then 1 else 0). assert (Hd : 0 <= d <= 1) by (unfold d; case_bool; lia).
  rewrite (ack_accepted _ _ (buffer w s s s (d + 1))).
  2: { rewrite ack_again by (unfold ok; lia). by replace (d =? 2) with false by (symmetry; apply Z.eqb_neq; lia). }
  cbn [mbind outcome_bind].
  replace (wrapping_sub (id_of s) 1) with (id_of (s + (two32 - 1))).
  2: { unfold ReliableFacts.id_of. clear. word. }
  rewrite ack_refused by (unfold ok, two32; lia). cbn [mbind outcome_bind]. rewrite id_next.
  rewrite ack_refused by (unfold ok, two32; lia). done.
Qed.

Lemma resend_trial_ok : resend_trial start w = Ok ().
Proof.
  unfold resend_trial, range_incl. replace (w - 1 + 1) with (w + 1 - 1) by lia. fold (range 1 (w + 1)).
  apply (for_range (fun _ => ())); [done|lia|]. intros s Hs.
  rewrite partly_sent_ok by lia. cbn [mbind outcome_bind]. rewrite thrice_ok by lia. cbn [mbind outcome_bind].
  rewrite pop_window by lia. cbn [mbind outcome_bind].
  change (resend_all (buffer w 0 s (Z.max s s) 0)) with (buffer w 0 0 (Z.max s s) 0).
  by rewrite pop_window by lia.
Qed.

Lemma resend_resync_trial_ok : resend_resync_trial start w = Ok ().
Proof.
  unfold resend_resync_trial, range_incl. replace (w - 1 + 1) with (w + 1 - 1) by lia. fold (range 1 (w + 1)).
  apply (for_range (fun _ => ())); [done|lia|]. intros s Hs.
  rewrite partly_sent_ok by lia. cbn [mbind outcome_bind]. rewrite thrice_ok by lia. cbn [mbind outcome_bind].
  rewrite (for_range (fun i => buffer w (i - 1) (if i =? 1 then 0 else i) s 0)); [done|done|lia|].
  intros i Hi. change (wrapping_add start i) with (id_of i).
  rewrite ack_step by (unfold ok; try case_bool; lia). cbn [mbind outcome_bind].
  replace (Z.max (if i =? 1 then 0 else i) i) with i by (case_bool; lia).
  rewrite pop_step by (unfold ok; lia). replace (i + 1 =? 1) with false by (symmetry; apply Z.eqb_neq; lia).
  do 3 f_equal; lia.
Qed.
End Trials.

(** *** The tests *)

Lemma id_sweep_ok count trial : 0 <= count -> (forall id, is_u32 id -> trial id = Ok ()) ->
  id_sweep count trial = Ok ().
Proof.
  intros Hc Ht. unfold id_sweep, range_incl. replace (count - 0 + 1) with (count + 1 - 0) by lia.
  fold (range 0 (count + 1)).
  rewrite (for_range (fun i => wrap32 (0 - count + i))); [done|by rewrite Z.add_0_r|lia|].
  intros i Hi. rewrite Ht by apply wrap32_range. cbn [mbind outcome_bind]. by rewrite wrapping_add_pos.
Qed.

Lemma ack_advancement_passes `{BuildProfile} : ack_advancement = Ok ().
Proof.
  unfold ack_advancement. apply id_sweep_ok; [lia|]. intros id Hid.
  apply (for_range (fun _ => ()) 1 17); [done|lia|]. intros i Hi. apply ack_advancement_trial_ok; lia || done.
Qed.

Lemma invalid_acks_passes `{BuildProfile} : invalid_acks = Ok ().
Proof. unfold invalid_acks. apply id_sweep_ok; [lia|]. intros id Hid. apply invalid_acks_trial_ok; lia || done. Qed.

Lemma resend_passes `{BuildProfile} : resend = Ok ().
Proof. unfold resend. apply id_sweep_ok; [lia|]. intros id Hid. apply resend_trial_ok; lia || done. Qed.

Lemma resend_resync_passes `{BuildProfile} : resend_resync = Ok ().
Proof. unfold resend_resync. apply id_sweep_ok; [lia|]. intros id Hid. apply resend_resync_trial_ok; lia || done. Qed.
End ReliableTests.

Module UnreliableTests.
Import UnreliableTxBuffer.

Definition peek_and_pop_sendable (send_buf : TxBuffer) : outcome (TxBuffer * option (Z * FragmentRc)) :=
  let peek_result := peek_sendable send_buf in
  let '(send_buf, pop_result) := pop_sendable send_buf in
  _ ← assert_eq peek_result pop_result;
  Ok (send_buf, pop_result).

Definition expect_pop_fail (send_buf : TxBuffer) : outcome TxBuffer :=
  '(send_buf, popped) ← peek_and_pop_sendable send_buf;
  _ ← assert_eq popped None;
  Ok send_buf.

Definition fragmentation_trial (initial_base_id fragment_size : Z) (trial : Trial) : outcome () :=
  send_buf ← new initial_base_id fragment_size;
  send_buf ← push send_buf (packet_data trial) U64_MAX;
  send_buf ← for_each (enumerate (ranges trial)) send_buf (fun '(idx, range) send_buf =>
    '(send_buf, popped) ← peek_and_pop_sendable send_buf;
    '(fragment_id, fragment) ← unwrap popped;
    _ ← assert_eq fragment_id (wrapping_add initial_base_id idx);
    _ ← assert_eq fragment (mkFragmentRc (idx =? 0) (idx =? zlen (ranges trial) - 1) (packet_data trial) range);
    Ok send_buf);
  _ ← expect_pop_fail send_buf;
  Ok ().

Definition send_fragmentation : outcome () :=
  let FRAGMENT_SIZE := 4 in
  let ID_SWEEP_SIZE := 4 in
  ReliableTests.id_sweep ID_SWEEP_SIZE (fun initial_base_id =>
    for_each fragmentation_trials () (fun trial _ => fragmentation_trial initial_base_id FRAGMENT_SIZE trial)).

Lemma unreliable_send_fragmentation_passes : send_fragmentation = Ok ().
Proof. vm_compute. reflexivity. Qed.
End UnreliableTests.
