(* ===== verification/EndpointTests.v ===== *)
(** * The unit tests of the endpoint's parts ([endpoint/cc.rs], [endpoint/prio.rs],
    [endpoint/mod.rs])

    The tests of the congestion window compare it with a floating-point model, computed here
    in the 64-bit arithmetic of the Standard Library's specification of IEEE 754. *)

From Stdlib Require Import SpecFloat.
From S2P Require Import Prelude Word CongestionControl Prio Frame Serial Endpoint Testing.

(** ** Congestion control *)

Module F64.
Definition f64 : Set := spec_float.
Definition prec : Z := 53.
Definition emax : Z := 1024.
Definition of_usize (x : Z) : f64 := binary_normalize prec emax x 0 false.
Definition add (x y : f64) : f64 := SFadd prec emax x y.
Definition sub (x y : f64) : f64 := SFsub prec emax x y.
Definition mul (x y : f64) : f64 := SFmul prec emax x y.
Definition div (x y : f64) : f64 := SFdiv prec emax x y.
(** [x > y]. *)
Definition gtb (x y : f64) : bool := SFltb y x.
End F64.

Module CcTests.
Import AimdReno.

Definition assert_cwnd_near (cwnd : Z) (expected : F64.f64) : outcome () :=
  let cwnd_f64 := F64.of_usize cwnd in
  if F64.gtb (SFabs (F64.sub cwnd_f64 expected)) (F64.of_usize 1) then Fault Panicked else Ok ().

Section Tests.
Context `{BuildProfile}.

(** Thirty acknowledgements, the expected window growing by [growth] at each. *)
Definition acks (growth : F64.f64 -> F64.f64) (st : AimdReno * F64.f64) : outcome (AimdReno * F64.f64) :=
  for_each (range 0 30) st (fun _ '(cc, expected_cwnd) =>
    cc ← handle_ack cc;
    let expected_cwnd := F64.add expected_cwnd (growth expected_cwnd) in
    _ ← assert_cwnd_near (cwnd cc) expected_cwnd;
    Ok (cc, expected_cwnd)).

Definition basic : outcome () :=
  let mss := 100 in
  let mss_f64 := F64.of_usize mss in
  cc ← new mss;
  let expected_cwnd := F64.of_usize 1000 in
  _ ← assert_cwnd_near (cwnd cc) expected_cwnd;
  '(cc, expected_cwnd) ← acks (fun _ => F64.of_usize 100) (cc, expected_cwnd);
  cc ← handle_drop cc;
  let expected_cwnd := F64.div expected_cwnd (F64.of_usize 2) in
  _ ← assert_cwnd_near (cwnd cc) expected_cwnd;
  cc ← handle_drop cc;
  _ ← assert_cwnd_near (cwnd cc) expected_cwnd;
  '(cc, expected_cwnd) ← acks (fun expected_cwnd => F64.div (F64.mul mss_f64 mss_f64) expected_cwnd)
    (cc, expected_cwnd);
  cc ← handle_drop cc;
  let expected_cwnd := F64.div expected_cwnd (F64.of_usize 2) in
  assert_cwnd_near (cwnd cc) expected_cwnd.

End Tests.

Lemma cc_basic_passes `{BuildProfile} : basic = Ok ().
Proof. run_test. Qed.
End CcTests.

(** ** Channel priorities *)

Module PrioTests.
Import Prio.

Section Tests.
Context `{BuildProfile}.

Definition single_channels : outcome () :=
  config ← config_new (Array4 1 1 2 8) 10;
  let prio := new config in
  _ ← assert_eq (next prio true false false false) (Some 0);
  _ ← assert_eq (next prio false true false false) (Some 1);
  _ ← assert_eq (next prio false false true false) (Some 2);
  _ ← assert_eq (next prio false false false true) (Some 3);
  assert_eq (next prio false false false false) None.

Definition simple : outcome () :=
  config ← config_new (Array4 1 1 2 8) 10;
  _ ← for_each (range 0 20) (new config) (fun i prio =>
    next ← unwrap (next prio true true false false);
    _ ← (if i mod 2 =? 0 then assert_eq next 0 else assert_eq next 1);
    mark_sent prio next 1);
  Ok ().

(** A full segment on the channel whose turn it is. *)
Definition send_full (prio : Prio) : outcome Prio :=
  next ← unwrap (next prio true true true true);
  mark_sent prio next DATA_SIZE_MAX.

Definition maxed_counters : outcome () :=
  let weight := 4 in
  let burst_size := BURST_SIZE_MAX in
  w2 ← mul32 weight weight; w3 ← mul32 w2 weight; w4 ← mul32 w3 weight;
  counter_max ← mul32 w4 (as_u32 burst_size);
  config ← config_new (Array4 weight weight weight weight) burst_size;
  let prio := new config in
  _ ← assert_eq (p_counter_max prio) counter_max;
  _ ← assert_eq burst_size (DATA_SIZE_MAX * 255);
  let send_count := weight * CHANNEL_COUNT * 255 in
  prio ← for_each (range 0 send_count) prio (fun _ => send_full);
  _ ← assert_eq (at0 (p_counters prio)) counter_max;
  prio ← for_each (range 0 CHANNEL_COUNT) prio (fun _ => send_full);
  assert_eq (at0 (p_counters prio)) counter_max.

End Tests.

Lemma single_channels_passes `{BuildProfile} : single_channels = Ok ().
Proof. run_test. Qed.
Lemma simple_passes `{BuildProfile} : simple = Ok ().
Proof. run_test. Qed.
Lemma maxed_counters_passes `{BuildProfile} : maxed_counters = Ok ().
Proof. run_test. Qed.
End PrioTests.

(** ** The endpoint *)

Module EndpointTests.

(** [MockHostContext] has no state and prints what happens; the random bits of its thread
    are those of [draws]. *)
Record MockHostContext : Type := mkMockHostContext { draws : nat -> bool; drawn : nat }.

Definition println (ctx : MockHostContext) : MockHostContext := ctx.

#[export] Instance mock_host_context : HostContext MockHostContext := {|
  send_frame _ := println;
  set_rto_timer _ := println;
  unset_rto_timer := println;
  on_connect := println;
  on_disconnect := println;
  on_receive _ := println;
  on_timeout := println;
|}.

#[export] Instance mock_rng : ThreadRng MockHostContext := fun ctx =>
  (draws ctx (drawn ctx), mkMockHostContext (draws ctx) (S (drawn ctx))).

Section Tests.
Context `{BuildProfile} (host_ctx : MockHostContext).

Definition tx_state : outcome () :=
  prio_config ← Prio.config_new (Prio.Array4 1 1 1 1) 10000;
  endpoint ← Endpoint.new (Endpoint.mkConfig 10000 prio_config);
  _ ← Endpoint.flush_stream endpoint true true 0 host_ctx;
  Ok ().

End Tests.

Lemma tx_state_passes `{BuildProfile} host_ctx : tx_state host_ctx = Ok ().
Proof. run_test. Qed.
End EndpointTests.
