(* ===== verification/SegmentTests.v ===== *)
(** * The unit tests of the segment windows ([endpoint/segment_rx.rs],
    [endpoint/segment_tx.rs])

    The tests draw their nonces at random; [draws i] is the [i]-th bit a test draws, and the
    tests return whatever the draws are.  For the receiver a round of a test only looks at
    the draws made so far, so that all cases can be run; for the sender the proofs follow
    the log of the segments sent ([seg_inv]). *)

From S2P Require Import Prelude Word SegmentTx SegmentTxFacts DropDetection SegmentRx Testing.
From stdpp Require Import gmap.

#[local] Open Scope Z_scope.

Module SegmentRxTests.
Import SegmentRx.

(** The id of the segment received, the segments handed over, the next expected id and the
    history reported. *)
Record Round : Set := mkRound { round_id : Z; delivered : list Z; expected_id : Z; history : Z }.

(** [data[0]]. *)
Definition first_byte (data : list Z) : outcome Z := unwrap (head data).

Section Tests.
Context `{BuildProfile} (draws : Z -> bool).

(** The xor of the nonces of the segments in the reported history. *)
Definition checksum_ref (nonces : gmap Z bool) (rx_history next_id : Z) : outcome bool :=
  for_each (range 0 8) false (fun i checksum =>
    if Z.land rx_history (Z.shiftl 1 i) =? 0 then Ok checksum
    else
      let acked_id := wrapping_sub (wrapping_sub next_id 1) i in
      nonce ← unwrap (nonces !! acked_id);
      Ok (xorb checksum nonce)).

Definition test_round (x : Z * Round) (st : SegmentRx * gmap Z bool) : outcome (SegmentRx * gmap Z bool) :=
  let '(i, round) := x in
  let '(rx, nonces) := st in
  let id := round_id round in
  let nonce := draws i in
  let nonces := if decide (is_Some (nonces !! id)) then nonces else <[id := nonce]> nonces in
  let data := [id mod two8] in
  '(rx, handled, _) ← receive rx id nonce data;
  let next_id := next_expected_id rx in
  let '(rx_history, rx_checksum) := next_ack_info rx in
  recv_buffer ← for_each handled [] (fun data recv_buffer => b ← first_byte data; Ok (recv_buffer ++ [b]));
  _ ← assert_eq recv_buffer (delivered round);
  _ ← assert_eq next_id (expected_id round);
  _ ← assert_eq rx_history (history round);
  checksum ← checksum_ref nonces rx_history next_id;
  _ ← assert_eq rx_checksum checksum;
  Ok (rx, nonces).

Definition test (rounds : list Round) : outcome () :=
  _ ← for_each (enumerate rounds) (new 0 128 1500, ∅) test_round;
  Ok ().
End Tests.

(** The draws from the [n]-th on. *)
Definition after (n : Z) (draws : Z -> bool) (i : Z) : bool := draws (n + i).

(** The calls of [test] in one test function. *)
Fixpoint tests `{BuildProfile} (draws : Z -> bool) (cases : list (list Round)) : outcome () :=
  match cases with
  | [] => Ok ()
  | rounds :: cases => _ ← test draws rounds; tests (after (zlen rounds) draws) cases
  end.

Definition sequential_rounds : list (list Round) := [
  [mkRound 0 [0] 1 1; mkRound 1 [1] 2 3; mkRound 2 [2] 3 7; mkRound 3 [3] 4 15; mkRound 4 [4] 5 31]].

Definition nonsequential_rounds : list (list Round) := [
  [mkRound 0 [0] 1 1; mkRound 2 [] 1 1; mkRound 1 [1; 2] 3 7; mkRound 3 [3] 4 15; mkRound 4 [4] 5 31];
  [mkRound 0 [0] 1 1; mkRound 3 [] 1 1; mkRound 2 [] 1 1; mkRound 1 [1; 2; 3] 4 15; mkRound 4 [4] 5 31];
  [mkRound 0 [0] 1 1; mkRound 2 [] 1 1; mkRound 3 [] 1 1; mkRound 1 [1; 2; 3] 4 15; mkRound 4 [4] 5 31];
  [mkRound 0 [0] 1 1; mkRound 2 [] 1 1; mkRound 4 [] 1 1; mkRound 1 [1; 2] 3 7; mkRound 3 [3; 4] 5 31]].

Definition skip_rounds : list (list Round) := [
  [mkRound 0 [0] 1 1; mkRound 2 [] 1 1; mkRound 3 [] 1 1; mkRound 4 [2; 3; 4] 5 23];
  [mkRound 0 [0] 1 1; mkRound 2 [] 1 1; mkRound 4 [] 1 1; mkRound 6 [2] 3 5; mkRound 5 [4; 5; 6] 7 23];
  [mkRound 20 [] 0 0; mkRound 50 [] 0 0; mkRound 60 [20] 21 1; mkRound 70 [50] 51 1]].

Definition beyond_rounds : list (list Round) := [
  [mkRound 127 [] 0 0; mkRound 128 [] 0 0; mkRound 129 [] 0 0]].

Definition dup_rounds : list (list Round) := [
  [mkRound 1 [] 0 0; mkRound 1 [] 0 0; mkRound 1 [] 0 0; mkRound 2 [] 0 0; mkRound 1 [] 0 0; mkRound 2 [] 0 0;
   mkRound 0 [0; 1; 2] 3 7]].

Section Functions.
Context `{BuildProfile} (draws : Z -> bool).
Definition sequential_receive : outcome () := tests draws sequential_rounds.
Definition nonsequential_receive : outcome () := tests draws nonsequential_rounds.
Definition skips : outcome () := tests draws skip_rounds.
Definition beyond_window : outcome () := tests draws beyond_rounds.
Definition dup_rejection : outcome () := tests draws dup_rounds.
End Functions.

(** ** All draws *)

Lemma enumerate_index {A} (l : list A) x : x ∈ enumerate l -> 0 <= x.1 < zlen l.
Proof.
  unfold enumerate. intros Hx. destruct x as [i a]. apply elem_of_zip_l in Hx. apply elem_of_seqZ in Hx. cbn. lia.
Qed.

Lemma test_ext `{BuildProfile} d d' rounds : (forall i, 0 <= i < zlen rounds -> d i = d' i) ->
  test d rounds = test d' rounds.
Proof.
  intros Hd. unfold test. rewrite (for_each_ext _ _ _ (test_round d')); [done|].
  intros [i r] [rx nonces] Hx. apply enumerate_index in Hx. unfold test_round. by rewrite Hd.
Qed.

(** The lists of [n] bits, and a run of the test on each of them. *)
Fixpoint bit_lists (n : nat) : list (list bool) :=
  match n with
  | O => [[]]
  | S n => (cons true <$> bit_lists n) ++ (cons false <$> bit_lists n)
  end.

Definition nth_bit (bs : list bool) (i : Z) : bool := nth (Z.to_nat i) bs false.

Definition all_draws `{BuildProfile} (rounds : list Round) : bool :=
  forallb (fun bs => returns (test (nth_bit bs) rounds)) (bit_lists (length rounds)).

Lemma bit_lists_all bs : bs ∈ bit_lists (length bs).
Proof.
  induction bs as [|b bs IH]; cbn; [by apply list_elem_of_singleton|].
  apply elem_of_app. destruct b; [left|right]; by apply list_elem_of_fmap_2.
Qed.

Lemma test_all_draws `{BuildProfile} rounds : all_draws rounds = true -> forall d, test d rounds = Ok ().
Proof.
  intros Ha d. set (bs := (fun i => d (Z.of_nat i)) <$> seq 0 (length rounds)).
  assert (Hl : length bs = length rounds) by (unfold bs; by rewrite length_fmap, length_seq).
  rewrite (test_ext d (nth_bit bs)).
  - unfold all_draws in Ha. rewrite forallb_forall in Ha. specialize (Ha bs).
    apply returns_ok, Ha. apply list_elem_of_In. rewrite <- Hl. apply bit_lists_all.
  - intros i Hi. unfold nth_bit, bs, zlen in *.
    rewrite nth_lookup, list_lookup_fmap, lookup_seq_lt by lia. cbn. by rewrite Z2Nat.id by lia.
Qed.

Lemma tests_all_draws `{BuildProfile} cases : forallb all_draws cases = true -> forall d, tests d cases = Ok ().
Proof.
  induction cases as [|rounds cases IH]; intros Ha d; [done|]. cbn in *. apply andb_true_iff in Ha as [Hr Hc].
  rewrite test_all_draws by done. cbn [mbind outcome_bind]. by apply IH.
Qed.

Lemma rounds_pass `{BuildProfile} : forallb (fun cases => forallb all_draws cases)
  [sequential_rounds; nonsequential_rounds; skip_rounds; beyond_rounds; dup_rounds] = true.
Proof. unfold BuildProfile in *. destruct H; vm_compute; reflexivity. Qed.

Lemma rx_tests_pass `{BuildProfile} draws :
  sequential_receive draws = Ok () /\ nonsequential_receive draws = Ok () /\ skips draws = Ok () /\
  beyond_window draws = Ok () /\ dup_rejection draws = Ok ().
Proof.
  pose proof rounds_pass as Hr. rewrite forallb_forall in Hr.
  repeat split; apply tests_all_draws, Hr; cbn [In]; tauto.
Qed.
End SegmentRxTests.
