(* ===== verification/SegmentTxTests.v ===== *)
(** * The unit tests of the segment sender ([endpoint/segment_tx.rs])

    The tests whose nonces do not matter are run; those that draw nonces are shown to return
    for all draws, through the log of the segments sent ([seg_inv]).

    [ideal_nonce_verification] means to send and acknowledge small groups of segments until
    2048 are sent, past the wrap-around of the ids; its loop variable counts from 0 but is
    set to an id of the order of 2^32, so every loop ends after one group. *)

From S2P Require Import Prelude Word SegmentTx SegmentTxFacts DropDetection Testing.
Import SegmentTx.

Module SegmentTxTests.
Section Tests.
Context `{BuildProfile}.

(** [assert_eq!(tx.acknowledge(..), drop)]. *)
Definition expect_acknowledge (tx : SegmentTx) (rx_base_id rx_history : Z) (rx_checksum expected : bool)
  : outcome SegmentTx :=
  '(tx, drop) ← acknowledge tx rx_base_id rx_history rx_checksum;
  _ ← assert_eq drop expected;
  Ok tx.

Definition send_receive_window : outcome () :=
  tx ← new 0 128;
  tx ← for_each (range 0 128) tx (fun i tx =>
    _ ← assert_eq (can_send tx) true;
    _ ← assert_eq (next_id tx) i;
    _ ← assert_eq (bytes_in_transit tx) (i * 5);
    mark_sent tx 5);
  _ ← assert_eq (can_send tx) false;
  _ ← for_each (range 0 128) tx (fun i tx =>
    tx ← expect_acknowledge tx (i + 1) 0x1 false false;
    _ ← assert_eq (bytes_in_transit tx) ((128 - i - 1) * 5);
    _ ← assert_eq (can_send tx) true;
    Ok tx);
  Ok ().

(** [nonces[j] = tx.compute_next_nonce(); tx.mark_sent(0)] for [j] below [n], from draw
    [k] on. *)
Definition send_nonces (draws : Z -> bool) (k n : Z) (tx : SegmentTx) : outcome (SegmentTx * list bool) :=
  for_each (range 0 n) (tx, []) (fun j '(tx, nonces) =>
    let nonce := draws (k + j) in
    tx ← compute_next_nonce tx nonce;
    tx ← mark_sent tx 0;
    Ok (tx, nonces ++ [nonce])).

(** The xor of [nonces[a..b]]. *)
Definition xor_nonces (nonces : list bool) (a b : Z) : outcome bool :=
  for_each (range a b) false (fun j checksum =>
    nonce ← unwrap (nonces !! Z.to_nat j);
    Ok (xorb checksum nonce)).

(** The [while] loop for groups of [n]: the next draw. *)
Fixpoint ideal_groups (fuel : nat) (draws : Z -> bool) (n i k : Z) (tx : SegmentTx) : outcome Z :=
  let initial_id := U32_MAX - 1024 in
  if i <? 2048 then
    match fuel with
    | O => Fault OutOfFuel
    | S fuel =>
        let id := wrapping_add initial_id i in
        _ ← assert_eq (next_id tx) id;
        '(tx, nonces) ← send_nonces draws k n tx;
        rx_history ← sub32 (Z.shiftl 1 n) 1;
        rx_checksum ← xor_nonces nonces 0 n;
        let rx_base_id := wrapping_add id n in
        tx ← expect_acknowledge tx rx_base_id rx_history rx_checksum false;
        ideal_groups fuel draws n rx_base_id (k + n) tx
    end
  else Ok k.

Definition ideal_nonce_verification (draws : Z -> bool) : outcome () :=
  _ ← for_each (range 1 7) 0 (fun n k =>
    tx ← new (U32_MAX - 1024) 1024;
    ideal_groups 2048 draws n 0 k tx);
  Ok ().

Definition bad_nonce_verification (draws : Z -> bool) : outcome () :=
  tx ← new 0 1024;
  '(tx, nonces) ← send_nonces draws 0 24 tx;
  checksum_0_2 ← xor_nonces nonces 0 3;
  let checksum_0_2_bad := negb checksum_0_2 in
  nonce_3 ← unwrap (nonces !! 3%nat);
  nonce_4 ← unwrap (nonces !! 4%nat);
  nonce_5 ← unwrap (nonces !! 5%nat);
  tx ← expect_acknowledge tx 3 7 checksum_0_2_bad false;
  tx ← expect_acknowledge tx 4 1 nonce_3 false;
  tx ← expect_acknowledge tx 5 1 nonce_4 false;
  _ ← expect_acknowledge tx 6 1 nonce_5 true;
  Ok ().

Definition full_window_nonce_verification (draws : Z -> bool) : outcome () :=
  tx ← new 0 1024;
  '(tx, nonces) ← send_nonces draws 0 9 tx;
  tx ← for_each (range 9 1024) tx (fun _ tx => mark_sent tx 0);
  checksum_0_2 ← xor_nonces nonces 0 3;
  tx ← expect_acknowledge tx 3 7 checksum_0_2 false;
  '(tx, _) ← send_nonces draws 9 3 tx;
  checksum_3_5 ← xor_nonces nonces 3 6;
  let checksum_0_5 := xorb checksum_0_2 checksum_3_5 in
  tx ← expect_acknowledge tx 6 63 checksum_0_5 false;
  checksum_6_8 ← xor_nonces nonces 6 9;
  _ ← expect_acknowledge tx 9 7 checksum_6_8 false;
  Ok ().

Definition new_filled_window (size : Z) : outcome SegmentTx :=
  tx ← new 0 128;
  for_each (range 0 size) tx (fun _ tx => mark_sent tx 0).

(** Acknowledgements of a filled window: id, history, and whether a drop is expected. *)
Definition DUMMY_NONCE : bool := false.
Definition drop_scenarios : list (list (Z * Z * bool)) :=
  let old := Z.shiftl 1 31 in [
  [(5, 9, false)]; [(5, 9, false)]; [(5, 13, true)]; [(5, 19, false)]; [(5, 23, true)];
  [(5, 19, false); (5, 27, false); (7, 29, false); (7, 31, false)];
  [(5, 19, false); (7, 31, true)];
  [(32, Z.lor old 1, false)]; [(32, Z.lor old 3, false)]; [(32, Z.lor old 7, true)];
  [(32, U32_MAX, false)]; [(33, U32_MAX, true)];
  [(31, 0, false); (32, 0, true)]; [(32, 1, true)];
  [(16, 1, false); (32, 1, true)];
  [(16, 1, false); (31, 1, false); (32, 0, true)]].

Definition drop_detection : outcome () :=
  let WINDOW_SIZE := 128 in
  for_each drop_scenarios () (fun scenario _ =>
    tx ← new_filled_window WINDOW_SIZE;
    _ ← for_each scenario tx (fun '(id, history, drop) tx => expect_acknowledge tx id history DUMMY_NONCE drop);
    Ok ()).
End Tests.

Lemma send_receive_window_passes `{BuildProfile} : send_receive_window = Ok ().
Proof. run_test. Qed.
Lemma drop_detection_passes `{BuildProfile} : drop_detection = Ok ().
Proof. run_test. Qed.

(** ** All draws *)

(** The xor of [f 0] to [f (n - 1)]. *)
Fixpoint xor_below (n : nat) (f : Z -> bool) : bool :=
  match n with O => false | S n => xorb (f (Z.of_nat n)) (xor_below n f) end.

Lemma xor_below_ext n f g : (forall i, 0 <= i < Z.of_nat n -> f i = g i) -> xor_below n f = xor_below n g.
Proof.
  induction n as [|n IH]; intros Hfg; [done|]. cbn [xor_below]. rewrite Hfg by lia. f_equal. apply IH.
  intros i Hi. apply Hfg. lia.
Qed.

Lemma xor_below_low m n f : (m <= n)%nat -> (forall i, Z.of_nat m <= i < Z.of_nat n -> f i = false) ->
  xor_below n f = xor_below m f.
Proof.
  intros Hm. replace n with ((n - m) + m)%nat by lia. generalize (n - m)%nat as d. induction d as [|d IH]; intros Hf.
  - done.
  - cbn [xor_below Nat.add]. rewrite Hf by lia. cbn [xorb]. apply IH. intros i Hi. apply Hf. lia.
Qed.

Lemma parity_xor n x : parity n x = xor_below n (Z.testbit x).
Proof. induction n as [|n IH]; [done|]. by rewrite parity_S, IH. Qed.

(** The nonce of the segment [i + 1] positions before [b]. *)
Definition nonce_before (log : list sent) (b i : Z) : bool :=
  match log !! Z.to_nat (b - 1 - i) with Some x => (i <? b) && x.1 | None => false end.

(** What the receiver of everything up to [b] reports for the [n] latest segments. *)
Lemma latest_checksum start e s log b n : seg_inv start e s log b -> (n <= 32)%nat ->
  expected_checksum (nonce_history s) (Z.ones (Z.of_nat n)) = xor_below n (nonce_before log b).
Proof.
  intros Hinv Hn. rewrite expected_checksum_eq, parity_xor, (xor_below_low n 32) by
    (done || (intros i Hi; rewrite Z.land_spec, Z.ones_spec_high, andb_false_r by lia; done)).
  apply xor_below_ext. intros i Hi. rewrite Z.land_spec, Z.ones_spec_low, andb_true_r by lia.
  apply (sv_nbits _ _ _ _ _ Hinv). lia.
Qed.

(** The nonces only matter through the comparison of the checksums. *)
Lemma update_ack_history_nonces `{BuildProfile} ah nh d rh cs :
  update_ack_history ah nh d rh cs = update_ack_history ah 0 d rh (xorb (expected_checksum nh rh) cs).
Proof.
  unfold update_ack_history. rewrite (expected_checksum_eq 0), Z.land_0_l.
  change (parity 32 0) with false. by destruct (expected_checksum nh rh), cs.
Qed.

(** An acknowledgement up to position [b'] that reports the [n] latest segments. *)
Lemma acknowledge_latest `{BuildProfile} start e s log b b' n cs ah drop :
  6 <= e <= 31 -> seg_inv start e s log b -> b <= b' <= zlen log -> (n <= 32)%nat ->
  update_ack_history (ack_history s) 0 (b' - b) (Z.ones (Z.of_nat n)) (xorb (xor_below n (nonce_before log b')) cs)
    = Ok (ah, drop) ->
  exists s', expect_acknowledge s (id_at start b') (Z.ones (Z.of_nat n)) cs drop = Ok s' /\
    seg_inv start e s' log b' /\ ack_history s' = ah.
Proof.
  intros He Hinv Hb Hn Hup. pose proof (window_size_split e He) as (_ & _ & _ & Hmax & _).
  pose proof (sv_window _ _ _ _ _ Hinv) as Hwin.
  assert (Hones : is_u32 (Z.ones (Z.of_nat n))).
  { rewrite Z.ones_equiv. unfold is_u32. pose proof (Z.pow_pos_nonneg 2 (Z.of_nat n)).
    assert (2 ^ Z.of_nat n <= 2 ^ 32) by (apply Z.pow_le_mono_r; lia). change two32 with (2 ^ 32). lia. }
  assert (Hd : wrapping_sub (id_at start b') (id_at start b) = b' - b)
    by (unfold id_at; apply wrapping_sub_pos; unfold two32; lia).
  destruct (ack_inv start e He s log b (id_at start b') (Z.ones (Z.of_nat n)) cs Hinv (wrap32_range _) Hones)
    as (s' & dr & Hack & Hinv').
  unfold ack_base in Hinv'. rewrite Hd in Hinv'. replace (b' - b <=? zlen log - b) with true in Hinv'
    by (symmetry; apply Z.leb_le; lia). replace (b + (b' - b)) with b' in Hinv' by lia.
  exists s'. unfold expect_acknowledge. rewrite Hack. cbn [mbind outcome_bind].
  rewrite <- (latest_checksum start e s' log b' n Hinv' Hn), <- update_ack_history_nonces in Hup.
  assert (Hres : update_ack_history (ack_history s) (nonce_history s') (b' - b) (Z.ones (Z.of_nat n)) cs
                 = Ok (ack_history s', dr)).
  { revert Hack. unfold acknowledge. rewrite (sv_base _ _ _ _ _ Hinv), Hd. case_bool; [|].
    2: { rewrite (sv_next _ _ _ _ _ Hinv) in E. unfold id_at in E.
         rewrite wrapping_sub_pos in E by (unfold two32; lia). lia. }
    intros Hack. apply outcome_bind_Ok in Hack as (s1 & Hs1 & Hack).
    apply outcome_bind_Ok in Hack as ([ah1 dr1] & Hup1 & [= <- <-]). cbn [nonce_history ack_history].
    rewrite <- Hup1. f_equal. revert Hs1. case_bool; [|by intros [= ->]].
    intros Hs1. inv_ok. done. }
  rewrite Hup in Hres. injection Hres as <- <-. rewrite assert_eq_refl. by cbn.
Qed.

(** The log of [n] empty segments with the nonces [g 0], [g 1], ... *)
Definition drawn (g : Z -> bool) (n : Z) : list sent := (fun j => (g j, 0)) <$> seqZ 0 n.

Lemma zlen_drawn g n : 0 <= n -> zlen (drawn g n) = n.
Proof. intros Hn. unfold drawn, zlen. rewrite length_fmap, length_seqZ. lia. Qed.

Lemma drawn_S g n : 0 <= n -> drawn g (n + 1) = drawn g n ++ [(g n, 0)].
Proof. intros Hn. unfold drawn. rewrite seqZ_app by lia. by rewrite fmap_app. Qed.

Lemma drawn_lookup g n j : 0 <= j < n -> drawn g n !! Z.to_nat j = Some (g j, 0).
Proof. intros Hj. unfold drawn. rewrite list_lookup_fmap, (proj2 (lookup_seqZ _ _ _ j)) by lia. done. Qed.

Lemma drawn_nonces g n j : 0 <= j < n -> (drawn g n).*1 !! Z.to_nat j = Some (g j).
Proof. intros Hj. rewrite list_lookup_fmap. by rewrite drawn_lookup. Qed.

Lemma send_nonces_ok `{BuildProfile} start e draws k n s log b : 6 <= e <= 31 -> seg_inv start e s log b -> 0 <= n ->
  zlen log + n <= b + window_size e ->
  let l := drawn (fun j => draws (k + j)) n in
  exists s', send_nonces draws k n s = Ok (s', l.*1) /\
    seg_inv start e s' (log ++ l) b /\ ack_history s' = ack_history s.
Proof.
  intros He Hinv Hn Hroom l. unfold send_nonces. set (g := fun j => draws (k + j)) in *.
  destruct (for_range_inv (fun i '(t, nonces) => nonces = (drawn g i).*1 /\
    seg_inv start e t (log ++ drawn g i) b /\ ack_history t = ack_history s) 0 n (s, [])
    (fun j '(tx, nonces) => tx ← compute_next_nonce tx (g j); tx ← mark_sent tx 0;
       Ok (tx, nonces ++ [g j]))) as ([s' ns] & Hr & -> & Hinv' & Ha).
  - split; [done|]. split; [|done]. unfold drawn. cbn. by rewrite app_nil_r.
  - done.
  - intros i [t ns] Hi (-> & Ht & Ha).
    assert (Hl : zlen (log ++ drawn g i) < b + window_size e)
      by (rewrite zlen_app, zlen_drawn by lia; lia).
    destruct (compute_inv start e He t _ b (g i) Ht Hl) as (t1 & -> & Ht1 & Hbit & Ha1).
    cbn [mbind outcome_bind].
    destruct (mark_inv start e He t1 _ b 0 Ht1 Hl) as (t2 & -> & Ht2 & Ha2); [done|].
    cbn [mbind outcome_bind]. eexists. split; [reflexivity|]. rewrite drawn_S by lia.
    rewrite Hbit, <- app_assoc in Ht2. rewrite fmap_app. split; [done|]. split; [done|congruence].
  - exists s'. split; [exact Hr|]. by split.
Qed.

(** The sum of the nonces from [a] to [a + c - 1], the last first. *)
Lemma xor_nonces_drawn g n a b c : b = a + Z.of_nat c -> 0 <= a -> b <= n ->
  xor_nonces (drawn g n).*1 a b = Ok (xor_below c (fun j => g (a + j))).
Proof.
  intros -> Ha Hc. unfold xor_nonces.
  rewrite (for_range (fun i => xor_below (Z.to_nat (i - a)) (fun j => g (a + j)))); [|by rewrite Z.sub_diag|lia|].
  - do 2 f_equal. lia.
  - intros i Hi. rewrite drawn_nonces by lia. cbn [unwrap mbind outcome_bind].
    replace (Z.to_nat (i + 1 - a)) with (S (Z.to_nat (i - a))) by lia. cbn [xor_below].
    rewrite Z2Nat.id, xorb_comm by lia. do 3 f_equal. lia.
Qed.

(** The nonces before [b], read in the other order. *)
Lemma xor_below_rev n f : xor_below n (fun i => f (Z.of_nat n - 1 - i)) = xor_below n f.
Proof.
  assert (Hshift : forall m h, xor_below (S m) h = xorb (xor_below m (fun i => h (i + 1))) (h 0)).
  { induction m as [|m IH]; intros h; [apply xorb_false_r|].
    change (xor_below (S (S m)) h) with (xorb (h (Z.of_nat (S m))) (xor_below (S m) h)). rewrite IH.
    cbn [xor_below]. rewrite <- xorb_assoc. do 3 f_equal. lia. }
  induction n as [|n IH]; [done|]. rewrite Hshift. cbn [xor_below]. rewrite <- IH, xorb_comm. f_equal.
  - f_equal. lia.
  - apply xor_below_ext. intros i Hi. f_equal. lia.
Qed.

Lemma latest_drawn g m log b n : Z.of_nat n <= b <= m ->
  xor_below n (nonce_before (drawn g m ++ log) b) = xor_below n (fun j => g (b - Z.of_nat n + j)).
Proof.
  intros Hb. etransitivity; [|apply xor_below_rev]. apply xor_below_ext. intros i Hi. unfold nonce_before.
  rewrite lookup_app_l by (pose proof (zlen_drawn g m); unfold zlen in *; lia).
  rewrite drawn_lookup by lia. cbn [fst]. replace (i <? b) with true by (symmetry; apply Z.ltb_lt; lia).
  cbn [andb]. f_equal. lia.
Qed.

Lemma fresh_window start : is_u32 start -> exists s, new start 1024 = Ok s /\ seg_inv start 10 s [] 0 /\
  ack_history s = U32_MAX.
Proof.
  intros Hs. destruct (new_inv start 10 ltac:(lia) Hs) as (s & Hn & Hinv).
  exists s. split; [exact Hn|]. split; [done|]. revert Hn. by intros [= <-].
Qed.

Lemma ideal_groups_ok `{BuildProfile} fuel draws n k s : 1 <= n < 7 -> seg_inv (U32_MAX - 1024) 10 s [] 0 ->
  ack_history s = U32_MAX -> ideal_groups (S fuel) draws n 0 k s = Ok (k + n).
Proof.
  intros Hn Hinv Ha. set (start := U32_MAX - 1024) in *.
  cbn [ideal_groups]. change (0 <? 2048) with true.
  assert (Hid : next_id s = wrapping_add (U32_MAX - 1024) 0) by (rewrite (sv_next _ _ _ _ _ Hinv); reflexivity).
  rewrite Hid, assert_eq_refl. cbn [mbind outcome_bind].
  destruct (send_nonces_ok start 10 draws k n s [] 0) as (s1 & -> & Hinv1 & Ha1); [lia|done|lia| |].
  { change (zlen (@nil sent)) with 0. change (window_size 10) with 1024. lia. }
  set (g := fun j => draws (k + j)) in *. cbn [mbind outcome_bind app] in *.
  rewrite sub32_ok by (rewrite Z.shiftl_1_l; pose proof (Z.pow_pos_nonneg 2 n); lia). cbn [mbind outcome_bind].
  assert (Hc : Z.of_nat (Z.to_nat n) = n) by lia.
  pose proof (xor_nonces_drawn g n 0 n (Z.to_nat n) ltac:(lia) ltac:(lia) ltac:(lia)) as Hx.
  rewrite Hx. cbn [mbind outcome_bind].
  destruct (acknowledge_latest start 10 s1 (drawn g n) 0 n (Z.to_nat n) (xor_below (Z.to_nat n) (fun j => g (0 + j)))
    U32_MAX false) as (s2 & Hack & _ & _); [lia|done|rewrite zlen_drawn by lia; lia|lia| |].
  { rewrite <- (app_nil_r (drawn g n)), latest_drawn, Hc, Z.sub_diag by lia. rewrite xorb_nilpotent, Ha1, Ha.
    assert (Hcases : n = 1 \/ n = 2 \/ n = 3 \/ n = 4 \/ n = 5 \/ n = 6) by lia.
    destruct Hcases as [->|[->|[->|[->|[->| ->]]]]]; vm_compute; reflexivity. }
  rewrite Hc in Hack.
  replace (wrapping_add (wrapping_add (U32_MAX - 1024) 0) n) with (id_at start n) by reflexivity.
  replace (Z.shiftl 1 n - 1) with (Z.ones n) by (rewrite Z.ones_equiv, Z.shiftl_1_l; lia).
  rewrite Hack. cbn [mbind outcome_bind]. 
  assert (Hi : (id_at start n <? 2048) = false).
  { apply Z.ltb_ge. unfold id_at, start. rewrite wrap32_small; unfold is_u32, U32_MAX, two32; lia. }
  destruct fuel; cbn [ideal_groups]; by rewrite Hi.
Qed.

Lemma ideal_nonce_verification_passes `{BuildProfile} draws : ideal_nonce_verification draws = Ok ().
Proof.
  unfold ideal_nonce_verification.
  destruct (for_range_inv (fun _ _ => True) 1 7 0 (fun n k => tx ← new (U32_MAX - 1024) 1024;
    ideal_groups 2048 draws n 0 k tx))
    as (r & -> & _); [done|lia| |done].
  intros n k Hn _. destruct (fresh_window (U32_MAX - 1024)) as (s & -> & Hinv & Ha).
  { unfold is_u32, U32_MAX, two32. lia. }
  cbn [mbind outcome_bind]. rewrite (ideal_groups_ok 2047) by done. by eexists.
Qed.

(** An acknowledgement of the [n] latest segments up to [b'] in a window that starts at 0;
    [wrong] says whether its checksum is the complement of the right one. *)
Lemma acknowledge_drawn `{BuildProfile} g m rest s b b' n rh cs wrong ah drop :
  seg_inv 0 10 s (drawn g m ++ rest) b -> b <= b' <= m -> Z.of_nat n <= b' -> (n <= 32)%nat ->
  b' < 4294967296 -> rh = Z.ones (Z.of_nat n) ->
  xorb (xor_below n (fun j => g (b' - Z.of_nat n + j))) cs = wrong ->
  update_ack_history (ack_history s) 0 (b' - b) rh wrong = Ok (ah, drop) ->
  exists s', expect_acknowledge s b' rh cs drop = Ok s' /\ seg_inv 0 10 s' (drawn g m ++ rest) b' /\
    ack_history s' = ah.
Proof.
  intros Hinv Hb Hn H32 Hs -> <- Hup.
  pose proof (acknowledge_latest 0 10 s (drawn g m ++ rest) b b' n cs ah drop) as Hack.
  assert (Hid : id_at 0 b' = b') by (apply wrap32_small; unfold is_u32, two32; lia). rewrite Hid in Hack.
  apply Hack; [lia|done| |done|].
  - rewrite zlen_app, zlen_drawn by lia. pose proof (zlen_nonneg rest). lia.
  - by rewrite latest_drawn by lia.
Qed.

(** The checksums of concretely many nonces. *)
Ltac evaluate_nonces g := vm_compute; repeat (match goal with |- context [g ?x] => destruct (g x) end); reflexivity.
(** An acknowledgement whose effect on the history [Ha] is evaluated. *)
Ltac acknowledged g Ha :=
  first [lia | done
    | rewrite Ha; vm_compute; match goal with H : BuildProfile |- _ => by destruct H end
    | evaluate_nonces g].

Lemma bad_nonce_verification_passes `{BuildProfile} draws : bad_nonce_verification draws = Ok ().
Proof.
  unfold bad_nonce_verification. destruct (fresh_window 0) as (s & -> & Hinv0 & Ha0); [done|].
  cbn [mbind outcome_bind].
  destruct (send_nonces_ok 0 10 draws 0 24 s [] 0) as (s1 & -> & Hinv & Ha); [lia|done|lia|vm_compute; discriminate|].
  cbn [mbind outcome_bind app] in *. set (g := fun j => draws (0 + j)) in *. clearbody g.
  rewrite <- (app_nil_r (drawn g 24)) in Hinv. rewrite Ha0 in Ha.
  rewrite (xor_nonces_drawn g 24 0 3 3) by lia. cbn [mbind outcome_bind].
  change ((drawn g 24).*1 !! 3%nat) with (Some (g 3)). change ((drawn g 24).*1 !! 4%nat) with (Some (g 4)).
  change ((drawn g 24).*1 !! 5%nat) with (Some (g 5)). cbn [mbind outcome_bind unwrap].
  destruct (acknowledge_drawn g 24 [] s1 0 3 3 7 (negb (xor_below 3 (fun j => g (0 + j)))) true 4294967288 false Hinv)
    as (s2 & -> & Hinv2 & Ha2); [acknowledged g Ha..|].
  cbn [mbind outcome_bind].
  destruct (acknowledge_drawn g 24 [] s2 3 4 1 1 (g 3) false 4294967281 false Hinv2)
    as (s3 & -> & Hinv3 & Ha3); [acknowledged g Ha2..|].
  cbn [mbind outcome_bind].
  destruct (acknowledge_drawn g 24 [] s3 4 5 1 1 (g 4) false 4294967267 false Hinv3)
    as (s4 & -> & Hinv4 & Ha4); [acknowledged g Ha3..|].
  cbn [mbind outcome_bind].
  destruct (acknowledge_drawn g 24 [] s4 5 6 1 1 (g 5) false U32_MAX true Hinv4)
    as (s5 & -> & _ & _); [acknowledged g Ha4..|].
  done.
Qed.

(** Segments sent without drawing nonces: the log grows, by nonces that nobody knows. *)
Lemma mark_rest `{BuildProfile} s log b n m : seg_inv 0 10 s log b -> zlen log = n -> n <= m <= b + 1024 ->
  exists s' rest, for_each (range n m) s (fun _ tx => mark_sent tx 0) = Ok s' /\
    seg_inv 0 10 s' (log ++ rest) b /\ zlen rest = m - n /\ ack_history s' = ack_history s.
Proof.
  intros Hinv Hl Hm.
  destruct (for_range_inv (fun i t => exists rest, seg_inv 0 10 t (log ++ rest) b /\ zlen rest = i - n /\
    ack_history t = ack_history s) n m s (fun _ tx => mark_sent tx 0)) as (s' & Hr & rest & Hi & Hlen & Ha).
  - exists []. rewrite app_nil_r, Z.sub_diag. by split.
  - lia.
  - intros i t Hi (rest & Ht & Hlen & Ha).
    destruct (mark_inv 0 10 ltac:(lia) t _ b 0 Ht) as (t' & Hmark & Ht' & Ha').
    + rewrite zlen_app. change (window_size 10) with 1024. lia.
    + done.
    + exists t'. split; [exact Hmark|]. eexists (rest ++ [_]). rewrite app_assoc. split; [exact Ht'|].
      rewrite zlen_app. change (zlen [_]) with 1. split; [lia|congruence].
  - by exists s', rest.
Qed.

Lemma full_window_nonce_verification_passes `{BuildProfile} draws : full_window_nonce_verification draws = Ok ().
Proof.
  unfold full_window_nonce_verification. destruct (fresh_window 0) as (s & -> & Hinv & Ha); [done|].
  cbn [mbind outcome_bind].
  destruct (send_nonces_ok 0 10 draws 0 9 s [] 0) as (s1 & -> & Hinv1 & Ha1); [lia|done|lia|vm_compute;
    discriminate|].
  cbn [mbind outcome_bind app] in *. set (g := fun j => draws (0 + j)) in *. clearbody g. rewrite Ha in Ha1.
  destruct (mark_rest s1 _ 0 9 1024 Hinv1) as (s2 & rest & -> & Hinv2 & Hlen & Ha2); [by rewrite zlen_drawn|lia|].
  rewrite Ha1 in Ha2. cbn [mbind outcome_bind]. rewrite (xor_nonces_drawn g 9 0 3 3) by lia. cbn [mbind outcome_bind].
  destruct (acknowledge_drawn g 9 rest s2 0 3 3 7 (xor_below 3 (fun j => g (0 + j))) false U32_MAX false Hinv2)
    as (s3 & -> & Hinv3 & Ha3); [acknowledged g Ha2..|]. cbn [mbind outcome_bind].
  destruct (send_nonces_ok 0 10 draws 9 3 s3 _ 3 ltac:(lia) Hinv3) as (s4 & -> & Hinv4 & Ha4); [lia| |].
  { rewrite zlen_app, zlen_drawn by lia. change (window_size 10) with 1024. lia. }
  cbn [mbind outcome_bind]. rewrite <- app_assoc in Hinv4. rewrite Ha3 in Ha4.
  rewrite (xor_nonces_drawn g 9 3 6 3) by lia. cbn [mbind outcome_bind].
  destruct (acknowledge_drawn g 9 _ s4 3 6 6 63
    (xorb (xor_below 3 (fun j => g (0 + j))) (xor_below 3 (fun j => g (3 + j)))) false U32_MAX false Hinv4)
    as (s5 & -> & Hinv5 & Ha5); [acknowledged g Ha4..|]. cbn [mbind outcome_bind].
  rewrite (xor_nonces_drawn g 9 6 9 3) by lia. cbn [mbind outcome_bind].
  destruct (acknowledge_drawn g 9 _ s5 6 9 3 7 (xor_below 3 (fun j => g (6 + j))) false U32_MAX false Hinv5)
    as (s6 & -> & _ & _); [acknowledged g Ha5..|].
  done.
Qed.
End SegmentTxTests.
