(* ===== verification/FrameTests.v ===== *)
(** * The unit tests of the frames and of the timer queue ([frame/serial/crc.rs],
    [frame/serial/mod.rs], [timer_queue.rs])

    The tests of the checksum and of the datagrams draw their inputs at random: they return
    whatever is drawn, by the equivalence of the two checksums and by the round trip of a
    frame of datagrams. *)

From S2P Require Import Prelude Word Crc Frame Serial SerialFacts FrameFacts TimerQueue Testing.

(** ** The checksum *)

Module CrcTests.
(** ["123456789".as_bytes()]. *)
Definition digits : list Z := [49; 50; 51; 52; 53; 54; 55; 56; 57].

Definition zero_nonzero_crc : outcome () := assert_ (negb (extend_slow 0 [0] =? 0)).

Definition basic : outcome () :=
  _ ← assert_eq (extend_slow 0 digits) 0x11A6F2A3;
  assert_eq (extend 0 digits) 0x11A6F2A3.

(** In turn [i] the bytes drawn are [octets i 0], [octets i 1], ..., and then [words i], each
    cut to its width. *)
Definition random (octets : Z -> Z -> Z) (words : Z -> Z) : outcome () :=
  for_each (range 0 100) () (fun i _ =>
    let data := (fun j => octets i j mod two8) <$> range 0 1024 in
    let initial_crc := wrap32 (words i) in
    assert_eq (extend_slow initial_crc data) (extend initial_crc data)).

Lemma zero_nonzero_crc_passes : zero_nonzero_crc = Ok ().
Proof. vm_compute. reflexivity. Qed.
Lemma crc_basic_passes : basic = Ok ().
Proof. vm_compute. reflexivity. Qed.
Lemma crc_random_passes octets words : random octets words = Ok ().
Proof.
  apply (for_range (fun _ => ())); [done|lia|]. intros i Hi. cbv beta zeta.
  rewrite extend_slow_eq; [apply assert_eq_refl|].
  apply Forall_fmap, Forall_forall.
  intros j _. apply Z.mod_pos_bound. done.
Qed.
End CrcTests.

(** ** Frames of datagrams *)

Module SerialTests.
(** What the test draws for a datagram. *)
Record RandomEntry : Type := mkRandomEntry {
  r_size : Z;
  r_id : Z;
  r_unrel : bool;
  r_first : bool;
  r_last : bool;
  r_bytes : Z -> Z
}.

Definition random_bytes (bytes : Z -> Z) (size : Z) : list Z := (fun j => bytes j mod two8) <$> range 0 size.

Definition dg_entry (rng : Z -> RandomEntry) (i : Z) : Datagram :=
  let size := if i =? 0 then 0 else r_size (rng i) mod two64 mod 2048 in
  mkDatagram (wrap32 (r_id (rng i))) (r_unrel (rng i)) (r_first (rng i)) (r_last (rng i))
    (random_bytes (r_bytes (rng i)) size).

Section Tests.
Context `{BuildProfile}.

(** One turn of the test's loop over [datagram_count]. *)
Definition stream_data_turn (rng : Z -> RandomEntry) (datagram_count : Z) : outcome () :=
  writer ← frame_writer_new (replicate (Z.to_nat (32 * 1024)) 0) StreamSegment;
  '(writer, datagrams) ← for_each (range 0 datagram_count) (writer, []) (fun i '(writer, datagrams) =>
    '(writer, _) ← frame_writer_write writer (dg_entry rng i);
    Ok (writer, datagrams ++ [dg_entry rng i]));
  '(frame, _) ← frame_writer_finalize writer;
  _ ← assert_ (verify_minimum_size frame);
  crc_valid ← verify_crc frame;
  _ ← assert_ crc_valid;
  frame_type ← read_type frame;
  _ ← assert_eq frame_type (Some StreamSegment);
  payload_bytes ← payload frame;
  reader ← for_each (range 0 datagram_count) (payload_reader_new payload_bytes) (fun i reader =>
    '(dg, reader) ← payload_reader_read reader;
    dg ← unwrap dg;
    entry ← unwrap (datagrams !! Z.to_nat i);
    _ ← assert_eq (dg_id dg) (dg_id entry);
    _ ← assert_eq (dg_unrel dg) (dg_unrel entry);
    _ ← assert_eq (dg_first dg) (dg_first entry);
    _ ← assert_eq (dg_last dg) (dg_last entry);
    _ ← assert_eq (dg_data dg) (dg_data entry);
    Ok reader);
  '(dg, _) ← payload_reader_read (A := Datagram) reader;
  assert_ (match dg with None => true | Some _ => false end).

Definition stream_data (rng : Z -> Z -> RandomEntry) : outcome () :=
  for_each (range 0 8) () (fun datagram_count _ => stream_data_turn (rng datagram_count) datagram_count).
End Tests.

Lemma dg_entry_valid rng i : datagram_valid (dg_entry rng i) /\ zlen (dg_data (dg_entry rng i)) <= 2047.
Proof.
  unfold dg_entry. cbn [dg_id dg_data]. set (size := if i =? 0 then 0 else _).
  assert (Hs : 0 <= size <= 2047).
  { unfold size. case_bool; [lia|]. pose proof (Z.mod_pos_bound (r_size (rng i) mod two64) 2048). lia. }
  assert (Hl : zlen (random_bytes (r_bytes (rng i)) size) = size).
  { unfold random_bytes, range, zlen. rewrite length_fmap, length_seqZ. lia. }
  split; [|rewrite Hl; lia].
  unfold datagram_valid. cbn [dg_id dg_data]. rewrite Hl. split; [apply wrap32_range|].
  split; [|unfold DATAGRAM_DATA_SIZE_MAX, U16_MAX; lia].
  apply Forall_fmap, Forall_forall. intros j _. apply Z.mod_pos_bound. done.
Qed.

Definition entries (rng : Z -> RandomEntry) (n : Z) : list Datagram := dg_entry rng <$> seqZ 0 n.

Lemma entries_S rng n : 0 <= n -> entries rng (n + 1) = entries rng n ++ [dg_entry rng n].
Proof. intros Hn. unfold entries. rewrite seqZ_app by lia. by rewrite fmap_app. Qed.

Lemma entries_valid `{BuildProfile} rng n : Forall serial_valid (entries rng n).
Proof. apply Forall_fmap, Forall_forall. intros i _. exact (proj1 (dg_entry_valid rng i)). Qed.

Lemma entries_lookup rng n i : 0 <= i < n -> entries rng n !! Z.to_nat i = Some (dg_entry rng i).
Proof. intros Hi. unfold entries. rewrite list_lookup_fmap, (proj2 (lookup_seqZ _ _ _ i)) by lia. done. Qed.

Lemma encode_all_snoc `{BuildProfile} (l : list Datagram) d : encode_all (l ++ [d]) = encode_all l ++ serial_encode d.
Proof. unfold encode_all. rewrite bind_app. cbn. by rewrite app_nil_r. Qed.

(** The loop that writes: all the datagrams fit. *)
Lemma write_entries `{BuildProfile} rng n wr bs tail : 0 <= n ->
  fw_at wr bs tail -> n * 2060 + FRAME_CRC_SIZE <= zlen tail ->
  exists wr' tail', for_each (range 0 n) (wr, []) (fun i '(writer, datagrams) =>
      '(writer, _) ← frame_writer_write writer (dg_entry rng i);
      Ok (writer, datagrams ++ [dg_entry rng i])) = Ok (wr', entries rng n) /\
    fw_at wr' (bs ++ encode_all (entries rng n)) tail' /\ FRAME_CRC_SIZE <= zlen tail'.
Proof.
  intros Hn Hat Hl.
  destruct (for_range_inv (fun i '(w, ds) => ds = entries rng i /\ exists t,
      fw_at w (bs ++ encode_all (entries rng i)) t /\ (n - i) * 2060 + FRAME_CRC_SIZE <= zlen t)
    0 n (wr, []) (fun i '(writer, datagrams) => '(writer, _) ← frame_writer_write writer (dg_entry rng i);
      Ok (writer, datagrams ++ [dg_entry rng i]))) as ([w ds] & Hr & -> & t & Ht & Hlt).
  - split; [done|]. exists tail. cbn. rewrite app_nil_r. split; [done|]. lia.
  - done.
  - intros i [w ds] Hi (-> & t & Ht & Hlt). destruct (dg_entry_valid rng i) as [Hd Hs].
    assert (Hv : serial_valid (dg_entry rng i)) by exact Hd.
    assert (He : zlen (serial_encode (dg_entry rng i)) <= 2060).
    { change (zlen (datagram_encode (dg_entry rng i)) <= 2060). rewrite datagram_encode_length.
      unfold DATAGRAM_HEADER_SIZE. lia. }
    pose proof (zlen_nonneg (serial_encode (dg_entry rng i))).
    destruct (frame_writer_write_fits w _ t (dg_entry rng i) Ht Hv ltac:(lia)) as (w' & -> & Hat').
    cbn [mbind outcome_bind]. eexists. split; [reflexivity|]. rewrite entries_S by lia. split; [done|].
    rewrite encode_all_snoc, app_assoc. eexists. split; [exact Hat'|].
    unfold zlen in *. rewrite length_drop. lia.
  - exists w, t. split; [exact Hr|]. split; [done|]. lia.
Qed.

(** The loop that reads them back. *)
Lemma read_entries `{BuildProfile} rng n rd : 0 <= n -> pr_at rd (encode_all (entries rng n)) ->
  exists rd', for_each (range 0 n) rd (fun i reader =>
      '(dg, reader) ← payload_reader_read reader;
      dg ← unwrap dg;
      entry ← unwrap (entries rng n !! Z.to_nat i);
      _ ← assert_eq (dg_id dg) (dg_id entry);
      _ ← assert_eq (dg_unrel dg) (dg_unrel entry);
      _ ← assert_eq (dg_first dg) (dg_first entry);
      _ ← assert_eq (dg_last dg) (dg_last entry);
      _ ← assert_eq (dg_data dg) (dg_data entry);
      Ok reader) = Ok rd' /\ pr_at rd' [].
Proof.
  intros Hn Hat.
  match goal with |- context [for_each _ _ ?body] =>
    destruct (for_range_inv (fun i r => pr_at r (encode_all (drop (Z.to_nat i) (entries rng n)))) 0 n rd body)
      as (rd' & Hr & Hat'); [exact Hat|done| |exists rd'; split; [exact Hr|]] end.
  - intros i r Hi Hri. rewrite entries_lookup by lia. rewrite (drop_S _ _ _ (entries_lookup rng n i Hi)) in Hri.
    cbn [encode_all mbind list_bind] in Hri. fold (encode_all (drop (S (Z.to_nat i)) (entries rng n))) in Hri.
    assert (Hv : serial_valid (dg_entry rng i)) by exact (proj1 (dg_entry_valid rng i)).
    destruct (payload_reader_read_encode r (dg_entry rng i) _ Hri Hv) as (r' & -> & Hr').
    cbn [mbind outcome_bind unwrap]. rewrite !assert_eq_refl. cbn [mbind outcome_bind]. exists r'. split; [done|].
    by replace (Z.to_nat (i + 1)) with (S (Z.to_nat i)) by lia.
  - rewrite drop_ge in Hat'; [done|]. unfold entries. rewrite length_fmap, length_seqZ. lia.
Qed.

Lemma stream_data_turn_passes `{BuildProfile} rng n : 0 <= n < 8 -> stream_data_turn rng n = Ok ().
Proof.
  intros Hn. unfold stream_data_turn. set (buffer := replicate (Z.to_nat (32 * 1024)) 0).
  assert (Hb : zlen buffer = 32768) by (unfold buffer, zlen; rewrite length_replicate; lia). clearbody buffer.
  destruct (frame_writer_new_at buffer StreamSegment) as (wr0 & -> & Hat0).
  { rewrite Hb. unfold FRAME_OVERHEAD_SIZE, FRAME_HEADER_SIZE, FRAME_CRC_SIZE. lia. }
  cbn [mbind outcome_bind].
  destruct (write_entries rng n wr0 _ _ ltac:(lia) Hat0) as (wr1 & tail & -> & Hat1 & Ht).
  { unfold zlen in *. rewrite length_drop. unfold FRAME_CRC_SIZE. lia. }
  cbn [mbind outcome_bind]. rewrite (finalize_at _ _ _ Hat1 Ht). cbn [mbind outcome_bind app].
  destruct (seal_checks StreamSegment (encode_all (entries rng n))) as (Hm & -> & -> & ->).
  { apply encode_all_u8, entries_valid. }
  rewrite Hm. cbn [mbind outcome_bind assert_]. rewrite assert_eq_refl. cbn [mbind outcome_bind].
  destruct (read_entries rng n _ ltac:(lia) (pr_at_new _)) as (rd & -> & Hat2). cbn [mbind outcome_bind].
  pose proof (remaining_bytes_at rd _ Hat2) as Hr. unfold remaining_bytes in Hr.
  unfold payload_reader_read. rewrite Hr. cbn [mbind outcome_bind]. rewrite serial_read_short by done. done.
Qed.

Lemma stream_data_passes `{BuildProfile} rng : stream_data rng = Ok ().
Proof. apply (for_range (fun _ => ())); [done|lia|]. intros n Hn. by apply stream_data_turn_passes. Qed.
End SerialTests.

(** ** The timer queue *)

Module TimerQueueTests.
(** A timer points to a counter that it may share with others. *)
Record MockTimer : Set := mkMockTimer { should_trigger : bool; trigger_count : nat }.

(** The timers created, [None] when dropped; the counters; how often the callback ran. *)
Record Mock : Set := mkMock { timers : list (option MockTimer); counts : list Z; callback_count : Z }.

Definition upgrade (s : Mock) (w : nat) : option MockTimer := mjoin (timers s !! w).

Definition timer_test (s : Mock) (t : MockTimer) (_now_ms : Z) : bool * Mock :=
  if should_trigger t then
    (true, mkMock (timers s) (alter (Z.add 1) (trigger_count t) (counts s)) (callback_count s))
  else (false, s).

Definition callback (_ : MockTimer) (s : Mock) : Mock := mkMock (timers s) (counts s) (callback_count s + 1).

(** [Arc::new(MockTimer {..})] and [drop]. *)
Definition new_timer (t : MockTimer) (s : Mock) : nat * Mock :=
  (length (timers s), mkMock (timers s ++ [Some t]) (counts s) (callback_count s)).
Definition drop_timer (w : nat) (s : Mock) : Mock :=
  mkMock (<[w := None]> (timers s)) (counts s) (callback_count s).

Definition run_queue (limit : nat) (queue : TimerQueue) (s : Mock) : outcome (TimerQueue * Mock) :=
  TimerQueue.test upgrade timer_test limit callback 12345 queue s.

Definition one_counter : Mock := mkMock [] [0] 0.

Definition test_trigger_callback_called : outcome () :=
  let '(timer, s) := new_timer (mkMockTimer true 0) one_counter in
  let queue := add_timer default timer in
  '(queue, s) ← run_queue 1 queue s;
  _ ← assert_eq (callback_count s) 1;
  assert_eq (counts s !! 0%nat) (Some 1).

Definition test_no_trigger_if_test_returns_false : outcome () :=
  let '(timer, s) := new_timer (mkMockTimer false 0) one_counter in
  let queue := add_timer default timer in
  '(queue, s) ← run_queue 1 queue s;
  _ ← assert_eq (callback_count s) 0;
  assert_eq (counts s !! 0%nat) (Some 0).

(** The callback of the source panics; here it is counted, and must not run. *)
Definition test_expired_timer_removed : outcome () :=
  let '(timer, s) := new_timer (mkMockTimer true 0) one_counter in
  let queue := add_timer default timer in
  let s := drop_timer timer s in
  '(queue, s) ← run_queue 1 queue s;
  _ ← assert_eq (callback_count s) 0;
  assert_eq (len queue) 0%nat.

Definition test_limit_respected : outcome () :=
  '(queue, s) ← for_each (range 0 5) (default, one_counter) (fun _ '(queue, s) =>
    let '(timer, s) := new_timer (mkMockTimer true 0) s in
    Ok (add_timer queue timer, s));
  '(queue, s) ← run_queue 3 queue s;
  _ ← assert_eq (callback_count s) 3;
  _ ← assert_eq (counts s !! 0%nat) (Some 3);
  assert_eq (len queue) 5%nat.

Lemma timer_queue_tests_pass :
  test_trigger_callback_called = Ok () /\ test_no_trigger_if_test_returns_false = Ok () /\
  test_expired_timer_removed = Ok () /\ test_limit_respected = Ok ().
Proof. vm_compute. done. Qed.
End TimerQueueTests.
