(* ===== verification/UnitTests.v ===== *)
(** * The unit tests as a whole

    The twenty-nine [#[test]] functions of the crate's modules, module by module: all of those
    under src/src that are not commented out.  What a test draws at random is an argument: the
    tests pass for whatever numbers they draw.  The seven integration tests of src/tests, which
    use threads and real sockets, are not modelled. *)

From S2P Require Import Prelude Word Testing BufferTests EndpointTests SegmentTests SegmentTxTests FrameTests.

Module UnitTests.
(** What the tests draw: nonces, octets and words for the checksum, the data of frames, and
    the nonces of the endpoint's thread. *)
Record Draws : Type := mkDraws {
  nonces : Z -> bool;
  octets : Z -> Z -> Z;
  words : Z -> Z;
  frame_data : Z -> Z -> SerialTests.RandomEntry;
  host_ctx : EndpointTests.MockHostContext;
}.

Section Tests.
Context `{BuildProfile} (d : Draws).

Definition buffer_tests : list (outcome ()) := [
  ReliableTests.send_fragmentation;
  ReliableTests.ack_advancement;
  ReliableTests.invalid_acks;
  ReliableTests.resend;
  ReliableTests.resend_resync;
  UnreliableTests.send_fragmentation].

Definition endpoint_tests : list (outcome ()) := [
  CcTests.basic;
  PrioTests.single_channels;
  PrioTests.simple;
  PrioTests.maxed_counters;
  EndpointTests.tx_state (host_ctx d)].

Definition segment_tests : list (outcome ()) := [
  SegmentRxTests.sequential_receive (nonces d);
  SegmentRxTests.nonsequential_receive (nonces d);
  SegmentRxTests.skips (nonces d);
  SegmentRxTests.beyond_window (nonces d);
  SegmentRxTests.dup_rejection (nonces d);
  SegmentTxTests.send_receive_window;
  SegmentTxTests.ideal_nonce_verification (nonces d);
  SegmentTxTests.bad_nonce_verification (nonces d);
  SegmentTxTests.full_window_nonce_verification (nonces d);
  SegmentTxTests.drop_detection].

Definition frame_tests : list (outcome ()) := [
  CrcTests.zero_nonzero_crc;
  CrcTests.basic;
  CrcTests.random (octets d) (words d);
  SerialTests.stream_data (frame_data d);
  TimerQueueTests.test_trigger_callback_called;
  TimerQueueTests.test_no_trigger_if_test_returns_false;
  TimerQueueTests.test_expired_timer_removed;
  TimerQueueTests.test_limit_respected].

(** [cargo test --lib]. *)
Definition suite : list (outcome ()) := buffer_tests ++ endpoint_tests ++ segment_tests ++ frame_tests.
End Tests.

(** A list of tests, one by one. *)
Ltac each_test :=
  lazymatch goal with
  | |- Forall _ [] => exact (List.Forall_nil _)
  | |- Forall _ (_ :: _) => refine (List.Forall_cons _ _ _ _ _); [|each_test]
  end.

Definition passes (test : outcome ()) : Prop := test = Ok ().

Lemma buffer_tests_pass `{BuildProfile} : Forall passes buffer_tests.
Proof.
  unfold buffer_tests. each_test.
  - exact ReliableTests.send_fragmentation_passes.
  - exact ReliableTests.ack_advancement_passes.
  - exact ReliableTests.invalid_acks_passes.
  - exact ReliableTests.resend_passes.
  - exact ReliableTests.resend_resync_passes.
  - exact UnreliableTests.unreliable_send_fragmentation_passes.
Qed.

Lemma endpoint_tests_pass `{BuildProfile} d : Forall passes (endpoint_tests d).
Proof.
  unfold endpoint_tests. each_test.
  - exact CcTests.cc_basic_passes.
  - exact PrioTests.single_channels_passes.
  - exact PrioTests.simple_passes.
  - exact PrioTests.maxed_counters_passes.
  - exact (EndpointTests.tx_state_passes _).
Qed.

Lemma segment_tests_pass `{BuildProfile} d : Forall passes (segment_tests d).
Proof.
  destruct (SegmentRxTests.rx_tests_pass (nonces d)) as (Ha & Hb & Hc & Hd & He).
  unfold segment_tests. each_test; [exact Ha|exact Hb|exact Hc|exact Hd|exact He|..].
  - exact SegmentTxTests.send_receive_window_passes.
  - exact (SegmentTxTests.ideal_nonce_verification_passes _).
  - exact (SegmentTxTests.bad_nonce_verification_passes _).
  - exact (SegmentTxTests.full_window_nonce_verification_passes _).
  - exact SegmentTxTests.drop_detection_passes.
Qed.

Lemma frame_tests_pass d `{BuildProfile} : Forall passes (frame_tests d).
Proof.
  destruct TimerQueueTests.timer_queue_tests_pass as (Ha & Hb & Hc & Hd).
  unfold frame_tests. each_test.
  - exact CrcTests.zero_nonzero_crc_passes.
  - exact CrcTests.crc_basic_passes.
  - exact (CrcTests.crc_random_passes _ _).
  - exact (SerialTests.stream_data_passes _).
  - exact Ha.
  - exact Hb.
  - exact Hc.
  - exact Hd.
Qed.

(** The unit tests of the modules pass, in debug and in release builds and whatever numbers
    they draw at random: no assertion fails, nothing overflows, and every one returns.  This
    validates the model against what the authors check of the code; most tests are runs on
    fixed inputs. *)
Theorem unit_tests_pass `{BuildProfile} d : Forall passes (suite d).
Proof.
  unfold suite. apply Forall_app_2; [exact buffer_tests_pass|]. apply Forall_app_2; [exact (endpoint_tests_pass d)|].
  apply Forall_app_2; [exact (segment_tests_pass d)|exact (frame_tests_pass d)].
Qed.
End UnitTests.
