(* ===== verification/Socket.v ===== *)
(** * UDP sockets ([socket.rs])

    What the client and the server use of the operating system: a non-blocking UDP socket
    and a poller of the [polling] crate that watches it.  The system itself is a parameter,
    the class [Os]: a state and what every call returns in it.  [OsOk] is what the code
    relies on: a receive call writes bytes, no more of them than the buffer holds. *)

From S2P Require Import Prelude Word HandshakeMac.

(** [std::io::Error], as far as the code looks at it: its kind is [WouldBlock] or another. *)
Inductive io_error : Set :=
| WouldBlock
| OtherError (code : Z).

(** [std::io::Result]. *)
Inductive io_result (A : Type) : Type :=
| IoOk (a : A)
| IoErr (e : io_error).
Arguments IoOk {A} _.
Arguments IoErr {A} _.

#[export] Instance io_result_bind : MBind io_result :=
  fun A B k m => match m with IoOk a => k a | IoErr e => IoErr e end.

(** The calls on the one socket and the one poller of a client or a server.  A receive call
    is told the size of the buffer and returns the bytes that it wrote to its front. *)
Class Os (K : Type) : Type := {
  udp_bind : SocketAddr -> K -> io_result () * K;
  udp_set_nonblocking : K -> io_result () * K;
  udp_connect : SocketAddr -> K -> io_result () * K;
  udp_local_addr : K -> io_result SocketAddr * K;
  udp_peer_addr : K -> io_result SocketAddr * K;
  udp_send_to : list Z -> SocketAddr -> K -> io_result Z * K;
  udp_send : list Z -> K -> io_result Z * K;
  udp_recv_from : Z -> K -> io_result (list Z * SocketAddr) * K;
  udp_recv : Z -> K -> io_result (list Z) * K;
  poller_new : K -> io_result () * K;
  poller_add : K -> io_result () * K;
  poller_modify : K -> io_result () * K;
  poller_wait : option Z -> K -> io_result Z * K;
}.

(** What [recv] and [recv_from] of [std::net::UdpSocket] promise of a buffer of [n] bytes:
    they write bytes, and no more of them than the buffer holds.  Nothing is said of when
    datagrams arrive, from where, how many, or in which order, nor of any error. *)
Class OsOk (K : Type) `{Os K} : Prop := {
  recv_from_fits n k bytes a : 0 <= n -> (udp_recv_from n k).1 = IoOk (bytes, a) ->
    Forall is_u8 bytes /\ zlen bytes <= n;
  recv_fits n k bytes : 0 <= n -> (udp_recv n k).1 = IoOk bytes -> Forall is_u8 bytes /\ zlen bytes <= n;
}.

(** [log] is what the system has been asked to send, and where if the socket is not
    connected; nothing but the two sending calls adds to it. *)
Class OsLog (K : Type) `{Os K} (log : K -> list (option SocketAddr * list Z)) : Prop := {
  log_send_to f a k : log (udp_send_to f a k).2 = log k ++ [(Some a, f)];
  log_send f k : log (udp_send f k).2 = log k ++ [(None, f)];
  log_recv_from n k : log (udp_recv_from n k).2 = log k;
  log_recv n k : log (udp_recv n k).2 = log k;
  log_modify k : log (poller_modify k).2 = log k;
  log_wait t k : log (poller_wait t k).2 = log k;
  log_bind a k : log (udp_bind a k).2 = log k;
  log_nonblocking k : log (udp_set_nonblocking k).2 = log k;
  log_connect a k : log (udp_connect a k).2 = log k;
  log_local_addr k : log (udp_local_addr k).2 = log k;
  log_peer_addr k : log (udp_peer_addr k).2 = log k;
  log_new k : log (poller_new k).2 = log k;
  log_add k : log (poller_add k).2 = log k;
}.

Module Socket.
(** The reference to the socket: the system has one. *)
Inductive SocketTx : Set := mkSocketTx.
Inductive ConnectedSocketTx : Set := mkConnectedSocketTx.

Record SocketRx : Set := mkSocketRx {
  local_addr : SocketAddr;
  poller_events : Z;
  recv_buffer : list Z;
}.

Record ConnectedSocketRx : Set := mkConnectedSocketRx {
  c_local_addr : SocketAddr;
  c_peer_addr : SocketAddr;
  c_poller_events : Z;
  c_recv_buffer : list Z;
}.

(** The buffer after a receive call has written [bytes]. *)
Definition write_front (bytes buffer : list Z) : list Z := bytes ++ drop (length bytes) buffer.

(** [&buffer[..n]]. *)
Definition slice_front (n : Z) (buffer : list Z) : outcome (list Z) :=
  if n <=? zlen buffer then Ok (take (Z.to_nat n) buffer) else Fault Panicked.

(** Sequencing of calls on the system with the [?] operator. *)
Definition io_then {K A B} (call : K -> io_result A * K) (next : A -> K -> io_result B * K) (k : K)
  : io_result B * K :=
  match call k with
  | (IoOk a, k) => next a k
  | (IoErr e, k) => (IoErr e, k)
  end.

Section Socket.
Context {K : Type} `{Os K}.

(** ** Server sockets *)

(** [let _ = self.socket.send_to(frame, addr)]. *)
Definition send_to (frame : list Z) (addr : SocketAddr) (k : K) : K := (udp_send_to frame addr k).2.

Definition try_read_frame (self : SocketRx) (k : K)
  : outcome (io_result (option (list Z * SocketAddr)) * SocketRx * K) :=
  match udp_recv_from (zlen (recv_buffer self)) k with
  | (IoOk (bytes, sender_addr), k) =>
      let frame_len := zlen bytes in
      let buffer := write_front bytes (recv_buffer self) in
      frame_bytes ← slice_front frame_len buffer;
      Ok (IoOk (Some (frame_bytes, sender_addr)), mkSocketRx (local_addr self) (poller_events self) buffer, k)
  | (IoErr err, k) =>
      match err with
      | WouldBlock => Ok (IoOk None, self, k)
      | _ => Ok (IoErr err, self, k)
      end
  end.

Definition wait_for_frame (self : SocketRx) (timeout : option Z) (k : K)
  : outcome (io_result (option (list Z * SocketAddr)) * SocketRx * K) :=
  match poller_modify k with
  | (IoErr e, k) => Ok (IoErr e, self, k)
  | (IoOk _, k) =>
      let self := mkSocketRx (local_addr self) 0 (recv_buffer self) in
      match poller_wait timeout k with
      | (IoErr e, k) => Ok (IoErr e, self, k)
      | (IoOk n, k) =>
          let self := mkSocketRx (local_addr self) n (recv_buffer self) in
          if 0 <? n then try_read_frame self k else Ok (IoOk None, self, k)
      end
  end.

Definition new (bind_address : SocketAddr) (frame_size_max : Z) (k : K) : io_result (SocketTx * SocketRx) * K :=
  io_then (udp_bind bind_address) (fun _ =>
  io_then udp_set_nonblocking (fun _ =>
  io_then udp_local_addr (fun local_addr =>
  io_then poller_new (fun _ =>
  io_then poller_add (fun _ k =>
    (IoOk (mkSocketTx, mkSocketRx local_addr 0 (replicate (Z.to_nat frame_size_max) 0)), k)))))) k.

(** ** Connected sockets *)

Definition send (frame : list Z) (k : K) : K := (udp_send frame k).2.

Definition c_try_read_frame (self : ConnectedSocketRx) (k : K)
  : outcome (io_result (option (list Z)) * ConnectedSocketRx * K) :=
  match udp_recv (zlen (c_recv_buffer self)) k with
  | (IoOk bytes, k) =>
      let frame_len := zlen bytes in
      let buffer := write_front bytes (c_recv_buffer self) in
      frame_bytes ← slice_front frame_len buffer;
      Ok (IoOk (Some frame_bytes),
          mkConnectedSocketRx (c_local_addr self) (c_peer_addr self) (c_poller_events self) buffer, k)
  | (IoErr err, k) =>
      match err with
      | WouldBlock => Ok (IoOk None, self, k)
      | _ => Ok (IoErr err, self, k)
      end
  end.

Definition c_wait_for_frame (self : ConnectedSocketRx) (timeout : option Z) (k : K)
  : outcome (io_result (option (list Z)) * ConnectedSocketRx * K) :=
  match poller_modify k with
  | (IoErr e, k) => Ok (IoErr e, self, k)
  | (IoOk _, k) =>
      let self := mkConnectedSocketRx (c_local_addr self) (c_peer_addr self) 0 (c_recv_buffer self) in
      match poller_wait timeout k with
      | (IoErr e, k) => Ok (IoErr e, self, k)
      | (IoOk n, k) =>
          let self := mkConnectedSocketRx (c_local_addr self) (c_peer_addr self) n (c_recv_buffer self) in
          if 0 <? n then c_try_read_frame self k else Ok (IoOk None, self, k)
      end
  end.

Definition new_connected (bind_address connect_address : SocketAddr) (frame_size_max : Z) (k : K)
  : io_result (ConnectedSocketTx * ConnectedSocketRx) * K :=
  io_then (udp_bind bind_address) (fun _ =>
  io_then udp_set_nonblocking (fun _ =>
  io_then (udp_connect connect_address) (fun _ =>
  io_then udp_local_addr (fun local_addr =>
  io_then udp_peer_addr (fun peer_addr =>
  io_then poller_new (fun _ =>
  io_then poller_add (fun _ k =>
    (IoOk (mkConnectedSocketTx,
       mkConnectedSocketRx local_addr peer_addr 0 (replicate (Z.to_nat frame_size_max) 0)), k)))))))) k.
End Socket.

(** ** What a receive call gives *)

Lemma write_front_slice bytes buffer : zlen bytes <= zlen buffer ->
  zlen (write_front bytes buffer) = zlen buffer /\ slice_front (zlen bytes) (write_front bytes buffer) = Ok bytes.
Proof.
  intros Hl. assert (Hz : zlen (write_front bytes buffer) = zlen buffer).
  { unfold write_front, zlen in *. rewrite length_app, length_drop. lia. }
  split; [done|]. unfold slice_front. rewrite Hz, (proj2 (Z.leb_le _ _) Hl). unfold write_front, zlen.
  by rewrite Nat2Z.id, take_app_length.
Qed.

Section Facts.
Context {K : Type} `{Os K} `{!OsOk K}.

(** A frame is at most as long as the buffer, which keeps its size; a socket that would
    block gives no frame, and any other error is passed on. *)
Lemma try_read_frame_spec self k :
  let call := udp_recv_from (zlen (recv_buffer self)) k in
  exists self', zlen (recv_buffer self') = zlen (recv_buffer self) /\ local_addr self' = local_addr self /\
    try_read_frame self k = Ok (match call.1 with
                                | IoOk x => IoOk (Some x)
                                | IoErr WouldBlock => IoOk None
                                | IoErr e => IoErr e
                                end, self', call.2).
Proof.
  intros call. pose proof (recv_from_fits (zlen (recv_buffer self)) k) as Hfit. fold call in Hfit.
  unfold try_read_frame. fold call. destruct call as [[[bytes a]|[]] k']; cbn [fst snd] in *; [|by exists self..].
  destruct (Hfit bytes a) as [_ Hl]; [done..|]. destruct (write_front_slice bytes _ Hl) as [Hz ->].
  cbn [mbind outcome_bind]. eexists. split; [|split; [|reflexivity]]; [exact Hz|done].
Qed.

Lemma c_try_read_frame_spec self k :
  let call := udp_recv (zlen (c_recv_buffer self)) k in
  exists self', zlen (c_recv_buffer self') = zlen (c_recv_buffer self) /\
    c_try_read_frame self k = Ok (match call.1 with
                                  | IoOk x => IoOk (Some x)
                                  | IoErr WouldBlock => IoOk None
                                  | IoErr e => IoErr e
                                  end, self', call.2).
Proof.
  intros call. pose proof (recv_fits (zlen (c_recv_buffer self)) k) as Hfit. fold call in Hfit.
  unfold c_try_read_frame. fold call. destruct call as [[bytes|[]] k']; cbn [fst snd] in *; [|by exists self..].
  destruct (Hfit bytes) as [_ Hl]; [done..|]. destruct (write_front_slice bytes _ Hl) as [Hz ->].
  cbn [mbind outcome_bind]. eexists. split; [|reflexivity]. exact Hz.
Qed.

(** What holds of what a call gives. *)
Definition call_ok {A} (Q : A -> Prop) (res : io_result A * K) : Prop :=
  match res.1 with IoOk x => Q x | IoErr _ => True end.

Lemma io_then_ok {A B} (Q : B -> Prop) (call : K -> io_result A * K) (next : A -> K -> io_result B * K) k :
  (forall a k, call_ok Q (next a k)) -> call_ok Q (io_then call next k).
Proof. intros Hnext. unfold io_then. destruct (call k) as [[a|e] k']; [apply Hnext|done]. Qed.

Lemma whole_buffer n : 0 <= n -> zlen (replicate (Z.to_nat n) 0) = n.
Proof. intros Hn. unfold zlen. rewrite length_replicate. lia. Qed.

(** New sockets have whole buffers. *)
Lemma new_connected_ok bind_address connect_address n k : 0 <= n ->
  call_ok (fun x => zlen (c_recv_buffer x.2) = n) (new_connected bind_address connect_address n k).
Proof. intros Hn. unfold new_connected. repeat (apply io_then_ok; intros ? ?). by apply whole_buffer. Qed.

Lemma new_ok bind_address n k : 0 <= n ->
  call_ok (fun x => zlen (recv_buffer x.2) = n) (new bind_address n k).
Proof. intros Hn. unfold new. repeat (apply io_then_ok; intros ? ?). by apply whole_buffer. Qed.
End Facts.

(** ** What is sent *)

Section Log.
Context {K : Type} `{Os K} {log : K -> list (option SocketAddr * list Z)} `{!OsLog K log}.

Lemma sends_log fs : forall k, log (foldl (fun k f => send f k) k fs) = log k ++ (pair None <$> fs).
Proof.
  induction fs as [|f fs IH]; intros k; cbn [foldl fmap list_fmap]; [by rewrite app_nil_r|].
  rewrite IH. unfold send. by rewrite log_send, <- app_assoc.
Qed.

Lemma sends_to_log xs : forall k, log (foldl (fun k x => send_to x.2 x.1 k) k xs) =
  log k ++ ((fun x => (Some x.1, x.2)) <$> xs).
Proof.
  induction xs as [|x xs IH]; intros k; cbn [foldl fmap list_fmap]; [by rewrite app_nil_r|].
  rewrite IH. unfold send_to. by rewrite log_send_to, <- app_assoc.
Qed.

Lemma io_then_log {A B} (call : K -> io_result A * K) (next : A -> K -> io_result B * K) k :
  (forall k, log (call k).2 = log k) -> (forall a k, log (next a k).2 = log k) -> log (io_then call next k).2 = log k.
Proof.
  intros Hc Hn. unfold io_then. specialize (Hc k). destruct (call k) as [[a|e] k']; [|done]. by rewrite Hn.
Qed.

Ltac log_step := apply io_then_log;
  [intros; first [by apply log_bind|by apply log_nonblocking|by apply log_connect|by apply log_local_addr
                 |by apply log_peer_addr|by apply log_new|by apply log_add]
  |intros ? ?].

Lemma new_connected_log a b n k : log (new_connected a b n k).2 = log k.
Proof. unfold new_connected. by repeat log_step. Qed.

Lemma new_log a n k : log (new a n k).2 = log k.
Proof. unfold new. by repeat log_step. Qed.

Lemma try_read_log self k : holds (fun x => log x.2 = log k) (try_read_frame self k).
Proof.
  unfold try_read_frame. pose proof (log_recv_from (zlen (recv_buffer self)) k) as Hl.
  destruct (udp_recv_from _ k) as [[[bytes a]|[]] k']; try exact Hl. by apply holds_any.
Qed.

Lemma c_try_read_log self k : holds (fun x => log x.2 = log k) (c_try_read_frame self k).
Proof.
  unfold c_try_read_frame. pose proof (log_recv (zlen (c_recv_buffer self)) k) as Hl.
  destruct (udp_recv _ k) as [[bytes|[]] k']; try exact Hl. by apply holds_any.
Qed.

Lemma wait_log self t k : holds (fun x => log x.2 = log k) (wait_for_frame self t k).
Proof.
  unfold wait_for_frame. pose proof (log_modify k) as Hm. destruct (poller_modify k) as [[u|e] k1]; [|exact Hm].
  pose proof (log_wait t k1) as Hw. destruct (poller_wait t k1) as [[n|e] k2]; cbn [snd] in *; [|cbn; congruence].
  case_bool; [|cbn; congruence]. cbn [local_addr recv_buffer].
  replace (log k) with (log k2) by congruence. apply try_read_log.
Qed.

Lemma c_wait_log self t k : holds (fun x => log x.2 = log k) (c_wait_for_frame self t k).
Proof.
  unfold c_wait_for_frame. pose proof (log_modify k) as Hm. destruct (poller_modify k) as [[u|e] k1]; [|exact Hm].
  pose proof (log_wait t k1) as Hw. destruct (poller_wait t k1) as [[n|e] k2]; cbn [snd] in *; [|cbn; congruence].
  case_bool; [|cbn; congruence]. cbn [c_local_addr c_peer_addr c_recv_buffer].
  replace (log k) with (log k2) by congruence. apply c_try_read_log.
Qed.
End Log.
End Socket.
