(* ===== verification/SocketLoop.v ===== *)
(** * Reading loops over a socket

    The client and the server read their sockets in the same two loops, [handle_frames] and
    [handle_frames_wait].  [FrameSource] is what the loops ask of a socket, [FrameSourceOk]
    what they rely on; both kinds of sockets are instances.  [read_loop_handled] reduces a loop
    over a socket to the handling of a list of frames, which is what the models of the
    client and of the server take.

    The source's loops have no bound.  Here they are followed for [reads] frames, and the
    reason why that may not be enough is made explicit: [streak reads] holds of a state from
    which the socket does yield [reads] frames in a row, and [busy reads] of one from which
    calls on the system lead to such a state.  Nothing rules this out: datagrams arrive
    while the loops run. *)

From S2P Require Import Prelude Word HandshakeMac Socket.
Import Socket.

Class FrameSource (K Rx X : Type) : Type := {
  try_read : Rx -> K -> outcome (io_result (option X) * Rx * K);
  wait_read : Rx -> option Z -> K -> outcome (io_result (option X) * Rx * K);
}.

(** [wf] holds of the socket, and stays; frames read satisfy [frame_wf]. *)
Class FrameSourceOk (K Rx X : Type) `{FrameSource K Rx X} (wf : Rx -> Prop) (frame_wf : X -> Prop) : Prop := {
  try_read_ok rx k : wf rx -> exists r rx' k', try_read rx k = Ok (r, rx', k') /\ wf rx' /\
    (forall x, r = IoOk (Some x) -> frame_wf x);
  wait_read_ok rx t k : wf rx -> exists r rx' k', wait_read rx t k = Ok (r, rx', k') /\ wf rx' /\
    (forall x, r = IoOk (Some x) -> frame_wf x);
}.

(** Something with a socket: the state that handles frames, the socket and the system. *)
Record Over (Core Rx K : Type) : Type := mkOver { core : Core; socket_rx : Rx; os : K }.
Arguments mkOver {Core Rx K} _ _ _.
Arguments core {Core Rx K} _.
Arguments socket_rx {Core Rx K} _.
Arguments os {Core Rx K} _.

Section Loop.
Context {K Rx X Core : Type} `{FrameSource K Rx X}.
(** [handle] treats one frame; [transmit before after] hands the system what was sent
    meanwhile. *)
Context (handle : Core -> X -> outcome Core) (transmit : Core -> Core -> K -> K).

(** A step of the core, whose frames go to the socket. *)
Definition step_core (f : Core -> outcome Core) (self : Over Core Rx K) : outcome (Over Core Rx K) :=
  c ← f (core self);
  Ok (mkOver c (socket_rx self) (transmit (core self) c (os self))).

(** [while let Ok(Some(frame)) = socket_rx.try_read_frame() { handle(frame) }]. *)
Fixpoint read_loop (reads : nat) (self : Over Core Rx K) : outcome (Over Core Rx K) :=
  match reads with
  | O => Fault OutOfFuel
  | S reads =>
      '(r, rx, k) ← try_read (socket_rx self) (os self);
      let self := mkOver (core self) rx k in
      match r with
      | IoOk (Some frame) => self ← step_core (fun c => handle c frame) self; read_loop reads self
      | _ => Ok self
      end
  end.

(** [if let Ok(Some(frame)) = socket_rx.wait_for_frame(timeout) { handle(frame); loop }]. *)
Definition read_loop_wait (reads : nat) (timeout : option Z) (self : Over Core Rx K) : outcome (Over Core Rx K) :=
  '(r, rx, k) ← wait_read (socket_rx self) timeout (os self);
  let self := mkOver (core self) rx k in
  match r with
  | IoOk (Some frame) => self ← step_core (fun c => handle c frame) self; read_loop reads self
  | _ => Ok self
  end.

(** ** How long the loops run *)

(** More reads change nothing of a loop that has ended. *)
Lemma read_loop_settles reads : forall more self, (reads <= more)%nat ->
  settles (read_loop reads self) (read_loop more self).
Proof.
  induction reads as [|reads IH]; intros more self Hm; [done|]. destruct more as [|more]; [lia|]. cbn [read_loop].
  apply settles_bind; [done|]. intros [[[[x|]|e] rx] k]; [|done..].
  apply settles_bind; [done|]. intros self'. apply IH. lia.
Qed.

Lemma read_loop_wait_settles reads more timeout self : (reads <= more)%nat ->
  settles (read_loop_wait reads timeout self) (read_loop_wait more timeout self).
Proof.
  intros Hm. apply settles_bind; [done|]. intros [[[[x|]|e] rx] k]; [|done..].
  apply settles_bind; [done|]. intros self'. by apply read_loop_settles.
Qed.

(** [n] frames in a row are there to be read, with their handling in between. *)
Inductive streak : nat -> Over Core Rx K -> Prop :=
| streak_none self : streak 0 self
| streak_frame n self x rx k c :
    try_read (socket_rx self) (os self) = Ok (IoOk (Some x), rx, k) -> handle (core self) x = Ok c ->
    streak n (mkOver c rx (transmit (core self) c k)) -> streak (S n) self.

(** One call on the system: the socket is read or waited for, or frames are sent. *)
Inductive os_call : Rx * K -> Rx * K -> Prop :=
| os_try rx k r rx' k' : try_read rx k = Ok (r, rx', k') -> os_call (rx, k) (rx', k')
| os_wait rx k t r rx' k' : wait_read rx t k = Ok (r, rx', k') -> os_call (rx, k) (rx', k')
| os_transmit rx k c c' : os_call (rx, k) (rx, transmit c c' k).

(** Calls on the system lead to a streak of that many frames. *)
Definition busy (reads : nat) (rx : Rx) (k : K) : Prop :=
  exists c rx' k', rtc os_call (rx, k) (rx', k') /\ streak reads (mkOver c rx' k').

Lemma busy_later reads rx k rx' k' : rtc os_call (rx, k) (rx', k') -> busy reads rx' k' -> busy reads rx k.
Proof. intros Hs (c & rx2 & k2 & Hs2 & Hst). exists c, rx2, k2. split; [by etrans|done]. Qed.

Context (wf : Rx -> Prop) (frame_wf : X -> Prop) `{!FrameSourceOk K Rx X wf frame_wf}.
(** The same frames as a list. *)
Context (handle_all : Core -> list X -> outcome Core).
Context (handle_all_nil : forall c, handle_all c [] = Ok c).
Context (handle_all_cons : forall c x xs, handle_all c (x :: xs) = (c ← handle c x; handle_all c xs)).

(** The socket after some calls. *)
Definition leads (self : Over Core Rx K) (rx : Rx) (k : K) : Prop :=
  wf rx /\ rtc os_call (socket_rx self, os self) (rx, k).

(** [result] is that of handling some list of frames; or the loop was cut short while
    [stuck]. *)
Definition handled (stuck : Prop) (self : Over Core Rx K) (result : outcome (Over Core Rx K)) : Prop :=
  (exists fs rx' k', Forall frame_wf fs /\ leads self rx' k' /\
    result = (c ← handle_all (core self) fs; Ok (mkOver c rx' k'))) \/
  result = Fault OutOfFuel /\ stuck.

Lemma handled_nil stuck c rx k rx' k' : leads (mkOver c rx k) rx' k' ->
  handled stuck (mkOver c rx k) (Ok (mkOver c rx' k')).
Proof. intros Hl. left. exists [], rx', k'. rewrite handle_all_nil. by split. Qed.

Lemma leads_transmit self rx k c c' : leads self rx k -> leads self rx (transmit c c' k).
Proof. intros [Hwf Hs]. split; [done|]. eapply rtc_r; [exact Hs|]. apply os_transmit. Qed.

Lemma leads_trans self rx k c rx' k' : leads self rx k -> leads (mkOver c rx k) rx' k' -> leads self rx' k'.
Proof. intros [_ Hs] [Hwf Hs']. split; [done|by etrans]. Qed.

(** A frame and what follows. *)
Lemma handled_cons stuck later c rx k rx' k' x next : leads (mkOver c rx k) rx' k' -> frame_wf x ->
  (forall c', handle c x = Ok c' -> later c' -> stuck) ->
  (forall c', handled (later c') (mkOver c' rx' (transmit c c' k')) (next (mkOver c' rx' (transmit c c' k')))) ->
  handled stuck (mkOver c rx k) (self ← step_core (fun c => handle c x) (mkOver c rx' k'); next self).
Proof.
  intros Hl Hx Hlater Hnext. unfold step_core. cbn [core socket_rx os].
  destruct (handle c x) as [c'|f] eqn:Eh; cbn [mbind outcome_bind].
  - destruct (Hnext c') as [(fs & rx2 & k2 & Hfs & Hl2 & ->)|[-> Hst]]; [left|right; by eauto].
    exists (x :: fs), rx2, k2. rewrite handle_all_cons. cbn [core]. rewrite Eh. split; [by constructor|].
    split; [|done]. eapply leads_trans; [by apply leads_transmit|exact Hl2].
  - left. exists [x], rx', k'. rewrite handle_all_cons. cbn [core]. rewrite Eh.
    split; [by repeat constructor|done].
Qed.

(** The loop handles a list of frames, or there are frames for all its reads. *)
Lemma read_loop_handled reads : forall self, wf (socket_rx self) ->
  handled (streak reads self) self (read_loop reads self).
Proof.
  induction reads as [|reads IH]; intros [c rx k] Hwf; cbn [read_loop socket_rx os core] in *.
  { right. split; [done|constructor]. }
  destruct (try_read_ok rx k Hwf) as (r & rx' & k' & Hr & Hwf' & Hx). rewrite Hr. cbn [mbind outcome_bind].
  assert (Hl : leads (mkOver c rx k) rx' k') by (split; [done|by eapply rtc_once, os_try]).
  destruct r as [[x|]|e]; [|by apply handled_nil..].
  apply (handled_cons _ (fun c' => streak reads (mkOver c' rx' (transmit c c' k')))); [done|by apply Hx| |].
  - intros c' Hc' Hs. by eapply streak_frame.
  - intros c'. by apply IH.
Qed.

Lemma read_loop_wait_handled reads timeout self : wf (socket_rx self) ->
  handled (busy reads (socket_rx self) (os self)) self (read_loop_wait reads timeout self).
Proof.
  destruct self as [c rx k]. intros Hwf. unfold read_loop_wait. cbn [socket_rx os core] in *.
  destruct (wait_read_ok rx timeout k Hwf) as (r & rx' & k' & Hr & Hwf' & Hx). rewrite Hr. cbn [mbind outcome_bind].
  assert (Hl : leads (mkOver c rx k) rx' k') by (split; [done|by eapply rtc_once, os_wait]).
  destruct r as [[x|]|e]; [|by apply handled_nil..].
  apply (handled_cons _ (fun c' => streak reads (mkOver c' rx' (transmit c c' k')))); [done|by apply Hx| |].
  - intros c' _ Hs. exists c', rx', (transmit c c' k'). split; [by apply (leads_transmit _ _ _ c c' Hl)|done].
  - intros c'. by apply read_loop_handled.
Qed.

(** ** Agreement of a call over a socket with a call on the core *)

(** [res], a call from [self], is [list_res] with a socket. *)
Definition over (self : Over Core Rx K) (res : outcome (Over Core Rx K)) (list_res : outcome Core) : Prop :=
  exists rx k, leads self rx k /\ res = (c ← list_res; Ok (mkOver c rx k)).

(** The same of calls that hand out events. *)
Definition served_over {Ev} (self : Over Core Rx K) (res : outcome (list Ev * Over Core Rx K))
  (list_res : outcome (list Ev * Core)) : Prop :=
  exists rx k, leads self rx k /\ res = ('(evs, c) ← list_res; Ok (evs, mkOver c rx k)).

Definition socket_ok (self : Over Core Rx K) : Prop := wf (socket_rx self).

(** A call was cut short by the bound on its reads while the socket kept yielding frames. *)
Definition cut_short {A} (reads : nat) (self : Over Core Rx K) (res : outcome A) : Prop :=
  res = Fault OutOfFuel /\ busy reads (socket_rx self) (os self).

Lemma cut_short_later {A} reads self c rx k {res : outcome A} : leads self rx k ->
  cut_short reads (mkOver c rx k) res -> cut_short reads self res.
Proof. intros [_ Hs] [Hr Hb]. split; [done|by eapply busy_later]. Qed.

Lemma cut_short_bind {A B} reads self (res : outcome A) (f : A -> outcome B) :
  cut_short reads self res -> cut_short reads self (res ≫= f).
Proof. by intros [-> Hb]. Qed.

Lemma cut_short_fmap {A B} reads self (res : outcome A) (f : A -> B) :
  cut_short reads self res -> cut_short reads self (f <$> res).
Proof. by intros [-> Hb]. Qed.

Lemma served_over_later {Ev} self c rx k {res : outcome (list Ev * Over Core Rx K)} {list_res} :
  leads self rx k -> served_over (mkOver c rx k) res list_res -> served_over self res list_res.
Proof. intros Hl (rx' & k' & Hl' & ->). exists rx', k'. split; [by eapply leads_trans|done]. Qed.

(** A call that hands out no events. *)
Definition quietly {Ev} (r : outcome (Over Core Rx K)) : outcome (list Ev * Over Core Rx K) :=
  self ← r; Ok ([], self).

Lemma quietly_over {Ev} self res list_res : over self res list_res ->
  served_over (Ev := Ev) self (quietly res) (c ← list_res; Ok ([], c)).
Proof. intros (rx & k & Hl & ->). exists rx, k. split; [done|]. by destruct list_res. Qed.

Lemma leads_self self : socket_ok self -> leads self (socket_rx self) (os self).
Proof. intros Hs. split; [done|]. apply rtc_refl. Qed.

Lemma step_over f self : socket_ok self -> over self (step_core f self) (f (core self)).
Proof.
  intros Hs. unfold step_core, over. destruct (f (core self)) as [c|e]; cbn [mbind outcome_bind].
  - exists (socket_rx self), (transmit (core self) c (os self)). split; [by apply leads_transmit, leads_self|done].
  - exists (socket_rx self), (os self). split; [by apply leads_self|done].
Qed.

Lemma over_step self res list_res f : over self res list_res ->
  over self (self ← res; step_core f self) (c ← list_res; f c).
Proof.
  intros (rx & k & Hl & ->). destruct list_res as [c|e]; cbn [mbind outcome_bind]; [|by exists rx, k].
  destruct (step_over f (mkOver c rx k) (proj1 Hl)) as (rx' & k' & Hl' & ->). exists rx', k'.
  split; [by eapply leads_trans|done].
Qed.

Lemma read_loop_over reads self : socket_ok self ->
  (exists fs, Forall frame_wf fs /\ over self (read_loop reads self) (handle_all (core self) fs)) \/
  cut_short reads self (read_loop reads self).
Proof.
  intros Hs. destruct (read_loop_handled reads self Hs) as [(fs & rx & k & Hfs & Hl & Hr)|[Hr Hst]].
  - left. exists fs. split; [done|]. by exists rx, k.
  - right. split; [done|]. exists (core self), (socket_rx self), (os self). split; [apply rtc_refl|by destruct self].
Qed.

(** What a turn of a waiting loop and its continuation amount to. *)
Definition next_turn {W} (process : Core -> outcome Core) (reads : nat) (timeout : option Z) (self : Over Core Rx K)
  (f : Over Core Rx K -> outcome W) : outcome W :=
  self ← read_loop_wait reads timeout self; self ← step_core process self; f self.
Definition next_list_turn {W} (process : Core -> outcome Core) (c : Core) (fs : list X) (g : Core -> outcome W)
  : outcome W :=
  c ← handle_all c fs; c ← process c; g c.

Lemma next_turn_settles {W} process reads more timeout self (f f' : Over Core Rx K -> outcome W) :
  (reads <= more)%nat -> (forall self, settles (f self) (f' self)) ->
  settles (next_turn process reads timeout self f) (next_turn process more timeout self f').
Proof.
  intros Hm Hf. apply settles_bind; [by apply read_loop_wait_settles|]. intros s. by apply settles_bind.
Qed.

(** A turn fails on both sides, or goes on from the same core, or does not end. *)
Lemma turn_cases {W W'} process reads timeout self : socket_ok self ->
  (exists fs, Forall frame_wf fs /\
    ((exists e, (forall f, next_turn (W := W) process reads timeout self f = Fault e) /\
                (forall g, next_list_turn (W := W') process (core self) fs g = Fault e)) \/
     (exists c rx k, leads self rx k /\ (forall f, next_turn (W := W)
       process reads timeout self f = f (mkOver c rx k)) /\
                (forall g, next_list_turn (W := W') process (core self) fs g = g c)))) \/
  (forall f, cut_short reads self (next_turn (W := W) process reads timeout self f)).
Proof.
  intros Hs. unfold next_turn, next_list_turn.
  destruct (read_loop_wait_handled reads timeout self Hs) as [(fs & rx & k & Hfs & Hl & Hr)|[Hr Hb]].
  2: { right. intros f. by rewrite Hr. }
  left. exists fs. split; [done|]. rewrite Hr. clear Hr.
  destruct (handle_all (core self) fs) as [c|e]; cbn [mbind outcome_bind]; [|by left; exists e].
  destruct (step_over process (mkOver c rx k) (proj1 Hl)) as (rx' & k' & Hl' & ->). cbn [core].
  destruct (process c) as [c'|e]; [right|left; by exists e].
  exists c', rx', k'. split; [by eapply leads_trans|done].
Qed.
End Loop.

(** ** What reaches the system

    [log] is what the system was asked to send, [sent] what the core has sent.  The system is
    kept up with the core: [tracks] holds after every call if it held before. *)

Class FrameSourceLog (K Rx X : Type) `{FrameSource K Rx X} {Y : Type} (log : K -> list Y) : Prop := {
  source_try_log rx k : holds (fun x => log x.2 = log k) (try_read rx k);
  source_wait_log rx t k : holds (fun x => log x.2 = log k) (wait_read rx t k);
}.

Section Tracking.
Context {K Rx X Core Y : Type} `{FrameSource K Rx X}.
Context (handle : Core -> X -> outcome Core) (transmit : Core -> Core -> K -> K).
Context (log : K -> list Y) `{!FrameSourceLog K Rx X log} (sent : Core -> list Y).
Context (transmit_log : forall c c' k, log (transmit c c' k) = log k ++ drop (length (sent c)) (sent c')).

(** A step of the core only adds to what was sent. *)
Definition grows (f : Core -> outcome Core) : Prop := forall c, holds (fun c' => sent c `prefix_of` sent c') (f c).

Context (handle_grows : forall x, grows (fun c => handle c x)).
Context (before : list Y).

Definition tracks (self : Over Core Rx K) : Prop := log (os self) = before ++ sent (core self).

Lemma step_tracks f self : grows f -> tracks self -> holds tracks (step_core transmit f self).
Proof.
  intros Hf Ht. unfold step_core. specialize (Hf (core self)). destruct (f (core self)) as [c|e]; [|done].
  destruct Hf as [l Hl]. unfold tracks in *. cbn. rewrite transmit_log, Ht, <- app_assoc, Hl.
  by rewrite drop_app_length.
Qed.

Lemma read_loop_tracks reads : forall self, tracks self -> holds tracks (read_loop handle transmit reads self).
Proof.
  induction reads as [|reads IH]; intros [c rx k] Ht; cbn [read_loop socket_rx os core]; [done|].
  apply (holds_bind (fun x => log x.2 = log k)); [apply source_try_log|]. intros [[r rx'] k'] Hk. cbn [snd] in Hk.
  assert (Ht' : tracks (mkOver c rx' k')) by (unfold tracks in *; cbn [os core] in *; congruence).
  destruct r as [[x|]|e]; [|exact Ht'..]. apply (holds_bind tracks); [by apply step_tracks|exact IH].
Qed.

Lemma read_loop_wait_tracks reads timeout self : tracks self ->
  holds tracks (read_loop_wait handle transmit reads timeout self).
Proof.
  destruct self as [c rx k]. intros Ht. unfold read_loop_wait. cbn [socket_rx os core].
  apply (holds_bind (fun x => log x.2 = log k)); [apply source_wait_log|]. intros [[r rx'] k'] Hk. cbn [snd] in Hk.
  assert (Ht' : tracks (mkOver c rx' k')) by (unfold tracks in *; cbn [os core] in *; congruence).
  destruct r as [[x|]|e]; [|exact Ht'..]. apply (holds_bind tracks); [by apply step_tracks|].
  intros self. apply read_loop_tracks.
Qed.
End Tracking.

(** ** Sockets as sources of frames *)

Section Sources.
Context {K : Type} `{Os K}.
#[global] Instance server_source : FrameSource K SocketRx (list Z * SocketAddr) :=
  {| try_read := try_read_frame; wait_read := wait_for_frame |}.
#[global] Instance client_source : FrameSource K ConnectedSocketRx (list Z) :=
  {| try_read := c_try_read_frame; wait_read := c_wait_for_frame |}.

Context `{!OsOk K}.
Context (size : Z) (Hsize : 0 <= size).

Definition server_wf (rx : SocketRx) : Prop := zlen (recv_buffer rx) = size.
Definition client_wf (rx : ConnectedSocketRx) : Prop := zlen (c_recv_buffer rx) = size.
Definition client_frame_wf (f : list Z) : Prop := Forall is_u8 f /\ zlen f <= size.
Definition server_frame_wf (x : list Z * SocketAddr) : Prop := client_frame_wf x.1.

Lemma server_try_read rx k : server_wf rx -> exists r rx' k', try_read_frame rx k = Ok (r, rx', k') /\
  server_wf rx' /\ (forall x, r = IoOk (Some x) -> server_frame_wf x).
Proof.
  intros Hrx. destruct (try_read_frame_spec rx k) as (rx' & Hz & _ & ->). rewrite Hrx in *.
  pose proof (recv_from_fits size k) as Hfit. do 3 eexists. split; [reflexivity|]. split; [done|].
  intros [bytes a] Hx. apply (Hfit bytes a); [done|].
  destruct (udp_recv_from size k).1 as [x|[]]; [congruence|done..].
Qed.

Lemma client_try_read rx k : client_wf rx -> exists r rx' k', c_try_read_frame rx k = Ok (r, rx', k') /\
  client_wf rx' /\ (forall x, r = IoOk (Some x) -> client_frame_wf x).
Proof.
  intros Hrx. destruct (c_try_read_frame_spec rx k) as (rx' & Hz & ->). rewrite Hrx in *.
  pose proof (recv_fits size k) as Hfit. do 3 eexists. split; [reflexivity|]. split; [done|].
  intros bytes Hx. apply (Hfit bytes); [done|].
  destruct (udp_recv size k).1 as [x|[]]; [congruence|done..].
Qed.

#[global] Instance server_source_ok : FrameSourceOk K SocketRx (list Z * SocketAddr) server_wf server_frame_wf.
Proof.
  split; [apply server_try_read|]. intros rx t k Hrx. cbn. unfold wait_for_frame.
  destruct (poller_modify k) as [[]k1]; [|by do 3 eexists].
  destruct (poller_wait t k1) as [[n|]k2]; [|by do 3 eexists].
  case_bool; [|by do 3 eexists]. cbn [local_addr recv_buffer].
  by apply (server_try_read (mkSocketRx (local_addr rx) n (recv_buffer rx)) k2).
Qed.

#[global] Instance client_source_ok : FrameSourceOk K ConnectedSocketRx (list Z) client_wf client_frame_wf.
Proof.
  split; [apply client_try_read|]. intros rx t k Hrx. cbn. unfold c_wait_for_frame.
  destruct (poller_modify k) as [[]k1]; [|by do 3 eexists].
  destruct (poller_wait t k1) as [[n|]k2]; [|by do 3 eexists].
  case_bool; [|by do 3 eexists]. cbn [c_local_addr c_peer_addr c_recv_buffer].
  by apply (client_try_read (mkConnectedSocketRx (c_local_addr rx) (c_peer_addr rx) n (c_recv_buffer rx)) k2).
Qed.
End Sources.

Section SourceLogs.
Context {K : Type} `{Os K} {log : K -> list (option SocketAddr * list Z)} `{!OsLog K log}.
#[global] Instance server_source_log : FrameSourceLog K SocketRx (list Z * SocketAddr) log.
Proof. split; [apply try_read_log|apply wait_log]. Qed.
#[global] Instance client_source_log : FrameSourceLog K ConnectedSocketRx (list Z) log.
Proof. split; [apply c_try_read_log|apply c_wait_log]. Qed.
End SourceLogs.
