(* ===== verification/SimOs.v ===== *)
(** * A simulated system

    A concrete instance of [Os]: a socket with a receive buffer of bounded size, a network
    that fills it while the program waits on the poller, and a record of what was sent.  It
    shows that the laws of [OsOk] and [OsLog] can hold, and it runs the examples of the
    sockets' files. *)

From S2P Require Import Prelude Word HandshakeMac Socket.

Module SimOs.
(** Datagrams in the socket, batches that later waits receive, and datagrams sent. *)
Record Sim : Type := mkSim {
  inbox : list (list Z * SocketAddr);
  network : list (list (list Z * SocketAddr));
  outbox : list (option SocketAddr * list Z);
}.

(** The socket holds sixteen datagrams and drops what arrives beyond them. *)
Definition CAPACITY : nat := 16.

Definition any_addr : SocketAddr := V4 [127; 0; 0; 1] 8888.

(** The socket yields octets, cut to the buffer. *)
Definition receive (n : Z) (k : Sim) : io_result (list Z * SocketAddr) * Sim :=
  match inbox k with
  | [] => (IoErr WouldBlock, k)
  | (f, a) :: fs => (IoOk ((fun x => x mod 256) <$> take (Z.to_nat n) f, a), mkSim fs (network k) (outbox k))
  end.

Definition post (a : option SocketAddr) (f : list Z) (k : Sim) : io_result Z * Sim :=
  (IoOk (zlen f), mkSim (inbox k) (network k) (outbox k ++ [(a, f)])).

Definition wait (k : Sim) : io_result Z * Sim :=
  match network k with
  | [] => (IoOk (if decide (inbox k = []) then 0 else 1), k)
  | batch :: rest =>
      let inbox := take CAPACITY (inbox k ++ batch) in
      (IoOk (if decide (inbox = []) then 0 else 1), mkSim inbox rest (outbox k))
  end.

#[global] Instance sim_os : Os Sim := {|
  udp_bind _ k := (IoOk (), k);
  udp_set_nonblocking k := (IoOk (), k);
  udp_connect _ k := (IoOk (), k);
  udp_local_addr k := (IoOk any_addr, k);
  udp_peer_addr k := (IoOk any_addr, k);
  udp_send_to f a k := post (Some a) f k;
  udp_send f k := post None f k;
  udp_recv_from n k := receive n k;
  udp_recv n k := match receive n k with (IoOk (f, _), k) => (IoOk f, k) | (IoErr e, k) => (IoErr e, k) end;
  poller_new k := (IoOk (), k);
  poller_add k := (IoOk (), k);
  poller_modify k := (IoOk (), k);
  poller_wait _ k := wait k;
|}.

Lemma sim_receive_ok n k bytes a : 0 <= n -> (receive n k).1 = IoOk (bytes, a) ->
  Forall is_u8 bytes /\ zlen bytes <= n.
Proof.
  intros H0. unfold receive. destruct (inbox k) as [|[f b] fs]; [done|]. intros [= <- _]. split.
  - apply Forall_fmap, Forall_true. intros x. cbn. unfold is_u8, two8. pose proof (Z.mod_pos_bound x 256). lia.
  - unfold zlen. rewrite length_fmap, length_take. lia.
Qed.

#[global] Instance sim_os_ok : OsOk Sim.
Proof.
  split.
  - intros n k bytes a. apply sim_receive_ok.
  - intros n k bytes H0 Hr. cbn [udp_recv sim_os] in Hr. pose proof (sim_receive_ok n k) as Hok.
    destruct (receive n k) as [[[f a]|e] k']; [|done]. injection Hr as ->. by apply (Hok bytes a).
Qed.

#[global] Instance sim_os_log : OsLog Sim outbox.
Proof.
  split; try done.
  - intros n k. cbn. unfold receive. by destruct (inbox k) as [|[f a] fs].
  - intros n k. cbn. unfold receive. by destruct (inbox k) as [|[f a] fs].
  - intros t k. cbn. unfold wait. by destruct (network k).
Qed.
End SimOs.
