(* ===== verification/Outbox.v ===== *)
(** * What is sent stays sent

    No step of a client or of a server takes back a frame: the list of frames it has sent
    only grows at its end.  This needs no invariant: an endpoint reaches the list through
    [send_frame] alone ([HostProperty]), and the handlers only add to it. *)

From S2P Require Import Prelude Word Frame Serial Endpoint EndpointMachine HostIndependence World HandshakeMac.
From S2P Require Import TimerQueue Peer Server Client.
From stdpp Require Import gmap.

#[local] Open Scope Z_scope.

Section Calls.
Context `{BuildProfile} {C : Type} `{HostContext C} `{ThreadRng C} (P : C -> Prop) `{!HostProperty P}.

Lemma holds_invoke e k now c : P c -> holds (fun x => P x.2) (invoke e k now c).
Proof.
  intros Hc. destruct (invoke e k now c) as [[e' c']|] eqn:Hi; [|done]. cbn.
  exact (invoke_keeps P e k now c e' c' Hc Hi).
Qed.

Lemma holds_rto e now c : P c -> holds (fun x => P x.1.2) (Endpoint.handle_rto_timer e now c).
Proof.
  intros Hc. pose proof (holds_invoke e CTimer now c Hc) as Hi. cbn [invoke] in Hi.
  by destruct (Endpoint.handle_rto_timer e now c) as [[[e' c'] x]|].
Qed.
End Calls.

(** ** The client *)

Module ClientOutbox.
Import Client.
Section Client.
Context `{BuildProfile} (base : list (list Z)).

Definition sent_more (c : ClientCore) : Prop := base `prefix_of` socket_tx c.

#[local] Instance client_sent_more : HostProperty sent_more.
Proof.
  split; try done; try (intros; by apply prefix_app_r).
Qed.

Lemma read_time_more c : sent_more c -> sent_more (read_time c).2.
Proof. intros Hc. unfold read_time. by destruct (time_now_ms (world c)). Qed.

Lemma host_more e k now c (g : Endpoint.Endpoint -> ClientCore -> outcome ClientCore) :
  sent_more c -> (forall e c, sent_more c -> holds sent_more (g e c)) ->
  holds sent_more ('(e, c) ← invoke e k now c; g e c).
Proof.
  intros Hc Hg. apply (holds_bind (fun x => sent_more x.2)); [by apply holds_invoke; [apply _|]|].
  intros [e' c']. apply Hg.
Qed.

Lemma process_timeout_more c now : sent_more c -> holds sent_more (process_timeout c now).
Proof.
  intros Hc. unfold process_timeout. destruct (state c) as [st|e|]; [| |done].
  - case_bool; [done|]. apply holds_any. intros t. destruct (phase st); by apply prefix_app_r.
  - apply (holds_bind (fun x => sent_more x.1.2)); [by apply holds_rto; [apply _|]|].
    intros [[e' c'] []] Hc'; exact Hc'.
Qed.

Lemma process_timeouts_more c : sent_more c -> holds sent_more (process_timeouts c).
Proof.
  intros Hc. unfold process_timeouts. pose proof (read_time_more c Hc) as Ht.
  destruct (read_time c) as [now c']. destruct (rto_timer c'); [|done]. case_bool; [|done].
  by apply process_timeout_more.
Qed.

Lemma alpha_ack_more c p now : sent_more c -> holds sent_more (handle_handshake_alpha_ack c p now).
Proof.
  intros Hc. unfold handle_handshake_alpha_ack. destruct (state c) as [[[] ? tm ps ? n]|e|]; try done.
  apply holds_any. intros [ack|]; [|done]. destruct (_ && _); [|done].
  do 3 (apply holds_any; intros ?). by apply prefix_app_r.
Qed.

Lemma beta_ack_more c p now : sent_more c -> holds sent_more (handle_handshake_beta_ack c p now).
Proof.
  intros Hc. unfold handle_handshake_beta_ack. destruct (state c) as [[[] ? ? ps ? n]|e|]; try done.
  apply holds_any. intros [ack|]; [|done]. case_bool; [|done]. destruct (hba_error ack); [done|].
  do 2 (apply holds_any; intros ?). apply (host_more _ CInit now); [done|]. intros e1 c1 Hc1.
  apply holds_any. intros e2. by apply (host_more e2 CFlush now).
Qed.

Lemma client_frame_more c f : sent_more c -> holds sent_more (handle_frame c f).
Proof.
  intros Hc. unfold handle_frame. destruct (verify_minimum_size f); cbn [negb]; [|done].
  apply holds_any. intros [t|]; [|done]. apply holds_any. intros []; [|done]. cbn [negb]. apply holds_any. intros p.
  pose proof (read_time_more c Hc) as Ht. destruct (read_time c) as [now c']. cbn [snd] in Ht.
  assert (Ho : holds sent_more (handle_frame_other c' t p now)).
  { unfold handle_frame_other. destruct (state c') as [st|e|]; try done. by apply (host_more e (CFrame t p) now). }
  destruct t; try exact Ho; [by apply alpha_ack_more|by apply beta_ack_more].
Qed.

(** The application's calls on an active endpoint. *)
Lemma active_more c (g : Endpoint.Endpoint -> Z -> ClientCore -> outcome ClientCore) e :
  sent_more c -> (forall now c, sent_more c -> holds sent_more (g e now c)) ->
  holds sent_more (let '(now, c) := read_time c in g e now c).
Proof. intros Hc Hg. pose proof (read_time_more c Hc). destruct (read_time c). by apply Hg. Qed.

Lemma client_send_more c p m : sent_more c -> holds sent_more (send c p m).
Proof.
  intros Hc. unfold send. destruct (state c) as [st|e|]; [done| |done]. apply (active_more c (fun e now c =>
    e ← Endpoint.enqueue e p m now; '(e, c) ← Endpoint.flush e now c; Ok (set_state (Active e) c))); [done|].
  intros now c' Hc'. apply holds_any. intros e'. by apply (host_more e' CFlush now).
Qed.

Lemma client_enqueue_more c p m : sent_more c -> holds sent_more (enqueue c p m).
Proof.
  intros Hc. unfold enqueue. destruct (state c) as [st|e|]; [done| |done]. apply (active_more c (fun e now c =>
    e ← Endpoint.enqueue e p m now; Ok (set_state (Active e) c))); [done|].
  intros now c' Hc'. by apply holds_any.
Qed.

Lemma client_flush_more c : sent_more c -> holds sent_more (flush c).
Proof.
  intros Hc. unfold flush. destruct (state c) as [st|e|]; [done| |done]. apply (active_more c (fun e now c =>
    '(e, c) ← Endpoint.flush e now c; Ok (set_state (Active e) c))); [done|].
  intros now c' Hc'. by apply (host_more e CFlush now).
Qed.

Lemma client_disconnect_more c : sent_more c -> holds sent_more (disconnect c).
Proof.
  intros Hc. unfold disconnect. destruct (state c) as [st|e|]; [done| |done]. apply (active_more c (fun e now c =>
    '(e, c) ← Endpoint.disconnect e now c; Ok (set_state (Active e) c))); [done|].
  intros now c' Hc'. by apply (host_more e CDisconnect now).
Qed.
End Client.
End ClientOutbox.

(** ** The server *)

Module ServerOutbox.
Section Peers.
Import Peer.
Context `{BuildProfile} (base : list (SocketAddr * list Z)).

Definition shared_more (s : Shared) : Prop := base `prefix_of` socket_tx s.

#[local] Instance peer_sent_more : HostProperty (fun c : EndpointContext => shared_more (shared c)).
Proof. split; try done; try (intros; by apply prefix_app_r). Qed.

Lemma shared_time_more s : shared_more s -> shared_more (read_time s).2.
Proof. intros Hs. unfold read_time. by destruct (time_now_ms (world s)). Qed.

Lemma peer_call_more r e k now s : shared_more (shared s) ->
  holds shared_more ('(e, c) ← invoke e k now s; Ok (release r e c)).
Proof.
  intros Hs. apply (holds_bind (fun x : Endpoint.Endpoint * EndpointContext => shared_more (shared x.2)));
    [by apply (holds_invoke (fun c : EndpointContext => shared_more (shared c)))|].
  by intros [e' c'].
Qed.

(** What the methods of a peer have in common: the peer is found, and the clock is read. *)
Lemma peer_more {A} (P : A -> Prop) r s (g : Peer -> Z -> Shared -> outcome A) : shared_more s ->
  (forall p now s, shared_more s -> holds P (g p now s)) ->
  holds P (p ← deref r s; let '(now, s) := read_time s in g p now s).
Proof.
  intros Hs Hg. apply holds_any. intros p. pose proof (shared_time_more s Hs) as Ht.
  destruct (read_time s) as [now s']. by apply Hg.
Qed.

Lemma init_more r s : shared_more s -> holds shared_more (init r s).
Proof.
  intros Hs. unfold init. apply (peer_more shared_more r s (fun p _ s =>
    '(e, c) ← Endpoint.init (endpoint p) (mkEndpointContext (core p) r s); Ok (release r e c))); [done|].
  intros p now s' Hs'. by apply (peer_call_more r (endpoint p) CInit now).
Qed.

Lemma peer_frame_more r t p s : shared_more s -> holds shared_more (handle_frame r t p s).
Proof.
  intros Hs. unfold handle_frame. apply (peer_more shared_more r s (fun q now s =>
    '(e, c) ← Endpoint.handle_frame (endpoint q) t p now (mkEndpointContext (core q) r s);
    Ok (release r e c))); [done|].
  intros q now s' Hs'. by apply (peer_call_more r (endpoint q) (CFrame t p) now).
Qed.

Lemma peer_timer_more r s : shared_more s -> holds (fun x => shared_more x.1) (handle_rto_timer r s).
Proof.
  intros Hs. unfold handle_rto_timer. apply (peer_more (fun x => shared_more x.1) r s (fun p now s =>
    '(e, c, action) ← Endpoint.handle_rto_timer (endpoint p) now (mkEndpointContext (core p) r s);
    Ok (release r e c, action))); [done|].
  intros p now s' Hs'.
  apply (holds_bind (fun x : Endpoint.Endpoint * EndpointContext * Endpoint.TimeoutAction =>
    shared_more (shared x.1.2)));
    [by apply (holds_rto (fun c : EndpointContext => shared_more (shared c)))|].
  by intros [[e' c'] a].
Qed.

Lemma peer_send_more r p m s : shared_more s -> holds shared_more (send r p m s).
Proof.
  intros Hs. unfold send. apply (peer_more shared_more r s (fun q now s =>
    e ← Endpoint.enqueue (endpoint q) p m now;
    '(e, c) ← Endpoint.flush e now (mkEndpointContext (core q) r s); Ok (release r e c))); [done|].
  intros q now s' Hs'. apply holds_any. intros e. by apply (peer_call_more r e CFlush now).
Qed.

Lemma peer_enqueue_more r p m s : shared_more s -> holds shared_more (enqueue r p m s).
Proof.
  intros Hs. unfold enqueue. apply (peer_more shared_more r s (fun q now s =>
    e ← Endpoint.enqueue (endpoint q) p m now; Ok (release r e (mkEndpointContext (core q) r s)))); [done|].
  intros q now s' Hs'. by apply holds_any.
Qed.

Lemma peer_flush_more r s : shared_more s -> holds shared_more (flush r s).
Proof.
  intros Hs. unfold flush. apply (peer_more shared_more r s (fun q now s =>
    '(e, c) ← Endpoint.flush (endpoint q) now (mkEndpointContext (core q) r s); Ok (release r e c))); [done|].
  intros q now s' Hs'. by apply (peer_call_more r (endpoint q) CFlush now).
Qed.

Lemma peer_disconnect_more r s : shared_more s -> holds shared_more (disconnect r s).
Proof.
  intros Hs. unfold disconnect. apply (peer_more shared_more r s (fun q now s =>
    '(e, c) ← Endpoint.disconnect (endpoint q) now (mkEndpointContext (core q) r s); Ok (release r e c))); [done|].
  intros q now s' Hs'. by apply (peer_call_more r (endpoint q) CDisconnect now).
Qed.

Lemma peer_data_more r d s : shared_more s -> holds shared_more (set_data r d s).
Proof. intros Hs. unfold set_data. by apply holds_any. Qed.

Lemma peer_test_more r now s : shared_more s -> shared_more (test r now s).2.
Proof.
  intros Hs. unfold test. destruct (store s !! r) as [p|]; [|done]. destruct (rto_timer (core p)); [|done].
  by case_bool.
Qed.
End Peers.

Section Server.
Import Server.
Context `{BuildProfile} {Sip : Type} `{SipHasher Sip} (base : list (SocketAddr * list Z)).

Definition sent_more (s : ServerCore) : Prop := shared_more base (shared s).

Lemma server_time_more s : sent_more s -> sent_more (read_time s).2.
Proof.
  intros Hs. unfold read_time. pose proof (shared_time_more base (shared s) Hs).
  by destruct (Peer.read_time (shared s)).
Qed.

(** A step on what the peers share. *)
Lemma on_shared_more s res : holds (shared_more base) res -> holds sent_more (sh ← res; Ok (set_shared sh s)).
Proof. intros Hr. by apply (holds_bind (shared_more base)). Qed.

Lemma timer_loop_more n now : forall q s, sent_more s.1 ->
  holds (fun x => sent_more x.2.1) (TimerQueue.test_loop upgrade timer_test n on_fire now q s).
Proof.
  induction n as [|n IH]; intros q s Hs; cbn [TimerQueue.test_loop]; [done|].
  apply (holds_bind (fun x => sent_more x.2.1)); [|by intros [q' s'] Hs'; apply IH].
  unfold TimerQueue.test_one. destruct (TimerQueue.queue q) as [|w rest]; [done|].
  destruct (upgrade s w) as [r|]; [|done]. unfold timer_test.
  pose proof (peer_test_more base r now (shared s.1) Hs) as Ht.
  destruct (Peer.test r now (shared s.1)) as [[] sh]; exact Ht.
Qed.

Lemma expired_more rs : forall s, sent_more s -> holds sent_more (handle_expired s rs).
Proof.
  induction rs as [|r rs IH]; intros s Hs; cbn [handle_expired]; [done|].
  apply (holds_bind (fun x => shared_more base x.1)); [by apply peer_timer_more|]. intros [sh action] Hsh.
  apply (holds_bind sent_more); [|exact IH]. destruct action; [exact Hsh|]. by apply holds_any.
Qed.

Lemma handle_timeouts_more s : sent_more s -> holds sent_more (handle_timeouts s).
Proof.
  intros Hs. unfold handle_timeouts, step_timer_wheel. pose proof (server_time_more s Hs) as Ht.
  destruct (read_time s) as [now s1]. cbn [snd] in Ht. rewrite outcome_bind_assoc.
  apply (holds_bind (fun x => sent_more x.2.1)); [by apply timer_loop_more|]. intros [q [s2 fired]] Hs2.
  by apply expired_more.
Qed.

Lemma server_send_to_more f a s : sent_more s -> sent_more (send_to f a s).
Proof. intros Hs. by apply prefix_app_r. Qed.

Lemma alpha_more s f a now : sent_more s -> holds sent_more (handle_handshake_alpha s f a now).
Proof.
  intros Hs. unfold handle_handshake_alpha. apply holds_any. intros []; [|done]. cbn [negb].
  apply holds_any. intros p. apply holds_any. intros [fr|]; [|done]. case_bool; [|done].
  destruct (random_u32 _) as [n w]. apply holds_any. intros [ack buf]. by apply server_send_to_more.
Qed.

Lemma add_peer_more s a : sent_more s -> holds sent_more (add_peer s a).
Proof.
  intros Hs. unfold add_peer. do 2 (apply holds_any; intros ?). apply on_shared_more. by apply init_more.
Qed.

Lemma beta_more s f a now : sent_more s -> holds sent_more (handle_handshake_beta s f a now).
Proof.
  intros Hs. unfold handle_handshake_beta. apply holds_any. intros []; [|done]. cbn [negb].
  apply holds_any. intros p. apply holds_any. intros [fr|]; [|done]. destruct (_ && _); [|done].
  apply (holds_bind (fun x => sent_more x.2)).
  - case_bool; [done|]. case_bool; [done|]. destruct (negb _); [done|].
    apply (holds_bind sent_more); [by apply add_peer_more|]. done.
  - intros [error s'] Hs'. apply holds_any. intros [ack buf]. by apply server_send_to_more.
Qed.

Lemma server_frame_more s f a : sent_more s -> holds sent_more (handle_frame s f a).
Proof.
  intros Hs. unfold handle_frame. destruct (verify_minimum_size f); cbn [negb]; [|done].
  apply holds_any. intros [t|]; [|done]. pose proof (server_time_more s Hs) as Ht.
  destruct (read_time s) as [now s']. cbn [snd] in Ht.
  assert (Ho : holds sent_more (handle_frame_other s' t f a)).
  { unfold handle_frame_other. destruct (peers s' !! a) as [r|]; [|done]. apply holds_any. intros []; [|done].
    cbn [negb]. apply holds_any. intros p. apply on_shared_more. by apply peer_frame_more. }
  destruct t; try exact Ho; [by apply alpha_more|by apply beta_more].
Qed.
End Server.
End ServerOutbox.
