(* ===== verification/ServerProgress.v ===== *)
(** * The timers of a server fire in their turn

    A server tests a bounded number of timers at a time.  Its queue is fair: an expired timer
    moves forward by [TIMER_TEST_LIMIT] places with every call of [handle_timeouts] and
    fires when it is among the first, whatever happens to the other peers meanwhile. *)

From S2P Require Import Prelude Word TimerQueue Endpoint EndpointFacts EndpointMachine HostIndependence World HandshakeMac Peer.
From S2P Require Import Server ServerFacts ServerTimers ServerHandshake ServerSession ServerClaims Outbox.
From stdpp Require Import gmap.

#[local] Open Scope Z_scope.

Import ServerEvent Server.

Section Sweep.
Context `{BuildProfile} `{ServerConfig}.

#[local] Abbreviation wheel := (sweep upgrade timer_test on_fire).
#[local] Abbreviation stored s r := (Peer.store (shared s) !! r).

(** The peer behind [r] is in the table and its timer has expired before [now]. *)
Definition due (now : Z) (s : ServerCore) (r : PeerRef) : Prop :=
  exists a p t, peers s !! a = Some r /\ stored s r = Some p /\ Peer.rto_timer (Peer.core p) = Some t /\ t < now.

Lemma due_later now now' s r : now <= now' -> due now s r -> due now' s r.
Proof. intros Hn (a & p & t & Ha & Hp & Ht & Hl). exists a, p, t. split_and!; try done. lia. Qed.

Lemma due_referenced now s r : due now s r -> referenced s r = true.
Proof. intros (a & p & t & Ha & _). by apply (table_referenced s a). Qed.

Lemma due_fires now s r : due now s r -> (Peer.test r now (shared s)).1 = true.
Proof.
  intros (a & p & t & _ & Hp & Ht & Hl). unfold Peer.test. rewrite Hp, Ht. by rewrite (proj2 (Z.ltb_lt _ _) Hl).
Qed.

Lemma turned_stored now w r s : w <> r -> stored (turned now w s) r = stored s r.
Proof.
  intros Hne. unfold turned. cbn. unfold Peer.test. destruct (Peer.store (shared s) !! w) as [p|]; [|done].
  destruct (Peer.rto_timer _); [|done]. case_bool; [|done]. cbn. by rewrite lookup_insert_ne.
Qed.

Lemma turned_due now w r s n : w <> r -> due n s r -> due n (turned now w s) r.
Proof.
  intros Hne (a & p & t & Ha & Hp & Ht & Hl). exists a, p, t. rewrite turned_stored by done. by split_and!.
Qed.

Lemma turned_nodup now w s buf ws : NoDup (buf ++ w :: ws) -> NoDup (turned_buffer now w s buf ++ ws) /\
  NoDup (buf ++ ws) /\ w ∉ buf.
Proof.
  intros Hnd. split; [|split].
  - unfold turned_buffer. destruct (Peer.test w now (shared s)).1; [by rewrite <- app_assoc|].
    eapply sublist_NoDup; [exact Hnd|]. apply sublist_app; [done|by apply sublist_cons].
  - eapply sublist_NoDup; [exact Hnd|]. apply sublist_app; [done|by apply sublist_cons].
  - apply NoDup_app in Hnd as (_ & Hd & _). intros Hin. apply (Hd w Hin). by left.
Qed.

(** A sweep by its first entry: a timer that is gone is skipped, another has its turn. *)
Lemma sweep_first now w ws s buf (P : ServerCore * list PeerRef -> Prop) : NoDup (buf ++ w :: ws) ->
  (referenced s w = false -> P (wheel now ws (s, buf)).2) ->
  (referenced s w = true -> P (wheel now ws (turned now w s, turned_buffer now w s buf)).2) ->
  P (wheel now (w :: ws) (s, buf)).2.
Proof.
  intros Hnd Hskip Hturn. destruct (turned_nodup now w s buf ws Hnd) as (_ & _ & Hw).
  destruct (referenced s w) eqn:Href; [rewrite wheel_turn by done; by apply Hturn|].
  rewrite wheel_drop by done. by apply Hskip.
Qed.

Lemma sweep_keeps now x ws : forall s buf, NoDup (buf ++ ws) -> x ∈ buf -> x ∈ (wheel now ws (s, buf)).2.2.
Proof.
  induction ws as [|w ws IH]; intros s buf Hnd Hx; [done|].
  destruct (turned_nodup now w s buf ws Hnd) as (Hnt & Hnb & _).
  apply (sweep_first now w ws s buf (fun y => x ∈ y.2) Hnd); intros _; apply IH; try done.
  unfold turned_buffer. destruct (Peer.test w now (shared s)).1; [apply elem_of_app; by left|done].
Qed.

(** A sweep that does not reach [r] leaves it alone. *)
Lemma sweep_other now r ws : forall s buf, NoDup (buf ++ ws) -> r ∉ buf -> r ∉ ws ->
  let res := (wheel now ws (s, buf)).2 in stored res.1 r = stored s r /\ r ∉ res.2.
Proof.
  induction ws as [|w ws IH]; intros s buf Hnd Hr Hws; [done|]. apply not_elem_of_cons in Hws as [Hne Hws].
  destruct (turned_nodup now w s buf ws Hnd) as (Hnt & Hnb & _). cbv zeta.
  apply (sweep_first now w ws s buf (fun y => stored y.1 r = stored s r /\ r ∉ y.2) Hnd); intros _; [by apply IH|].
  rewrite <- (turned_stored now w r s) by done. apply IH; [done| |done].
  unfold turned_buffer. destruct (Peer.test w now (shared s)).1; [|done].
  rewrite elem_of_app, list_elem_of_singleton. tauto.
Qed.

(** A sweep that reaches an expired timer fires it. *)
Lemma sweep_fires now r ws : forall s buf, NoDup (buf ++ ws) -> r ∈ ws -> due now s r ->
  r ∈ (wheel now ws (s, buf)).2.2.
Proof.
  induction ws as [|w ws IH]; intros s buf Hnd Hin Hdue; [by apply elem_of_nil in Hin|].
  destruct (turned_nodup now w s buf ws Hnd) as (Hnt & Hnb & _).
  apply (sweep_first now w ws s buf (fun y => r ∈ y.2) Hnd); intros Href.
  - apply elem_of_cons in Hin as [->|Hin]; [by rewrite (due_referenced now s w Hdue) in Href|by apply IH].
  - destruct (decide (w = r)) as [->|Hne].
    + apply sweep_keeps; [done|]. unfold turned_buffer. rewrite (due_fires now s r Hdue). apply elem_of_app. right.
      by left.
    + apply elem_of_cons in Hin as [->|Hin]; [done|]. apply IH; [done..|]. by apply turned_due.
Qed.
End Sweep.

(** ** One call *)

Section Step.
Context `{BuildProfile} `{ServerConfig}.

#[local] Abbreviation stored s r := (Peer.store (shared s) !! r).
#[local] Abbreviation timers s := (queue (timer_queue s)).

#[local] Instance store_kept st : HostProperty (fun c : Peer.EndpointContext => Peer.store (Peer.shared c) = st).
Proof. by split. Qed.

(** A timer that fires changes its own peer only. *)
Lemma timer_stored r r' sh sh' action : r <> r' -> Peer.handle_rto_timer r' sh = Ok (sh', action) ->
  Peer.store sh' !! r = Peer.store sh !! r.
Proof.
  intros Hne. unfold Peer.handle_rto_timer, Peer.read_time. intros Hh. apply outcome_bind_Ok in Hh as (p & _ & Hh).
  destruct (time_now_ms (Peer.world sh)) as [now w]. apply outcome_bind_Ok in Hh as ([[e c] x] & Hc & [= <- <-]).
  pose proof (holds_rto (fun c => Peer.store (Peer.shared c) = Peer.store sh) (Peer.endpoint p) now
    (Peer.mkEndpointContext (Peer.core p) r' (Peer.set_world w sh)) eq_refl) as Hst.
  rewrite Hc in Hst. cbn in *. by rewrite lookup_insert_ne, Hst.
Qed.

Lemma expired_other r fired : forall s s', r ∉ fired -> handle_expired s fired = Ok s' ->
  stored s' r = stored s r /\ timer_queue s' = timer_queue s.
Proof.
  induction fired as [|r' fired IH]; intros s s' Hr; cbn [handle_expired]; [by intros [= <-]|].
  apply not_elem_of_cons in Hr as [Hne Hr]. intros Hh. apply outcome_bind_Ok in Hh as ([sh action] & Ht & Hh).
  apply outcome_bind_Ok in Hh as (s1 & Hs1 & Hh). destruct (IH s1 s' Hr Hh) as [-> ->].
  pose proof (timer_stored r r' _ _ _ Hne Ht) as Hst.
  destruct action; [by injection Hs1 as <-|]. apply outcome_bind_Ok in Hs1 as (p & _ & [= <-]). by split.
Qed.
End Step.

Section Progress.
Context `{BuildProfile}.

#[local] Abbreviation stored s r := (Peer.store (shared s) !! r).
#[local] Abbreviation timers s := (queue (timer_queue s)).

(** The wheel is a sweep at a time that has come. *)
Lemma step_wheel_sweep `{ServerConfig} now seen s : server_at now seen [] s ->
  exists t w, now <= t /\ let s0 := set_shared (Peer.set_world w (shared s)) s in
    let res := sweep upgrade timer_test on_fire t (take TIMER_TEST_LIMIT (timers s)) (s0, []) in
    step_timer_wheel s [] =
      Ok (set_timer_queue (mkTimerQueue (drop TIMER_TEST_LIMIT (timers s) ++ res.1)) res.2.1, res.2.2).
Proof.
  intros Hs. destruct (server_read_time now seen [] s Hs) as (t & w & Hr & Ht & _). exists t, w. split; [done|].
  cbv zeta. unfold step_timer_wheel, read_time. rewrite Hr.
  change (timer_queue (set_shared (Peer.set_world w (shared s)) s)) with (timer_queue s).
  destruct (timer_queue s) as [q]. cbn [queue]. rewrite test_sweep. cbn [mbind outcome_bind].
  by destruct (sweep _ _ _ _ _ _) as [kept [s1 fired]].
Qed.

(** An expired timer among the first entries fires. *)
Lemma first_fires `{ServerConfig} now seen s r i : server_at now seen [] s -> timers s !! i = Some r ->
  due now s r -> (i < TIMER_TEST_LIMIT)%nat ->
  exists s1 fired, step_timer_wheel s [] = Ok (s1, fired) /\ r ∈ fired.
Proof.
  intros Hs Hi Hdue Hlt. destruct (step_wheel_sweep now seen s Hs) as (t & w & Ht & Hw). cbv zeta in Hw.
  eexists _, _. split; [exact Hw|]. apply sweep_fires.
  - eapply sublist_NoDup; [exact (si_queue_nodup _ _ _ _ Hs)|apply sublist_take].
  - apply list_elem_of_lookup. exists i. by rewrite lookup_take_lt.
  - by apply (due_later now).
Qed.

(** One behind them moves forward, and stays expired. *)
Lemma other_moves `{ServerConfig} now seen s r i : server_at now seen [] s -> timers s !! i = Some r ->
  due now s r -> (TIMER_TEST_LIMIT <= i)%nat ->
  exists now' s', now <= now' /\ handle_timeouts s = Ok s' /\ server_at now' seen [] s' /\
    timers s' !! (i - TIMER_TEST_LIMIT)%nat = Some r /\ due now s' r.
Proof.
  intros Hs Hi Hdue Hge. destruct (handle_timeouts_ok now seen s Hs) as (now' & s' & Hn & Hh & Hs').
  exists now', s'. split; [done|]. split; [done|]. split; [done|].
  destruct (step_wheel_sweep now seen s Hs) as (t & w & Ht & Hw). cbv zeta in Hw.
  unfold handle_timeouts in Hh. rewrite Hw in Hh. cbn [mbind outcome_bind] in Hh.
  assert (Hnt : NoDup ([] ++ take TIMER_TEST_LIMIT (timers s)))
    by (eapply sublist_NoDup; [exact (si_queue_nodup _ _ _ _ Hs)|apply sublist_take]).
  assert (Hout : r ∉ take TIMER_TEST_LIMIT (timers s)).
  { intros [j Hj]%list_elem_of_lookup. apply lookup_take_Some in Hj as [Hj Hlt].
    pose proof (NoDup_lookup _ _ _ _ (si_queue_nodup _ _ _ _ Hs) Hi Hj). lia. }
  destruct (sweep_other t r _ (set_shared (Peer.set_world w (shared s)) s) [] Hnt) as [Hst Hf];
    [by intros ?%elem_of_nil|done|].
  destruct (expired_other r _ _ s' Hf Hh) as [Hst' Hq].
  split.
  - rewrite Hq. cbn [timer_queue set_timer_queue queue]. rewrite lookup_app_l.
    + rewrite lookup_drop. by replace (TIMER_TEST_LIMIT + (i - TIMER_TEST_LIMIT))%nat with i by lia.
    + rewrite length_drop. apply lookup_lt_Some in Hi. lia.
  - destruct Hdue as (a & p & t0 & Ha & Hp & Ht0 & Hl).
    pose proof (eq_trans Hst' (eq_trans Hst Hp)) as Hp'.
    destruct (si_table _ _ _ _ Hs a r Ha) as (q & Hq' & Haq & Hc). rewrite Hp in Hq'. injection Hq' as <-.
    destruct (si_connected _ _ _ _ Hs' r p Hp' Hc) as [Ha' _]. by exists (Peer.addr (Peer.core p)), p, t0.
Qed.

(** Calls of [handle_timeouts], one after another. *)
Fixpoint timeouts (n : nat) (s : ServerCore) : outcome ServerCore :=
  match n with
  | O => Ok s
  | S n => s ← handle_timeouts s; timeouts n s
  end.

Lemma timer_turns `{ServerConfig} n : forall now seen s r i, server_at now seen [] s -> timers s !! i = Some r ->
  due now s r -> (i / TIMER_TEST_LIMIT = n)%nat ->
  exists s1 s2 fired, timeouts n s = Ok s1 /\ step_timer_wheel s1 [] = Ok (s2, fired) /\ r ∈ fired.
Proof.
  induction n as [|n IH]; intros now seen s r i Hs Hi Hdue Hn.
  - destruct (first_fires now seen s r i Hs Hi Hdue) as (s2 & fired & Hw & Hr).
    { apply Nat.div_small_iff in Hn; [done|]. unfold TIMER_TEST_LIMIT. lia. }
    by exists s, s2, fired.
  - assert (Hge : (TIMER_TEST_LIMIT <= i)%nat).
    { destruct (decide (TIMER_TEST_LIMIT <= i)%nat) as [|Hlt]; [done|]. rewrite Nat.div_small in Hn by lia. done. }
    destruct (other_moves now seen s r i Hs Hi Hdue Hge) as (now' & s' & Hn' & Hh & Hs' & Hi' & Hd').
    destruct (IH now' seen s' r _ Hs' Hi') as (s1 & s2 & fired & Ht & Hw & Hr).
    { by apply (due_later now). }
    { replace i with ((i - TIMER_TEST_LIMIT) + 1 * TIMER_TEST_LIMIT)%nat in Hn by lia.
      rewrite Nat.div_add in Hn by (unfold TIMER_TEST_LIMIT; lia). lia. }
    exists s1, s2, fired. cbn [timeouts]. rewrite Hh. by split_and!.
Qed.

(** The invariant holds up to the next reading of the clock. *)
Lemma server_at_latest `{ServerConfig} now seen s : server_at now seen [] s ->
  server_at (World.now (Peer.world (shared s))) seen [] s.
Proof.
  intros Hs. pose proof (si_now _ _ _ _ Hs) as Hn. pose proof (now_range _ (si_world _ _ _ _ Hs)) as Hr.
  destruct Hs. split; try done; [lia|]. intros r p Hp. apply (peer_ok_later now); [by apply si_peers|lia].
Qed.

(** C21: Every timer of a server fires, and in its turn: if the timer of a peer in the table has
    expired and the peer is the [i]-th in the queue, then [i / 24] calls of [handle_timeouts]
    bring it among the first, whatever the other timers do to their peers meanwhile, and the
    next call finds it expired and handles it. *)
Theorem timers_fire_in_turn {Sip : Type} `{SipHasher Sip} cfg seen s a r p t : valid_config cfg ->
  server_reachable cfg seen s ->
  peers s !! a = Some r -> stored s r = Some p -> Peer.rto_timer (Peer.core p) = Some t ->
  t < World.now (Peer.world (shared s)) ->
  exists i s1 s2 fired, timers s !! i = Some r /\ timeouts (i / TIMER_TEST_LIMIT) s = Ok s1 /\
    step_timer_wheel s1 [] = Ok (s2, fired) /\ r ∈ fired /\ handle_timeouts s1 = handle_expired s2 fired.
Proof.
  intros Hcfg Hr Ha Hp Ht Hlt. destruct (server_reachable_at cfg seen s Hcfg Hr) as [now Hs].
  apply server_at_latest in Hs. destruct (si_table _ _ _ _ Hs a r Ha) as (q & Hq & _ & Hc).
  destruct (si_connected _ _ _ _ Hs r q Hq Hc) as [_ [i Hi]%list_elem_of_lookup].
  destruct (timer_turns (i / TIMER_TEST_LIMIT) _ seen s r i Hs Hi) as (s1 & s2 & fired & Hts & Hw & Hf);
    [by exists a, p, t|done|].
  exists i, s1, s2, fired. do 4 (split; [done|]). unfold handle_timeouts. by rewrite Hw.
Qed.
End Progress.

(** ** The theorem at work: a debug build, the default configuration *)

#[local] Instance server_progress_debug : BuildProfile := true.
#[local] Existing Instance toy_hash.

(** A clock that stands still for six readings and then jumps by an hour. *)
Definition jumping_world : World :=
  mkWorld (fun n => if (n <? 6)%nat then 0 else 3600000 * NANOS_PER_MILLI) 0 (fun _ => true) 0 (fun _ => 7)
    0 (fun _ => 0) 0.

Lemma jumping_world_ok : world_ok jumping_world.
Proof.
  unfold jumping_world. split; cbn [clock readings words octets]; unfold NANOS_PER_MILLI, TIME_MAX, is_u32, two32,
    is_u8, two8; try lia.
  - done.
  - intros i j Hij. destruct (Nat.ltb_spec i 6), (Nat.ltb_spec j 6); lia.
  - intros i. destruct (Nat.ltb_spec i 6); lia.
Qed.

(** A stranger is admitted and sent a packet, then an hour passes. *)
Definition after_an_hour : list request := to_admit ++ [RSend 0%nat [1; 2; 3] SendReliable].

(** The timer of the first peer, if it is the stranger's, and the time. *)
Definition timer_and_time (x : list Event * ServerCore) : option (option (option Z) * Z) :=
  if decide (peers x.2 !! stranger_addr = Some 0%nat) then
    Some ((fun p => Peer.rto_timer (Peer.core p)) <$> Peer.store (shared x.2) !! 0%nat,
      World.now (Peer.world (shared x.2)))
  else None.

Lemma timers_fire_in_turn_witness : exists seen s i s1 s2 fired, server_reachable config_default seen s /\
  queue (timer_queue s) !! i = Some 0%nat /\ timeouts (i / TIMER_TEST_LIMIT) s = Ok s1 /\
  step_timer_wheel s1 [] = Ok (s2, fired) /\ 0%nat ∈ fired.
Proof.
  destruct (observe_server config_default jumping_world after_an_hour timer_and_time (Some (Some (Some 1000),
    3600000)))
    as (seen & s & Hr & Ho); [exact jumping_world_ok|vm_compute; reflexivity|].
  unfold timer_and_time in Ho. cbn [snd] in Ho. destruct (decide _) as [Ha|]; [|discriminate Ho].
  destruct (Peer.store (shared s) !! 0%nat) as [p|] eqn:Hp; [|discriminate Ho]. injection Ho as Ht Hn.
  destruct (timers_fire_in_turn config_default seen s stranger_addr 0%nat p 1000 server_default_valid Hr Ha Hp Ht)
    as (i & s1 & s2 & fired & Hi & Hts & Hw & Hf & _); [rewrite Hn; reflexivity|].
  exists seen, s, i, s1, s2, fired. split_and!; assumption.
Defined.
