(* ===== verification/ClientSocket.v ===== *)
(** * The client over a socket ([client.rs], [socket.rs])

    [Client] owns a [ClientCore] and a connected socket.  Here its methods are run over the
    operating system: the loops read the socket, and what the core sends goes out at once.
    [Client.v] runs the same methods over lists of frames; [socket_serve_list] shows that the
    two agree: whatever the system does, a call over a socket is a call over some lists of
    frames, so that all theorems about clients hold of clients over sockets. *)

From S2P Require Import Prelude Word Serial HandshakeMac World Endpoint Client ClientFacts ClientSession.
From S2P Require Import Outbox Socket SocketLoop SimOs.
Import Client.

Module ClientSocket.
Section Client.
Context `{BuildProfile} {K : Type} `{Os K}.

#[local] Abbreviation Client := (Over ClientCore Socket.ConnectedSocketRx K).

Definition with_core (c : ClientCore) (self : Client) : Client := mkOver c (socket_rx self) (os self).

(** The frames sent between two states of the core, handed to the system. *)
Definition transmit (before after : ClientCore) (k : K) : K :=
  foldl (fun k f => Socket.send f k) k (drop (length (socket_tx before)) (socket_tx after)).

(** ** Connecting *)

Definition connect_with_config (server_addr : SocketAddr) (config : Config) (world : World) (k : K)
  : outcome (io_result Client * K) :=
  _ ← validate config;
  let bind_address := V4 [0; 0; 0; 0] 0 in
  match Socket.new_connected bind_address server_addr FRAME_SIZE_MAX k with
  | (IoErr e, k) => Ok (IoErr e, k)
  | (IoOk (_, rx), k) =>
      c ← Client.connect_with_config config world;
      let k := foldl (fun k f => Socket.send f k) k (socket_tx c) in
      Ok (IoOk (mkOver c rx k), k)
  end.

Definition connect (server_addr : SocketAddr) (world : World) (k : K) : outcome (io_result Client * K) :=
  connect_with_config server_addr config_default world k.

(** ** Reading *)

(** Followed for [reads] reads in a row, which may not be enough. *)
Definition handle_frames (reads : nat) (self : Client) : outcome Client :=
  read_loop handle_frame transmit reads self.

Definition handle_frames_wait (reads : nat) (wait_timeout : option Z) (self : Client) : outcome Client :=
  read_loop_wait handle_frame transmit reads wait_timeout self.

Definition process_timeouts (self : Client) : outcome Client := step_core transmit Client.process_timeouts self.

Definition pop_event (self : Client) : option Event * Client :=
  let '(ev, c) := Client.pop_event (core self) in (ev, with_core c self).

Definition poll_event (reads : nat) (self : Client) : outcome (option Event * Client) :=
  self ← (match events (core self) with
          | [] => self ← handle_frames reads self; process_timeouts self
          | _ => Ok self
          end);
  Ok (pop_event self).

(** A blocking call has returned, or it still waits after some turns of its loop. *)
Inductive waiting : Type :=
| Returned (ev : option Event) (self : Client)
| Blocked (timeout : option Z) (self : Client).

Fixpoint wait_event (reads turns : nat) (self : Client) : outcome waiting :=
  let '(wait_timeout, c) := next_timer_timeout (core self) in
  let self := with_core c self in
  match turns with
  | O => Ok (Blocked wait_timeout self)
  | S turns =>
      self ← handle_frames_wait reads wait_timeout self;
      self ← process_timeouts self;
      match pop_event self with
      | (Some event, self) => Ok (Returned (Some event) self)
      | (None, self) => wait_event reads turns self
      end
  end.

Definition instant_now (self : Client) : Z * Client :=
  let '(t, c) := Client.instant_now (core self) in (t, with_core c self).

Fixpoint wait_event_timeout_loop (reads turns : nat) (self : Client) (remaining_timeout wait_begin : Z)
  : outcome waiting :=
  let '(timer_timeout, c) := next_timer_timeout (core self) in
  let self := with_core c self in
  let wait_timeout := match timer_timeout with
                      | Some timer_timeout => Z.min remaining_timeout timer_timeout
                      | None => remaining_timeout
                      end in
  match turns with
  | O => Ok (Blocked (Some wait_timeout) self)
  | S turns =>
      self ← handle_frames_wait reads (Some wait_timeout) self;
      self ← process_timeouts self;
      match events (core self) with
      | _ :: _ => let '(ev, self) := pop_event self in Ok (Returned ev self)
      | [] =>
          let '(now, self) := instant_now self in
          let elapsed_time := saturating_sub now wait_begin in
          if remaining_timeout <=? elapsed_time then Ok (Returned None self)
          else wait_event_timeout_loop reads turns self (remaining_timeout - elapsed_time) now
      end
  end.

Definition wait_event_timeout (reads turns : nat) (self : Client) (timeout : Z) : outcome waiting :=
  match events (core self) with
  | [] =>
      let '(wait_begin, self) := instant_now self in
      wait_event_timeout_loop reads turns self timeout wait_begin
  | _ :: _ => let '(ev, self) := pop_event self in Ok (Returned ev self)
  end.

(** ** The other methods *)

Definition send (self : Client) (packet : list Z) (mode : SendMode) : outcome Client :=
  step_core transmit (fun c => Client.send c packet mode) self.
Definition enqueue (self : Client) (packet : list Z) (mode : SendMode) : outcome Client :=
  step_core transmit (fun c => Client.enqueue c packet mode) self.
Definition flush (self : Client) : outcome Client := step_core transmit Client.flush self.
Definition disconnect (self : Client) : outcome Client := step_core transmit Client.disconnect self.

Definition local_addr (self : Client) : SocketAddr := Socket.c_local_addr (socket_rx self).
Definition server_addr (self : Client) : SocketAddr := Socket.c_peer_addr (socket_rx self).

(** ** Requests *)

(** What an application asks of a client over a socket; blocking calls are followed for a
    number of turns. *)
Inductive socket_request : Type :=
| SPoll
| SWait (turns : nat)
| SWaitTimeout (timeout : Z) (turns : nat)
| SSend (packet : list Z) (mode : SendMode)
| SEnqueue (packet : list Z) (mode : SendMode)
| SFlush
| SDisconnect.

Definition answer (w : waiting) : list Event * Client :=
  match w with
  | Returned ev self => (option_list ev, self)
  | Blocked _ self => ([], self)
  end.

Definition socket_serve (reads : nat) (self : Client) (r : socket_request) : outcome (list Event * Client) :=
  match r with
  | SPoll => '(ev, self) ← poll_event reads self; Ok (option_list ev, self)
  | SWait turns => answer <$> wait_event reads turns self
  | SWaitTimeout timeout turns => answer <$> wait_event_timeout reads turns self timeout
  | SSend p m => quietly (send self p m)
  | SEnqueue p m => quietly (enqueue self p m)
  | SFlush => quietly (flush self)
  | SDisconnect => quietly (disconnect self)
  end.

(** The calls that read the socket. *)
Definition reads_socket (r : socket_request) : bool :=
  match r with SPoll | SWait _ | SWaitTimeout _ _ => true | _ => false end.

(** Packets are octets, not empty in a debug build, and timeouts 16-bit integers. *)
Definition socket_typed (r : socket_request) : Prop :=
  match r with SSend p m | SEnqueue p m => buffered_ok (p, m) | _ => True end.
End Client.

(** ** What the client sends reaches the system *)

(** What the core has sent, as the system is asked to send it. *)
Definition sent (c : ClientCore) : list (option SocketAddr * list Z) := pair None <$> socket_tx c.

Section Tracking.
Context `{BuildProfile} {K : Type} `{Os K} {log : K -> list (option SocketAddr * list Z)} `{!OsLog K log}.
Context (before : list (option SocketAddr * list Z)).

#[local] Abbreviation Client := (Over ClientCore Socket.ConnectedSocketRx K).
#[local] Abbreviation tracks := (tracks (Rx := Socket.ConnectedSocketRx) log sent before).

Lemma transmit_log c c' k : log (transmit c c' k) = log k ++ drop (length (sent c)) (sent c').
Proof. unfold transmit, sent. by rewrite Socket.sends_log, length_fmap, fmap_drop. Qed.

Lemma client_grows f :
  (forall base c, ClientOutbox.sent_more base c -> holds (ClientOutbox.sent_more base) (f c)) -> grows sent f.
Proof.
  intros Hf c. specialize (Hf (socket_tx c) c (reflexivity _)). destruct (f c) as [c'|]; [|done].
  destruct Hf as [l Hl]. exists (pair None <$> l). unfold sent. by rewrite <- fmap_app, <- Hl.
Qed.

Lemma frame_grows f : grows sent (fun c => handle_frame c f).
Proof. apply client_grows. intros base c. apply ClientOutbox.client_frame_more. Qed.

Lemma step_log f (self : Client) :
  (forall base c, ClientOutbox.sent_more base c -> holds (ClientOutbox.sent_more base) (f c)) ->
  tracks self -> holds tracks (step_core transmit f self).
Proof. intros Hf. apply (step_tracks _ _ _ transmit_log). by apply client_grows. Qed.

Lemma process_timeouts_log self : tracks self -> holds tracks (process_timeouts self).
Proof. apply step_log. intros base c. apply ClientOutbox.process_timeouts_more. Qed.

Lemma handle_frames_log reads self : tracks self -> holds tracks (handle_frames reads self).
Proof. apply (read_loop_tracks _ _ _ _ transmit_log frame_grows). Qed.

Lemma handle_frames_wait_log reads t self : tracks self -> holds tracks (handle_frames_wait reads t self).
Proof. apply (read_loop_wait_tracks _ _ _ _ transmit_log frame_grows). Qed.

Lemma pop_event_log self : tracks self -> tracks (pop_event self).2.
Proof. unfold pop_event, Client.pop_event. by destruct (events (core self)). Qed.

Lemma timer_log (self : Client) : tracks self -> tracks (with_core (next_timer_timeout (core self)).2 self).
Proof.
  unfold next_timer_timeout, read_time. destruct (time_now_ms _) as [t w].
  by destruct (rto_timer (set_world w (core self))).
Qed.

Lemma instant_log self : tracks self -> tracks (instant_now self).2.
Proof. unfold instant_now, Client.instant_now. by destruct (World.elapsed _). Qed.

(** The state of a client that waits, or has its event. *)
Definition waits (w : waiting) : Prop := tracks (answer w).2.

Lemma returned_log self : tracks self -> waits (let '(ev, self) := pop_event self in Returned ev self).
Proof. intros Ht. apply pop_event_log in Ht. by destruct (pop_event self). Qed.

Lemma poll_log reads self : tracks self -> holds (fun x => tracks x.2) (poll_event reads self).
Proof.
  intros Ht. unfold poll_event. apply (holds_bind tracks); [|intros s Hs; by apply pop_event_log].
  destruct (events (core self)); [|done].
  apply (holds_bind tracks); [by apply handle_frames_log|apply process_timeouts_log].
Qed.

Lemma turn_log reads t self (f : Client -> outcome waiting) : tracks self ->
  (forall self, tracks self -> holds waits (f self)) ->
  holds waits (self ← handle_frames_wait reads t self; self ← process_timeouts self; f self).
Proof.
  intros Ht Hf. apply (holds_bind tracks); [by apply handle_frames_wait_log|]. intros s Hs.
  apply (holds_bind tracks); [by apply process_timeouts_log|exact Hf].
Qed.

Lemma wait_event_log reads turns : forall self, tracks self -> holds waits (wait_event reads turns self).
Proof.
  induction turns as [|turns IH]; intros self Ht; cbn [wait_event]; apply timer_log in Ht;
    destruct (next_timer_timeout (core self)) as [t c]; [exact Ht|].
  apply turn_log; [exact Ht|]. intros s Hs. pose proof (pop_event_log s Hs) as Hp.
  destruct (pop_event s) as [[ev|] s']; [exact Hp|by apply IH].
Qed.

Lemma wait_timeout_log reads turns : forall self rem t0, tracks self ->
  holds waits (wait_event_timeout_loop reads turns self rem t0).
Proof.
  induction turns as [|turns IH]; intros self rem t0 Ht; cbn [wait_event_timeout_loop]; apply timer_log in Ht;
    destruct (next_timer_timeout (core self)) as [t c]; [exact Ht|].
  apply turn_log; [exact Ht|]. intros s Hs. destruct (events (core s)) as [|ev evs].
  - pose proof (instant_log s Hs) as Hi. destruct (instant_now s) as [now s']. case_bool; [exact Hi|by apply IH].
  - pose proof (returned_log s Hs) as Hr. by destruct (pop_event s).
Qed.

Lemma quietly_log r : holds tracks r -> holds (fun x : list Event * Client => tracks x.2) (quietly r).
Proof. intros Hr. by apply (holds_bind tracks). Qed.

Lemma socket_serve_tracks reads self r : tracks self -> holds (fun x => tracks x.2) (socket_serve reads self r).
Proof.
  intros Ht. destruct r as [|turns|timeout turns|p m|p m| |]; cbn [socket_serve].
  - apply (holds_bind (fun x => tracks x.2)); [by apply poll_log|]. by intros [ev s].
  - pose proof (wait_event_log reads turns self Ht) as Hw. by destruct (wait_event _ _ _).
  - assert (Hw : holds waits (wait_event_timeout reads turns self timeout)).
    { unfold wait_event_timeout. destruct (events (core self)).
      - apply instant_log in Ht. destruct (instant_now self) as [t s]. by apply wait_timeout_log.
      - apply returned_log in Ht. by destruct (pop_event self). }
    by destruct (wait_event_timeout _ _ _ _).
  - apply quietly_log, step_log; [|done]. intros base c. apply ClientOutbox.client_send_more.
  - apply quietly_log, step_log; [|done]. intros base c. apply ClientOutbox.client_enqueue_more.
  - apply quietly_log, step_log; [|done]. intros base c. apply ClientOutbox.client_flush_more.
  - apply quietly_log, step_log; [|done]. intros base c. apply ClientOutbox.client_disconnect_more.
Qed.
End Tracking.

Lemma connect_log `{BuildProfile} {K : Type} `{Os K} {log : K -> list (option SocketAddr * list Z)} `{!OsLog K log}
  server_addr cfg w k self k' : connect_with_config server_addr cfg w k = Ok (IoOk self, k') ->
  log (os self) = log k ++ sent (core self).
Proof.
  unfold connect_with_config. intros Hc. apply outcome_bind_Ok in Hc as ([] & _ & Hc).
  pose proof (Socket.new_connected_log (V4 [0; 0; 0; 0] 0) server_addr FRAME_SIZE_MAX k) as Hl.
  destruct (Socket.new_connected _ _ _ k) as [[[tx rx]|e] k1]; [|done].
  apply outcome_bind_Ok in Hc as (c & _ & [= <- <-]). cbn [os core snd] in *. by rewrite Socket.sends_log, Hl.
Qed.

(** ** More reads *)

Section Fuel.
Context `{BuildProfile} {K : Type} `{Os K}.

#[local] Abbreviation Client := (Over ClientCore Socket.ConnectedSocketRx K).

Lemma poll_settles reads more (self : Client) : (reads <= more)%nat ->
  settles (poll_event reads self) (poll_event more self).
Proof.
  intros Hm. apply settles_bind; [|done]. destruct (events (core self)); [|done].
  apply settles_bind; [by apply read_loop_settles|done].
Qed.

Lemma wait_event_settles reads more turns : (reads <= more)%nat -> forall self : Client,
  settles (wait_event reads turns self) (wait_event more turns self).
Proof.
  intros Hm. induction turns as [|turns IH]; intros self; cbn [wait_event];
    destruct (next_timer_timeout (core self)) as [t c]; [done|].
  apply settles_bind; [by apply read_loop_wait_settles|]. intros s. apply settles_bind; [done|]. intros s1.
  by destruct (pop_event s1) as [[ev|] s2].
Qed.

Lemma wait_timeout_settles reads more turns : (reads <= more)%nat -> forall (self : Client) rem t0,
  settles (wait_event_timeout_loop reads turns self rem t0) (wait_event_timeout_loop more turns self rem t0).
Proof.
  intros Hm. induction turns as [|turns IH]; intros self rem t0; cbn [wait_event_timeout_loop];
    destruct (next_timer_timeout (core self)) as [t c]; [done|].
  apply settles_bind; [by apply read_loop_wait_settles|]. intros s. apply settles_bind; [done|]. intros s1.
  destruct (events (core s1)); [|by destruct (pop_event s1)].
  destruct (instant_now s1) as [now s2]. cbv zeta. by case_bool.
Qed.

(** More reads change nothing of a call that returns. *)
Lemma socket_serve_settles reads more (self : Client) r : (reads <= more)%nat ->
  settles (socket_serve reads self r) (socket_serve more self r).
Proof.
  intros Hm. destruct r as [|turns|timeout turns|p m|p m| |]; cbn [socket_serve]; try done.
  - apply settles_bind; [by apply poll_settles|done].
  - by apply settles_fmap, wait_event_settles.
  - apply settles_fmap. unfold wait_event_timeout. destruct (events (core self)); [|done].
    destruct (instant_now self) as [t s]. by apply wait_timeout_settles.
Qed.
End Fuel.

(** ** A call over a socket is a call over lists of frames *)

Section Agreement.
Context `{BuildProfile} {K : Type} `{Os K} `{!OsOk K}.

#[local] Abbreviation socket_wf := (client_wf FRAME_SIZE_MAX).

#[local] Instance frames_source :
  FrameSourceOk K Socket.ConnectedSocketRx (list Z) socket_wf (client_frame_wf FRAME_SIZE_MAX).
Proof. by apply client_source_ok. Qed.

#[local] Abbreviation leads := (leads (Core := ClientCore) transmit socket_wf).
#[local] Abbreviation over := (over transmit socket_wf).
#[local] Abbreviation served_over := (served_over transmit socket_wf).
#[local] Abbreviation cut_short := (cut_short handle_frame transmit).
#[local] Abbreviation socket_ok := (socket_ok (Core := ClientCore) (K := K) socket_wf).
#[local] Abbreviation next_turn := (next_turn (W := waiting (K := K)) handle_frame transmit Client.process_timeouts).
#[local] Abbreviation next_list_turn := (next_list_turn (W := Client.waiting)
  Client.handle_frames Client.process_timeouts).

Lemma client_step_over f self : socket_ok self -> over self (step_core transmit f self) (f (core self)).
Proof. apply step_over. Qed.

Lemma client_turn reads timeout self : socket_ok self ->
  (exists fs, Forall arrival_ok fs /\
    ((exists e, (forall f, next_turn reads timeout self f = Fault e) /\
                (forall g, next_list_turn (core self) fs g = Fault e)) \/
     (exists c rx k, leads self rx k /\ (forall f, next_turn reads timeout self f = f (mkOver c rx k)) /\
                (forall g, next_list_turn (core self) fs g = g c)))) \/
  (forall f, cut_short reads self (next_turn reads timeout self f)).
Proof. by apply (turn_cases _ _ socket_wf (client_frame_wf FRAME_SIZE_MAX)). Qed.

Lemma popped_over self : socket_ok self ->
  served_over self (Ok (answer (let '(ev, self) := pop_event self in Returned ev self)))
    (Ok (ClientSession.answer (let '(ev, c) := Client.pop_event (core self) in Client.Returned ev c))).
Proof.
  intros Hs. exists (socket_rx self), (os self). split; [by apply leads_self|]. unfold pop_event.
  by destruct (Client.pop_event (core self)).
Qed.

Lemma poll_over reads self : socket_ok self ->
  (exists fs, Forall arrival_ok fs /\
    served_over self ('(ev, self) ← poll_event reads self; Ok (option_list ev, self))
      ('(ev, c) ← Client.poll_event (core self) fs; Ok (option_list ev, c))) \/
  cut_short reads self ('(ev, self) ← poll_event reads self; Ok (option_list ev, self)).
Proof.
  intros Hs. unfold poll_event, Client.poll_event. destruct (events (core self)) as [|ev evs] eqn:Ee.
  - destruct (read_loop_over handle_frame transmit socket_wf (client_frame_wf FRAME_SIZE_MAX)
      Client.handle_frames (fun _ => eq_refl) (fun _ _ _ => eq_refl) reads self Hs) as [(fs & Hfs & Ho)|Hcut];
      [left|right; by do 3 apply cut_short_bind].
    exists fs. split; [done|].
    apply (over_step _ _ _ _ _ Client.process_timeouts) in Ho as (rx & k & Hl & Hr).
    unfold handle_frames, process_timeouts. rewrite Hr.
    destruct (c ← Client.handle_frames (core self) fs; Client.process_timeouts c) as [c|e];
      cbn [mbind outcome_bind]; [|by exists rx, k].
    apply (served_over_later _ _ self c rx k Hl). pose proof (popped_over (mkOver c rx k) (proj1 Hl)) as Hp.
    unfold pop_event in *. cbn [core] in *. by destruct (Client.pop_event c).
  - left. exists []. split; [done|]. cbn [mbind outcome_bind].
    pose proof (popped_over self Hs) as Hp. unfold pop_event in *. by destruct (Client.pop_event (core self)).
Qed.

Lemma stuck_over self e : socket_ok self -> served_over self (answer <$> Fault e) (ClientSession.answer <$> Fault e).
Proof. intros Hs. exists (socket_rx self), (os self). split; [by apply leads_self|done]. Qed.

(** The loops in terms of their turns. *)
Lemma wait_event_turn reads turns self t c : next_timer_timeout (core self) = (t, c) ->
  wait_event reads (S turns) self = next_turn reads t (with_core c self) (fun self =>
    match pop_event self with
    | (Some event, self) => Ok (Returned (Some event) self)
    | (None, self) => wait_event reads turns self
    end).
Proof. intros En. cbn [wait_event]. by rewrite En. Qed.

Lemma list_wait_event_turn c0 fs ws t c : next_timer_timeout c0 = (t, c) ->
  Client.wait_event c0 (fs :: ws) = next_list_turn c fs (fun c =>
    match Client.pop_event c with
    | (Some event, c) => Ok (Client.Returned (Some event) c)
    | (None, c) => Client.wait_event c ws
    end).
Proof. intros En. cbn [Client.wait_event]. by rewrite En, client_handle_frames_wait_same. Qed.

Lemma wait_timeout_turn reads turns self rem t0 t c : next_timer_timeout (core self) = (t, c) ->
  wait_event_timeout_loop reads (S turns) self rem t0 =
  next_turn reads (Some (match t with Some t => Z.min rem t | None => rem end)) (with_core c self) (fun self =>
    match events (core self) with
    | _ :: _ => let '(ev, self) := pop_event self in Ok (Returned ev self)
    | [] => let '(now, self) := instant_now self in
        let elapsed_time := saturating_sub now t0 in
        if rem <=? elapsed_time then Ok (Returned None self)
        else wait_event_timeout_loop reads turns self (rem - elapsed_time) now
    end).
Proof. intros En. cbn [wait_event_timeout_loop]. by rewrite En. Qed.

Lemma list_wait_timeout_turn c0 fs ws rem t0 t c : next_timer_timeout c0 = (t, c) ->
  Client.wait_event_timeout_loop c0 rem t0 (fs :: ws) = next_list_turn c fs (fun c =>
    match events c with
    | _ :: _ => let '(ev, c) := Client.pop_event c in Ok (Client.Returned ev c)
    | [] => let '(now, c) := Client.instant_now c in
        let elapsed_time := saturating_sub now t0 in
        if rem <=? elapsed_time then Ok (Client.Returned None c)
        else Client.wait_event_timeout_loop c (rem - elapsed_time) now ws
    end).
Proof. intros En. cbn [Client.wait_event_timeout_loop]. by rewrite En, client_handle_frames_wait_same. Qed.

Lemma wait_event_over reads turns : forall self, socket_ok self ->
  (exists ws, Forall (Forall arrival_ok) ws /\
    served_over self (answer <$> wait_event reads turns self)
      (ClientSession.answer <$> Client.wait_event (core self) ws)) \/
  cut_short reads self (answer <$> wait_event reads turns self).
Proof.
  induction turns as [|turns IH]; intros self Hs; destruct (next_timer_timeout (core self)) as [t c1] eqn:En.
  { left. exists []. split; [done|]. cbn [wait_event Client.wait_event]. rewrite En.
    exists (socket_rx self), (os self). split; [by apply leads_self|done]. }
  rewrite (wait_event_turn reads turns self t c1 En).
  destruct (client_turn reads t (with_core c1 self) Hs)
    as [(fs & Hfs & [(e & Hr & Hl)|(c & rx & k & Hld & Hr & Hl)])|Hcut]; [| |right;
      apply (cut_short_fmap handle_frame transmit reads (with_core c1 self)), Hcut];
    rewrite Hr; cbn [core with_core] in Hl.
  - left. exists [fs]. split; [by constructor|]. rewrite (list_wait_event_turn _ fs [] t c1 En), Hl.
    by apply (stuck_over self).
  - unfold pop_event. cbn [core]. destruct (events c) as [|ev evs] eqn:Ee.
    + destruct (IH (mkOver c rx k) (proj1 Hld)) as [(ws & Hws & Ho)|Hcut];
        [left; exists (fs :: ws); split; [by constructor|]|right].
      * rewrite (list_wait_event_turn _ fs ws t c1 En), Hl. unfold Client.pop_event. rewrite Ee.
        by apply (served_over_later _ _ self c rx k Hld).
      * unfold Client.pop_event. rewrite Ee. by apply (cut_short_later _ _ socket_wf _ self c rx k Hld).
    + left. exists [fs]. split; [by constructor|]. rewrite (list_wait_event_turn _ fs [] t c1 En), Hl.
      apply (served_over_later _ _ self c rx k Hld). pose proof (popped_over (mkOver c rx k) (proj1 Hld)) as Hp.
      unfold pop_event, Client.pop_event in *. cbn [core] in *. by rewrite Ee in *.
Qed.

Lemma wait_timeout_over reads turns : forall self rem t0, socket_ok self ->
  (exists ws, Forall (Forall arrival_ok) ws /\
    served_over self (answer <$> wait_event_timeout_loop reads turns self rem t0)
      (ClientSession.answer <$> Client.wait_event_timeout_loop (core self) rem t0 ws)) \/
  cut_short reads self (answer <$> wait_event_timeout_loop reads turns self rem t0).
Proof.
  induction turns as [|turns IH]; intros self rem t0 Hs; destruct (next_timer_timeout (core self)) as [t c1] eqn:En.
  { left. exists []. split; [done|]. cbn [wait_event_timeout_loop Client.wait_event_timeout_loop]. rewrite En.
    exists (socket_rx self), (os self). split; [by apply leads_self|done]. }
  rewrite (wait_timeout_turn reads turns self rem t0 t c1 En).
  destruct (client_turn reads (Some (match t with Some t => Z.min rem t | None => rem end)) (with_core c1 self) Hs)
    as [(fs & Hfs & [(e & Hr & Hl)|(c & rx & k & Hld & Hr & Hl)])|Hcut]; [| |right;
      apply (cut_short_fmap handle_frame transmit reads (with_core c1 self)), Hcut];
    rewrite Hr; cbn [core with_core] in Hl.
  - left. exists [fs]. split; [by constructor|]. rewrite (list_wait_timeout_turn _ fs [] rem t0 t c1 En), Hl.
    by apply (stuck_over self).
  - unfold instant_now. cbn [core]. destruct (events c) as [|ev evs] eqn:Ee.
    + destruct (Client.instant_now c) as [now c2] eqn:Ei. cbv zeta. destruct (rem <=? saturating_sub now t0) eqn:Et.
      * left. exists [fs]. split; [by constructor|].
        rewrite (list_wait_timeout_turn _ fs [] rem t0 t c1 En), Hl, Ee, Ei. cbv zeta. rewrite Et. by exists rx, k.
      * destruct (IH (with_core c2 (mkOver c rx k)) (rem - saturating_sub now t0) now (proj1 Hld))
          as [(ws & Hws & Ho)|Hcut]; [left; exists (fs :: ws); split; [by constructor|]|right].
        -- rewrite (list_wait_timeout_turn _ fs ws rem t0 t c1 En), Hl, Ee, Ei. cbv zeta. rewrite Et.
           by apply (served_over_later _ _ self c2 rx k Hld).
        -- by apply (cut_short_later _ _ socket_wf _ self c2 rx k Hld).
    + left. exists [fs]. split; [by constructor|]. rewrite (list_wait_timeout_turn _ fs [] rem t0 t c1 En), Hl, Ee.
      apply (served_over_later _ _ self c rx k Hld). pose proof (popped_over (mkOver c rx k) (proj1 Hld)) as Hp.
      unfold pop_event in *. cbn [core] in *. by destruct (Client.pop_event c).
Qed.

(** ** Requests over a socket *)

(** The list of frames depends on the system, but for every behaviour of it there is one. *)
Lemma socket_serve_list reads self r : socket_ok self -> socket_typed r ->
  (exists q, request_typed q /\ served_over self (socket_serve reads self r) (serve (core self) q)) \/
  (reads_socket r = true /\ cut_short reads self (socket_serve reads self r)).
Proof.
  intros Hs Ht. destruct r as [|turns|timeout turns|p m|p m| |].
  - destruct (poll_over reads self Hs) as [(fs & Hfs & Ho)|Hcut]; [left; by exists (RPoll fs)|by right].
  - destruct (wait_event_over reads turns self Hs) as [(ws & Hws & Ho)|Hcut]; [left; by exists (RWait ws)|by right].
  - cbn [socket_serve]. unfold wait_event_timeout. destruct (events (core self)) as [|ev evs] eqn:Ee.
    + unfold instant_now. destruct (Client.instant_now (core self)) as [t c] eqn:Ei.
      destruct (wait_timeout_over reads turns (with_core c self) timeout t Hs) as [(ws & Hws & Ho)|Hcut];
        [left|by right].
      exists (RWaitTimeout timeout ws). split; [done|]. cbn [serve]. unfold Client.wait_event_timeout.
      by rewrite Ee, Ei.
    + left. exists (RWaitTimeout timeout []). split; [constructor|]. cbn [serve]. unfold Client.wait_event_timeout.
      pose proof (popped_over self Hs) as Hp. rewrite Ee. unfold pop_event in *.
      by destruct (Client.pop_event (core self)).
  - left. exists (RSend p m). split; [done|]. apply quietly_over.
    exact (client_step_over (fun c => Client.send c p m) self Hs).
  - left. exists (REnqueue p m). split; [done|]. apply quietly_over.
    exact (client_step_over (fun c => Client.enqueue c p m) self Hs).
  - left. exists RFlush. split; [done|]. apply quietly_over. exact (client_step_over Client.flush self Hs).
  - left. exists RDisconnect. split; [done|]. apply quietly_over. exact (client_step_over Client.disconnect self Hs).
Qed.

Lemma socket_serve_reachable cfg reads seen self r : valid_config cfg ->
  client_reachable cfg seen (core self) -> socket_ok self -> socket_typed r ->
  (exists evs self' q, socket_serve reads self r = Ok (evs, self') /\
    request_typed q /\ serve (core self) q = Ok (evs, core self') /\
    client_reachable cfg (seen ++ evs) (core self') /\ socket_ok self') \/
  (reads_socket r = true /\ cut_short reads self (socket_serve reads self r)).
Proof.
  intros Hcfg Hr Hs Ht. destruct (socket_serve_list reads self r Hs Ht) as [(q & Hq & rx & k & Hld & Hsv)|Hcut];
    [left|by right].
  destruct (client_reachable_at cfg seen _ Hcfg Hr) as [now Hc].
  destruct (client_serve_ok now seen _ q Hc Hq) as (_ & evs & c' & _ & Hl & _).
  exists evs, (mkOver c' rx k), q. rewrite Hsv, Hl. do 3 (split; [done|]).
  split; [by eapply cr_request|exact (proj1 Hld)].
Qed.

Lemma socket_connect_reachable cfg server_addr w k : valid_config cfg -> world_ok w ->
  exists r k', connect_with_config server_addr cfg w k = Ok (r, k') /\
    match r with
    | IoOk self => client_reachable cfg [] (core self) /\ socket_ok self
    | IoErr e => (Socket.new_connected (V4 [0; 0; 0; 0] 0) server_addr FRAME_SIZE_MAX k).1 = IoErr e
    end.
Proof.
  intros Hcfg Hw. destruct (connect_returns cfg w Hcfg Hw) as (c & Hc). unfold connect_with_config.
  rewrite (vc_valid _ Hcfg). cbn [mbind outcome_bind].
  pose proof (Socket.new_connected_ok (V4 [0; 0; 0; 0] 0) server_addr FRAME_SIZE_MAX k ltac:(done)) as Hrx.
  destruct (Socket.new_connected _ _ _ k) as [[[tx rx]|e] k1]; [|by eexists _, _].
  rewrite Hc. cbn [mbind outcome_bind fst snd] in *. eexists _, _. split; [done|].
  split; [by eapply cr_connect|exact Hrx].
Qed.

End Agreement.

(** ** Floods *)

Section Flood.
Context `{BuildProfile} {K : Type} `{Os K}.

(** A system that never runs out of datagrams, all too short to be frames. *)
Record flooding (P : K -> Prop) : Prop := {
  flood_recv n k : P k -> 0 <= n -> exists f k', udp_recv n k = (IoOk f, k') /\ P k' /\ zlen f <= n /\
    verify_minimum_size f = false;
  flood_modify k : P k -> exists k', poller_modify k = (IoOk (), k') /\ P k';
  flood_wait t k : P k -> exists n k', poller_wait t k = (IoOk n, k') /\ 0 < n /\ P k';
}.

Context (P : K -> Prop) (Hflood : flooding P).

Lemma ignored c f : verify_minimum_size f = false -> handle_frame c f = Ok c.
Proof. intros Hf. unfold handle_frame. by rewrite Hf. Qed.

Lemma transmit_nothing c (k : K) : transmit c c k = k.
Proof. unfold transmit. by rewrite drop_all. Qed.

Lemma ignored_step c f (rx : Socket.ConnectedSocketRx) k : verify_minimum_size f = false ->
  step_core transmit (fun c => handle_frame c f) (mkOver c rx k) = Ok (mkOver c rx k).
Proof. intros Hf. unfold step_core. cbn [core]. rewrite (ignored c f Hf). cbn. by rewrite transmit_nothing. Qed.

Lemma flood_read rx k : P k -> exists f rx' k', Socket.c_try_read_frame rx k = Ok (IoOk (Some f), rx', k') /\ P k' /\
  verify_minimum_size f = false.
Proof.
  intros Hk. unfold Socket.c_try_read_frame.
  destruct (flood_recv P Hflood (zlen (Socket.c_recv_buffer rx)) k Hk) as (f & k' & -> & Hk' & Hl & Hf);
    [unfold zlen; lia|].
  destruct (Socket.write_front_slice f _ Hl) as [_ ->]. by eexists _, _, _.
Qed.

Lemma flood_loop reads : forall c rx k, P k -> handle_frames reads (mkOver c rx k) = Fault OutOfFuel.
Proof.
  induction reads as [|reads IH]; intros c rx k Hk; [done|]. unfold handle_frames in *.
  cbn [read_loop socket_rx os core].
  destruct (flood_read rx k Hk) as (f & rx' & k' & Hr & Hk' & Hf). cbn [try_read client_source]. rewrite Hr.
  cbn [mbind outcome_bind]. rewrite (ignored_step c f rx' k' Hf). by apply IH.
Qed.

Lemma flood_loop_wait reads timeout c rx k : P k ->
  handle_frames_wait reads timeout (mkOver c rx k) = Fault OutOfFuel.
Proof.
  intros Hk. unfold handle_frames_wait, read_loop_wait. cbn [wait_read client_source socket_rx os core].
  unfold Socket.c_wait_for_frame.
  destruct (flood_modify P Hflood k Hk) as (k1 & -> & Hk1).
  destruct (flood_wait P Hflood timeout k1 Hk1) as (n & k2 & -> & Hn & Hk2). rewrite (proj2 (Z.ltb_lt _ _) Hn).
  destruct (flood_read (Socket.mkConnectedSocketRx (Socket.c_local_addr rx) (Socket.c_peer_addr rx) n
    (Socket.c_recv_buffer rx)) k2 Hk2) as (f & rx' & k' & Hr & Hk' & Hf).
  cbn [Socket.c_local_addr Socket.c_peer_addr Socket.c_recv_buffer] in *. rewrite Hr.
  cbn [mbind outcome_bind]. rewrite (ignored_step c f rx' k' Hf). by apply (flood_loop reads).
Qed.

(** C40: The reading loops have no bound of their own: while no event is queued and the socket
    keeps yielding datagrams that are dropped as too short to be frames, no number of reads is
    enough for [poll_event], which is meant to be non-blocking, nor for [wait_event_timeout],
    whatever its timeout; neither returns and no timer is handled. *)
Theorem flood_starves self reads turns timeout : P (os self) -> events (core self) = [] ->
  poll_event reads self = Fault OutOfFuel /\
  wait_event_timeout reads (S turns) self timeout = Fault OutOfFuel.
Proof.
  destruct self as [c rx k]. cbn [os core]. intros Hk He. split.
  - unfold poll_event. cbn [core]. by rewrite He, flood_loop.
  - unfold wait_event_timeout, instant_now. cbn [core]. rewrite He. destruct (Client.instant_now c) as [t c1].
    unfold with_core. cbn [socket_rx os]. destruct (next_timer_timeout c1) as [tt c2] eqn:En.
    rewrite (wait_timeout_turn reads turns (mkOver c1 rx k) timeout t tt c2 En). unfold next_turn, with_core.
    cbn [socket_rx os].
    pose proof (flood_loop_wait reads) as Hw. unfold handle_frames_wait in Hw. by rewrite Hw.
Qed.
End Flood.

(** ** The theorems at work: a debug build over a simulated system *)

#[local] Instance client_socket_debug : BuildProfile := true.

(** The server's answers arrive during the first wait, and a frame with a packet during the
    second. *)
Definition sim_start : SimOs.Sim :=
  SimOs.mkSim [] [map (fun f => (f, SimOs.any_addr)) example_acks; [(example_segment, SimOs.any_addr)]] [].

Fixpoint sim_run (self : Over ClientCore Socket.ConnectedSocketRx SimOs.Sim) (seen : list Event)
  (rs : list socket_request)
  : option (list Event * Over ClientCore Socket.ConnectedSocketRx SimOs.Sim) :=
  match rs with
  | [] => Some (seen, self)
  | r :: rs =>
      match socket_serve 17 self r with
      | Ok (evs, self) => sim_run self (seen ++ evs) rs
      | Fault _ => None
      end
  end.

Definition sim_connected (k : SimOs.Sim) (rs : list socket_request)
  : option (list Event * Over ClientCore Socket.ConnectedSocketRx SimOs.Sim) :=
  match connect SimOs.any_addr (example_world 0) k with
  | Ok (IoOk self, _) => sim_run self [] rs
  | _ => None
  end.

Example sim_session :
  (fun x => (x.1, length (SimOs.outbox (os x.2)))) <$>
    sim_connected sim_start [SPoll; SWait 3; SWaitTimeout 1000000 2; SPoll; SSend [5] SendReliable] =
  Some ([Connect; Receive [4]; Receive [1; 2; 3]], 4%nat).
Proof. vm_compute. reflexivity. Qed.

Lemma sim_waits : match sim_connected sim_start [SWait 3] with Some _ => true | None => false end = true.
Proof. vm_compute. reflexivity. Qed.


(** A system that yields empty datagrams forever. *)
#[local] Instance flood_os : Os () := {|
  udp_bind _ k := (IoOk (), k);
  udp_set_nonblocking k := (IoOk (), k);
  udp_connect _ k := (IoOk (), k);
  udp_local_addr k := (IoOk SimOs.any_addr, k);
  udp_peer_addr k := (IoOk SimOs.any_addr, k);
  udp_send_to f _ k := (IoOk (zlen f), k);
  udp_send f k := (IoOk (zlen f), k);
  udp_recv_from _ k := (IoOk ([], SimOs.any_addr), k);
  udp_recv _ k := (IoOk [], k);
  poller_new k := (IoOk (), k);
  poller_add k := (IoOk (), k);
  poller_modify k := (IoOk (), k);
  poller_wait _ k := (IoOk 1, k);
|}.

Lemma flood_starves_witness : exists self : Over ClientCore Socket.ConnectedSocketRx (), events (core self) = [] /\
  poll_event 1000 self = Fault OutOfFuel /\ wait_event_timeout 1000 1 self 5 = Fault OutOfFuel.
Proof.
  assert (Hc : match Client.connect (example_world 0) with Ok c => events c = [] | Fault _ => False end)
    by (vm_compute; reflexivity).
  destruct (Client.connect (example_world 0)) as [c|]; [|destruct Hc].
  exists (mkOver c (Socket.mkConnectedSocketRx SimOs.any_addr SimOs.any_addr 0 []) ()). split; [exact Hc|].
  apply (flood_starves (fun _ => True)); [|done|exact Hc]. split.
  - intros n k _ H0. exists [], (). split; [by destruct k|]. split; [done|]. split; [exact H0|by vm_compute].
  - intros k _. by exists k.
  - intros t k _. by exists 1, k.
Defined.
End ClientSocket.
