(* ===== verification/ServerSocket.v ===== *)
(** * The server over a socket ([server/mod.rs], [server/peer.rs], [socket.rs])

    [Server] owns a [ServerCore] and a socket, to which its peers hold references as well.
    Here its methods and those of the application's handles are run over the operating
    system; [Server.v] and [Peer.v] run them over lists of frames with their senders.
    [server_serve_list] shows that the two agree, as [ClientSocket] does for clients. *)

From S2P Require Import Prelude Word FragmentTxFacts EndpointMachine HandshakeMac World Endpoint Peer.
From S2P Require Import Server ServerFacts ServerSession ServerClaims.
From S2P Require Import Outbox Socket SocketLoop SimOs.
From stdpp Require Import gmap.

#[local] Open Scope Z_scope.

Import ServerEvent Server.

Module ServerSocket.
Section Server.
Context `{BuildProfile} {Sip : Type} `{SipHasher Sip} {K : Type} `{Os K}.

#[local] Abbreviation Server := (Over ServerCore Socket.SocketRx K).

Definition with_core (s : ServerCore) (self : Server) : Server := mkOver s (socket_rx self) (os self).

(** What was sent between two states of the core, handed to the system. *)
Definition transmit (before after : ServerCore) (k : K) : K :=
  foldl (fun k x => Socket.send_to x.2 x.1 k) k
    (drop (length (Peer.socket_tx (shared before))) (Peer.socket_tx (shared after))).

(** ** Binding *)

Definition bind_with_config (bind_addr : SocketAddr) (config : Config) (world : World) (k : K)
  : outcome (io_result Server * K) :=
  _ ← validate config;
  match Socket.new bind_addr FRAME_SIZE_MAX k with
  | (IoErr e, k) => Ok (IoErr e, k)
  | (IoOk (_, rx), k) =>
      s ← Server.bind_with_config config world;
      Ok (IoOk (mkOver s rx k), k)
  end.

Definition bind (bind_addr : SocketAddr) (world : World) (k : K) : outcome (io_result Server * K) :=
  bind_with_config bind_addr config_default world k.

(** ** Reading *)

Definition handle_frame_from (s : ServerCore) (x : list Z * SocketAddr) : outcome ServerCore :=
  handle_frame s x.1 x.2.

Definition handle_frames (reads : nat) (self : Server) : outcome Server :=
  read_loop handle_frame_from transmit reads self.

Definition handle_frames_wait (reads : nat) (wait_timeout : option Z) (self : Server) : outcome Server :=
  read_loop_wait handle_frame_from transmit reads wait_timeout self.

Definition handle_timeouts (self : Server) : outcome Server := step_core transmit Server.handle_timeouts self.

Definition pop_event (self : Server) : option Event * Server :=
  let '(ev, s) := Server.pop_event (core self) in (ev, with_core s self).

Definition poll_event (reads : nat) (self : Server) : outcome (option Event * Server) :=
  self ← (match Peer.events (shared (core self)) with
          | [] => self ← handle_frames reads self; handle_timeouts self
          | _ => Ok self
          end);
  Ok (pop_event self).

Inductive waiting : Type :=
| Returned (ev : option Event) (self : Server)
| Blocked (timeout : option Z) (self : Server).

Fixpoint wait_event (reads turns : nat) (self : Server) : outcome waiting :=
  let wait_timeout := next_timer_timeout (core self) in
  match turns with
  | O => Ok (Blocked wait_timeout self)
  | S turns =>
      self ← handle_frames_wait reads wait_timeout self;
      self ← handle_timeouts self;
      match pop_event self with
      | (Some event, self) => Ok (Returned (Some event) self)
      | (None, self) => wait_event reads turns self
      end
  end.

Definition instant_now (self : Server) : Z * Server :=
  let '(t, s) := Server.instant_now (core self) in (t, with_core s self).

Fixpoint wait_event_timeout_loop (reads turns : nat) (self : Server) (remaining_timeout wait_begin : Z)
  : outcome waiting :=
  let wait_timeout := match next_timer_timeout (core self) with
                      | Some timer_timeout => Z.min remaining_timeout timer_timeout
                      | None => remaining_timeout
                      end in
  match turns with
  | O => Ok (Blocked (Some wait_timeout) self)
  | S turns =>
      self ← handle_frames_wait reads (Some wait_timeout) self;
      self ← handle_timeouts self;
      match Peer.events (shared (core self)) with
      | _ :: _ => let '(ev, self) := pop_event self in Ok (Returned ev self)
      | [] =>
          let '(now, self) := instant_now self in
          let elapsed_time := saturating_sub now wait_begin in
          if remaining_timeout <=? elapsed_time then Ok (Returned None self)
          else wait_event_timeout_loop reads turns self (remaining_timeout - elapsed_time) now
      end
  end.

Definition wait_event_timeout (reads turns : nat) (self : Server) (timeout : Z) : outcome waiting :=
  match Peer.events (shared (core self)) with
  | [] =>
      let '(wait_begin, self) := instant_now self in
      wait_event_timeout_loop reads turns self timeout wait_begin
  | _ :: _ => let '(ev, self) := pop_event self in Ok (Returned ev self)
  end.

Definition local_addr (self : Server) : SocketAddr := Socket.local_addr (socket_rx self).

Definition peer_count (self : Server) : Z := Server.peer_count (core self).

(** A method of a handle: what the peer sends goes to the server's socket. *)
Definition with_handle (self : Server) (f : Peer.Shared -> outcome Peer.Shared) : outcome Server :=
  step_core transmit (fun s => Server.with_handle s f) self.

(** ** Requests *)

Inductive socket_request : Type :=
| SPoll
| SWait (turns : nat)
| SWaitTimeout (timeout : Z) (turns : nat)
| SSend (r : PeerRef) (packet : list Z) (mode : SendMode)
| SEnqueue (r : PeerRef) (packet : list Z) (mode : SendMode)
| SFlush (r : PeerRef)
| SDisconnect (r : PeerRef)
| SSetData (r : PeerRef) (data : option Z)
| SClone (r : PeerRef)
| SDrop (r : PeerRef).

Definition answer (w : waiting) : list Event * Server :=
  match w with
  | Returned ev self => (option_list ev, self)
  | Blocked _ self => ([], self)
  end.

Definition socket_serve (reads : nat) (self : Server) (q : socket_request) : outcome (list Event * Server) :=
  match q with
  | SPoll => '(ev, self) ← poll_event reads self; Ok (option_list ev, self)
  | SWait turns => answer <$> wait_event reads turns self
  | SWaitTimeout timeout turns => answer <$> wait_event_timeout reads turns self timeout
  | SSend r p m => quietly (with_handle self (Peer.send r p m))
  | SEnqueue r p m => quietly (with_handle self (Peer.enqueue r p m))
  | SFlush r => quietly (with_handle self (Peer.flush r))
  | SDisconnect r => quietly (with_handle self (Peer.disconnect r))
  | SSetData r d => quietly (with_handle self (Peer.set_data r d))
  | SClone r => Ok ([], with_core (clone_handle (core self) r) self)
  | SDrop r => Ok ([], with_core (drop_handle (core self) r) self)
  end.

(** The calls that read the socket. *)
Definition reads_socket (q : socket_request) : bool :=
  match q with SPoll | SWait _ | SWaitTimeout _ _ => true | _ => false end.

(** Methods are called through a handle the application holds; packets are octets, not empty
    in a debug build, and timeouts 16-bit integers. *)
Definition socket_allowed (self : Server) (q : socket_request) : Prop :=
  match q with
  | SSend r p m | SEnqueue r p m => r ∈ held (core self) /\ packet_ok p /\ mode_ok m
  | SFlush r | SDisconnect r | SSetData r _ | SClone r | SDrop r => r ∈ held (core self)
  | _ => True
  end.
End Server.

(** ** What the server and its peers send reaches the system *)

(** What the core has sent, as the system is asked to send it. *)
Definition sent (s : ServerCore) : list (option SocketAddr * list Z) :=
  (fun x => (Some x.1, x.2)) <$> Peer.socket_tx (shared s).

Section Tracking.
Context `{BuildProfile} {Sip : Type} `{SipHasher Sip} {K : Type} `{Os K}
  {log : K -> list (option SocketAddr * list Z)} `{!OsLog K log}.
Context (before : list (option SocketAddr * list Z)).

#[local] Abbreviation Server := (Over ServerCore Socket.SocketRx K).
#[local] Abbreviation tracks := (tracks (Rx := Socket.SocketRx) log sent before).
#[local] Abbreviation more f :=
  (forall base s, ServerOutbox.sent_more base s -> holds (ServerOutbox.sent_more base) (f s)).

Lemma server_transmit_log s s' k : log (transmit s s' k) = log k ++ drop (length (sent s)) (sent s').
Proof. unfold transmit, sent. by rewrite Socket.sends_to_log, length_fmap, fmap_drop. Qed.

Lemma server_grows f : more f -> grows sent f.
Proof.
  intros Hf s. specialize (Hf (Peer.socket_tx (shared s)) s (reflexivity _)). destruct (f s) as [s'|]; [|done].
  destruct Hf as [l Hl]. eexists. unfold sent. rewrite Hl, fmap_app. reflexivity.
Qed.

Lemma server_frame_grows x : grows sent (fun s => handle_frame_from s x).
Proof. apply server_grows. intros base s. apply ServerOutbox.server_frame_more. Qed.

Lemma server_step_log f (self : Server) : more f -> tracks self -> holds tracks (step_core transmit f self).
Proof. intros Hf. apply (step_tracks _ _ _ server_transmit_log). by apply server_grows. Qed.

Lemma handle_timeouts_log self : tracks self -> holds tracks (handle_timeouts self).
Proof. apply server_step_log. intros base s. apply ServerOutbox.handle_timeouts_more. Qed.

Lemma server_frames_log reads self : tracks self -> holds tracks (handle_frames reads self).
Proof. apply (read_loop_tracks _ _ _ _ server_transmit_log server_frame_grows). Qed.

Lemma server_frames_wait_log reads t self : tracks self -> holds tracks (handle_frames_wait reads t self).
Proof. apply (read_loop_wait_tracks _ _ _ _ server_transmit_log server_frame_grows). Qed.

Lemma server_pop_log self : tracks self -> tracks (pop_event self).2.
Proof. unfold pop_event, Server.pop_event. by destruct (Peer.events (shared (core self))). Qed.

Lemma server_instant_log self : tracks self -> tracks (instant_now self).2.
Proof. unfold instant_now, Server.instant_now. by destruct (World.elapsed _). Qed.

(** The state of a server that waits, or has its event. *)
Definition waits (w : waiting) : Prop := tracks (answer w).2.

Lemma server_returned_log self : tracks self -> waits (let '(ev, self) := pop_event self in Returned ev self).
Proof. intros Ht. apply server_pop_log in Ht. by destruct (pop_event self). Qed.

Lemma server_poll_log reads self : tracks self -> holds (fun x => tracks x.2) (poll_event reads self).
Proof.
  intros Ht. unfold poll_event. apply (holds_bind tracks); [|intros s Hs; by apply server_pop_log].
  destruct (Peer.events (shared (core self))); [|done].
  apply (holds_bind tracks); [by apply server_frames_log|apply handle_timeouts_log].
Qed.

Lemma server_turn_log reads t self (f : Server -> outcome waiting) : tracks self ->
  (forall self, tracks self -> holds waits (f self)) ->
  holds waits (self ← handle_frames_wait reads t self; self ← handle_timeouts self; f self).
Proof.
  intros Ht Hf. apply (holds_bind tracks); [by apply server_frames_wait_log|]. intros s Hs.
  apply (holds_bind tracks); [by apply handle_timeouts_log|exact Hf].
Qed.

Lemma server_wait_log reads turns : forall self, tracks self -> holds waits (wait_event reads turns self).
Proof.
  induction turns as [|turns IH]; intros self Ht; cbn [wait_event]; [exact Ht|].
  apply server_turn_log; [exact Ht|]. intros s Hs. pose proof (server_pop_log s Hs) as Hp.
  destruct (pop_event s) as [[ev|] s']; [exact Hp|by apply IH].
Qed.

Lemma server_wait_timeout_log reads turns : forall self rem t0, tracks self ->
  holds waits (wait_event_timeout_loop reads turns self rem t0).
Proof.
  induction turns as [|turns IH]; intros self rem t0 Ht; cbn [wait_event_timeout_loop]; [exact Ht|].
  apply server_turn_log; [exact Ht|]. intros s Hs. destruct (Peer.events (shared (core s))) as [|ev evs].
  - pose proof (server_instant_log s Hs) as Hi. destruct (instant_now s) as [now s'].
    case_bool; [exact Hi|by apply IH].
  - pose proof (server_returned_log s Hs) as Hr. by destruct (pop_event s).
Qed.

Lemma handle_log self f :
  (forall base sh, ServerOutbox.shared_more base sh -> holds (ServerOutbox.shared_more base) (f sh)) ->
  tracks self -> holds (fun x : list Event * Server => tracks x.2) (quietly (with_handle self f)).
Proof.
  intros Hf Ht. apply (holds_bind tracks); [|done]. apply server_step_log; [|done]. intros base s Hs.
  apply ServerOutbox.on_shared_more. by apply Hf.
Qed.

Lemma server_serve_tracks reads self q : tracks self -> holds (fun x => tracks x.2) (socket_serve reads self q).
Proof.
  intros Ht. destruct q as [|turns|timeout turns|r p m|r p m|r|r|r d|r|r]; cbn [socket_serve]; try done;
    try (apply handle_log; [|done]; intros base sh).
  - apply (holds_bind (fun x => tracks x.2)); [by apply server_poll_log|]. by intros [ev s].
  - pose proof (server_wait_log reads turns self Ht) as Hw. by destruct (wait_event _ _ _).
  - assert (Hw : holds waits (wait_event_timeout reads turns self timeout)).
    { unfold wait_event_timeout. destruct (Peer.events (shared (core self))).
      - apply server_instant_log in Ht. destruct (instant_now self) as [t s]. by apply server_wait_timeout_log.
      - apply server_returned_log in Ht. by destruct (pop_event self). }
    by destruct (wait_event_timeout _ _ _ _).
  - apply ServerOutbox.peer_send_more.
  - apply ServerOutbox.peer_enqueue_more.
  - apply ServerOutbox.peer_flush_more.
  - apply ServerOutbox.peer_disconnect_more.
  - apply ServerOutbox.peer_data_more.
Qed.
End Tracking.

Lemma bind_log `{BuildProfile} {Sip : Type} `{SipHasher Sip} {K : Type} `{Os K}
  {log : K -> list (option SocketAddr * list Z)} `{!OsLog K log} bind_addr cfg w k self k' :
  bind_with_config bind_addr cfg w k = Ok (IoOk self, k') -> log (os self) = log k ++ sent (core self).
Proof.
  unfold bind_with_config. intros Hc. apply outcome_bind_Ok in Hc as ([] & _ & Hc).
  pose proof (Socket.new_log bind_addr FRAME_SIZE_MAX k) as Hl.
  destruct (Socket.new _ _ k) as [[[tx rx]|e] k1]; [|done].
  apply outcome_bind_Ok in Hc as (s & Hb & [= <- <-]). cbn [os core snd] in *. rewrite Hl.
  unfold Server.bind_with_config in Hb. apply outcome_bind_Ok in Hb as (u & _ & Hb).
  destruct (HandshakeMac.default w) as [h w']. injection Hb as <-. by rewrite app_nil_r.
Qed.

(** ** More reads *)

Section Fuel.
Context `{BuildProfile} {Sip : Type} `{SipHasher Sip} {K : Type} `{Os K}.

#[local] Abbreviation Server := (Over ServerCore Socket.SocketRx K).

Lemma server_poll_settles reads more (self : Server) : (reads <= more)%nat ->
  settles (poll_event reads self) (poll_event more self).
Proof.
  intros Hm. apply settles_bind; [|done]. destruct (Peer.events (shared (core self))); [|done].
  apply settles_bind; [by apply read_loop_settles|done].
Qed.

Lemma server_wait_event_settles reads more turns : (reads <= more)%nat -> forall self : Server,
  settles (wait_event reads turns self) (wait_event more turns self).
Proof.
  intros Hm. induction turns as [|turns IH]; intros self; cbn [wait_event]; [done|].
  apply settles_bind; [by apply read_loop_wait_settles|]. intros s. apply settles_bind; [done|]. intros s1.
  by destruct (pop_event s1) as [[ev|] s2].
Qed.

Lemma server_wait_timeout_settles reads more turns : (reads <= more)%nat -> forall (self : Server) rem t0,
  settles (wait_event_timeout_loop reads turns self rem t0) (wait_event_timeout_loop more turns self rem t0).
Proof.
  intros Hm. induction turns as [|turns IH]; intros self rem t0; cbn [wait_event_timeout_loop]; [done|].
  apply settles_bind; [by apply read_loop_wait_settles|]. intros s. apply settles_bind; [done|]. intros s1.
  destruct (Peer.events (shared (core s1))); [|by destruct (pop_event s1)].
  destruct (instant_now s1) as [now s2]. cbv zeta. by case_bool.
Qed.

(** More reads change nothing of a call that returns. *)
Lemma server_serve_settles reads more (self : Server) q : (reads <= more)%nat ->
  settles (socket_serve reads self q) (socket_serve more self q).
Proof.
  intros Hm. destruct q as [|turns|timeout turns|r p m|r p m|r|r|r d|r|r]; cbn [socket_serve]; try done.
  - apply settles_bind; [by apply server_poll_settles|done].
  - by apply settles_fmap, server_wait_event_settles.
  - apply settles_fmap. unfold wait_event_timeout. destruct (Peer.events (shared (core self))); [|done].
    destruct (instant_now self) as [t s]. by apply server_wait_timeout_settles.
Qed.
End Fuel.

(** ** A call over a socket is a call over lists of frames *)

Section Agreement.
Context `{BuildProfile} {Sip : Type} `{SipHasher Sip} {K : Type} `{Os K} `{!OsOk K}.

#[local] Abbreviation Server := (Over ServerCore Socket.SocketRx K).
#[local] Abbreviation socket_wf := (server_wf FRAME_SIZE_MAX).

#[local] Instance server_frames_source :
  FrameSourceOk K Socket.SocketRx (list Z * SocketAddr) socket_wf (server_frame_wf FRAME_SIZE_MAX).
Proof. by apply server_source_ok. Qed.

Lemma handle_frames_cons s x xs : Server.handle_frames s (x :: xs) =
  (s ← handle_frame_from s x; Server.handle_frames s xs).
Proof. by destruct x. Qed.

#[local] Abbreviation leads := (leads (Core := ServerCore) transmit socket_wf).
#[local] Abbreviation over := (over transmit socket_wf).
#[local] Abbreviation served_over := (served_over transmit socket_wf).
#[local] Abbreviation cut_short := (cut_short handle_frame_from transmit).
#[local] Abbreviation socket_ok := (socket_ok (Core := ServerCore) (K := K) socket_wf).
#[local] Abbreviation next_turn :=
  (next_turn (W := waiting (K := K)) handle_frame_from transmit Server.handle_timeouts).
#[local] Abbreviation next_list_turn :=
  (next_list_turn (W := Server.waiting) Server.handle_frames Server.handle_timeouts).

Lemma server_turn reads timeout self : socket_ok self ->
  (exists fs, Forall arrival_ok fs /\
    ((exists e, (forall f, next_turn reads timeout self f = Fault e) /\
                (forall g, next_list_turn (core self) fs g = Fault e)) \/
     (exists s rx k, leads self rx k /\ (forall f, next_turn reads timeout self f = f (mkOver s rx k)) /\
                (forall g, next_list_turn (core self) fs g = g s)))) \/
  (forall f, cut_short reads self (next_turn reads timeout self f)).
Proof. apply (turn_cases _ _ socket_wf (server_frame_wf FRAME_SIZE_MAX) _ (fun _ => eq_refl) handle_frames_cons). Qed.

Lemma server_popped_over self : socket_ok self ->
  served_over self (Ok (answer (let '(ev, self) := pop_event self in Returned ev self)))
    (Ok (ServerSession.answer (let '(ev, s) := Server.pop_event (core self) in Server.Returned ev s))).
Proof.
  intros Hs. exists (socket_rx self), (os self). split; [by apply leads_self|]. unfold pop_event.
  by destruct (Server.pop_event (core self)).
Qed.

Lemma server_poll_over reads self : socket_ok self ->
  (exists fs, Forall arrival_ok fs /\
    served_over self ('(ev, self) ← poll_event reads self; Ok (option_list ev, self))
      ('(ev, s) ← Server.poll_event (core self) fs; Ok (option_list ev, s))) \/
  cut_short reads self ('(ev, self) ← poll_event reads self; Ok (option_list ev, self)).
Proof.
  intros Hs. unfold poll_event, Server.poll_event.
  destruct (Peer.events (shared (core self))) as [|ev evs] eqn:Ee.
  - destruct (read_loop_over handle_frame_from transmit socket_wf (server_frame_wf FRAME_SIZE_MAX)
      Server.handle_frames (fun _ => eq_refl) handle_frames_cons reads self Hs) as [(fs & Hfs & Ho)|Hcut];
      [left|right; by do 3 apply cut_short_bind].
    exists fs. split; [done|].
    apply (over_step _ _ _ _ _ Server.handle_timeouts) in Ho as (rx & k & Hl & Hr).
    unfold handle_frames, handle_timeouts. rewrite Hr.
    destruct (s ← Server.handle_frames (core self) fs; Server.handle_timeouts s) as [s|e];
      cbn [mbind outcome_bind]; [|by exists rx, k].
    apply (served_over_later _ _ self s rx k Hl). pose proof (server_popped_over (mkOver s rx k) (proj1 Hl)) as Hp.
    unfold pop_event in *. cbn [core] in *. by destruct (Server.pop_event s).
  - left. exists []. split; [done|]. cbn [mbind outcome_bind].
    pose proof (server_popped_over self Hs) as Hp. unfold pop_event in *. by destruct (Server.pop_event (core self)).
Qed.

Lemma server_stuck_over self e : socket_ok self -> served_over self (answer <$> Fault e)
  (ServerSession.answer <$> Fault e).
Proof. intros Hs. exists (socket_rx self), (os self). split; [by apply leads_self|done]. Qed.

(** The loops in terms of their turns. *)
Lemma server_wait_event_turn reads turns self :
  wait_event reads (S turns) self = next_turn reads (next_timer_timeout (core self)) self (fun self =>
    match pop_event self with
    | (Some event, self) => Ok (Returned (Some event) self)
    | (None, self) => wait_event reads turns self
    end).
Proof. done. Qed.

Lemma server_list_wait_event_turn s fs ws :
  Server.wait_event s (fs :: ws) = next_list_turn s fs (fun s =>
    match Server.pop_event s with
    | (Some event, s) => Ok (Server.Returned (Some event) s)
    | (None, s) => Server.wait_event s ws
    end).
Proof. cbn [Server.wait_event]. by rewrite server_handle_frames_wait_same. Qed.

Definition timer_limit (rem : Z) (s : ServerCore) : Z :=
  match next_timer_timeout s with Some t => Z.min rem t | None => rem end.

Lemma server_wait_timeout_turn reads turns self rem t0 :
  wait_event_timeout_loop reads (S turns) self rem t0 =
  next_turn reads (Some (timer_limit rem (core self))) self (fun self =>
    match Peer.events (shared (core self)) with
    | _ :: _ => let '(ev, self) := pop_event self in Ok (Returned ev self)
    | [] => let '(now, self) := instant_now self in
        let elapsed_time := saturating_sub now t0 in
        if rem <=? elapsed_time then Ok (Returned None self)
        else wait_event_timeout_loop reads turns self (rem - elapsed_time) now
    end).
Proof. done. Qed.

Lemma server_list_wait_timeout_turn s fs ws rem t0 :
  Server.wait_event_timeout_loop s rem t0 (fs :: ws) = next_list_turn s fs (fun s =>
    match Peer.events (shared s) with
    | _ :: _ => let '(ev, s) := Server.pop_event s in Ok (Server.Returned ev s)
    | [] => let '(now, s) := Server.instant_now s in
        let elapsed_time := saturating_sub now t0 in
        if rem <=? elapsed_time then Ok (Server.Returned None s)
        else Server.wait_event_timeout_loop s (rem - elapsed_time) now ws
    end).
Proof. cbn [Server.wait_event_timeout_loop]. by rewrite server_handle_frames_wait_same. Qed.

Lemma server_wait_event_over reads turns : forall self, socket_ok self ->
  (exists ws, Forall (Forall arrival_ok) ws /\
    served_over self (answer <$> wait_event reads turns self)
      (ServerSession.answer <$> Server.wait_event (core self) ws)) \/
  cut_short reads self (answer <$> wait_event reads turns self).
Proof.
  induction turns as [|turns IH]; intros self Hs.
  { left. exists []. split; [done|]. destruct self as [s rx k]. exists rx, k. split; [by apply leads_self|done]. }
  rewrite server_wait_event_turn.
  destruct (server_turn reads (next_timer_timeout (core self)) self Hs)
    as [(fs & Hfs & [(e & Hr & Hl)|(s & rx & k & Hld & Hr & Hl)])|Hcut]; [| |right; by apply cut_short_fmap];
    rewrite Hr.
  - left. exists [fs]. split; [by constructor|]. rewrite server_list_wait_event_turn, Hl.
    by apply (server_stuck_over self).
  - unfold pop_event, Server.pop_event. cbn [core]. destruct (Peer.events (shared s)) as [|ev evs] eqn:Ee.
    + destruct (IH (mkOver s rx k) (proj1 Hld)) as [(ws & Hws & Ho)|Hcut];
        [left; exists (fs :: ws); split; [by constructor|]|right].
      * rewrite server_list_wait_event_turn, Hl. unfold Server.pop_event. rewrite Ee.
        by apply (served_over_later _ _ self s rx k Hld).
      * by apply (cut_short_later _ _ socket_wf _ self s rx k Hld).
    + left. exists [fs]. split; [by constructor|]. rewrite server_list_wait_event_turn, Hl.
      apply (served_over_later _ _ self s rx k Hld).
      pose proof (server_popped_over (mkOver s rx k) (proj1 Hld)) as Hp.
      unfold pop_event, Server.pop_event in *. cbn [core] in *. by rewrite Ee in *.
Qed.

Lemma server_wait_timeout_over reads turns : forall self rem t0, socket_ok self ->
  (exists ws, Forall (Forall arrival_ok) ws /\
    served_over self (answer <$> wait_event_timeout_loop reads turns self rem t0)
      (ServerSession.answer <$> Server.wait_event_timeout_loop (core self) rem t0 ws)) \/
  cut_short reads self (answer <$> wait_event_timeout_loop reads turns self rem t0).
Proof.
  induction turns as [|turns IH]; intros self rem t0 Hs.
  { left. exists []. split; [done|]. destruct self as [s rx k]. exists rx, k. split; [by apply leads_self|done]. }
  rewrite server_wait_timeout_turn.
  destruct (server_turn reads (Some (timer_limit rem (core self))) self Hs)
    as [(fs & Hfs & [(e & Hr & Hl)|(s & rx & k & Hld & Hr & Hl)])|Hcut]; [| |right; by apply cut_short_fmap];
    rewrite Hr.
  - left. exists [fs]. split; [by constructor|]. rewrite server_list_wait_timeout_turn, Hl.
    by apply (server_stuck_over self).
  - unfold instant_now. cbn [core]. destruct (Peer.events (shared s)) as [|ev evs] eqn:Ee.
    + destruct (Server.instant_now s) as [now s2] eqn:Ei. cbv zeta.
      destruct (rem <=? saturating_sub now t0) eqn:Et.
      * left. exists [fs]. split; [by constructor|].
        rewrite server_list_wait_timeout_turn, Hl, Ee, Ei. cbv zeta. rewrite Et. by exists rx, k.
      * destruct (IH (with_core s2 (mkOver s rx k)) (rem - saturating_sub now t0) now (proj1 Hld))
          as [(ws & Hws & Ho)|Hcut]; [left; exists (fs :: ws); split; [by constructor|]|right].
        -- rewrite server_list_wait_timeout_turn, Hl, Ee, Ei. cbv zeta. rewrite Et.
           by apply (served_over_later _ _ self s2 rx k Hld).
        -- by apply (cut_short_later _ _ socket_wf _ self s2 rx k Hld).
    + left. exists [fs]. split; [by constructor|]. rewrite server_list_wait_timeout_turn, Hl, Ee.
      apply (served_over_later _ _ self s rx k Hld).
      pose proof (server_popped_over (mkOver s rx k) (proj1 Hld)) as Hp.
      unfold pop_event in *. cbn [core] in *. by destruct (Server.pop_event s).
Qed.

(** ** Requests over a socket *)

Lemma handle_over self f : socket_ok self ->
  served_over self (quietly (with_handle self f)) (s ← Server.with_handle (core self) f; Ok ([] : list Event, s)).
Proof.
  intros Hs. apply quietly_over. exact (step_over transmit socket_wf (fun s => Server.with_handle s f) self Hs).
Qed.

Lemma server_serve_list reads self q : socket_ok self -> socket_allowed self q ->
  (exists q', request_allowed (core self) q' /\ served_over self (socket_serve reads self q) (serve (core self) q'))
    \/
  (reads_socket q = true /\ cut_short reads self (socket_serve reads self q)).
Proof.
  intros Hs Ha. destruct q as [|turns|timeout turns|r p m|r p m|r|r|r d|r|r]; cbn [socket_serve].
  - destruct (server_poll_over reads self Hs) as [(fs & Hfs & Ho)|Hcut]; [left; by exists (RPoll fs)|by right].
  - destruct (server_wait_event_over reads turns self Hs) as [(ws & Hws & Ho)|Hcut];
      [left; by exists (RWait ws)|by right].
  - unfold wait_event_timeout. destruct (Peer.events (shared (core self))) as [|ev evs] eqn:Ee.
    + unfold instant_now. destruct (Server.instant_now (core self)) as [t s] eqn:Ei.
      destruct (server_wait_timeout_over reads turns (with_core s self) timeout t Hs) as [(ws & Hws & Ho)|Hcut];
        [left|by right].
      exists (RWaitTimeout timeout ws). split; [done|]. cbn [serve]. unfold Server.wait_event_timeout.
      by rewrite Ee, Ei.
    + left. exists (RWaitTimeout timeout []). split; [constructor|]. cbn [serve]. unfold Server.wait_event_timeout.
      pose proof (server_popped_over self Hs) as Hp. rewrite Ee. unfold pop_event in *.
      by destruct (Server.pop_event (core self)).
  - left. exists (RSend r p m). split; [done|]. by apply handle_over.
  - left. exists (REnqueue r p m). split; [done|]. by apply handle_over.
  - left. exists (RFlush r). split; [done|]. by apply handle_over.
  - left. exists (RDisconnect r). split; [done|]. by apply handle_over.
  - left. exists (RSetData r d). split; [done|]. by apply handle_over.
  - left. exists (RClone r). split; [done|]. exists (socket_rx self), (os self). split; [by apply leads_self|done].
  - left. exists (RDrop r). split; [done|]. exists (socket_rx self), (os self). split; [by apply leads_self|done].
Qed.

Lemma server_bind_reachable cfg bind_addr w k : valid_config cfg -> world_ok w ->
  exists r k', bind_with_config bind_addr cfg w k = Ok (r, k') /\
    match r with
    | IoOk self => server_reachable cfg [] (core self) /\ socket_ok self
    | IoErr e => (Socket.new bind_addr FRAME_SIZE_MAX k).1 = IoErr e
    end.
Proof.
  intros Hcfg Hw. destruct (bind_ok cfg w Hcfg Hw) as (s & Hb & _). unfold bind_with_config.
  rewrite (vc_valid _ Hcfg). cbn [mbind outcome_bind].
  pose proof (Socket.new_ok bind_addr FRAME_SIZE_MAX k ltac:(done)) as Hrx.
  destruct (Socket.new _ _ k) as [[[tx rx]|e] k1]; [|by eexists _, _].
  rewrite Hb. cbn [mbind outcome_bind fst snd] in *. eexists _, _. split; [done|].
  split; [by eapply sr_bind|exact Hrx].
Qed.

(** C5: Over any system whose receive calls write octets into the buffer they are given,
    whatever datagrams it delivers, when and from whatever addresses, whatever errors it
    reports and however it wakes the poller, a server is one that an application can have
    over lists of frames.  Binding gives a server in its first state, or the system's error.
    A request made through a handle that the application holds (and not sending an empty
    packet in a debug build: [socket_allowed]), its reading loops followed for [reads] frames
    in a row, does one of two things.  It returns, or still waits on the poller, with the
    events and the state of a call over some lists of frames, and with more reads it would
    have done the same; and what the system is asked to send, and to whom, is what that
    server and its peers send, in the same order.  Or it reads the socket, and after some
    calls the system yields a frame at each of [reads] reads in a row ([busy]): the loop is
    still running.  It never panics. *)
Theorem socket_server_refines {log : K -> list (option SocketAddr * list Z)} `{!OsLog K log} cfg :
  valid_config cfg ->
  (forall bind_addr w k, world_ok w ->
     exists r k', bind_with_config bind_addr cfg w k = Ok (r, k') /\
       match r with
       | IoOk self => server_reachable cfg [] (core self) /\ socket_ok self /\
           log (os self) = log k ++ sent (core self)
       | IoErr e => (Socket.new bind_addr FRAME_SIZE_MAX k).1 = IoErr e
       end) /\
  (forall seen self q reads, server_reachable cfg seen (core self) -> socket_ok self -> socket_allowed self q ->
     (exists evs self' q', (forall more, (reads <= more)%nat -> socket_serve more self q = Ok (evs, self')) /\
        request_allowed (core self) q' /\ serve (core self) q' = Ok (evs, core self') /\
        server_reachable cfg (seen ++ evs) (core self') /\ socket_ok self' /\
        forall before, log (os self) = before ++ sent (core self) -> log (os self') = before ++ sent (core self')) \/
     (socket_serve reads self q = Fault OutOfFuel /\ reads_socket q = true /\
        busy handle_frame_from transmit reads (socket_rx self) (os self))).
Proof.
  intros Hcfg. split.
  - intros a w k Hw. destruct (server_bind_reachable cfg a w k Hcfg Hw) as (r & k' & Hb & Hr).
    exists r, k'. split; [done|]. destruct r as [self|e]; [|done]. destruct Hr as [Hr Hs].
    split; [done|]. split; [done|]. by eapply bind_log.
  - intros seen self q reads Hr Hs Ha.
    destruct (server_serve_list reads self q Hs Ha) as [(q' & Hq & rx & k & Hld & Hsv)|(Hrd & Hf & Hb)];
      [left|by right].
    destruct (server_reachable_at cfg seen _ Hcfg Hr) as [now Hat].
    destruct (server_serve_ok now seen _ q' Hat Hq) as (_ & evs & s' & _ & Hl & _).
    rewrite Hl in Hsv. exists evs, (mkOver s' rx k), q'.
    split; [intros more Hm; by apply (server_serve_settles reads more self q Hm)|].
    do 2 (split; [done|]). split; [by eapply sr_request|]. split; [exact (proj1 Hld)|]. intros before Hlog.
    exact (holds_Ok _ _ _ (server_serve_tracks before reads self q Hlog) Hsv).
Qed.
End Agreement.

(** ** The theorem at work: a debug build over a simulated system *)

#[local] Instance server_socket_debug : BuildProfile := true.
#[local] Existing Instance toy_hash.

(** A client's two requests arrive during two waits. *)
Definition sim_start : SimOs.Sim :=
  SimOs.mkSim [] [[(first_request, stranger_addr)]; [([9; 9], stranger_addr); (second_frame, stranger_addr)]] [].

Fixpoint sim_run (self : Over ServerCore Socket.SocketRx SimOs.Sim) (seen : list Event) (qs : list socket_request)
  : option (list Event * Over ServerCore Socket.SocketRx SimOs.Sim) :=
  match qs with
  | [] => Some (seen, self)
  | q :: qs =>
      match socket_serve 17 self q with
      | Ok (evs, self) => sim_run self (seen ++ evs) qs
      | Fault _ => None
      end
  end.

Definition sim_bound (k : SimOs.Sim) (qs : list socket_request) :=
  match bind SimOs.any_addr (example_world 0) k with
  | Ok (IoOk self, _) => sim_run self [] qs
  | _ => None
  end.

Example sim_admits :
  (fun x => (x.1, peer_count x.2, length (SimOs.outbox (os x.2)))) <$>
    sim_bound sim_start [SPoll; SWait 3; SSend 0%nat [5] SendReliable; SWaitTimeout 1000000 1] =
  Some ([Connect 0%nat], 1, 3%nat).
Proof. vm_compute. reflexivity. Qed.

(** The server just bound answers a request. *)
Definition answers (r : outcome (io_result (Over ServerCore Socket.SocketRx SimOs.Sim) * SimOs.Sim))
  (q : socket_request) : bool :=
  match r with
  | Ok (IoOk self, _) => match socket_serve 17 self q with Ok _ => true | Fault _ => false end
  | _ => false
  end.

Lemma answers_returns r self k q : r = Ok (IoOk self, k) -> answers r q = true ->
  socket_serve 17 self q <> Fault OutOfFuel.
Proof. intros -> Ha Hf. unfold answers in Ha. by rewrite Hf in Ha. Qed.

Lemma server_sim_waits : answers (bind_with_config SimOs.any_addr config_default (example_world 0) sim_start)
  (SWait 3) = true.
Proof. vm_compute. reflexivity. Qed.

Lemma socket_server_refines_witness : exists (self : Over ServerCore Socket.SocketRx SimOs.Sim) evs self' q,
  server_reachable config_default [] (core self) /\
  (forall more, (17 <= more)%nat -> socket_serve more self (SWait 3) = Ok (evs, self')) /\
  serve (core self) q = Ok (evs, core self') /\ server_reachable config_default evs (core self') /\
  SimOs.outbox (os self') = sent (core self').
Proof.
  destruct (socket_server_refines (H := server_socket_debug) (log := SimOs.outbox) config_default
    server_default_valid) as [Hbind Hserve].
  destruct (Hbind SimOs.any_addr (example_world 0) sim_start) as ([self|e] & k & Hb & Hr);
    [by apply example_world_ok| |discriminate Hr].
  destruct Hr as (Hr & Hok & Hlog).
  destruct (Hserve [] self (SWait 3) 17%nat Hr Hok I) as [(evs & self' & q & Hs & _ & Hq & Hr' & _ & Hsent)|[Hf _]].
  - exists self, evs, self', q. do 4 (split; [assumption|]). exact (Hsent [] Hlog).
  - exfalso. exact (answers_returns _ self k (SWait 3) Hb server_sim_waits Hf).
Defined.
End ServerSocket.
