(* ===== verification/Demos.v ===== *)
(** * The example programs ([bin/client.rs], [bin/server.rs])

    A client that sends a packet a second and a server that echoes what it receives.  Both
    run forever: [rounds], [events] and [turns] say how far they are followed.  The console
    is the list of the lines printed. *)

From S2P Require Import Prelude Word FragmentTxFacts EndpointMachine HandshakeMac World Endpoint FrameFacts Peer.
From S2P Require Import Server ServerFacts ServerSession ServerClaims Client ClientFacts ClientSession.
From S2P Require Import Socket SocketLoop SimOs ServerSocket ClientSocket.

Inductive line : Set :=
| LConnect
| LDisconnect
| LReceive (packet_bytes : list Z)
| LTimeout
| LCapacity
| LParameter.

Definition error_line (kind : ErrorKind) : line :=
  match kind with Timeout => LTimeout | CapacityError => LCapacity | ParameterError => LParameter end.

(** [std::time::Duration::from_millis(1000)]. *)
Definition EVENT_TIMEOUT : Z := 1000 * NANOS_PER_MILLI.

(** The address [("127.0.0.1", 8888)]. *)
Definition demo_addr : SocketAddr := V4 [127; 0; 0; 1] 8888.

Module ClientDemo.
Import Client ClientSocket.

Section Main.
Context `{BuildProfile} {K : Type} `{Os K}.
#[local] Abbreviation Client := (Over ClientCore Socket.ConnectedSocketRx K).

Definition config : Config := mkConfig 4000 4000 Endpoint.balance_default.

Definition print_event (event : Event) : line :=
  match event with
  | Connect => LConnect
  | Disconnect => LDisconnect
  | Receive packet_bytes => LReceive packet_bytes
  | Error kind => error_line kind
  end.

(** [while let Some(event) = client.wait_event_timeout(EVENT_TIMEOUT)]; [true] when the loop
    has ended. *)
Fixpoint event_loop (events reads turns : nat) (client : Client) (console : list line)
  : outcome (bool * Client * list line) :=
  match events with
  | O => Ok (false, client, console)
  | S events =>
      w ← wait_event_timeout reads turns client EVENT_TIMEOUT;
      match w with
      | Returned (Some event) client => event_loop events reads turns client (console ++ [print_event event])
      | Returned None client => Ok (true, client, console)
      | Blocked _ client => Ok (false, client, console)
      end
  end.

Fixpoint main_loop (rounds events reads turns : nat) (client : Client) (console : list line)
  : outcome (Client * list line) :=
  match rounds with
  | O => Ok (client, console)
  | S rounds =>
      client ← send client [0; 1; 2] (SendUnreliable 0);
      '(ended, client, console) ← event_loop events reads turns client console;
      if ended : bool then main_loop rounds events reads turns client console else Ok (client, console)
  end.

Definition main (rounds events reads turns : nat) (world : World) (k : K) : outcome (Client * list line) :=
  '(r, _) ← connect_with_config demo_addr config world k;
  match r with
  | IoOk client => main_loop rounds events reads turns client []
  | IoErr _ => Fault Panicked
  end.
End Main.
End ClientDemo.

Module ServerDemo.
Import ServerEvent Server ServerSocket.

Section Main.
Context `{BuildProfile} {Sip : Type} `{SipHasher Sip} {K : Type} `{Os K}.
#[local] Abbreviation Server := (Over ServerCore Socket.SocketRx K).

Definition config : Config := mkConfig 1 4000 Endpoint.balance_default.

(** One event; its handle is dropped at the end of the arm. *)
Definition on_event (event : Event) (server : Server) (console : list line) : outcome (Server * list line) :=
  '(server, printed) ← (match event with
    | Connect _ => Ok (server, LConnect)
    | Disconnect _ => Ok (server, LDisconnect)
    | Receive peer packet_bytes =>
        server ← with_handle server (Peer.send peer packet_bytes (SendUnreliable 0));
        Ok (server, LReceive packet_bytes)
    | Error _ kind => Ok (server, error_line kind)
    end);
  Ok (with_core (drop_handle (core server) (handle event)) server, console ++ [printed]).

Fixpoint event_loop (events reads turns : nat) (server : Server) (console : list line)
  : outcome (bool * Server * list line) :=
  match events with
  | O => Ok (false, server, console)
  | S events =>
      w ← wait_event_timeout reads turns server EVENT_TIMEOUT;
      match w with
      | Returned (Some event) server =>
          '(server, console) ← on_event event server console;
          event_loop events reads turns server console
      | Returned None server => Ok (true, server, console)
      | Blocked _ server => Ok (false, server, console)
      end
  end.

Fixpoint main_loop (rounds events reads turns : nat) (server : Server) (console : list line)
  : outcome (Server * list line) :=
  match rounds with
  | O => Ok (server, console)
  | S rounds =>
      '(ended, server, console) ← event_loop events reads turns server console;
      if ended : bool then main_loop rounds events reads turns server console else Ok (server, console)
  end.

Definition main (rounds events reads turns : nat) (world : World) (k : K) : outcome (Server * list line) :=
  '(r, _) ← bind_with_config demo_addr config world k;
  match r with
  | IoOk server => main_loop rounds events reads turns server []
  | IoErr _ => Fault Panicked
  end.
End Main.
End ServerDemo.

(** ** The client *)

Section Claims.
Context `{BuildProfile} {K : Type} `{Os K} `{!OsOk K}.
Import Client ClientSocket ClientDemo.

#[local] Abbreviation Client := (Over ClientCore Socket.ConnectedSocketRx K).

Lemma demo_client_valid : valid_config config.
Proof. split; by vm_compute. Qed.

(** A client that an application with the example's configuration can have. *)
Definition demo_ok (client : Client) : Prop :=
  (exists seen, client_reachable config seen (core client)) /\ socket_ok (client_wf FRAME_SIZE_MAX) client.

(** A call returns something good, or it is cut short by the bound on its reads. *)
Definition returns {A} (P : A -> Prop) (r : outcome A) : Prop := (exists a, r = Ok a /\ P a) \/ r = Fault OutOfFuel.

Lemma returns_bind {A B} (P : A -> Prop) (Q : B -> Prop) (m : outcome A) (k : A -> outcome B) :
  returns P m -> (forall a, P a -> returns Q (k a)) -> returns Q (m ≫= k).
Proof. intros [(a & -> & Ha)| ->] Hk; [by apply Hk|by right]. Qed.

Lemma returns_Ok {A} (P : A -> Prop) a : P a -> returns P (Ok a).
Proof. intros Ha. left. by exists a. Qed.

Lemma demo_serve reads client r : demo_ok client -> socket_typed r ->
  returns (fun x => demo_ok x.2) (socket_serve reads client r).
Proof.
  intros [[seen Hr] Hs] Ht.
  destruct (socket_serve_reachable config reads seen client r demo_client_valid Hr Hs Ht)
    as [(evs & client' & _ & Hsv & _ & _ & Hr' & Hs')|(_ & Hf & _)]; [left|by right].
  exists (evs, client'). split; [done|]. split; [by eexists|done].
Qed.

Lemma demo_wait reads turns client : demo_ok client ->
  returns (fun w => demo_ok (answer w).2) (wait_event_timeout reads turns client EVENT_TIMEOUT).
Proof.
  intros Hc. destruct (demo_serve reads client (SWaitTimeout EVENT_TIMEOUT turns) Hc I) as [(x & Hsv & Hc')|Hsv];
    cbn [socket_serve] in Hsv; destruct (wait_event_timeout _ _ _ _) as [w|e]; try done.
  - left. exists w. split; [done|]. by injection Hsv as <-.
  - right. by injection Hsv as ->.
Qed.

Lemma demo_send client : demo_ok client -> returns demo_ok (send client [0; 1; 2] (SendUnreliable 0)).
Proof.
  intros Hc. destruct (demo_serve 0 client (SSend [0; 1; 2] (SendUnreliable 0)) Hc) as [(x & Hsv & Hc')|Hsv];
    [split; [split; [by repeat constructor|done]|done]|..]; cbn [socket_serve] in Hsv;
    destruct (send _ _ _) as [c|e]; try done.
  - left. exists c. split; [done|]. by injection Hsv as <-.
  - right. by injection Hsv as ->.
Qed.

Lemma demo_event_loop events reads turns : forall client console, demo_ok client ->
  returns (fun x => demo_ok x.1.2) (event_loop events reads turns client console).
Proof.
  induction events as [|events IH]; intros client console Hc; cbn [event_loop]; [by apply returns_Ok|].
  eapply returns_bind; [by apply demo_wait|]. intros [[ev|] c'|t c'] Hc'; [by apply IH|by apply returns_Ok..].
Qed.

Lemma demo_main_loop rounds events reads turns : forall client console, demo_ok client ->
  returns (fun x => demo_ok x.1) (main_loop rounds events reads turns client console).
Proof.
  induction rounds as [|rounds IH]; intros client console Hc; cbn [main_loop]; [by apply returns_Ok|].
  eapply returns_bind; [by apply demo_send|]. intros c1 Hc1.
  eapply returns_bind; [by apply demo_event_loop|]. intros [[[] c2] console'] Hc2; [by apply IH|by apply returns_Ok].
Qed.

(** The example client panics only when its socket cannot be set up. *)
Lemma demo_client_total rounds events reads turns w k : world_ok w ->
  returns (fun _ => True) (main rounds events reads turns w k) \/
  (exists e, (Socket.new_connected (V4 [0; 0; 0; 0] 0) demo_addr FRAME_SIZE_MAX k).1 = IoErr e /\
     main rounds events reads turns w k = Fault Panicked).
Proof.
  intros Hw. unfold main.
  destruct (socket_connect_reachable config demo_addr w k demo_client_valid Hw) as ([client|e] & k' & -> & Hr);
    cbn [mbind outcome_bind]; [left|right; by exists e].
  destruct Hr as [Hr Hs]. destruct (demo_main_loop rounds events reads turns client []) as [(x & -> & _)| ->].
  - split; [by eexists|exact Hs].
  - by apply returns_Ok.
  - by right.
Qed.
End Claims.

(** ** The server *)

Section Echo.
#[local] Existing Instance toy_hash.

(** A peer connects and sends an empty packet. *)
Definition empty_segment : list Z := seal [6; 1; 0; 0; 0; 0; 7; 0; 0; 0; 0; 0; 0].
Definition echo_start : SimOs.Sim :=
  SimOs.mkSim [] [[(first_request, stranger_addr)]; [(second_frame, stranger_addr)];
    [(empty_segment, stranger_addr)]] [].

Definition echo_run (profile : BuildProfile) : outcome (list line) :=
  snd <$> ServerDemo.main 1 5 17 5 (example_world 0) echo_start.

(** The example server echoes an empty packet in a release build, and panics on it in a
    debug build: any peer can stop it. *)
Lemma echo_empty_panics : echo_run false = Ok [LConnect; LReceive []] /\ echo_run true = Fault Panicked.
Proof. split; vm_compute; reflexivity. Qed.
End Echo.
